(** * litecc: the toy C compiler (Toycc.py) and its MIPS simulator (mips_sim.py)

    A shallow embedding of the two programs of the repository and the
    properties of them that are stated in the specification.

    Conventions of the embedding.
    - Python [str] is [string]; the text handled is ASCII, so that
      [str.isspace], [str.isdigit], [str.isalpha] and the regex classes
      [\w], [\d], [\s] are their ASCII restrictions.
    - Python [int] is [Z]; [&], [|], [^], [>>], [<<] are [Z.land], [Z.lor],
      [Z.lxor], [Z.shiftr], [Z.shiftl] (two's complement on both sides), [//]
      and [%] are [Z.div] and [Z.modulo] (both floor).
    - Python [dict] is [gmap]; [list] is [list].
    - A method that mutates [self] and may raise is a function
      [state -> outcome A * state]: the state that comes with [Raise] is the
      state of the object at the point of the raise. *)

From Stdlib Require Import ZArith String Ascii List Lia.
From stdpp Require Import base option gmap strings list.

Local Open Scope string_scope.
Local Open Scope Z_scope.

(** ** Python exceptions and outcomes *)

Inductive exn : Type :=
| Exception (msg : string)
| KeyError (key : string)
| IndexError
| ValueError
| AttributeError.

Inductive outcome (A : Type) : Type :=
| Ok (a : A)
| Raise (e : exn).
Arguments Ok {A} a.
Arguments Raise {A} e.

(** ** Python string operations (ASCII) *)

Module Py.

Definition isspace (c : ascii) : bool :=
  let n := nat_of_ascii c in
  ((9 <=? n) && (n <=? 13) || (28 <=? n) && (n <=? 32))%nat.

Definition isdigit (c : ascii) : bool :=
  let n := nat_of_ascii c in ((48 <=? n) && (n <=? 57))%nat.

Definition isalpha (c : ascii) : bool :=
  let n := nat_of_ascii c in
  ((65 <=? n) && (n <=? 90) || (97 <=? n) && (n <=? 122))%nat.

Definition isalnum (c : ascii) : bool := isalpha c || isdigit c.

(** the regex class [\w] *)
Definition isword (c : ascii) : bool := isalnum c || Ascii.eqb c "_".

Definition ord (c : ascii) : Z := Z.of_nat (nat_of_ascii c).

Definition len (s : string) : Z := Z.of_nat (String.length s).

Fixpoint lstrip (s : string) : string :=
  match s with
  | String c s' => if isspace c then lstrip s' else s
  | EmptyString => EmptyString
  end.

(** [rstrip] is written by recursion from the left: a suffix made of
    white space only is dropped. *)
Fixpoint rstrip (s : string) : string :=
  match s with
  | String c s' =>
      match rstrip s' with
      | EmptyString => if isspace c then EmptyString else String c EmptyString
      | r => String c r
      end
  | EmptyString => EmptyString
  end.

Definition strip (s : string) : string := rstrip (lstrip s).

Fixpoint startswith (s p : string) : bool :=
  match p, s with
  | EmptyString, _ => true
  | String a p', String b s' => Ascii.eqb a b && startswith s' p'
  | String _ _, EmptyString => false
  end.

Fixpoint last_char (s : string) : option ascii :=
  match s with
  | EmptyString => None
  | String c EmptyString => Some c
  | String _ s' => last_char s'
  end.

(** [s.endswith(c)] for a one-character [c] *)
Definition endswith_char (s : string) (c : ascii) : bool :=
  match last_char s with
  | Some d => Ascii.eqb c d
  | None => false
  end.

(** [s[:-1]] *)
Fixpoint drop_last (s : string) : string :=
  match s with
  | EmptyString => EmptyString
  | String _ EmptyString => EmptyString
  | String c s' => String c (drop_last s')
  end.

(** [c in s] for a character [c] *)
Fixpoint contains (c : ascii) (s : string) : bool :=
  match s with
  | EmptyString => false
  | String d s' => Ascii.eqb c d || contains c s'
  end.

(** [s[:s.index(c)]], for [c in s]; the whole of [s] otherwise *)
Fixpoint before (c : ascii) (s : string) : string :=
  match s with
  | EmptyString => EmptyString
  | String d s' => if Ascii.eqb c d then EmptyString else String d (before c s')
  end.

(** [s[s.index(c)+1:]], for [c in s] *)
Fixpoint after (c : ascii) (s : string) : string :=
  match s with
  | EmptyString => EmptyString
  | String d s' => if Ascii.eqb c d then s' else after c s'
  end.

(** [s.split(c)]: the fields between the occurrences of [c], empty fields
    kept; never the empty list. *)
Fixpoint split_on (c : ascii) (s : string) : list string :=
  match s with
  | EmptyString => [EmptyString]
  | String d s' =>
      if Ascii.eqb c d then EmptyString :: split_on c s'
      else match split_on c s' with
           | w :: ws => String d w :: ws
           | [] => [String d EmptyString]
           end
  end.

(** [s.split()]: the maximal runs of characters that are not white space.
    [cur] is the run being read, in reverse. *)
Fixpoint split_ws_aux (s : string) (cur : string) : list string :=
  match s with
  | EmptyString =>
      match cur with EmptyString => [] | _ => [String.rev cur] end
  | String c s' =>
      if isspace c then
        match cur with
        | EmptyString => split_ws_aux s' EmptyString
        | _ => String.rev cur :: split_ws_aux s' EmptyString
        end
      else split_ws_aux s' (String c cur)
  end.

Definition split_ws (s : string) : list string := split_ws_aux s EmptyString.

(** [sep.join(l)] *)
Fixpoint join (sep : string) (l : list string) : string :=
  match l with
  | [] => EmptyString
  | [x] => x
  | x :: l' => x +:+ sep +:+ join sep l'
  end.

(** [s.replace(a, b)] for a two-character [a = a1 a2] with [a1 <> a2] and a
    one-character [b]: the occurrences are replaced from the left. *)
Fixpoint replace2 (a1 a2 b : ascii) (s : string) : string :=
  match s with
  | String c ((String d s'') as s') =>
      if Ascii.eqb c a1 && Ascii.eqb d a2 then String b (replace2 a1 a2 b s'')
      else String c (replace2 a1 a2 b s')
  | _ => s
  end.

(** the value of a run of decimal digits, most significant first *)
Fixpoint digits_value (acc : Z) (s : string) : Z :=
  match s with
  | EmptyString => acc
  | String c s' => digits_value (10 * acc + (ord c - 48)) s'
  end.

(** digits with single underscores between them, as [int] accepts them;
    [prev] tells whether the previous character was a digit. *)
Fixpoint int_digits (prev : bool) (acc : Z) (s : string) : option Z :=
  match s with
  | EmptyString => if prev then Some acc else None
  | String c s' =>
      if isdigit c then int_digits true (10 * acc + (ord c - 48)) s'
      else if Ascii.eqb c "_" && prev then int_digits false acc s'
      else None
  end.

(** [int(s)] for a string without surrounding white space *)
Definition int (s : string) : outcome Z :=
  match s with
  | String "-" s' =>
      match int_digits false 0 s' with Some n => Ok (- n) | None => Raise ValueError end
  | String "+" s' =>
      match int_digits false 0 s' with Some n => Ok n | None => Raise ValueError end
  | _ =>
      match int_digits false 0 s with Some n => Ok n | None => Raise ValueError end
  end.

(** [str(n)] for [n : int] *)
Fixpoint digits_of (fuel : nat) (n : Z) (acc : string) : string :=
  match fuel with
  | O => acc
  | S fuel' =>
      let acc' := String (ascii_of_nat (Z.to_nat (48 + n mod 10))) acc in
      if n <? 10 then acc' else digits_of fuel' (n / 10) acc'
  end.

Definition str_nonneg (n : Z) : string :=
  digits_of (S (Z.to_nat (Z.log2 n))) n EmptyString.

Definition str (n : Z) : string :=
  if n <? 0 then String "-" (str_nonneg (- n)) else str_nonneg n.

(** [l[i]], a negative [i] counting from the end *)
Definition index {A : Type} (l : list A) (i : Z) : outcome A :=
  let n := Z.of_nat (length l) in
  let j := if i <? 0 then n + i else i in
  if (0 <=? j) && (j <? n) then
    match l !! Z.to_nat j with Some a => Ok a | None => Raise IndexError end
  else Raise IndexError.

(** [chr(n)] as a code point *)
Definition chr (n : Z) : outcome Z :=
  if (0 <=? n) && (n <? 0x110000) then Ok n else Raise ValueError.

Definition codes (s : string) : list Z := ord <$> list_ascii_of_string s.

End Py.

(** * The simulator: mips_sim.py *)

Module Sim.

(** ** State of a [MIPSInterpreter]

    [lo] and [hi] are attributes that exist only once a [div] has been
    executed ([getattr(self, 'lo', 0)]). [stdout] is the text printed so far,
    as code points. *)

Record sim : Type := mkSim {
  regs : list Z;
  memory : gmap Z Z;
  data_strings : gmap string string;
  labels : gmap string Z;
  pc : Z;
  instructions : list string;
  running : bool;
  lo : option Z;
  hi : option Z;
  stdout : list Z
}.

Definition with_regs (r : list Z) (st : sim) : sim :=
  mkSim r (memory st) (data_strings st) (labels st) (pc st) (instructions st)
        (running st) (lo st) (hi st) (stdout st).
Definition with_memory (m : gmap Z Z) (st : sim) : sim :=
  mkSim (regs st) m (data_strings st) (labels st) (pc st) (instructions st)
        (running st) (lo st) (hi st) (stdout st).
Definition with_data_strings (d : gmap string string) (st : sim) : sim :=
  mkSim (regs st) (memory st) d (labels st) (pc st) (instructions st)
        (running st) (lo st) (hi st) (stdout st).
Definition with_labels (l : gmap string Z) (st : sim) : sim :=
  mkSim (regs st) (memory st) (data_strings st) l (pc st) (instructions st)
        (running st) (lo st) (hi st) (stdout st).
Definition with_pc (p : Z) (st : sim) : sim :=
  mkSim (regs st) (memory st) (data_strings st) (labels st) p (instructions st)
        (running st) (lo st) (hi st) (stdout st).
Definition with_instructions (i : list string) (st : sim) : sim :=
  mkSim (regs st) (memory st) (data_strings st) (labels st) (pc st) i
        (running st) (lo st) (hi st) (stdout st).
Definition with_running (b : bool) (st : sim) : sim :=
  mkSim (regs st) (memory st) (data_strings st) (labels st) (pc st) (instructions st)
        b (lo st) (hi st) (stdout st).
Definition with_lo_hi (l h : Z) (st : sim) : sim :=
  mkSim (regs st) (memory st) (data_strings st) (labels st) (pc st) (instructions st)
        (running st) (Some l) (Some h) (stdout st).
Definition with_stdout (o : list Z) (st : sim) : sim :=
  mkSim (regs st) (memory st) (data_strings st) (labels st) (pc st) (instructions st)
        (running st) (lo st) (hi st) o.

Definition reg_names : gmap string nat :=
  list_to_map
    [("$zero", 0%nat); ("$at", 1%nat);
     ("$v0", 2%nat); ("$v1", 3%nat);
     ("$a0", 4%nat); ("$a1", 5%nat); ("$a2", 6%nat); ("$a3", 7%nat);
     ("$t0", 8%nat); ("$t1", 9%nat); ("$t2", 10%nat); ("$t3", 11%nat);
     ("$t4", 12%nat); ("$t5", 13%nat); ("$t6", 14%nat); ("$t7", 15%nat);
     ("$s0", 16%nat); ("$s1", 17%nat); ("$s2", 18%nat); ("$s3", 19%nat);
     ("$s4", 20%nat); ("$s5", 21%nat); ("$s6", 22%nat); ("$s7", 23%nat);
     ("$t8", 24%nat); ("$t9", 25%nat);
     ("$k0", 26%nat); ("$k1", 27%nat);
     ("$gp", 28%nat); ("$sp", 29%nat); ("$fp", 30%nat); ("$ra", 31%nat)].

(** [MIPSInterpreter.__init__] *)
Definition init : sim :=
  mkSim (replicate 32 0) ∅ ∅ ∅ 0 [] true None None [].

(** ** The monad of methods: state and exceptions *)

Definition M (A : Type) : Type := sim -> outcome A * sim.

Definition ret {A : Type} (a : A) : M A := fun st => (Ok a, st).
Definition raise {A : Type} (e : exn) : M A := fun st => (Raise e, st).
Definition bind {A B : Type} (m : M A) (k : A -> M B) : M B :=
  fun st =>
    match m st with
    | (Ok a, st') => k a st'
    | (Raise e, st') => (Raise e, st')
    end.
Definition lift {A : Type} (o : outcome A) : M A := fun st => (o, st).
Definition gets {A : Type} (f : sim -> A) : M A := fun st => (Ok (f st), st).
Definition modify (f : sim -> sim) : M unit := fun st => (Ok tt, f st).

Notation "'do' x <- m ; k" := (bind m (fun x => k))
  (at level 10, x name, m at level 100, k at level 200).
Notation "m ;; k" := (bind m (fun _ => k))
  (at level 100, k at level 200, right associativity).

(** ** Registers and memory *)

Definition get_reg (name : string) : M Z := fun st =>
  match reg_names !! name with
  | Some idx =>
      match idx with
      | O => (Ok 0, st)
      | _ => match regs st !! idx with
             | Some v => (Ok v, st)
             | None => (Raise IndexError, st)
             end
      end
  | None => (Raise (Exception ("Unknown register: " +:+ name)), st)
  end.

Definition set_reg (name : string) (value : Z) : M unit := fun st =>
  match reg_names !! name with
  | Some idx =>
      match idx with
      | O => (Ok tt, st)
      | _ => if (idx <? length (regs st))%nat
             then (Ok tt, with_regs (<[idx := Z.land value 0xFFFFFFFF]> (regs st)) st)
             else (Raise IndexError, st)
      end
  | None => (Ok tt, st)
  end.

(** [range(4)] *)
Definition range4 : list Z := [0; 1; 2; 3].

Definition read_mem_of (mem : gmap Z Z) (addr : Z) : Z :=
  fold_left
    (fun word i => Z.lor word (Z.shiftl (default 0 (mem !! (addr + i))) (i * 8)))
    range4 0.

Definition write_mem_of (mem : gmap Z Z) (addr word : Z) : gmap Z Z :=
  fold_left
    (fun m i => <[addr + i := Z.land (Z.shiftr word (i * 8)) 0xFF]> m)
    range4 mem.

Definition read_mem (addr : Z) : M Z := gets (fun st => read_mem_of (memory st) addr).

Definition write_mem (addr word : Z) : M unit :=
  modify (fun st => with_memory (write_mem_of (memory st) addr word) st).

(** the longest prefix of [s] whose characters satisfy [p], and the rest *)
Fixpoint span (p : ascii -> bool) (s : string) : string * string :=
  match s with
  | String c s' =>
      if p c then let (a, b) := span p s' in (String c a, b)
      else (EmptyString, s)
  | EmptyString => (EmptyString, EmptyString)
  end.

(** [re.match(r'(-?\d+)\((\$\w+)\)', operand)]: the match is anchored at the
    start only; each greedy run is followed by a character outside its
    class, so no backtracking changes the groups. *)
Definition parse_offset_reg (operand : string) : outcome (Z * string) :=
  let invalid := Raise (Exception ("Invalid offset(reg): " +:+ operand)) in
  let '(neg, s1) :=
    match operand with
    | String "-" r => (true, r)
    | _ => (false, operand)
    end in
  let '(ds, s2) := span Py.isdigit s1 in
  match ds, s2 with
  | String _ _, String "(" (String "$" s3) =>
      let '(w, s4) := span Py.isword s3 in
      match w, s4 with
      | String _ _, String ")" _ =>
          let n := Py.digits_value 0 ds in
          Ok (if neg then - n else n, String "$" w)
      | _, _ => invalid
      end
  | _, _ => invalid
  end.

(** ** [execute] *)

Definition operand (operands : list string) (i : nat) : M string :=
  match operands !! i with
  | Some o => ret o
  | None => raise IndexError
  end.

Definition label_index (name : string) : M Z := fun st =>
  match labels st !! name with
  | Some i => (Ok i, st)
  | None => (Raise (KeyError name), st)
  end.

Definition next : M unit := modify (fun st => with_pc (pc st + 1) st).

Definition signed (val : Z) : Z :=
  if Z.land val 0x80000000 =? 0 then val else val - 0x100000000.

Definition print (text : list Z) : M unit :=
  modify (fun st => with_stdout (stdout st ++ text) st).

(** [for i, char in enumerate(string): self.memory[addr + i] = ord(char)] *)
Fixpoint store_chars (mem : gmap Z Z) (addr : Z) (i : Z) (s : string) : gmap Z Z :=
  match s with
  | EmptyString => mem
  | String c s' => store_chars (<[addr + i := Py.ord c]> mem) addr (i + 1) s'
  end.

(** The loop of [print_str]: [chars] is the text read so far. The map is
    finite, so an unmapped address (read as 0) is met after at most
    [size mem] steps: [None], for a loop not yet ended after [fuel] steps,
    does not occur with the fuel of [cstring] ([scan_cstring_enough]). *)
Fixpoint scan_cstring (fuel : nat) (mem : gmap Z Z) (addr i : Z) (chars : list Z)
  : option (outcome (list Z)) :=
  match fuel with
  | O => None
  | S fuel' =>
      let byte := default 0 (mem !! (addr + i)) in
      if byte =? 0 then Some (Ok chars)
      else match Py.chr byte with
           | Ok c => scan_cstring fuel' mem addr (i + 1) (chars ++ [c])
           | Raise e => Some (Raise e)
           end
  end.

Definition cstring (mem : gmap Z Z) (addr : Z) : outcome (list Z) :=
  default (Ok []) (scan_cstring (S (size mem)) mem addr 0 []).

(** the opcode and the operands of an instruction; [None] when the text
    holds no word *)
Definition decode (inst : string) : option (string * list string) :=
  let inst := if Py.contains "#" inst then Py.before "#" inst else inst in
  let inst := Py.strip inst in
  match Py.split_ws inst with
  | [] => None
  | op :: parts =>
      let operands := flat_map (Py.split_on ",") parts in
      Some (op, Py.strip <$> filter (fun o => Py.strip o <> EmptyString) operands)
  end.

Definition exec_op (op : string) (operands : list string) : M unit :=
  if String.eqb op "li" then
    do rd <- operand operands 0;
    do o1 <- operand operands 1;
    do imm <- lift (Py.int o1);
    set_reg rd imm;; next
  else if String.eqb op "la" then
    do label <- operand operands 1;
    do strings <- gets data_strings;
    match strings !! label with
    | Some string =>
        let addr := 0x10000000 + Py.len label in
        do rd <- operand operands 0;
        set_reg rd addr;;
        modify (fun st => with_memory (store_chars (memory st) addr 0 string) st);;
        modify (fun st => with_memory (<[addr + Py.len string := 0]> (memory st)) st);;
        next
    | None => raise (Exception ("Unknown label: " +:+ label))
    end
  else if String.eqb op "move" then
    do rd <- operand operands 0;
    do rs <- operand operands 1;
    do v <- get_reg rs;
    set_reg rd v;; next
  else if String.eqb op "add" then
    do r1 <- operand operands 1; do val1 <- get_reg r1;
    do r2 <- operand operands 2; do val2 <- get_reg r2;
    do rd <- operand operands 0;
    set_reg rd (val1 + val2);; next
  else if String.eqb op "addi" then
    do r1 <- operand operands 1; do val <- get_reg r1;
    do o2 <- operand operands 2; do imm <- lift (Py.int o2);
    do rd <- operand operands 0;
    set_reg rd (val + imm);; next
  else if String.eqb op "sub" then
    do r1 <- operand operands 1; do val1 <- get_reg r1;
    do r2 <- operand operands 2; do val2 <- get_reg r2;
    do rd <- operand operands 0;
    set_reg rd (val1 - val2);; next
  else if String.eqb op "mul" then
    do r1 <- operand operands 1; do val1 <- get_reg r1;
    do r2 <- operand operands 2; do val2 <- get_reg r2;
    do rd <- operand operands 0;
    set_reg rd (val1 * val2);; next
  else if String.eqb op "div" then
    do r0 <- operand operands 0; do val1 <- get_reg r0;
    do r1 <- operand operands 1; do val2 <- get_reg r1;
    if val2 =? 0 then raise (Exception "Division by zero")
    else modify (with_lo_hi (val1 / val2) (val1 mod val2));; next
  else if String.eqb op "mflo" then
    do rd <- operand operands 0;
    do v <- gets (fun st => default 0 (lo st));
    set_reg rd v;; next
  else if String.eqb op "mfhi" then
    do rd <- operand operands 0;
    do v <- gets (fun st => default 0 (hi st));
    set_reg rd v;; next
  else if String.eqb op "slt" then
    do r1 <- operand operands 1; do val1 <- get_reg r1;
    do r2 <- operand operands 2; do val2 <- get_reg r2;
    do rd <- operand operands 0;
    set_reg rd (if signed val1 <? signed val2 then 1 else 0);; next
  else if String.eqb op "sltu" then
    do r1 <- operand operands 1; do val1 <- get_reg r1;
    do r2 <- operand operands 2; do val2 <- get_reg r2;
    do rd <- operand operands 0;
    set_reg rd (if val1 <? val2 then 1 else 0);; next
  else if String.eqb op "and" then
    do r1 <- operand operands 1; do val1 <- get_reg r1;
    do r2 <- operand operands 2; do val2 <- get_reg r2;
    do rd <- operand operands 0;
    set_reg rd (Z.land val1 val2);; next
  else if String.eqb op "andi" then
    do r1 <- operand operands 1; do val <- get_reg r1;
    do o2 <- operand operands 2; do imm <- lift (Py.int o2);
    do rd <- operand operands 0;
    set_reg rd (Z.land val imm);; next
  else if String.eqb op "or" then
    do r1 <- operand operands 1; do val1 <- get_reg r1;
    do r2 <- operand operands 2; do val2 <- get_reg r2;
    do rd <- operand operands 0;
    set_reg rd (Z.lor val1 val2);; next
  else if String.eqb op "xori" then
    do r1 <- operand operands 1; do val <- get_reg r1;
    do o2 <- operand operands 2; do imm <- lift (Py.int o2);
    do rd <- operand operands 0;
    set_reg rd (Z.lxor val imm);; next
  else if String.eqb op "lw" then
    do o1 <- operand operands 1;
    do p <- lift (parse_offset_reg o1);
    do base <- get_reg (snd p);
    let addr := base + fst p in
    do rd <- operand operands 0;
    do w <- read_mem addr;
    set_reg rd w;; next
  else if String.eqb op "sw" then
    do o1 <- operand operands 1;
    do p <- lift (parse_offset_reg o1);
    do base <- get_reg (snd p);
    let addr := base + fst p in
    do r0 <- operand operands 0; do val <- get_reg r0;
    write_mem addr val;; next
  else if String.eqb op "beq" then
    do r0 <- operand operands 0; do val1 <- get_reg r0;
    do r1 <- operand operands 1; do val2 <- get_reg r1;
    if val1 =? val2 then
      do l <- operand operands 2; do target <- label_index l;
      modify (with_pc target)
    else next
  else if String.eqb op "bne" then
    do r0 <- operand operands 0; do val1 <- get_reg r0;
    do r1 <- operand operands 1; do val2 <- get_reg r1;
    if negb (val1 =? val2) then
      do l <- operand operands 2; do target <- label_index l;
      modify (with_pc target)
    else next
  else if String.eqb op "j" then
    do l <- operand operands 0; do target <- label_index l;
    modify (with_pc target)
  else if String.eqb op "jal" then
    do f <- operand operands 0;
    if String.eqb f "print_int" then
      do val <- get_reg "$a0";
      print (Py.codes (Py.str (signed val)));; next
    else if String.eqb f "print_str" then
      do addr <- get_reg "$a0";
      do mem <- gets memory;
      do chars <- lift (cstring mem addr);
      print chars;; next
    else
      do p <- gets pc;
      set_reg "$ra" (p + 1);;
      do ls <- gets labels;
      match ls !! f with
      | Some target => modify (with_pc target)
      | None => next
      end
  else if String.eqb op "jr" then
    do r <- operand operands 0;
    if String.eqb r "$ra" then
      do target <- get_reg "$ra";
      if target =? 0 then modify (with_running false)
      else modify (with_pc target)
    else next
  else if String.eqb op "nop" then next
  else next.

Definition execute (inst : string) : M unit :=
  match decode inst with
  | None => next
  | Some (op, operands) => exec_op op operands
  end.

(** ** [load_program] *)

(** the local variables of [load_program] *)
Record loader : Type := mkLoader {
  in_data : bool;
  in_text : bool;
  current_string_label : option string;
  current_string : string
}.

Definition nl : string := String (ascii_of_nat 10) EmptyString.
Definition quote : ascii := ascii_of_nat 34.
Definition backslash : ascii := ascii_of_nat 92.

(** [s.replace('\\n', '\n').replace('\\t', '\t')] *)
Definition unescape (s : string) : string :=
  Py.replace2 backslash "t" (ascii_of_nat 9)
    (Py.replace2 backslash "n" (ascii_of_nat 10) s).

(** The match of the data line pattern, anchored at the start: a word
    [(\w+)], a colon, white space, [.asciiz], white space, a double quote and
    the rest of the line; the two groups (the word and the rest), for a line
    without a line feed. *)
Definition match_asciiz (line : string) : option (string * string) :=
  let '(w, s1) := span Py.isword line in
  match w, s1 with
  | String _ _, String ":" s2 =>
      let s3 := Py.lstrip s2 in
      if Py.startswith s3 ".asciiz" then
        match Py.lstrip (string_of_list_ascii (drop 7 (list_ascii_of_string s3))) with
        | String c rest => if Ascii.eqb c quote then Some (w, rest) else None
        | EmptyString => None
        end
      else None
  | _, _ => None
  end.

(** [re.match(r'(\w+):', line)]: the group *)
Definition match_label (line : string) : option string :=
  let '(w, s1) := span Py.isword line in
  match w, s1 with
  | String _ _, String ":" _ => Some w
  | _, _ => None
  end.

Definition flush_string (ld : loader) (st : sim) : sim :=
  match current_string_label ld with
  | Some l => with_data_strings (<[l := current_string ld]> (data_strings st)) st
  | None => st
  end.

(** the body of the loop over the lines *)
Definition load_line (orig_line : string) (s : loader * sim) : loader * sim :=
  let '(ld, st) := s in
  let line := Py.strip orig_line in
  if String.eqb line ".data" then
    (mkLoader true false (current_string_label ld) (current_string ld), st)
  else if String.eqb line ".text" || Py.startswith line ".globl" then
    match current_string_label ld with
    | Some _ => (mkLoader false true None EmptyString, flush_string ld st)
    | None => (mkLoader false true None (current_string ld), st)
    end
  else if String.eqb line EmptyString || Py.startswith line "#" then (ld, st)
  else if in_data ld then
    match match_asciiz orig_line with
    | Some (label, rest) =>
        let st := flush_string ld st in
        if Py.endswith_char rest quote then
          let str := unescape (Py.drop_last rest) in
          (mkLoader true (in_text ld) None EmptyString,
           with_data_strings (<[label := str]> (data_strings st)) st)
        else
          (mkLoader true (in_text ld) (Some label) (rest +:+ nl), st)
    | None =>
        match current_string_label ld with
        | Some label =>
            if Py.endswith_char (Py.rstrip orig_line) quote then
              let str :=
                unescape (current_string ld +:+ Py.drop_last (Py.rstrip orig_line)) in
              (mkLoader true (in_text ld) None EmptyString,
               with_data_strings (<[label := str]> (data_strings st)) st)
            else
              (mkLoader true (in_text ld) (Some label)
                        (current_string ld +:+ orig_line +:+ nl), st)
        | None => (ld, st)
        end
    end
  else if in_text ld then
    if Py.contains ":" line && negb (Py.startswith (Py.strip line) "#") then
      match match_label line with
      | Some label =>
          let st :=
            with_labels (<[label := Z.of_nat (length (instructions st))]> (labels st)) st in
          let rest := Py.strip (Py.after ":" line) in
          if negb (String.eqb rest EmptyString) && negb (Py.startswith rest "#")
          then (ld, with_instructions (instructions st ++ [rest]) st)
          else (ld, st)
      | None => (ld, st)
      end
    else if negb (String.eqb line EmptyString) && negb (Py.startswith line ".")
    then (ld, with_instructions (instructions st ++ [line]) st)
    else (ld, st)
  else (ld, st).

Definition load_program (asm_code : string) : M unit := fun st =>
  let lines := Py.split_on (ascii_of_nat 10) asm_code in
  let '(_, st) :=
    fold_left (fun s line => load_line line s) lines
              (mkLoader false false None EmptyString, st) in
  set_reg "$sp" 0x7ffffffc st.

(** ** [run] *)

Definition max_iter : Z := 100000.

(** The [while] loop of [run]. Each turn of the loop uses one unit of
    [fuel]; [None] stands for a loop that has not ended when the fuel is
    used up. Besides the outcome and the state the result carries
    [iterations] and, as a ghost value, the number of calls of [execute]
    made. *)
Fixpoint run_loop (fuel : nat) (iterations : Z) (executed : Z) (st : sim)
  : option (outcome unit * Z * Z * sim) :=
  match fuel with
  | O => None
  | S fuel' =>
      if running st && (iterations <? max_iter) then
        if pc st >=? Z.of_nat (length (instructions st)) then
          Some (Ok tt, iterations, executed, st)
        else
          match Py.index (instructions st) (pc st) with
          | Raise e => Some (Raise e, iterations, executed, st)
          | Ok raw =>
              let inst := Py.strip raw in
              if String.eqb inst EmptyString || Py.startswith inst "#" then
                run_loop fuel' iterations executed (with_pc (pc st + 1) st)
              else
                match execute inst st with
                | (Ok _, st') => run_loop fuel' (iterations + 1) (executed + 1) st'
                | (Raise e, st') => Some (Raise e, iterations, executed + 1, st')
                end
          end
      else Some (Ok tt, iterations, executed, st)
  end.

Definition run (fuel : nat) (st : sim) : option (outcome unit * Z * Z * sim) :=
  match labels st !! "main" with
  | None => Some (Raise (Exception "No main function found"), 0, 0, st)
  | Some l => run_loop fuel 0 0 (with_pc l st)
  end.

End Sim.

(** * The compiler: Toycc.py *)

(** A computation that may raise, and that is [None] when a loop or a
    recursion of the source has not ended within the fuel given to its
    model. *)
Definition partial (A : Type) : Type := option (outcome A).

Definition pbind {A B : Type} (m : partial A) (k : A -> partial B) : partial B :=
  match m with
  | Some (Ok a) => k a
  | Some (Raise e) => Some (Raise e)
  | None => None
  end.

Definition obind {A B : Type} (m : outcome A) (k : A -> outcome B) : outcome B :=
  match m with
  | Ok a => k a
  | Raise e => Raise e
  end.

Notation "'let?' x := m 'in' k" := (pbind m (fun x => k))
  (at level 10, x pattern, m at level 100, k at level 200).
Notation "'let!' x := m 'in' k" := (obind m (fun x => k))
  (at level 10, x pattern, m at level 100, k at level 200).

(** ** Tokens *)

Inductive token_type : Type := NUMBER | KEYWORD | IDENT | STRING | OP | PUNCT.

(** The value of a token: an [int] for NUMBER, a [str] for the other
    types. *)
Inductive token_value : Type :=
| IntV (n : Z)
| StrV (s : string).

Record token : Type := Token {
  type : token_type;
  value : token_value;
  line : Z
}.

Definition token_type_eqb (a b : token_type) : bool :=
  match a, b with
  | NUMBER, NUMBER | KEYWORD, KEYWORD | IDENT, IDENT
  | STRING, STRING | OP, OP | PUNCT, PUNCT => true
  | _, _ => false
  end.

Definition type_name (t : token_type) : string :=
  match t with
  | NUMBER => "NUMBER" | KEYWORD => "KEYWORD" | IDENT => "IDENT"
  | STRING => "STRING" | OP => "OP" | PUNCT => "PUNCT"
  end.

(** [f"{v}"] *)
Definition format_value (v : token_value) : string :=
  match v with
  | IntV n => Py.str n
  | StrV s => s
  end.

(** [v == s] for a [str] [s] *)
Definition value_is (v : token_value) (s : string) : bool :=
  match v with
  | StrV t => String.eqb t s
  | IntV _ => false
  end.

(** ** [Lexer] *)

Module Lexer.

Record lexer : Type := mkLexer {
  code : list ascii;
  pos : nat;
  cur_line : Z;
  tokens : list token
}.

(** [Lexer.__init__] *)
Definition init (text : string) : lexer :=
  mkLexer (list_ascii_of_string text) 0 1 [].

Definition keywords : list string :=
  ["int"; "if"; "else"; "while"; "for"; "return"; "void"].

(** [code[pos]] *)
Definition char_at (code : list ascii) (pos : nat) : outcome ascii :=
  match code !! pos with
  | Some c => Ok c
  | None => Raise IndexError
  end.

(** [code[pos:pos+2]] *)
Definition slice2 (code : list ascii) (pos : nat) : string :=
  string_of_list_ascii (take 2 (drop pos code)).

Definition snoc (s : string) (c : ascii) : string := s +:+ String c EmptyString.

(** [while pos < len(code) and p(code[pos]): acc += code[pos]; pos += 1] *)
Fixpoint scan_while (fuel : nat) (p : ascii -> bool) (code : list ascii)
    (pos : nat) (acc : string) : partial (nat * string) :=
  match fuel with
  | O => None
  | S fuel' =>
      if (pos <? length code)%nat then
        match char_at code pos with
        | Raise e => Some (Raise e)
        | Ok c =>
            if p c then scan_while fuel' p code (pos + 1) (snoc acc c)
            else Some (Ok (pos, acc))
        end
      else Some (Ok (pos, acc))
  end.

(** the loop that reads the inside of a string literal *)
Fixpoint scan_string (fuel : nat) (code : list ascii) (pos : nat) (str : string)
  : partial (nat * string) :=
  match fuel with
  | O => None
  | S fuel' =>
      if (pos <? length code)%nat then
        match char_at code pos with
        | Raise e => Some (Raise e)
        | Ok c =>
            if Ascii.eqb c Sim.quote then Some (Ok (pos, str))
            else if Ascii.eqb c Sim.backslash && (pos + 1 <? length code)%nat then
              match char_at code (pos + 1) with
              | Raise e => Some (Raise e)
              | Ok d =>
                  if Ascii.eqb d "n"
                  then scan_string fuel' code (pos + 1 + 1) (snoc str (ascii_of_nat 10))
                  else scan_string fuel' code (pos + 1 + 1) (snoc str d)
              end
            else scan_string fuel' code (pos + 1) (snoc str c)
        end
      else Some (Ok (pos, str))
  end.

Definition append_token (t : token_type) (v : token_value) (pos' : nat) (lx : lexer)
  : lexer :=
  mkLexer (code lx) pos' (cur_line lx) (tokens lx ++ [Token t v (cur_line lx)]).

Definition with_pos (pos' : nat) (lx : lexer) : lexer :=
  mkLexer (code lx) pos' (cur_line lx) (tokens lx).

(** one turn of the [while] loop of [tokenize], entered with
    [pos < len(code)] *)
Definition step (lx : lexer) : partial lexer :=
  let code := code lx in
  let pos := pos lx in
  let n := length code in
  let? c := Some (char_at code pos) in
  if Py.isspace c then
    Some (Ok (mkLexer code (pos + 1)
                (if Ascii.eqb c (ascii_of_nat 10) then cur_line lx + 1 else cur_line lx)
                (tokens lx)))
  else if (pos + 1 <? n)%nat && String.eqb (slice2 code pos) "//" then
    let? r := scan_while n (fun c => negb (Ascii.eqb c (ascii_of_nat 10))) code pos
                         EmptyString in
    Some (Ok (with_pos (fst r) lx))
  else if Py.isdigit c then
    let? r := scan_while n Py.isdigit code pos EmptyString in
    let? v := Some (Py.int (snd r)) in
    Some (Ok (append_token NUMBER (IntV v) (fst r) lx))
  else if Py.isalpha c || Ascii.eqb c "_" then
    let? r := scan_while n (fun c => Py.isalnum c || Ascii.eqb c "_") code pos
                         EmptyString in
    if bool_decide (snd r ∈ keywords)
    then Some (Ok (append_token KEYWORD (StrV (snd r)) (fst r) lx))
    else Some (Ok (append_token IDENT (StrV (snd r)) (fst r) lx))
  else if Ascii.eqb c Sim.quote then
    let? r := scan_string n code (pos + 1) EmptyString in
    Some (Ok (append_token STRING (StrV (snd r)) (fst r + 1) lx))
  else
    let two_char := slice2 code pos in
    if (pos + 1 <? n)%nat
       && bool_decide (two_char ∈ ["=="; "!="; "<="; ">="; "++"; "--"])
    then Some (Ok (append_token OP (StrV two_char) (pos + 2) lx))
    else
      let char := String c EmptyString in
      if Py.contains c "+-*/%=<>!"
      then Some (Ok (append_token OP (StrV char) (pos + 1) lx))
      else if Py.contains c "();{},"
      then Some (Ok (append_token PUNCT (StrV char) (pos + 1) lx))
      else Some (Ok (with_pos (pos + 1) lx)).

Fixpoint loop (fuel : nat) (lx : lexer) : partial lexer :=
  match fuel with
  | O => None
  | S fuel' =>
      if (pos lx <? length (code lx))%nat then
        let? lx' := step lx in loop fuel' lx'
      else Some (Ok lx)
  end.

(** [Lexer(text).tokenize()]: every turn of the loop moves [pos] forward,
    so the length of the text bounds the number of turns. The final state
    of the lexer is returned, [tokens] is the list returned by the
    source. *)
Definition tokenize (text : string) : partial lexer :=
  loop (S (String.length text)) (init text).

End Lexer.

(** ** The syntax tree

    The source builds the nodes as dictionaries with a ['type'] entry; here
    one constructor stands for each node type. The fields keep the names
    of the dictionary keys. Names and operators are the [str] values of
    IDENT and OP tokens; the value of a Number or a String node is the value
    of its token as it is, and is formatted when it is emitted. The [init]
    of a For node is either a Declaration node or an expression. *)

Local Set Warnings "-register-all".

Inductive expr : Type :=
| Number (value : token_value)
| String_ (value : token_value)
| Var (name : string)
| Assign (left right : expr)
| BinOp (op : string) (left right : expr)
| PreOp (op : string) (operand : expr)
| PostOp (op : string) (operand : expr)
| Call (name : string) (args : list expr).

Inductive for_init : Type :=
| InitDeclaration (name : string) (init : option expr)
| InitExpr (e : expr).

Inductive stmt : Type :=
| Declaration (name : string) (init : option expr)
| ExprStmt (e : expr)
| If (condition : expr) (then_ : list stmt) (else_ : option (list stmt))
| While (condition : expr) (body : list stmt)
| For (init : option for_init) (condition : option expr) (update : option expr)
      (body : list stmt)
| Return (value : option expr).

Record function : Type := Function {
  return_type : string;
  fname : string;
  fbody : list stmt
}.

Record program : Type := Program { functions : list function }.

(** ** [Parser] *)

Module Parser.

Section WithTokens.

Variable tokens : list token.

Definition peek (pos : nat) : option token := tokens !! pos.

(** [self.peek() and self.peek().type == t and self.peek().value == v] *)
Definition peek_is (pos : nat) (t : token_type) (v : string) : bool :=
  match peek pos with
  | Some tok => token_type_eqb (type tok) t && value_is (value tok) v
  | None => false
  end.

(** [self.peek() and self.peek().type == 'OP' and self.peek().value in vs] *)
Definition peek_op_in (pos : nat) (vs : list string) : bool :=
  match peek pos with
  | Some tok =>
      token_type_eqb (type tok) OP
      && match value tok with
         | StrV s => bool_decide (s ∈ vs)
         | IntV _ => false
         end
  | None => false
  end.

Definition consume (expected_type : option token_type) (expected_value : option string)
    (pos : nat) : outcome (token * nat) :=
  match tokens !! pos with
  | None => Raise (Exception "Unexpected end of input")
  | Some tok =>
      match expected_type with
      | Some t =>
          if negb (token_type_eqb (type tok) t) then
            Raise (Exception ("Expected " +:+ type_name t +:+ ", got "
                              +:+ type_name (type tok)))
          else
            match expected_value with
            | Some v =>
                if negb (value_is (value tok) v) then
                  Raise (Exception ("Expected '" +:+ v +:+ "', got '"
                                    +:+ format_value (value tok) +:+ "'"))
                else Ok (tok, (pos + 1)%nat)
            | None => Ok (tok, (pos + 1)%nat)
            end
      | None =>
          match expected_value with
          | Some v =>
              if negb (value_is (value tok) v) then
                Raise (Exception ("Expected '" +:+ v +:+ "', got '"
                                  +:+ format_value (value tok) +:+ "'"))
              else Ok (tok, (pos + 1)%nat)
          | None => Ok (tok, (pos + 1)%nat)
          end
      end
  end.

(** [consume] where only the new position is used *)
Definition expect (t : token_type) (v : string) (pos : nat) : partial nat :=
  match consume (Some t) (Some v) pos with
  | Ok (_, pos') => Some (Ok pos')
  | Raise e => Some (Raise e)
  end.

Definition name_of (tok : token) : string := format_value (value tok).

Definition relational : list string := ["<"; ">"; "=="; "!="; "<="; ">="].

(** The expression grammar. The [while] loops of [parse_comparison],
    [parse_additive], [parse_multiplicative] and of the argument list are
    the [*_loop] functions. *)
Fixpoint parse_expression (fuel : nat) (pos : nat) : partial (expr * nat) :=
  match fuel with
  | O => None
  | S fuel' =>
      let? r := parse_comparison fuel' pos in
      let '(e, pos) := r in
      if peek_is pos OP "=" then
        let? pos := expect OP "=" pos in
        let? r := parse_expression fuel' pos in
        Some (Ok (Assign e (fst r), snd r))
      else Some (Ok (e, pos))
  end
with parse_comparison (fuel : nat) (pos : nat) : partial (expr * nat) :=
  match fuel with
  | O => None
  | S fuel' =>
      let? r := parse_additive fuel' pos in
      comparison_loop fuel' (fst r) (snd r)
  end
with comparison_loop (fuel : nat) (left : expr) (pos : nat) : partial (expr * nat) :=
  match fuel with
  | O => None
  | S fuel' =>
      if peek_op_in pos relational then
        let? o := Some (consume (Some OP) None pos) in
        let? r := parse_additive fuel' (snd o) in
        comparison_loop fuel' (BinOp (name_of (fst o)) left (fst r)) (snd r)
      else Some (Ok (left, pos))
  end
with parse_additive (fuel : nat) (pos : nat) : partial (expr * nat) :=
  match fuel with
  | O => None
  | S fuel' =>
      let? r := parse_multiplicative fuel' pos in
      additive_loop fuel' (fst r) (snd r)
  end
with additive_loop (fuel : nat) (left : expr) (pos : nat) : partial (expr * nat) :=
  match fuel with
  | O => None
  | S fuel' =>
      if peek_op_in pos ["+"; "-"] then
        let? o := Some (consume (Some OP) None pos) in
        let? r := parse_multiplicative fuel' (snd o) in
        additive_loop fuel' (BinOp (name_of (fst o)) left (fst r)) (snd r)
      else Some (Ok (left, pos))
  end
with parse_multiplicative (fuel : nat) (pos : nat) : partial (expr * nat) :=
  match fuel with
  | O => None
  | S fuel' =>
      let? r := parse_unary fuel' pos in
      multiplicative_loop fuel' (fst r) (snd r)
  end
with multiplicative_loop (fuel : nat) (left : expr) (pos : nat) : partial (expr * nat) :=
  match fuel with
  | O => None
  | S fuel' =>
      if peek_op_in pos ["*"; "/"; "%"] then
        let? o := Some (consume (Some OP) None pos) in
        let? r := parse_unary fuel' (snd o) in
        multiplicative_loop fuel' (BinOp (name_of (fst o)) left (fst r)) (snd r)
      else Some (Ok (left, pos))
  end
with parse_unary (fuel : nat) (pos : nat) : partial (expr * nat) :=
  match fuel with
  | O => None
  | S fuel' =>
      if peek_op_in pos ["++"; "--"] then
        let? o := Some (consume (Some OP) None pos) in
        let? r := parse_primary fuel' (snd o) in
        Some (Ok (PreOp (name_of (fst o)) (fst r), snd r))
      else
        let? r := parse_primary fuel' pos in
        let '(e, pos) := r in
        if peek_op_in pos ["++"; "--"] then
          let? o := Some (consume (Some OP) None pos) in
          Some (Ok (PostOp (name_of (fst o)) e, snd o))
        else Some (Ok (e, pos))
  end
with parse_primary (fuel : nat) (pos : nat) : partial (expr * nat) :=
  match fuel with
  | O => None
  | S fuel' =>
      match peek pos with
      | None => Some (Raise AttributeError)
      | Some tok =>
          match type tok with
          | NUMBER =>
              let? o := Some (consume None None pos) in
              Some (Ok (Number (value tok), snd o))
          | STRING =>
              let? o := Some (consume None None pos) in
              Some (Ok (String_ (value tok), snd o))
          | IDENT =>
              let? o := Some (consume None None pos) in
              let '(name, pos) := o in
              if peek_is pos PUNCT "(" then
                let? pos := expect PUNCT "(" pos in
                let? r :=
                  if negb (peek_is pos PUNCT ")") then
                    let? a := parse_expression fuel' pos in
                    args_loop fuel' [fst a] (snd a)
                  else Some (Ok ([], pos)) in
                let? pos := expect PUNCT ")" (snd r) in
                Some (Ok (Call (name_of name) (fst r), pos))
              else Some (Ok (Var (name_of name), pos))
          | _ =>
              if token_type_eqb (type tok) PUNCT && value_is (value tok) "(" then
                let? pos := expect PUNCT "(" pos in
                let? r := parse_expression fuel' pos in
                let? pos := expect PUNCT ")" (snd r) in
                Some (Ok (fst r, pos))
              else
                Some (Raise (Exception
                  ("Unexpected token: Token(" +:+ type_name (type tok) +:+ ", "
                   +:+ format_value (value tok) +:+ ")")))
          end
      end
  end
with args_loop (fuel : nat) (args : list expr) (pos : nat) : partial (list expr * nat) :=
  match fuel with
  | O => None
  | S fuel' =>
      if peek_is pos PUNCT "," then
        let? pos := expect PUNCT "," pos in
        let? a := parse_expression fuel' pos in
        args_loop fuel' (args ++ [fst a]) (snd a)
      else Some (Ok (args, pos))
  end.

Definition parse_declaration (fuel : nat) (pos : nat)
  : partial (string * option expr * nat) :=
  let? pos := expect KEYWORD "int" pos in
  let? n := Some (consume (Some IDENT) None pos) in
  let '(name, pos) := n in
  if peek_is pos OP "=" then
    let? pos := expect OP "=" pos in
    let? r := parse_expression fuel pos in
    let? pos := expect PUNCT ";" (snd r) in
    Some (Ok (name_of name, Some (fst r), pos))
  else
    let? pos := expect PUNCT ";" pos in
    Some (Ok (name_of name, None, pos)).

Definition parse_return (fuel : nat) (pos : nat) : partial (stmt * nat) :=
  let? pos := expect KEYWORD "return" pos in
  if negb (peek_is pos PUNCT ";") then
    let? r := parse_expression fuel pos in
    let? pos := expect PUNCT ";" (snd r) in
    Some (Ok (Return (Some (fst r)), pos))
  else
    let? pos := expect PUNCT ";" pos in
    Some (Ok (Return None, pos)).

Definition parse_expression_statement (fuel : nat) (pos : nat) : partial (stmt * nat) :=
  let? r := parse_expression fuel pos in
  let? pos := expect PUNCT ";" (snd r) in
  Some (Ok (ExprStmt (fst r), pos)).

(** The statements. [block_loop] is the loop
    [while not (peek is '}'): body.append(self.parse_statement())], and
    [parse_body] the block in braces or single statement that [parse_if]
    (twice), [parse_while] and [parse_for] each read with the same code. *)
Fixpoint parse_statement (fuel : nat) (pos : nat) : partial (stmt * nat) :=
  match fuel with
  | O => None
  | S fuel' =>
      match peek pos with
      | None => Some (Raise AttributeError)
      | Some tok =>
          let keyword v := token_type_eqb (type tok) KEYWORD && value_is (value tok) v in
          if keyword "int" then
            let? d := parse_declaration fuel' pos in
            Some (Ok (Declaration (fst (fst d)) (snd (fst d)), snd d))
          else if keyword "if" then parse_if fuel' pos
          else if keyword "while" then parse_while fuel' pos
          else if keyword "for" then parse_for fuel' pos
          else if keyword "return" then parse_return fuel' pos
          else parse_expression_statement fuel' pos
      end
  end
with block_loop (fuel : nat) (body : list stmt) (pos : nat) : partial (list stmt * nat) :=
  match fuel with
  | O => None
  | S fuel' =>
      if negb (peek_is pos PUNCT "}") then
        let? r := parse_statement fuel' pos in
        block_loop fuel' (body ++ [fst r]) (snd r)
      else Some (Ok (body, pos))
  end
with parse_body (fuel : nat) (pos : nat) : partial (list stmt * nat) :=
  match fuel with
  | O => None
  | S fuel' =>
      if peek_is pos PUNCT "{" then
        let? pos := expect PUNCT "{" pos in
        let? r := block_loop fuel' [] pos in
        let? pos := expect PUNCT "}" (snd r) in
        Some (Ok (fst r, pos))
      else
        let? r := parse_statement fuel' pos in
        Some (Ok ([fst r], snd r))
  end
with parse_if (fuel : nat) (pos : nat) : partial (stmt * nat) :=
  match fuel with
  | O => None
  | S fuel' =>
      let? pos := expect KEYWORD "if" pos in
      let? pos := expect PUNCT "(" pos in
      let? c := parse_expression fuel' pos in
      let? pos := expect PUNCT ")" (snd c) in
      let? t := parse_body fuel' pos in
      let '(then_body, pos) := t in
      if peek_is pos KEYWORD "else" then
        let? pos := expect KEYWORD "else" pos in
        let? e := parse_body fuel' pos in
        Some (Ok (If (fst c) then_body (Some (fst e)), snd e))
      else Some (Ok (If (fst c) then_body None, pos))
  end
with parse_while (fuel : nat) (pos : nat) : partial (stmt * nat) :=
  match fuel with
  | O => None
  | S fuel' =>
      let? pos := expect KEYWORD "while" pos in
      let? pos := expect PUNCT "(" pos in
      let? c := parse_expression fuel' pos in
      let? pos := expect PUNCT ")" (snd c) in
      let? b := parse_body fuel' pos in
      Some (Ok (While (fst c) (fst b), snd b))
  end
with parse_for (fuel : nat) (pos : nat) : partial (stmt * nat) :=
  match fuel with
  | O => None
  | S fuel' =>
      let? pos := expect KEYWORD "for" pos in
      let? pos := expect PUNCT "(" pos in
      let? i :=
        if negb (peek_is pos PUNCT ";") then
          match peek pos with
          | None => Some (Raise AttributeError)
          | Some tok =>
              if token_type_eqb (type tok) KEYWORD && value_is (value tok) "int" then
                let? d := parse_declaration fuel' pos in
                Some (Ok (Some (InitDeclaration (fst (fst d)) (snd (fst d))), snd d))
              else
                let? r := parse_expression fuel' pos in
                let? pos := expect PUNCT ";" (snd r) in
                Some (Ok (Some (InitExpr (fst r)), pos))
          end
        else
          let? pos := expect PUNCT ";" pos in
          Some (Ok (None, pos)) in
      let '(init, pos) := i in
      let? c :=
        if negb (peek_is pos PUNCT ";") then
          let? r := parse_expression fuel' pos in
          Some (Ok (Some (fst r), snd r))
        else Some (Ok (None, pos)) in
      let '(condition, pos) := c in
      let? pos := expect PUNCT ";" pos in
      let? u :=
        if negb (peek_is pos PUNCT ")") then
          let? r := parse_expression fuel' pos in
          Some (Ok (Some (fst r), snd r))
        else Some (Ok (None, pos)) in
      let '(update, pos) := u in
      let? pos := expect PUNCT ")" pos in
      let? b := parse_body fuel' pos in
      Some (Ok (For init condition update (fst b), snd b))
  end.

(** the loop that skips the parameters:
    [while self.peek() and not (peek is ')'): self.consume()] *)
Fixpoint skip_params (fuel : nat) (pos : nat) : partial nat :=
  match fuel with
  | O => None
  | S fuel' =>
      match peek pos with
      | Some _ =>
          if negb (peek_is pos PUNCT ")") then
            let? o := Some (consume None None pos) in
            skip_params fuel' (snd o)
          else Some (Ok pos)
      | None => Some (Ok pos)
      end
  end.

Definition parse_function (fuel : nat) (pos : nat) : partial (function * nat) :=
  let? rt := Some (consume (Some KEYWORD) None pos) in
  let? n := Some (consume (Some IDENT) None (snd rt)) in
  let? pos := expect PUNCT "(" (snd n) in
  let? pos := skip_params fuel pos in
  let? pos := expect PUNCT ")" pos in
  let? pos := expect PUNCT "{" pos in
  let? b := block_loop fuel [] pos in
  let? pos := expect PUNCT "}" (snd b) in
  Some (Ok (Function (name_of (fst rt)) (name_of (fst n)) (fst b), pos)).

(** the loop of [parse] *)
Fixpoint parse_loop (fuel : nat) (functions : list function) (pos : nat)
  : partial (list function) :=
  match fuel with
  | O => None
  | S fuel' =>
      if (pos <? length tokens)%nat then
        let? f := parse_function fuel' pos in
        parse_loop fuel' (functions ++ [fst f]) (snd f)
      else Some (Ok functions)
  end.

Definition parse (fuel : nat) : partial program :=
  let? fs := parse_loop fuel [] 0%nat in
  Some (Ok (Program fs)).

End WithTokens.

End Parser.

(** ** [CodeGen] *)

Module CodeGen.

Record codegen : Type := mkCodeGen {
  output : list string;
  data : list string;
  label_count : Z;
  string_count : Z;
  vars : gmap string Z;
  stack_offset : Z
}.

(** [CodeGen.__init__] *)
Definition init : codegen := mkCodeGen [] [] 0 0 ∅ 0.

Definition new_label (prefix : string) (cg : codegen) : string * codegen :=
  (prefix +:+ Py.str (label_count cg),
   mkCodeGen (output cg) (data cg) (label_count cg + 1) (string_count cg)
             (vars cg) (stack_offset cg)).

Definition add_string (s : string) (cg : codegen) : string * codegen :=
  let label := "str" +:+ Py.str (string_count cg) in
  (label,
   mkCodeGen (output cg)
             (data cg ++ [label +:+ ": .asciiz " +:+ String Sim.quote s
                          +:+ String Sim.quote EmptyString])
             (label_count cg) (string_count cg + 1) (vars cg) (stack_offset cg)).

Definition emit (code : string) (cg : codegen) : codegen :=
  mkCodeGen (output cg ++ [code]) (data cg) (label_count cg) (string_count cg)
            (vars cg) (stack_offset cg).

Definition emits (codes : list string) (cg : codegen) : codegen :=
  fold_left (fun cg code => emit code cg) codes cg.

(** [self.vars[name]] *)
Definition var_offset (name : string) (cg : codegen) : outcome Z :=
  match vars cg !! name with
  | Some offset => Ok offset
  | None => Raise (KeyError name)
  end.

(** [expr['operand']['name']]: the nodes with a ['name'] entry are Var and
    Call *)
Definition node_name (e : expr) : outcome string :=
  match e with
  | Var name | Call name _ => Ok name
  | _ => Raise (KeyError "name")
  end.

(** the instructions of a binary operator, after the operands are in
    [$t0] and [$t1] *)
Definition binop_code (op : string) : list string :=
  if String.eqb op "+" then ["    add $t0, $t0, $t1"]
  else if String.eqb op "-" then ["    sub $t0, $t0, $t1"]
  else if String.eqb op "*" then ["    mul $t0, $t0, $t1"]
  else if String.eqb op "/" then ["    div $t0, $t1"; "    mflo $t0"]
  else if String.eqb op "%" then ["    div $t0, $t1"; "    mfhi $t0"]
  else if String.eqb op "<" then ["    slt $t0, $t0, $t1"]
  else if String.eqb op ">" then ["    slt $t0, $t1, $t0"]
  else if String.eqb op "==" then
    ["    sub $t0, $t0, $t1";
     "    slt $t2, $t0, $zero";
     "    slt $t3, $zero, $t0";
     "    or $t0, $t2, $t3";
     "    xori $t0, $t0, 1"]
  else if String.eqb op "!=" then
    ["    sub $t0, $t0, $t1";
     "    sltu $t0, $zero, $t0";
     "    andi $t0, $t0, 1"]
  else if String.eqb op "<=" then
    ["    slt $t0, $t1, $t0";
     "    xori $t0, $t0, 1"]
  else if String.eqb op ">=" then
    ["    slt $t0, $t0, $t1";
     "    xori $t0, $t0, 1"]
  else [].

Fixpoint gen_expr (e : expr) (cg : codegen) : outcome codegen :=
  match e with
  | Number value => Ok (emit ("    li $t0, " +:+ format_value value) cg)
  | String_ value =>
      let '(label, cg) := add_string (format_value value) cg in
      Ok (emit ("    la $t0, " +:+ label) cg)
  | Var name =>
      let! offset := var_offset name cg in
      Ok (emit ("    lw $t0, " +:+ Py.str offset +:+ "($fp)") cg)
  | Assign lhs rhs =>
      let! cg := gen_expr rhs cg in
      match lhs with
      | Var name =>
          let! offset := var_offset name cg in
          Ok (emit ("    sw $t0, " +:+ Py.str offset +:+ "($fp)") cg)
      | _ => Ok cg
      end
  | BinOp op lhs rhs =>
      let! cg := gen_expr lhs cg in
      let cg := emits ["    addi $sp, $sp, -4"; "    sw $t0, 0($sp)"] cg in
      let! cg := gen_expr rhs cg in
      let cg := emits ["    move $t1, $t0"; "    lw $t0, 0($sp)"; "    addi $sp, $sp, 4"] cg in
      Ok (emits (binop_code op) cg)
  | PreOp op operand =>
      let! var_name := node_name operand in
      let! offset := var_offset var_name cg in
      let cg := emit ("    lw $t0, " +:+ Py.str offset +:+ "($fp)") cg in
      let cg := if String.eqb op "++" then emit "    addi $t0, $t0, 1" cg
                else emit "    addi $t0, $t0, -1" cg in
      Ok (emit ("    sw $t0, " +:+ Py.str offset +:+ "($fp)") cg)
  | PostOp op operand =>
      let! var_name := node_name operand in
      let! offset := var_offset var_name cg in
      let cg := emit ("    lw $t0, " +:+ Py.str offset +:+ "($fp)") cg in
      let cg := emit "    move $t2, $t0" cg in
      let cg := if String.eqb op "++" then emit "    addi $t0, $t0, 1" cg
                else emit "    addi $t0, $t0, -1" cg in
      let cg := emit ("    sw $t0, " +:+ Py.str offset +:+ "($fp)") cg in
      Ok (emit "    move $t0, $t2" cg)
  | Call name args =>
      if String.eqb name "print_int" then
        match args with
        | a :: _ =>
            let! cg := gen_expr a cg in
            Ok (emits ["    move $a0, $t0"; "    jal print_int"] cg)
        | [] => Raise IndexError
        end
      else if String.eqb name "print_str" then
        match args with
        | a :: _ =>
            let! cg := gen_expr a cg in
            Ok (emits ["    move $a0, $t0"; "    jal print_str"] cg)
        | [] => Raise IndexError
        end
      else Ok cg
  end.

(** the Declaration case of [gen_stmt] *)
Definition gen_declaration (name : string) (init : option expr) (cg : codegen)
  : outcome codegen :=
  let cg := emit "    addi $sp, $sp, -4" cg in
  let cg := mkCodeGen (output cg) (data cg) (label_count cg) (string_count cg)
                      (vars cg) (stack_offset cg + 4) in
  let cg := mkCodeGen (output cg) (data cg) (label_count cg) (string_count cg)
                      (<[name := - stack_offset cg]> (vars cg)) (stack_offset cg) in
  match init with
  | Some e =>
      let! cg := gen_expr e cg in
      let! offset := var_offset name cg in
      Ok (emit ("    sw $t0, " +:+ Py.str offset +:+ "($fp)") cg)
  | None => Ok cg
  end.

Definition gen_opt_expr (e : option expr) (cg : codegen) : outcome codegen :=
  match e with
  | Some e => gen_expr e cg
  | None => Ok cg
  end.

(** [gen_stmt]; [gen_stmts l] is [for s in l: self.gen_stmt(s)]. *)
Fixpoint gen_stmt (s : stmt) (cg : codegen) : outcome codegen :=
  let gen_stmts :=
    fix gen_stmts (l : list stmt) (cg : codegen) : outcome codegen :=
      match l with
      | [] => Ok cg
      | s :: l' => let! cg := gen_stmt s cg in gen_stmts l' cg
      end in
  match s with
  | Declaration name init => gen_declaration name init cg
  | ExprStmt e => gen_expr e cg
  | If condition then_ else_ =>
      let '(else_lbl, cg) := new_label "else" cg in
      let '(end_lbl, cg) := new_label "endif" cg in
      let! cg := gen_expr condition cg in
      let cg := emit ("    beq $t0, $zero, " +:+ else_lbl) cg in
      let! cg := gen_stmts then_ cg in
      let cg := emit ("    j " +:+ end_lbl) cg in
      let cg := emit (else_lbl +:+ ":") cg in
      let! cg :=
        match else_ with
        | Some (s :: l) => gen_stmts (s :: l) cg
        | _ => Ok cg
        end in
      Ok (emit (end_lbl +:+ ":") cg)
  | While condition body =>
      let '(loop_lbl, cg) := new_label "while" cg in
      let '(end_lbl, cg) := new_label "endwhile" cg in
      let cg := emit (loop_lbl +:+ ":") cg in
      let! cg := gen_expr condition cg in
      let cg := emit ("    beq $t0, $zero, " +:+ end_lbl) cg in
      let! cg := gen_stmts body cg in
      let cg := emit ("    j " +:+ loop_lbl) cg in
      Ok (emit (end_lbl +:+ ":") cg)
  | For init condition update body =>
      let '(loop_lbl, cg) := new_label "for" cg in
      let '(end_lbl, cg) := new_label "endfor" cg in
      let! cg :=
        match init with
        | Some (InitDeclaration name i) => gen_declaration name i cg
        | Some (InitExpr e) => gen_expr e cg
        | None => Ok cg
        end in
      let cg := emit (loop_lbl +:+ ":") cg in
      let! cg :=
        match condition with
        | Some c =>
            let! cg := gen_expr c cg in
            Ok (emit ("    beq $t0, $zero, " +:+ end_lbl) cg)
        | None => Ok cg
        end in
      let! cg := gen_stmts body cg in
      let! cg := gen_opt_expr update cg in
      let cg := emit ("    j " +:+ loop_lbl) cg in
      Ok (emit (end_lbl +:+ ":") cg)
  | Return value =>
      let! cg :=
        match value with
        | Some v =>
            let! cg := gen_expr v cg in
            Ok (emit "    move $v0, $t0" cg)
        | None => Ok cg
        end in
      Ok (emit "    j main_exit" cg)
  end.

Fixpoint gen_stmts (l : list stmt) (cg : codegen) : outcome codegen :=
  match l with
  | [] => Ok cg
  | s :: l' => let! cg := gen_stmt s cg in gen_stmts l' cg
  end.

Definition gen_function (func : function) (cg : codegen) : outcome codegen :=
  let cg := emit (fname func +:+ ":") cg in
  let cg := emits ["    addi $sp, $sp, -8";
                   "    sw $ra, 4($sp)";
                   "    sw $fp, 0($sp)";
                   "    move $fp, $sp"] cg in
  let cg := mkCodeGen (output cg) (data cg) (label_count cg) (string_count cg) ∅ 0 in
  let! cg := gen_stmts (fbody func) cg in
  let cg := emit (fname func +:+ "_exit:") cg in
  Ok (emits ["    move $sp, $fp";
             "    lw $fp, 0($sp)";
             "    lw $ra, 4($sp)";
             "    addi $sp, $sp, 8";
             "    jr $ra";
             EmptyString] cg).

Fixpoint gen_functions (l : list function) (cg : codegen) : outcome codegen :=
  match l with
  | [] => Ok cg
  | f :: l' => let! cg := gen_function f cg in gen_functions l' cg
  end.

(** the lines joined by [generate], for the generator state after the
    functions *)
Definition result_lines (cg : codegen) : list string :=
  [".data"] ++ data cg ++ [EmptyString; ".text"; ".globl main"; EmptyString]
  ++ output cg
  ++ [EmptyString;
      "print_int:"; "    li $v0, 1"; "    syscall"; "    jr $ra";
      EmptyString;
      "print_str:"; "    li $v0, 4"; "    syscall"; "    jr $ra"].

(** [CodeGen().generate(ast)], with the final state of the generator *)
Definition generate_from (ast : program) (cg : codegen) : outcome (string * codegen) :=
  let! cg := gen_functions (functions ast) cg in
  Ok (Py.join Sim.nl (result_lines cg), cg).

Definition generate (ast : program) : outcome string :=
  let! r := generate_from ast init in Ok (fst r).

End CodeGen.

(** ** The two command lines: [Toycc.main] and [mips_sim.main] *)

(** [Toycc.main]: the assembly text written for a source text *)
Definition compile (fuel : nat) (source : string) : partial string :=
  let? lx := Lexer.tokenize source in
  let? ast := Parser.parse (Lexer.tokens lx) fuel in
  Some (CodeGen.generate ast).

(** [mips_sim.main]: a fresh interpreter loads and runs the text *)
Definition simulate (fuel : nat) (asm : string)
  : option (outcome unit * Z * Z * Sim.sim) :=
  match Sim.load_program asm Sim.init with
  | (Ok _, st) => Sim.run fuel st
  | (Raise e, st) => Some (Raise e, 0, 0, st)
  end.

(** * Notions used in the statements *)

(** [preserves R m]: the method [m] takes every state to a state related
    to it by [R], whether it returns or raises. *)
Definition preserves (R : Sim.sim -> Sim.sim -> Prop) {A : Type} (m : Sim.M A) : Prop :=
  forall st, R st (snd (m st)).

(** the registers are the same *)
Definition same_regs (st st' : Sim.sim) : Prop := Sim.regs st' = Sim.regs st.

(** slot 0 of the registers is the same *)
Definition same_slot0 (st st' : Sim.sim) : Prop :=
  Sim.regs st' !! 0%nat = Sim.regs st !! 0%nat.

(** a program that writes to [$zero] twice and returns *)
Definition zero_writes : string :=
  Py.join Sim.nl
    [".text"; "main:"; "    li $zero, 5"; "    addi $zero, $sp, 1"; "    jr $ra"].

(** a state with one instruction, [div $t0, $t1], and 0 in every register *)
Definition div_zero_state : Sim.sim :=
  Sim.with_instructions ["div $t0, $t1"] Sim.init.

(** a state with 7 in [$t0] and 2 in [$t1] *)
Definition div_seven_two_state : Sim.sim :=
  Sim.with_regs (<[9%nat := 2]> (<[8%nat := 7]> (Sim.regs Sim.init))) Sim.init.

(** a state whose data section holds [str0] and [str1] *)
Definition two_strings_state : Sim.sim :=
  Sim.with_data_strings (<["str1" := "yo"]> (<["str0" := "hi"]> ∅)) Sim.init.

(** the instructions of a straight-line sequence executed one after the
    other, as [run] does for instructions that do not jump; the first
    exception ends it *)
Fixpoint execute_all (insts : list string) : Sim.M unit :=
  match insts with
  | [] => Sim.ret tt
  | inst :: rest => Sim.bind (Sim.execute inst) (fun _ => execute_all rest)
  end.

(** the instructions that [gen_expr] emits for the operator [op], run in
    [st], return and leave [v] in [$t0] *)
Definition leaves_in_t0 (op : string) (st : Sim.sim) (v : Z) : Prop :=
  exists st',
    execute_all (CodeGen.binop_code op) st = (Ok tt, st')
    /\ Sim.get_reg "$t0" st' = (Ok v, st').

(** a 32-bit value read as a signed number, in two's complement *)
Definition to_signed32 (v : Z) : Z :=
  if v <? 0x80000000 then v else v - 0x100000000.

(** the value of a truth value in a register *)
Definition flag (b : bool) : Z := if b then 1 else 0.

(** the content of slot [i] of the registers *)
Definition reg (i : nat) (st : Sim.sim) : Z := default 0 (Sim.regs st !! i).

(** the state after an instruction that writes [v] to slot [d] and goes on
    to the next instruction *)
Definition rd_write (d : nat) (v : Z) (st : Sim.sim) : Sim.sim :=
  Sim.with_pc (Sim.pc st + 1)
    (Sim.with_regs (<[d := Z.land v 0xFFFFFFFF]> (Sim.regs st)) st).

(** a state with [a] in [$t0] and [b] in [$t1] *)
Definition operands_state (a b : Z) : Sim.sim :=
  Sim.with_regs (<[9%nat := b]> (<[8%nat := a]> (Sim.regs Sim.init))) Sim.init.

(** a program that never returns *)
Definition runaway : string :=
  Py.join Sim.nl [".text"; "main:"; "    j main"].

(** a state that is about to execute [jr $ra] with 0 in [$ra] *)
Definition return_state : Sim.sim :=
  Sim.with_instructions ["jr $ra"] Sim.init.

(** the program of the first end-to-end scenario *)
Definition return_42 : string := "int main(){ return 42; }".

(** an input that ends inside a string literal: a double quote and [abc] *)
Definition unterminated_abc : string := String Sim.quote "abc".

(** a program with a [return] in a function that is not [main] *)
Definition return_in_foo : program :=
  Program [Function "int" "foo" [Return (Some (Number (IntV 1)))];
           Function "int" "main" [Return (Some (Number (IntV 0)))]].

(** the number of [if], [while] and [for] statements in a statement, at
    any depth *)
Fixpoint control_constructs (s : stmt) : nat :=
  let in_list :=
    fix in_list (l : list stmt) : nat :=
      match l with
      | [] => 0%nat
      | s :: l' => (control_constructs s + in_list l')%nat
      end in
  match s with
  | If _ then_ else_ =>
      S (in_list then_ + match else_ with Some l => in_list l | None => 0 end)%nat
  | While _ body => S (in_list body)
  | For _ _ _ body => S (in_list body)
  | _ => 0%nat
  end.

Fixpoint control_constructs_list (l : list stmt) : nat :=
  match l with
  | [] => 0
  | s :: l' => control_constructs s + control_constructs_list l'
  end%nat.

Fixpoint control_constructs_functions (l : list function) : nat :=
  match l with
  | [] => 0
  | f :: l' => control_constructs_list (fbody f) + control_constructs_functions l'
  end%nat.

(** a line of the output that defines a label: it does not start with a
    space, as every instruction does, and it ends with a colon *)
Definition is_label_line (line : string) : bool :=
  match line with
  | String c _ => negb (Ascii.eqb c " ") && Py.endswith_char line ":"
  | EmptyString => false
  end.

(** the labels that the lines define, in their order *)
Definition labels_of (lines : list string) : list string :=
  Py.drop_last <$> List.filter is_label_line lines.

Fixpoint drop_nondigits (s : string) : string :=
  match s with
  | String c s' => if Py.isdigit c then s else drop_nondigits s'
  | EmptyString => EmptyString
  end.

Definition starts_with_digit (s : string) : Prop :=
  exists d rest, s = String d rest /\ Py.isdigit d = true.

(** the number that a label ends with *)
Definition label_number (label : string) : Z :=
  Py.digits_value 0 (drop_nondigits label).

(** the lines that [gen_function] emits before and after the body *)
Definition prologue (func : function) : list string :=
  [fname func +:+ ":";
   "    addi $sp, $sp, -8";
   "    sw $ra, 4($sp)";
   "    sw $fp, 0($sp)";
   "    move $fp, $sp"].

Definition epilogue (func : function) : list string :=
  [fname func +:+ "_exit:";
   "    move $sp, $fp";
   "    lw $fp, 0($sp)";
   "    lw $ra, 4($sp)";
   "    addi $sp, $sp, 8";
   "    jr $ra";
   EmptyString].

(** the output for the functions [funcs] whose bodies give the lines
    [bodies] *)
Fixpoint functions_output (funcs : list function) (bodies : list (list string))
  : list string :=
  match funcs, bodies with
  | func :: funcs', body :: bodies' =>
      prologue func ++ body ++ epilogue func ++ functions_output funcs' bodies'
  | _, _ => []
  end.

(** a program with an [if] within a [while], and a [for] *)
Definition nested_loops : program :=
  Program
    [Function "int" "main"
       [Declaration "x" (Some (Number (IntV 0)));
        While (BinOp "<" (Var "x") (Number (IntV 3)))
          [If (BinOp "==" (Var "x") (Number (IntV 1)))
              [ExprStmt (Call "print_int" [Var "x"])]
              None;
           ExprStmt (Assign (Var "x") (BinOp "+" (Var "x") (Number (IntV 1))))];
        For None None None [Return None]]].

(** from [cg] to [cg'] the generator has only added lines to the output,
    and [nums] are the numbers of the labels that these lines define *)
Definition emits_numbers (cg cg' : CodeGen.codegen) (nums : list Z) : Prop :=
  exists new : list string,
    CodeGen.output cg' = (CodeGen.output cg ++ new)%list
    /\ label_number <$> labels_of new = nums.

(** the same with no label defined and the label counter as it was *)
Definition emits_plain (cg cg' : CodeGen.codegen) : Prop :=
  emits_numbers cg cg' [] /\ CodeGen.label_count cg' = CodeGen.label_count cg.

(** the same with [2 * n] labels, all with different numbers, taken from
    the label counter, which has moved by [2 * n] *)
Definition emits_fresh (cg cg' : CodeGen.codegen) (n : nat) : Prop :=
  exists nums,
    emits_numbers cg cg' nums
    /\ length nums = (2 * n)%nat
    /\ NoDup nums
    /\ Forall (fun k => CodeGen.label_count cg <= k < CodeGen.label_count cg') nums
    /\ CodeGen.label_count cg' = CodeGen.label_count cg + 2 * Z.of_nat n.

(** the program that a simulator holds: instructions, labels and strings *)
Definition same_program (st st' : Sim.sim) : Prop :=
  Sim.instructions st' = Sim.instructions st
  /\ Sim.labels st' = Sim.labels st
  /\ Sim.data_strings st' = Sim.data_strings st.

(** the register file has its 32 slots, each with a 32-bit value *)
Definition regs_ok (st : Sim.sim) : Prop :=
  length (Sim.regs st) = 32%nat
  /\ Forall (fun v => 0 <= v < 0x100000000) (Sim.regs st).

(** [regs_ok] is kept *)
Definition keeps_regs_ok (st st' : Sim.sim) : Prop := regs_ok st -> regs_ok st'.

(** the opcodes that [execute] tests for *)
Definition known_opcodes : list string :=
  ["li"; "la"; "move"; "add"; "addi"; "sub"; "mul"; "div"; "mflo"; "mfhi";
   "slt"; "sltu"; "and"; "andi"; "or"; "xori"; "lw"; "sw"; "beq"; "bne";
   "j"; "jal"; "jr"; "nop"].

(** a state with one label, [f], at index 7 *)
Definition one_label_state : Sim.sim :=
  Sim.with_labels (<["f" := 7]> ∅) Sim.init.

(** the state after an instruction that stores the word [v] at [addr] and
    goes on to the next instruction *)
Definition mem_write (addr v : Z) (st : Sim.sim) : Sim.sim :=
  Sim.with_pc (Sim.pc st + 1)
    (Sim.with_memory (Sim.write_mem_of (Sim.memory st) addr v) st).

(** the instructions of [gen_function] that open the frame, and those that
    close it before the [jr $ra] *)
Definition frame_enter : list string :=
  ["    addi $sp, $sp, -8";
   "    sw $ra, 4($sp)";
   "    sw $fp, 0($sp)";
   "    move $fp, $sp"].

Definition frame_leave : list string :=
  ["    move $sp, $fp";
   "    lw $fp, 0($sp)";
   "    lw $ra, 4($sp)";
   "    addi $sp, $sp, 8"].

(** a state with [sp] in [$sp], [fp] in [$fp] and [ra] in [$ra] *)
Definition frame_state (sp fp ra : Z) : Sim.sim :=
  Sim.with_regs
    (<[31%nat := ra]> (<[30%nat := fp]> (<[29%nat := sp]> (Sim.regs Sim.init))))
    Sim.init.

(** every character of [s] satisfies [p] *)
Fixpoint all_chars (p : ascii -> bool) (s : string) : bool :=
  match s with
  | EmptyString => true
  | String c s' => p c && all_chars p s'
  end.

(** a character that is no white space, no [#] and no comma *)
Definition plain_char (c : ascii) : bool :=
  negb (Py.isspace c) && negb (Ascii.eqb c "#") && negb (Ascii.eqb c ",").

(** an opcode or an operand as the generator writes them: not empty and
    made of such characters *)
Definition plain (w : string) : Prop :=
  w <> EmptyString /\ all_chars plain_char w = true.

(** an instruction as the generator writes it: four spaces, the opcode and
    the operands separated by a comma and a space *)
Definition instruction_line (op : string) (operands : list string) : string :=
  "    " +:+ op +:+
  match operands with
  | [] => EmptyString
  | _ => " " +:+ Py.join ", " operands
  end.

(** the words of the operands, as [split] finds them: every operand but
    the last is followed by its comma *)
Fixpoint with_commas (l : list string) : list string :=
  match l with
  | [] => []
  | [a] => [a]
  | a :: l' => (a +:+ ",") :: with_commas l'
  end.

(** [[o.strip() for o in operands if o.strip()]] *)
Definition clean (l : list string) : list string :=
  Py.strip <$> filter (fun o => Py.strip o <> EmptyString) l.

(** the body of [parse_offset_reg] once the sign is read: [neg] tells
    whether there is one, [s1] is the text after it *)
Definition parse_offset_reg_from (neg : bool) (operand s1 : string)
  : outcome (Z * string) :=
  let invalid := Raise (Exception ("Invalid offset(reg): " +:+ operand)) in
  let '(ds, s2) := Sim.span Py.isdigit s1 in
  match ds, s2 with
  | String _ _, String "(" (String "$" s3) =>
      let '(w, s4) := Sim.span Py.isword s3 in
      match w, s4 with
      | String _ _, String ")" _ =>
          let n := Py.digits_value 0 ds in
          Ok (if neg then - n else n, String "$" w)
      | _, _ => invalid
      end
  | _, _ => invalid
  end.

(** the variables and the stack offset of the generator are the same *)
Definition same_vars (cg cg' : CodeGen.codegen) : Prop :=
  CodeGen.vars cg' = CodeGen.vars cg
  /\ CodeGen.stack_offset cg' = CodeGen.stack_offset cg.

(** a generator state in which [x] is a declared variable *)
Definition one_var_state (x : string) (offset : Z) : CodeGen.codegen :=
  CodeGen.mkCodeGen [] [] 0 0 (<[x := offset]> ∅) (- offset).

(** two declared variables *)
Definition two_vars_state : CodeGen.codegen :=
  CodeGen.mkCodeGen [] [] 0 0 (<["y" := -8]> (<["x" := -4]> ∅)) 8.

(** the variables of the generator have slots of their own: the stack
    offset is a multiple of 4 that is not negative, every variable has an
    offset that is a multiple of 4 between minus the stack offset and -4,
    and no two variables have the same offset *)
Definition slots_ok (cg : CodeGen.codegen) : Prop :=
  0 <= CodeGen.stack_offset cg
  /\ (4 | CodeGen.stack_offset cg)
  /\ (forall x o, CodeGen.vars cg !! x = Some o ->
        - CodeGen.stack_offset cg <= o <= -4 /\ (4 | o))
  /\ (forall x y o, CodeGen.vars cg !! x = Some o -> CodeGen.vars cg !! y = Some o ->
        x = y).

(** the label and the line of the data section that [add_string] writes
    for the string [s] when the string counter is [k] *)
Definition string_label (k : Z) : string := "str" +:+ Py.str k.

Definition string_line (k : Z) (s : string) : string :=
  string_label k +:+ ": .asciiz " +:+ String Sim.quote s
  +:+ String Sim.quote EmptyString.

(** the data section holds one line for each string, the line at index
    [i] for the label [str] followed by [i], and the string counter is the
    number of lines *)
Definition data_ok (cg : CodeGen.codegen) : Prop :=
  CodeGen.string_count cg = Z.of_nat (length (CodeGen.data cg))
  /\ forall (i : nat) line, CodeGen.data cg !! i = Some line ->
       exists s, line = string_line (Z.of_nat i) s.

(** a program that prints two strings *)
Definition two_strings : program :=
  Program
    [Function "int" "main"
       [ExprStmt (Call "print_str" [String_ (StrV "hi")]);
        ExprStmt (Call "print_str" [String_ (StrV "yo")])]].

(** an instruction as [load_program] keeps them: not empty, without white
    space around it, and no comment *)
Definition inst_ok (i : string) : Prop :=
  i <> EmptyString /\ Py.strip i = i /\ Py.startswith i "#" = false.

(** the program of a simulator is well formed: its instructions are, and
    every label is the index of an instruction or the index after the
    last *)
Definition program_ok (st : Sim.sim) : Prop :=
  Forall inst_ok (Sim.instructions st)
  /\ forall l k, Sim.labels st !! l = Some k ->
       0 <= k <= Z.of_nat (length (Sim.instructions st)).

(** the machine of a simulator, what is not its program *)
Definition same_machine (st st' : Sim.sim) : Prop :=
  Sim.regs st' = Sim.regs st
  /\ Sim.memory st' = Sim.memory st
  /\ Sim.pc st' = Sim.pc st
  /\ Sim.running st' = Sim.running st
  /\ Sim.lo st' = Sim.lo st
  /\ Sim.hi st' = Sim.hi st
  /\ Sim.stdout st' = Sim.stdout st.





(** the value of a binary operator on two 32-bit values, as the emitted
    instructions compute it: the arithmetic is modulo 2^32, the division
    and the remainder are those of the unsigned values and have no value
    for a zero divisor, the four order comparisons read the values as
    signed, and a comparison gives 1 or 0 *)
Definition binop_value (op : string) (a b : Z) : option Z :=
  if String.eqb op "+" then Some ((a + b) mod 0x100000000)
  else if String.eqb op "-" then Some ((a - b) mod 0x100000000)
  else if String.eqb op "*" then Some ((a * b) mod 0x100000000)
  else if String.eqb op "/" then (if b =? 0 then None else Some (a / b))
  else if String.eqb op "%" then (if b =? 0 then None else Some (a mod b))
  else if String.eqb op "<" then Some (flag (to_signed32 a <? to_signed32 b))
  else if String.eqb op ">" then Some (flag (to_signed32 b <? to_signed32 a))
  else if String.eqb op "==" then Some (flag (a =? b))
  else if String.eqb op "!=" then Some (flag (negb (a =? b)))
  else if String.eqb op "<=" then Some (flag (negb (to_signed32 b <? to_signed32 a)))
  else if String.eqb op ">=" then Some (flag (negb (to_signed32 a <? to_signed32 b)))
  else None.

(** the value of an expression made of integer literals, variables and
    binary operators, for the values [value_of] of the variables; no value
    for the other expressions *)
Fixpoint eval (value_of : string -> option Z) (e : expr) : option Z :=
  match e with
  | Number (IntV n) => Some (n mod 0x100000000)
  | Var x => value_of x
  | BinOp op lhs rhs =>
      match eval value_of lhs, eval value_of rhs with
      | Some a, Some b => binop_value op a b
      | _, _ => None
      end
  | _ => None
  end.

(** the words of stack that the code of an expression uses: the left
    operand is on the stack while the right one is computed *)
Fixpoint stack_need (e : expr) : nat :=
  match e with
  | BinOp _ lhs rhs => Nat.max (stack_need lhs) (S (stack_need rhs))
  | _ => 0%nat
  end.

(** the value of the variable [x] in the state [st]: the word of its slot,
    as [lw] loads it *)
Definition var_value (cg : CodeGen.codegen) (st : Sim.sim) (x : string) : option Z :=
  match CodeGen.vars cg !! x with
  | Some off =>
      Some (Z.land (Sim.read_mem_of (Sim.memory st) (reg 30 st + off)) 0xFFFFFFFF)
  | None => None
  end.

(** the instructions that [gen_expr] emits for such an expression when the
    variables are [vs] *)
Fixpoint expr_code (vs : gmap string Z) (e : expr) : list string :=
  match e with
  | Number val => ["    li $t0, " +:+ format_value val]
  | Var x =>
      match vs !! x with
      | Some off => ["    lw $t0, " +:+ Py.str off +:+ "($fp)"]
      | None => []
      end
  | BinOp op lhs rhs =>
      expr_code vs lhs
      ++ ["    addi $sp, $sp, -4"; "    sw $t0, 0($sp)"]
      ++ expr_code vs rhs
      ++ ["    move $t1, $t0"; "    lw $t0, 0($sp)"; "    addi $sp, $sp, 4"]
      ++ CodeGen.binop_code op
  | _ => []
  end.

(** the instructions [lines] run from [st] to [st'] without an exception
    and leave [v] in [$t0]; [$sp] and [$fp] are as before, and so are the
    memory from the address in [$sp] upwards and the output *)
Definition computes (lines : list string) (st st' : Sim.sim) (v : Z) : Prop :=
  execute_all lines st = (Ok tt, st')
  /\ length (Sim.regs st') = 32%nat
  /\ reg 8 st' = v
  /\ reg 29 st' = reg 29 st
  /\ reg 30 st' = reg 30 st
  /\ (forall addr, reg 29 st <= addr -> Sim.memory st' !! addr = Sim.memory st !! addr)
  /\ Sim.pc st' = Sim.pc st + Z.of_nat (length lines)
  /\ Sim.stdout st' = Sim.stdout st.

(** a state with [x] at -4 holding 5 and [y] at -8 holding 7, the frame at
    0x7FFFFFF0 and the stack pointer below the two variables *)
Definition two_vars_machine : Sim.sim :=
  Sim.with_memory
    (Sim.write_mem_of (Sim.write_mem_of ∅ (0x7FFFFFF0 - 4) 5) (0x7FFFFFF0 - 8) 7)
    (frame_state 0x7FFFFFE8 0x7FFFFFF0 0).

(** [m] does not change the state *)
Definition reads_only {A : Type} (m : Sim.M A) : Prop :=
  forall st, snd (m st) = st.

(** with 32 registers [m] returns, and leaves 32 registers *)
Definition always_returns {A : Type} (m : Sim.M A) : Prop :=
  forall st, length (Sim.regs st) = 32%nat ->
    exists a st', m st = (Ok a, st') /\ length (Sim.regs st') = 32%nat.

(** with 32 registers, [m] does nothing when it raises *)
Definition atomic {A : Type} (m : Sim.M A) : Prop :=
  forall st e st', length (Sim.regs st) = 32%nat -> m st = (Raise e, st') -> st' = st.

(** the result of a parsing function: it has ended, and when it has
    returned, the position returned is between [lo] and [len] *)
Definition parsed {A : Type} (len lo : nat) (r : partial (A * nat)) : Prop :=
  exists o, r = Some o /\ forall a pos', o = Ok (a, pos') -> (lo <= pos' <= len)%nat.

(** the tokens of [int main(){ return 42; }] *)
Definition return_tokens : list token :=
  [Token KEYWORD (StrV "int") 1; Token IDENT (StrV "main") 1;
   Token PUNCT (StrV "(") 1; Token PUNCT (StrV ")") 1; Token PUNCT (StrV "{") 1;
   Token KEYWORD (StrV "return") 1; Token NUMBER (IntV 42) 1;
   Token PUNCT (StrV ";") 1; Token PUNCT (StrV "}") 1].

(** what [++] and [--] add to a variable: the generator tests for ['++']
    and takes every other operator as [--] *)
Definition increment (op : string) : Z := if String.eqb op "++" then 1 else -1.

(** * Properties

    ** Memory words *)

Section MemoryFacts.
Import Sim.

Lemma write_mem_of_unfold (mem : gmap Z Z) (a w : Z) :
  write_mem_of mem a w =
  <[a + 3 := Z.land (Z.shiftr w 24) 0xFF]>
    (<[a + 2 := Z.land (Z.shiftr w 16) 0xFF]>
      (<[a + 1 := Z.land (Z.shiftr w 8) 0xFF]>
        (<[a + 0 := Z.land (Z.shiftr w 0) 0xFF]> mem))).
Proof. reflexivity. Qed.

Lemma read_mem_of_unfold (mem : gmap Z Z) (a : Z) :
  read_mem_of mem a =
  Z.lor (Z.lor (Z.lor (Z.lor 0 (Z.shiftl (default 0 (mem !! (a + 0))) 0))
                      (Z.shiftl (default 0 (mem !! (a + 1))) 8))
               (Z.shiftl (default 0 (mem !! (a + 2))) 16))
        (Z.shiftl (default 0 (mem !! (a + 3))) 24).
Proof. reflexivity. Qed.

Lemma bytes_compose (w : Z) :
  Z.lor (Z.lor (Z.lor (Z.lor 0 (Z.shiftl (Z.land (Z.shiftr w 0) 0xFF) 0))
                      (Z.shiftl (Z.land (Z.shiftr w 8) 0xFF) 8))
               (Z.shiftl (Z.land (Z.shiftr w 16) 0xFF) 16))
        (Z.shiftl (Z.land (Z.shiftr w 24) 0xFF) 24)
  = Z.land w 0xFFFFFFFF.
Proof.
  change 0xFF with (Z.ones 8). change 0xFFFFFFFF with (Z.ones 32).
  apply Z.bits_inj'. intros n Hn.
  rewrite !Z.lor_spec, !Z.land_spec, Z.bits_0.
  rewrite !Z.shiftl_spec by lia.
  rewrite !Z.land_spec.
  rewrite !Z.testbit_ones by lia.
  repeat match goal with
       | |- context [Z.testbit (Z.shiftr ?x ?k) ?m] =>
           destruct (Z.leb_spec 0 m);
           [ rewrite (Z.shiftr_spec x k m) by lia
           | rewrite (Z.testbit_neg_r (Z.shiftr x k) m) by lia ]
       end;
  repeat match goal with
       | |- context [?a <? ?b] => destruct (Z.ltb_spec a b); try lia
       | |- context [?a <=? ?b] => destruct (Z.leb_spec a b); try lia
       end;
  simpl; rewrite ?andb_true_r, ?andb_false_r, ?orb_false_r, ?orb_false_l;
  try reflexivity; try (f_equal; lia).
Qed.

Lemma write_mem_of_inside (mem : gmap Z Z) (a w i : Z) :
  0 <= i < 4 ->
  write_mem_of mem a w !! (a + i) = Some (Z.land (Z.shiftr w (8 * i)) 0xFF).
Proof.
  intros Hi. rewrite write_mem_of_unfold.
  assert (i = 0 \/ i = 1 \/ i = 2 \/ i = 3) as [-> | [-> | [-> | ->]]] by lia;
    repeat first [ rewrite lookup_insert_eq; reflexivity
                 | rewrite lookup_insert_ne by lia ].
Qed.

Lemma write_mem_of_outside (mem : gmap Z Z) (a w b : Z) :
  ~ (a <= b < a + 4) -> write_mem_of mem a w !! b = mem !! b.
Proof.
  intros Hb. rewrite write_mem_of_unfold.
  rewrite !lookup_insert_ne by lia. reflexivity.
Qed.

Lemma read_write_mem_of (mem : gmap Z Z) (a w : Z) :
  read_mem_of (write_mem_of mem a w) a = Z.land w 0xFFFFFFFF.
Proof.
  rewrite read_mem_of_unfold.
  rewrite (write_mem_of_inside mem a w 0), (write_mem_of_inside mem a w 1),
    (write_mem_of_inside mem a w 2), (write_mem_of_inside mem a w 3) by lia.
  apply bytes_compose.
Qed.

Lemma read_mem_of_unmapped (mem : gmap Z Z) (b : Z) :
  (forall i, 0 <= i < 4 -> mem !! (b + i) = None) -> read_mem_of mem b = 0.
Proof.
  intros H. rewrite read_mem_of_unfold.
  rewrite (H 0), (H 1), (H 2), (H 3) by lia. reflexivity.
Qed.

End MemoryFacts.

(** C8. Memory words are little-endian: [write_mem(a, w)] returns
    normally and stores byte [i] of [w], that is [(w >> (8*i)) & 0xFF], at
    address [a + i] for [i] in 0..3; every other address keeps what it
    held; a [read_mem(a)] that follows returns [w & 0xFFFFFFFF] and leaves
    the state as it is; and a [read_mem] of four unmapped bytes returns 0.
    It holds for every integer address, the non-negative ones among them,
    and every integer [w]. *)
Theorem memory_words_little_endian (st : Sim.sim) (a w : Z) :
  exists st',
    Sim.write_mem a w st = (Ok tt, st')
    /\ (forall i, 0 <= i < 4 ->
         Sim.memory st' !! (a + i) = Some (Z.land (Z.shiftr w (8 * i)) 0xFF))
    /\ (forall b, ~ (a <= b < a + 4) -> Sim.memory st' !! b = Sim.memory st !! b)
    /\ Sim.read_mem a st' = (Ok (Z.land w 0xFFFFFFFF), st')
    /\ (forall b, (forall i, 0 <= i < 4 -> Sim.memory st !! (b + i) = None) ->
         Sim.read_mem b st = (Ok 0, st)).
Proof.
  eexists. split; [reflexivity |]. cbn [Sim.memory Sim.with_memory].
  split; [apply write_mem_of_inside |].
  split; [apply write_mem_of_outside |].
  split.
  - unfold Sim.read_mem, Sim.gets. cbn [Sim.memory Sim.with_memory].
    rewrite read_write_mem_of. reflexivity.
  - intros b Hb. unfold Sim.read_mem, Sim.gets.
    rewrite read_mem_of_unmapped by exact Hb. reflexivity.
Qed.

(** The word 0x11223344 written at address 100 of the initial state: the
    byte at 101 is 0x33, address 104 stays unmapped, and the word at 200,
    which is unmapped, reads as 0. *)
Lemma memory_words_little_endian_witness :
  exists st',
    Sim.write_mem 100 0x11223344 Sim.init = (Ok tt, st')
    /\ Sim.memory st' !! 101 = Some 0x33
    /\ Sim.memory st' !! 104 = None
    /\ Sim.read_mem 100 st' = (Ok 0x11223344, st')
    /\ Sim.read_mem 200 Sim.init = (Ok 0, Sim.init).
Proof.
  destruct (memory_words_little_endian Sim.init 100 0x11223344)
    as (st' & Hw & Hin & Hout & Hrd & Hun).
  exists st'. split; [exact Hw |].
  split; [exact (Hin 1 ltac:(lia)) |].
  split; [rewrite (Hout 104) by lia; reflexivity |].
  split; [exact Hrd |].
  apply Hun. intros i Hi. reflexivity.
Defined.

(** ** Registers *)

Section Preserves.
Import Sim.

Variable R : sim -> sim -> Prop.
Hypothesis R_refl : forall st, R st st.
Hypothesis R_trans : forall a b c, R a b -> R b c -> R a c.

Lemma preserves_ret {A : Type} (a : A) : preserves R (ret a).
Proof. intros st. apply R_refl. Qed.

Lemma preserves_raise {A : Type} (e : exn) : preserves R (@raise A e).
Proof. intros st. apply R_refl. Qed.

Lemma preserves_lift {A : Type} (o : outcome A) : preserves R (lift o).
Proof. intros st. apply R_refl. Qed.

Lemma preserves_gets {A : Type} (f : sim -> A) : preserves R (gets f).
Proof. intros st. apply R_refl. Qed.

Lemma preserves_modify (f : sim -> sim) :
  (forall st, R st (f st)) -> preserves R (modify f).
Proof. intros H st. apply H. Qed.

Lemma preserves_bind {A B : Type} (m : M A) (k : A -> M B) :
  preserves R m -> (forall a, preserves R (k a)) -> preserves R (bind m k).
Proof.
  intros Hm Hk st. unfold bind. specialize (Hm st).
  destruct (m st) as [[a | e] st']; cbn in *; [| exact Hm].
  eapply R_trans; [exact Hm | apply Hk].
Qed.

Lemma preserves_bind_ret {A B : Type} (a : A) (k : A -> M B) :
  preserves R (k a) -> preserves R (bind (ret a) k).
Proof. intros H st. apply H. Qed.

Lemma preserves_operand (operands : list string) (i : nat) :
  preserves R (operand operands i).
Proof. intros st. unfold operand. destruct (operands !! i); apply R_refl. Qed.

Lemma preserves_label_index (name : string) : preserves R (label_index name).
Proof. intros st. unfold label_index. destruct (labels st !! name); apply R_refl. Qed.

Lemma preserves_get_reg (name : string) : preserves R (get_reg name).
Proof.
  intros st. unfold get_reg.
  destruct (reg_names !! name) as [[| idx] |]; try apply R_refl.
  destruct (regs st !! S idx); apply R_refl.
Qed.

Lemma preserves_read_mem (addr : Z) : preserves R (read_mem addr).
Proof. apply preserves_gets. Qed.

End Preserves.

Section ZeroRegister.
Import Sim.

Lemma same_regs_refl st : same_regs st st.
Proof. reflexivity. Qed.

Lemma same_regs_trans a b c : same_regs a b -> same_regs b c -> same_regs a c.
Proof. unfold same_regs. congruence. Qed.

Lemma same_slot0_refl st : same_slot0 st st.
Proof. reflexivity. Qed.

Lemma same_slot0_trans a b c : same_slot0 a b -> same_slot0 b c -> same_slot0 a c.
Proof. unfold same_slot0. congruence. Qed.

Lemma get_reg_zero st : get_reg "$zero" st = (Ok 0, st).
Proof. reflexivity. Qed.

Lemma set_reg_zero value st : set_reg "$zero" value st = (Ok tt, st).
Proof. reflexivity. Qed.

Lemma set_reg_same_slot0 name value : preserves same_slot0 (set_reg name value).
Proof.
  intros st. unfold set_reg, same_slot0.
  destruct (reg_names !! name) as [[| idx] |]; try reflexivity.
  destruct (S idx <? length (regs st))%nat; [| reflexivity].
  cbn. destruct (regs st); reflexivity.
Qed.

Lemma set_reg_zero_same_regs value : preserves same_regs (set_reg "$zero" value).
Proof. intros st. reflexivity. Qed.

Lemma modify_same_regs (f : sim -> sim) :
  (forall st, regs (f st) = regs st) -> preserves same_regs (modify f).
Proof. intros H st. apply H. Qed.

Lemma modify_same_slot0 (f : sim -> sim) :
  (forall st, regs (f st) = regs st) -> preserves same_slot0 (modify f).
Proof. intros H st. unfold same_slot0. cbn. rewrite H. reflexivity. Qed.

End ZeroRegister.

(** one step through the text of a method, for the relation [R] *)
Ltac kept_step R Rrefl Rtrans :=
  lazymatch goal with
  | |- preserves _ (Sim.bind (Sim.ret _) _) => apply (preserves_bind_ret R)
  | |- preserves _ (Sim.bind _ _) => apply (preserves_bind R Rtrans); [ | intros ]
  | |- preserves _ (Sim.ret _) => apply (preserves_ret R Rrefl)
  | |- preserves _ (Sim.raise _) => apply (preserves_raise R Rrefl)
  | |- preserves _ (Sim.lift _) => apply (preserves_lift R Rrefl)
  | |- preserves _ (Sim.gets _) => apply (preserves_gets R Rrefl)
  | |- preserves _ (Sim.operand _ _) => apply (preserves_operand R Rrefl)
  | |- preserves _ (Sim.label_index _) => apply (preserves_label_index R Rrefl)
  | |- preserves _ (Sim.get_reg _) => apply (preserves_get_reg R Rrefl)
  | |- preserves _ (Sim.read_mem _) => apply (preserves_read_mem R Rrefl)
  | |- preserves _ (pair _) => intros ?; apply Rrefl
  | |- preserves _ (if ?b then _ else _) => destruct b
  | |- preserves _ (match ?x with _ => _ end) => destruct x
  end.

Section ZeroRegisterExec.
Import Sim.

Lemma exec_op_same_slot0 op operands : preserves same_slot0 (exec_op op operands).
Proof.
  unfold exec_op, next, print, write_mem.
  repeat first
    [ kept_step same_slot0 same_slot0_refl same_slot0_trans
    | apply set_reg_same_slot0
    | apply modify_same_slot0; intros; reflexivity ].
Qed.

Lemma exec_op_same_regs op operands :
  op <> "jal" -> operands !! 0%nat = Some "$zero" ->
  preserves same_regs (exec_op op operands).
Proof.
  intros Hjal H0.
  assert (Hop : operand operands 0 = ret "$zero")
    by (unfold operand; rewrite H0; reflexivity).
  unfold exec_op, next, print, write_mem.
  repeat first
    [ rewrite Hop
    | match goal with
      | |- preserves _ (if false then _ else ?e) => change (preserves same_regs e)
      | |- preserves _ (if String.eqb ?o "jal" then _ else _) =>
          destruct (String.eqb_spec o "jal") as [? | _]; [contradiction |]
      end
    | kept_step same_regs same_regs_refl same_regs_trans
    | apply set_reg_zero_same_regs
    | apply modify_same_regs; intros; reflexivity ].
Qed.

Lemma execute_same_slot0 inst : preserves same_slot0 (execute inst).
Proof.
  unfold execute. destruct (decode inst) as [[op operands] |].
  - apply exec_op_same_slot0.
  - apply modify_same_slot0. reflexivity.
Qed.

Lemma run_loop_same_slot0 fuel iterations executed st o i n st' :
  run_loop fuel iterations executed st = Some (o, i, n, st') -> same_slot0 st st'.
Proof.
  revert iterations executed st.
  induction fuel as [| fuel IH]; intros iterations executed st H; [discriminate |].
  cbn [run_loop] in H.
  destruct (running st && (iterations <? max_iter)); [| injection H as _ _ _ <-; reflexivity].
  destruct (pc st >=? Z.of_nat (length (instructions st)));
    [injection H as _ _ _ <-; reflexivity |].
  destruct (Py.index (instructions st) (pc st)) as [raw | e];
    [| injection H as _ _ _ <-; reflexivity].
  destruct (String.eqb (Py.strip raw) EmptyString || Py.startswith (Py.strip raw) "#").
  - apply IH in H. exact H.
  - pose proof (execute_same_slot0 (Py.strip raw) st) as Hx.
    destruct (execute (Py.strip raw) st) as [[[] | e] st1]; cbn in Hx.
    + apply IH in H. eapply same_slot0_trans; eassumption.
    + injection H as _ _ _ <-. exact Hx.
Qed.

Lemma load_line_regs line ld st : regs (snd (load_line line (ld, st))) = regs st.
Proof.
  unfold load_line, flush_string.
  repeat match goal with
         | |- context [if ?b then _ else _] => destruct b
         | |- context [match ?x with _ => _ end] => destruct x
         end; reflexivity.
Qed.

Lemma load_lines_regs lines ld st :
  regs (snd (fold_left (fun s line => load_line line s) lines (ld, st))) = regs st.
Proof.
  revert ld st. induction lines as [| l lines IH]; intros ld st; [reflexivity |].
  cbn [fold_left]. destruct (load_line l (ld, st)) as [ld1 st1] eqn:E.
  rewrite IH. pose proof (load_line_regs l ld st) as H. rewrite E in H. exact H.
Qed.

Lemma load_program_init_slot0 asm :
  regs (snd (load_program asm init)) !! 0%nat = Some 0.
Proof.
  unfold load_program.
  pose proof (load_lines_regs (Py.split_on (ascii_of_nat 10) asm)
                (mkLoader false false None EmptyString) init) as H.
  destruct (fold_left _ _ _) as [ld st]. cbn [snd] in H.
  pose proof (set_reg_same_slot0 "$sp" 0x7ffffffc st) as Hs.
  unfold same_slot0 in Hs. rewrite Hs, H. reflexivity.
Qed.


End ZeroRegisterExec.

(** C5. Register [$zero] is wired to zero. A write to it through
    [set_reg] returns the state as it was, a read of it through [get_reg]
    returns 0 in every state; an instruction of any kind whose destination
    operand is [$zero] leaves the registers as they were ([jal] has a label
    as its operand, and writes [$ra]); no instruction at all changes slot
    0; and slot 0 holds 0 in every state that a run of a loaded program
    ends in. *)
Theorem zero_register_wired :
  (forall value st, Sim.set_reg "$zero" value st = (Ok tt, st))
  /\ (forall st, Sim.get_reg "$zero" st = (Ok 0, st))
  /\ (forall op operands st,
        op <> "jal" -> operands !! 0%nat = Some "$zero" ->
        Sim.regs (snd (Sim.exec_op op operands st)) = Sim.regs st)
  /\ (forall inst st,
        Sim.regs (snd (Sim.execute inst st)) !! 0%nat = Sim.regs st !! 0%nat)
  /\ (forall asm fuel o i n st,
        simulate fuel asm = Some (o, i, n, st) -> Sim.regs st !! 0%nat = Some 0).
Proof.
  split; [exact set_reg_zero |].
  split; [exact get_reg_zero |].
  split; [intros op operands st Hjal H0; exact (exec_op_same_regs op operands Hjal H0 st) |].
  split; [intros inst st; exact (execute_same_slot0 inst st) |].
  intros asm fuel o i n st. unfold simulate.
  pose proof (load_program_init_slot0 asm) as Hl.
  destruct (Sim.load_program asm Sim.init) as [[[] | e] st0]; cbn [snd] in Hl.
  - unfold Sim.run. destruct (Sim.labels st0 !! "main") as [l |].
    + intros H. apply run_loop_same_slot0 in H. unfold same_slot0 in H.
      rewrite H. exact Hl.
    + intros H. injection H as _ _ _ <-. exact Hl.
  - intros H. injection H as _ _ _ <-. exact Hl.
Qed.

(** [li $zero, 5] and [lw $zero, 0($sp)] leave the registers of the
    initial state as they are, and the run of [zero_writes] ends with 0 in
    slot 0. *)
Lemma zero_register_wired_witness :
  Sim.regs (snd (Sim.exec_op "li" ["$zero"; "5"] Sim.init)) = Sim.regs Sim.init
  /\ Sim.regs (snd (Sim.exec_op "lw" ["$zero"; "0($sp)"] Sim.init)) = Sim.regs Sim.init
  /\ exists st, simulate 10 zero_writes = Some (Ok tt, 3, 3, st)
                /\ Sim.regs st !! 0%nat = Some 0.
Proof.
  destruct zero_register_wired as (_ & _ & Hexec & _ & Hrun).
  split; [apply Hexec; [discriminate | reflexivity] |].
  split; [apply Hexec; [discriminate | reflexivity] |].
  eexists. split; [vm_compute; reflexivity |].
  eapply (Hrun zero_writes 10%nat). vm_compute. reflexivity.
Defined.

(** ** Division *)

Section Division.
Import Sim.

Lemma exec_div_unfold operands :
  exec_op "div" operands =
  (do r0 <- operand operands 0; do val1 <- get_reg r0;
   do r1 <- operand operands 1; do val2 <- get_reg r1;
   if val2 =? 0 then raise (Exception "Division by zero")
   else modify (with_lo_hi (val1 / val2) (val1 mod val2));; next).
Proof. reflexivity. Qed.

Lemma exec_div r1 r2 v1 v2 st :
  get_reg r1 st = (Ok v1, st) -> get_reg r2 st = (Ok v2, st) ->
  exec_op "div" [r1; r2] st =
  if v2 =? 0 then (Raise (Exception "Division by zero"), st)
  else (Ok tt, with_pc (pc st + 1) (with_lo_hi (v1 / v2) (v1 mod v2) st)).
Proof.
  intros H1 H2. rewrite exec_div_unfold. unfold bind, operand, ret.
  cbn [lookup list_lookup]. rewrite H1, H2.
  destruct (v2 =? 0); reflexivity.
Qed.

(** an instruction that has an opcode is neither empty nor a comment *)
Lemma decode_some_runs inst x :
  decode inst = Some x ->
  String.eqb inst EmptyString || Py.startswith inst "#" = false.
Proof.
  destruct inst as [| c s]; [discriminate |].
  intros H. cbn [String.eqb orb Py.startswith].
  destruct (Ascii.eqb_spec "#" c) as [<- | Hc]; [| reflexivity].
  exfalso. revert H. unfold decode. cbn. discriminate.
Qed.

End Division.

(** C4. [div r1, r2], for registers [r1] and [r2] holding [v1] and
    [v2]. It raises the division-by-zero exception if and only if [v2] is
    0, and the state at the raise is the state before the instruction. When
    the run loop meets the instruction with [v2 = 0], the run ends there
    with that exception, the state and the iteration count as they were.
    When [v2] is not 0 the instruction returns, [lo] holds the quotient
    [v1 // v2] and [hi] the remainder [v1 % v2] of the values held, the
    program counter has moved to the next instruction and nothing else has
    changed. *)
Theorem div_by_zero_fatal (st : Sim.sim) (r1 r2 : string) (v1 v2 : Z) :
  Sim.get_reg r1 st = (Ok v1, st) ->
  Sim.get_reg r2 st = (Ok v2, st) ->
  (Sim.exec_op "div" [r1; r2] st = (Raise (Exception "Division by zero"), st) <-> v2 = 0)
  /\ (forall e st', Sim.exec_op "div" [r1; r2] st = (Raise e, st') ->
        e = Exception "Division by zero" /\ st' = st /\ v2 = 0)
  /\ (v2 = 0 ->
      forall fuel iterations executed raw,
        Sim.running st = true -> iterations < Sim.max_iter ->
        Sim.pc st < Z.of_nat (length (Sim.instructions st)) ->
        Py.index (Sim.instructions st) (Sim.pc st) = Ok raw ->
        Sim.decode (Py.strip raw) = Some ("div", [r1; r2]) ->
        Sim.run_loop (S fuel) iterations executed st
        = Some (Raise (Exception "Division by zero"), iterations, executed + 1, st))
  /\ (v2 <> 0 ->
      Sim.exec_op "div" [r1; r2] st
      = (Ok tt, Sim.with_pc (Sim.pc st + 1) (Sim.with_lo_hi (v1 / v2) (v1 mod v2) st))).
Proof.
  intros H1 H2. pose proof (exec_div r1 r2 v1 v2 st H1 H2) as Hx.
  split; [| split; [| split]].
  - rewrite Hx. destruct (Z.eqb_spec v2 0); split; congruence.
  - intros e st'. rewrite Hx. destruct (Z.eqb_spec v2 0); intros H; inversion H; auto.
  - intros Hz fuel iterations executed raw Hrun Hit Hpc Hraw Hdec.
    cbn [Sim.run_loop]. rewrite Hrun.
    destruct (Z.ltb_spec iterations Sim.max_iter); [| lia]. cbn [andb].
    destruct (Z.geb_spec (Sim.pc st) (Z.of_nat (length (Sim.instructions st)))); [lia |].
    rewrite Hraw, (decode_some_runs _ _ Hdec).
    unfold Sim.execute. rewrite Hdec, Hx, Hz. reflexivity.
  - intros Hnz. rewrite Hx. destruct (Z.eqb_spec v2 0); [contradiction | reflexivity].
Qed.

(** In [div_zero_state] the instruction raises and the run ends at once;
    in [div_seven_two_state] it leaves 3 in [lo] and 1 in [hi]. *)
Lemma div_by_zero_fatal_witness :
  Sim.exec_op "div" ["$t0"; "$t1"] div_zero_state
    = (Raise (Exception "Division by zero"), div_zero_state)
  /\ Sim.run_loop 1 0 0 div_zero_state
     = Some (Raise (Exception "Division by zero"), 0, 1, div_zero_state)
  /\ Sim.exec_op "div" ["$t0"; "$t1"] div_seven_two_state
     = (Ok tt, Sim.with_pc 1 (Sim.with_lo_hi 3 1 div_seven_two_state)).
Proof.
  destruct (div_by_zero_fatal div_zero_state "$t0" "$t1" 0 0 eq_refl eq_refl)
    as (Hiff & _ & Hrun & _).
  destruct (div_by_zero_fatal div_seven_two_state "$t0" "$t1" 7 2 eq_refl eq_refl)
    as (_ & _ & _ & Hok).
  split; [apply Hiff; reflexivity |].
  split; [apply (Hrun eq_refl 0%nat 0 0 "div $t0, $t1");
          [reflexivity | reflexivity | reflexivity | reflexivity | reflexivity] |].
  apply Hok. discriminate.
Defined.

(** ** Load address *)

Section LoadAddress.
Import Sim.

Lemma len_nonneg s : 0 <= Py.len s.
Proof. unfold Py.len. lia. Qed.

Lemma len_String c s : Py.len (String c s) = Py.len s + 1.
Proof. unfold Py.len. cbn [String.length]. lia. Qed.

Lemma length_chars s : length (list_ascii_of_string s) = String.length s.
Proof. induction s as [| c s IH]; cbn; [reflexivity | rewrite IH; reflexivity]. Qed.

Lemma store_chars_other s : forall mem addr k b,
  ~ (addr + k <= b < addr + k + Py.len s) ->
  store_chars mem addr k s !! b = mem !! b.
Proof.
  induction s as [| c s IH]; intros mem addr k b Hb; [reflexivity |].
  cbn [store_chars]. rewrite len_String in Hb. pose proof (len_nonneg s).
  rewrite IH by lia. apply lookup_insert_ne. lia.
Qed.

Lemma store_chars_lookup s : forall mem addr k (i : nat) c,
  list_ascii_of_string s !! i = Some c ->
  store_chars mem addr k s !! (addr + k + Z.of_nat i) = Some (Py.ord c).
Proof.
  induction s as [| d s IH]; intros mem addr k i c Hi; [destruct i; discriminate |].
  cbn [store_chars]. destruct i as [| i]; cbn in Hi.
  - injection Hi as ->. rewrite store_chars_other by lia.
    replace (addr + k + Z.of_nat 0) with (addr + k) by lia. apply lookup_insert_eq.
  - replace (addr + k + Z.of_nat (S i)) with (addr + (k + 1) + Z.of_nat i) by lia.
    apply IH. exact Hi.
Qed.

Lemma reg_names_bound name idx : reg_names !! name = Some idx -> (idx < 32)%nat.
Proof.
  intros H. apply elem_of_list_to_map_2 in H.
  repeat (apply elem_of_cons in H; destruct H as [H | H]; [injection H as _ ->; lia |]).
  inversion H.
Qed.

Lemma set_reg_writable name idx value st :
  reg_names !! name = Some (S idx) -> length (regs st) = 32%nat ->
  set_reg name value st
  = (Ok tt, with_regs (<[S idx := Z.land value 0xFFFFFFFF]> (regs st)) st).
Proof.
  intros Hn Hl. unfold set_reg. rewrite Hn. pose proof (reg_names_bound _ _ Hn).
  destruct (Nat.ltb_spec (S idx) (length (regs st))); [reflexivity | lia].
Qed.

Lemma get_reg_readable name idx v st :
  reg_names !! name = Some (S idx) -> regs st !! S idx = Some v ->
  get_reg name st = (Ok v, st).
Proof. intros Hn Hv. unfold get_reg. rewrite Hn, Hv. reflexivity. Qed.

Lemma land_word v : 0 <= v < 0x100000000 -> Z.land v 0xFFFFFFFF = v.
Proof.
  intros Hv. change 0xFFFFFFFF with (Z.ones 32).
  rewrite Z.land_ones by lia. apply Z.mod_small. exact Hv.
Qed.

Lemma exec_la_unfold operands :
  exec_op "la" operands =
  (do label <- operand operands 1;
   do strings <- gets data_strings;
   match strings !! label with
   | Some string =>
       let addr := 0x10000000 + Py.len label in
       do rd <- operand operands 0;
       set_reg rd addr;;
       modify (fun st => with_memory (store_chars (memory st) addr 0 string) st);;
       modify (fun st => with_memory (<[addr + Py.len string := 0]> (memory st)) st);;
       next
   | None => raise (Exception ("Unknown label: " +:+ label))
   end).
Proof. reflexivity. Qed.

(** the state after [la rd, L] *)
Lemma exec_la rd L s idx st :
  reg_names !! rd = Some (S idx) -> length (regs st) = 32%nat ->
  data_strings st !! L = Some s ->
  exec_op "la" [rd; L] st =
  (Ok tt,
   mkSim (<[S idx := Z.land (0x10000000 + Py.len L) 0xFFFFFFFF]> (regs st))
         (<[0x10000000 + Py.len L + Py.len s := 0]>
            (store_chars (memory st) (0x10000000 + Py.len L) 0 s))
         (data_strings st) (labels st) (pc st + 1) (instructions st)
         (running st) (lo st) (hi st) (stdout st)).
Proof.
  intros Hn Hl Hs. rewrite exec_la_unfold.
  unfold bind, operand, ret, gets. cbn [lookup list_lookup]. rewrite Hs.
  cbv zeta. rewrite (set_reg_writable rd idx _ st Hn Hl). reflexivity.
Qed.

End LoadAddress.

Section LoadAddressSpec.
Import Sim.

(** what [la rd, L] does to the state *)
Lemma la_spec rd L s idx st :
  reg_names !! rd = Some (S idx) -> length (regs st) = 32%nat ->
  data_strings st !! L = Some s -> Py.len L < 0xF0000000 ->
  exists st',
    exec_op "la" [rd; L] st = (Ok tt, st')
    /\ regs st' = <[S idx := 0x10000000 + Py.len L]> (regs st)
    /\ data_strings st' = data_strings st
    /\ (forall (i : nat) c, list_ascii_of_string s !! i = Some c ->
          memory st' !! (0x10000000 + Py.len L + Z.of_nat i) = Some (Py.ord c))
    /\ memory st' !! (0x10000000 + Py.len L + Py.len s) = Some 0.
Proof.
  intros Hn Hl Hs Hlen. eexists. split; [apply (exec_la rd L s idx st Hn Hl Hs) |].
  cbn [regs data_strings memory]. pose proof (len_nonneg L).
  split; [rewrite land_word by lia; reflexivity |].
  split; [reflexivity |].
  split.
  - intros i c Hi. apply lookup_lt_Some in Hi as Hlt.
    rewrite length_chars in Hlt.
    rewrite lookup_insert_ne by (unfold Py.len; lia).
    replace (0x10000000 + Py.len L + Z.of_nat i)
      with (0x10000000 + Py.len L + 0 + Z.of_nat i) by lia.
    apply store_chars_lookup. exact Hi.
  - apply lookup_insert_eq.
Qed.

Lemma get_reg_after_insert name idx v l st :
  reg_names !! name = Some (S idx) -> length l = 32%nat ->
  regs st = <[S idx := v]> l -> get_reg name st = (Ok v, st).
Proof.
  intros Hn Hl Hr. apply (get_reg_readable name idx v st Hn).
  rewrite Hr. apply list_lookup_insert_eq.
  pose proof (reg_names_bound _ _ Hn). lia.
Qed.

End LoadAddressSpec.

(** C10. [la rd, L], for a register [rd] other than [$zero] and a label
    [L] of the data section with content [s], the name [L] shorter than
    0xF0000000 characters so that the address fits a register. The
    instruction returns; [rd] holds [0x10000000 + len(L)]; the character
    codes of [s] are at the consecutive addresses from there, and a 0 byte
    follows them. As the address depends on the length of the name only, a
    later [la rd2, L2] for another label [L2] with a name of the same
    length gives [rd2] the same address, [rd] still holds it, and the bytes
    there are now those of the content of [L2] with its 0 byte. *)
Theorem la_materializes (st : Sim.sim) (rd L s : string) (idx : nat) :
  Sim.reg_names !! rd = Some (S idx) ->
  length (Sim.regs st) = 32%nat ->
  Sim.data_strings st !! L = Some s ->
  Py.len L < 0xF0000000 ->
  exists st',
    Sim.exec_op "la" [rd; L] st = (Ok tt, st')
    /\ Sim.get_reg rd st' = (Ok (0x10000000 + Py.len L), st')
    /\ (forall (i : nat) c, list_ascii_of_string s !! i = Some c ->
          Sim.memory st' !! (0x10000000 + Py.len L + Z.of_nat i) = Some (Py.ord c))
    /\ Sim.memory st' !! (0x10000000 + Py.len L + Py.len s) = Some 0
    /\ (forall L2 s2 rd2 idx2,
          L2 <> L -> Py.len L2 = Py.len L ->
          Sim.data_strings st !! L2 = Some s2 ->
          Sim.reg_names !! rd2 = Some (S idx2) ->
          exists st'',
            Sim.exec_op "la" [rd2; L2] st' = (Ok tt, st'')
            /\ Sim.get_reg rd2 st'' = (Ok (0x10000000 + Py.len L), st'')
            /\ Sim.get_reg rd st'' = (Ok (0x10000000 + Py.len L), st'')
            /\ (forall (i : nat) c, list_ascii_of_string s2 !! i = Some c ->
                  Sim.memory st'' !! (0x10000000 + Py.len L + Z.of_nat i)
                  = Some (Py.ord c))
            /\ Sim.memory st'' !! (0x10000000 + Py.len L + Py.len s2) = Some 0).
Proof.
  intros Hn Hl Hs Hlen.
  destruct (la_spec rd L s idx st Hn Hl Hs Hlen) as (st' & Hx & Hr & Hd & Hm & Hz).
  exists st'. split; [exact Hx |].
  split; [exact (get_reg_after_insert rd idx _ _ st' Hn Hl Hr) |].
  split; [exact Hm |]. split; [exact Hz |].
  intros L2 s2 rd2 idx2 _ Hlen2 Hs2 Hn2.
  assert (Hl' : length (Sim.regs st') = 32%nat) by (rewrite Hr, length_insert; exact Hl).
  rewrite <- Hd in Hs2. rewrite <- Hlen2 in Hlen.
  destruct (la_spec rd2 L2 s2 idx2 st' Hn2 Hl' Hs2 Hlen)
    as (st'' & Hx2 & Hr2 & _ & Hm2 & Hz2).
  rewrite Hlen2 in *.
  exists st''. split; [exact Hx2 |].
  split; [exact (get_reg_after_insert rd2 idx2 _ _ st'' Hn2 Hl' Hr2) |].
  split; [| split; [exact Hm2 | exact Hz2]].
  apply (get_reg_readable rd idx _ st'' Hn). rewrite Hr2, Hr.
  pose proof (reg_names_bound _ _ Hn). pose proof (reg_names_bound _ _ Hn2).
  destruct (decide (idx2 = idx)) as [-> | Hne].
  - apply list_lookup_insert_eq. rewrite length_insert. lia.
  - rewrite list_lookup_insert_ne by lia. apply list_lookup_insert_eq. lia.
Qed.

(** [la $t0, str0] and then [la $a0, str1] in [two_strings_state]: both
    registers hold 0x10000004, where the byte is first that of [h] and then
    that of [y]. *)
Lemma la_materializes_witness :
  exists st' st'',
    Sim.exec_op "la" ["$t0"; "str0"] two_strings_state = (Ok tt, st')
    /\ Sim.get_reg "$t0" st' = (Ok 0x10000004, st')
    /\ Sim.memory st' !! 0x10000004 = Some 104
    /\ Sim.memory st' !! 0x10000006 = Some 0
    /\ Sim.exec_op "la" ["$a0"; "str1"] st' = (Ok tt, st'')
    /\ Sim.get_reg "$a0" st'' = (Ok 0x10000004, st'')
    /\ Sim.get_reg "$t0" st'' = (Ok 0x10000004, st'')
    /\ Sim.memory st'' !! 0x10000004 = Some 121
    /\ Sim.memory st'' !! 0x10000006 = Some 0.
Proof.
  destruct (la_materializes two_strings_state "$t0" "str0" "hi" 7
              eq_refl eq_refl eq_refl eq_refl)
    as (st' & Hx & Hr & Hm & Hz & Hnext).
  destruct (Hnext "str1" "yo" "$a0" 3%nat ltac:(discriminate) eq_refl eq_refl eq_refl)
    as (st'' & Hx2 & Hr2 & Hr1 & Hm2 & Hz2).
  exists st', st''.
  split; [exact Hx |]. split; [exact Hr |].
  split; [exact (Hm 0%nat "h"%char eq_refl) |]. split; [exact Hz |].
  split; [exact Hx2 |]. split; [exact Hr2 |]. split; [exact Hr1 |].
  split; [exact (Hm2 0%nat "y"%char eq_refl) | exact Hz2].
Defined.

(** ** Relational operators *)

Section Relational.
Import Sim.

Ltac by_registers st :=
  let rs := fresh "rs" in
  let Hl := fresh "Hl" in
  intros Hl; destruct st as [rs ? ? ? ? ? ? ? ? ?]; cbn in Hl;
  do 32 (destruct rs as [| ? rs]; [discriminate Hl |]);
  destruct rs; [reflexivity | discriminate Hl].

Lemma step_sub st : length (regs st) = 32%nat ->
  execute "    sub $t0, $t0, $t1" st = (Ok tt, rd_write 8 (reg 8 st - reg 9 st) st).
Proof. by_registers st. Qed.

Lemma step_slt_t2 st : length (regs st) = 32%nat ->
  execute "    slt $t2, $t0, $zero" st
  = (Ok tt, rd_write 10 (if signed (reg 8 st) <? signed 0 then 1 else 0) st).
Proof. by_registers st. Qed.

Lemma step_slt_t3 st : length (regs st) = 32%nat ->
  execute "    slt $t3, $zero, $t0" st
  = (Ok tt, rd_write 11 (if signed 0 <? signed (reg 8 st) then 1 else 0) st).
Proof. by_registers st. Qed.

Lemma step_or st : length (regs st) = 32%nat ->
  execute "    or $t0, $t2, $t3" st
  = (Ok tt, rd_write 8 (Z.lor (reg 10 st) (reg 11 st)) st).
Proof. by_registers st. Qed.

Lemma step_xori st : length (regs st) = 32%nat ->
  execute "    xori $t0, $t0, 1" st = (Ok tt, rd_write 8 (Z.lxor (reg 8 st) 1) st).
Proof. by_registers st. Qed.

Lemma step_sltu st : length (regs st) = 32%nat ->
  execute "    sltu $t0, $zero, $t0" st
  = (Ok tt, rd_write 8 (if 0 <? reg 8 st then 1 else 0) st).
Proof. by_registers st. Qed.

Lemma step_andi st : length (regs st) = 32%nat ->
  execute "    andi $t0, $t0, 1" st = (Ok tt, rd_write 8 (Z.land (reg 8 st) 1) st).
Proof. by_registers st. Qed.

Lemma step_slt_lt st : length (regs st) = 32%nat ->
  execute "    slt $t0, $t0, $t1" st
  = (Ok tt, rd_write 8 (if signed (reg 8 st) <? signed (reg 9 st) then 1 else 0) st).
Proof. by_registers st. Qed.

Lemma step_slt_gt st : length (regs st) = 32%nat ->
  execute "    slt $t0, $t1, $t0" st
  = (Ok tt, rd_write 8 (if signed (reg 9 st) <? signed (reg 8 st) then 1 else 0) st).
Proof. by_registers st. Qed.

Lemma rd_write_length d v st : length (regs (rd_write d v st)) = length (regs st).
Proof. unfold rd_write. cbn. apply length_insert. Qed.

Lemma reg_rd_write_eq d v st :
  (d < length (regs st))%nat -> reg d (rd_write d v st) = Z.land v 0xFFFFFFFF.
Proof.
  intros H. unfold reg, rd_write. cbn.
  rewrite list_lookup_insert_eq by exact H. reflexivity.
Qed.

Lemma reg_rd_write_ne d i v st : d <> i -> reg i (rd_write d v st) = reg i st.
Proof.
  intros H. unfold reg, rd_write. cbn.
  rewrite list_lookup_insert_ne by exact H. reflexivity.
Qed.

Lemma get_reg_t0 st : length (regs st) = 32%nat -> get_reg "$t0" st = (Ok (reg 8 st), st).
Proof. by_registers st. Qed.

End Relational.

Section RelationalArith.
Import Sim.

Lemma land_sign_bit v :
  0 <= v < 0x100000000 -> (Z.land v 0x80000000 =? 0) = (v <? 0x80000000).
Proof.
  intros Hv. change 0x80000000 with (2 ^ 31).
  destruct (Z.ltb_spec v (2 ^ 31)) as [Hlt | Hge].
  - apply Z.eqb_eq. apply Z.bits_inj'. intros n Hn.
    rewrite Z.land_spec, Z.bits_0, Z.pow2_bits_eqb by lia.
    destruct (Z.eqb_spec 31 n) as [<- | Hne]; [| apply andb_false_r].
    rewrite andb_true_r. apply Z.testbit_false; [lia |].
    rewrite Z.div_small by lia. reflexivity.
  - apply Z.eqb_neq. intros H0.
    assert (Ht : Z.testbit (Z.land v (2 ^ 31)) 31 = true).
    { rewrite Z.land_spec, Z.pow2_bits_eqb by lia. rewrite andb_true_r.
      apply Z.testbit_true; [lia |].
      replace (v / 2 ^ 31) with 1; [reflexivity |].
      change (2 ^ 31) with 2147483648 in *.
      apply Z.div_unique with (r := v - 2147483648); lia. }
    rewrite H0, Z.bits_0 in Ht. discriminate.
Qed.

Lemma signed_to_signed32 v : 0 <= v < 0x100000000 -> signed v = to_signed32 v.
Proof. intros Hv. unfold signed, to_signed32. rewrite land_sign_bit by exact Hv. reflexivity. Qed.

Lemma land_mask_range v : 0 <= Z.land v 0xFFFFFFFF < 0x100000000.
Proof.
  change 0xFFFFFFFF with (Z.ones 32). rewrite Z.land_ones by lia.
  change (2 ^ 32) with 0x100000000. apply Z.mod_pos_bound. lia.
Qed.

Lemma difference_zero a b :
  0 <= a < 0x100000000 -> 0 <= b < 0x100000000 ->
  (Z.land (a - b) 0xFFFFFFFF = 0 <-> a = b).
Proof.
  intros Ha Hb. change 0xFFFFFFFF with (Z.ones 32). rewrite Z.land_ones by lia.
  change (2 ^ 32) with 4294967296. split.
  - intros H0. pose proof (Z.div_mod (a - b) 4294967296 ltac:(lia)) as Hdm.
    rewrite H0 in Hdm. lia.
  - intros ->. rewrite Z.sub_diag. reflexivity.
Qed.

Lemma signed_difference_zero a b :
  0 <= a < 0x100000000 -> 0 <= b < 0x100000000 ->
  (signed (Z.land (a - b) 0xFFFFFFFF) = 0 <-> a = b).
Proof.
  intros Ha Hb. rewrite <- (difference_zero a b Ha Hb).
  pose proof (land_mask_range (a - b)) as Hr.
  rewrite signed_to_signed32 by exact Hr. unfold to_signed32.
  destruct (Z.ltb_spec (Z.land (a - b) 0xFFFFFFFF) 0x80000000); lia.
Qed.

Lemma execute_all_step inst rest st st1 :
  execute inst st = (Ok tt, st1) -> execute_all (inst :: rest) st = execute_all rest st1.
Proof. intros H. cbn [execute_all]. unfold bind. rewrite H. reflexivity. Qed.

Lemma get_reg_t1 st : length (regs st) = 32%nat -> get_reg "$t1" st = (Ok (reg 9 st), st).
Proof.
  intros Hl; destruct st as [rs ? ? ? ? ? ? ? ? ?]; cbn in Hl;
  do 32 (destruct rs as [| ? rs]; [discriminate Hl |]);
  destruct rs; [reflexivity | discriminate Hl].
Qed.

End RelationalArith.

Ltac step_lemma inst :=
  lazymatch inst with
  | "    sub $t0, $t0, $t1" => constr:(step_sub)
  | "    slt $t2, $t0, $zero" => constr:(step_slt_t2)
  | "    slt $t3, $zero, $t0" => constr:(step_slt_t3)
  | "    or $t0, $t2, $t3" => constr:(step_or)
  | "    xori $t0, $t0, 1" => constr:(step_xori)
  | "    sltu $t0, $zero, $t0" => constr:(step_sltu)
  | "    andi $t0, $t0, 1" => constr:(step_andi)
  | "    slt $t0, $t0, $t1" => constr:(step_slt_lt)
  | "    slt $t0, $t1, $t0" => constr:(step_slt_gt)
  end.

Ltac one_step :=
  lazymatch goal with
  | |- execute_all (?inst :: ?rest) ?s = _ =>
      let lem := step_lemma inst in
      let Hlen := fresh "Hlen" in
      assert (Hlen : length (Sim.regs s) = 32%nat)
        by (rewrite ?rd_write_length; assumption);
      rewrite (execute_all_step inst rest s _ (lem s Hlen)); clear Hlen
  end.

Ltac all_steps := repeat one_step.

Ltac read_regs :=
  repeat first
    [ rewrite reg_rd_write_eq by (rewrite ?rd_write_length; lia)
    | rewrite reg_rd_write_ne by lia ].

(** the sequence of [op] is run, and what is left is the value of [$t0] *)
Ltac run_sequence op :=
  let code := eval vm_compute in (CodeGen.binop_code op) in
  unfold leaves_in_t0; change (CodeGen.binop_code op) with code;
  eexists; split; [all_steps; reflexivity |];
  rewrite get_reg_t0 by (rewrite ?rd_write_length; assumption);
  f_equal; f_equal; read_regs.

Lemma output_emits lines : forall cg,
  CodeGen.output (CodeGen.emits lines cg) = (CodeGen.output cg ++ lines)%list.
Proof.
  induction lines as [| l lines IH]; intros cg; [symmetry; apply app_nil_r |].
  unfold CodeGen.emits. cbn [fold_left]. fold (CodeGen.emits lines (CodeGen.emit l cg)).
  rewrite IH. cbn [CodeGen.emit CodeGen.output]. rewrite <- app_assoc. reflexivity.
Qed.

(** C1. The output of the generator for a binary operation ends with the
    instructions of its operator, [binop_code]. Those of a relational
    operator, run by the simulator in a state that holds the 32-bit values
    [a] in [$t0] and [b] in [$t1], return and leave in [$t0]: for [==], 1
    if [a] equals [b] and 0 if not; for [!=], 1 if they differ and 0 if
    not; for [<] and [>], 1 or 0 as the strict inequality of the values
    read as signed 32-bit numbers holds or not; for [<=] and [>=], the
    negation of the strict inequality the other way round. *)
Theorem relational_lowering (st : Sim.sim) (a b : Z) :
  length (Sim.regs st) = 32%nat ->
  0 <= a < 0x100000000 -> 0 <= b < 0x100000000 ->
  Sim.get_reg "$t0" st = (Ok a, st) -> Sim.get_reg "$t1" st = (Ok b, st) ->
  (forall op lhs rhs cg cg',
     CodeGen.gen_expr (BinOp op lhs rhs) cg = Ok cg' ->
     exists before : list string,
       CodeGen.output cg' = (before ++ CodeGen.binop_code op)%list)
  /\ leaves_in_t0 "==" st (flag (a =? b))
  /\ leaves_in_t0 "!=" st (flag (negb (a =? b)))
  /\ leaves_in_t0 "<" st (flag (to_signed32 a <? to_signed32 b))
  /\ leaves_in_t0 ">" st (flag (to_signed32 b <? to_signed32 a))
  /\ leaves_in_t0 "<=" st (flag (negb (to_signed32 b <? to_signed32 a)))
  /\ leaves_in_t0 ">=" st (flag (negb (to_signed32 a <? to_signed32 b))).
Proof.
  intros Hl Ha Hb H0 H1.
  rewrite get_reg_t0 in H0 by exact Hl. rewrite get_reg_t1 in H1 by exact Hl.
  injection H0 as H0. injection H1 as H1.
  pose proof (signed_difference_zero a b Ha Hb) as Hd.
  pose proof (difference_zero a b Ha Hb) as Hu.
  pose proof (land_mask_range (a - b)) as Hr.
  rewrite <- (signed_to_signed32 a Ha), <- (signed_to_signed32 b Hb).
  split.
  { intros op lhs rhs cg cg' H. cbn [CodeGen.gen_expr] in H.
    destruct (CodeGen.gen_expr lhs cg) as [cg1 |]; cbn [obind] in H; [| discriminate].
    destruct (CodeGen.gen_expr rhs _) as [cg2 |]; cbn [obind] in H; [| discriminate].
    injection H as <-. eexists. apply output_emits. }
  repeat split.
  - run_sequence "==". rewrite H0, H1. change (Sim.signed 0) with 0.
    destruct (Z.ltb_spec (Sim.signed (Z.land (a - b) 0xFFFFFFFF)) 0),
      (Z.ltb_spec 0 (Sim.signed (Z.land (a - b) 0xFFFFFFFF))),
      (Z.eqb_spec a b); try reflexivity; lia.
  - run_sequence "!=". rewrite H0, H1.
    destruct (Z.ltb_spec 0 (Z.land (a - b) 0xFFFFFFFF)), (Z.eqb_spec a b);
      try reflexivity; lia.
  - run_sequence "<". rewrite H0, H1.
    destruct (Sim.signed a <? Sim.signed b); reflexivity.
  - run_sequence ">". rewrite H0, H1.
    destruct (Sim.signed b <? Sim.signed a); reflexivity.
  - run_sequence "<=". rewrite H0, H1.
    destruct (Sim.signed b <? Sim.signed a); reflexivity.
  - run_sequence ">=". rewrite H0, H1.
    destruct (Sim.signed a <? Sim.signed b); reflexivity.
Qed.

(** With 5 and 5, [==] leaves 1 and [!=] leaves 0; with -1, that is
    0xFFFFFFFF, and 1, [<] leaves 1 and [>=] leaves 0. *)
Lemma relational_lowering_witness :
  leaves_in_t0 "==" (operands_state 5 5) 1
  /\ leaves_in_t0 "!=" (operands_state 5 5) 0
  /\ leaves_in_t0 "<" (operands_state 0xFFFFFFFF 1) 1
  /\ leaves_in_t0 ">=" (operands_state 0xFFFFFFFF 1) 0.
Proof.
  destruct (relational_lowering (operands_state 5 5) 5 5
              eq_refl ltac:(lia) ltac:(lia) eq_refl eq_refl)
    as (_ & Heq & Hne & _).
  destruct (relational_lowering (operands_state 0xFFFFFFFF 1) 0xFFFFFFFF 1
              eq_refl ltac:(lia) ltac:(lia) eq_refl eq_refl)
    as (_ & _ & _ & Hlt & _ & _ & Hge).
  split; [exact Heq |]. split; [exact Hne |]. split; [exact Hlt | exact Hge].
Defined.

(** ** The run loop *)

Section PrintStr.
Import Sim.

(** the loop of [print_str] reads no address below the current one *)
Lemma scan_cstring_delete fuel : forall mem k addr i chars,
  k < addr + i ->
  scan_cstring fuel (delete k mem) addr i chars = scan_cstring fuel mem addr i chars.
Proof.
  induction fuel as [| fuel IH]; intros mem k addr i chars Hk; [reflexivity |].
  cbn [scan_cstring]. rewrite lookup_delete_ne by lia.
  destruct (default 0 (mem !! (addr + i)) =? 0); [reflexivity |].
  destruct (Py.chr _); [| reflexivity].
  apply IH. lia.
Qed.

Lemma scan_cstring_total fuel : forall mem addr i chars,
  (size mem < fuel)%nat -> is_Some (scan_cstring fuel mem addr i chars).
Proof.
  induction fuel as [| fuel IH]; intros mem addr i chars Hs; [lia |].
  cbn [scan_cstring].
  destruct (mem !! (addr + i)) as [byte |] eqn:Hb; cbn;
    [| eexists; reflexivity].
  destruct (byte =? 0); [eexists; reflexivity |].
  destruct (Py.chr byte); [| eexists; reflexivity].
  rewrite <- (scan_cstring_delete fuel mem (addr + i)) by lia.
  apply IH. rewrite map_size_delete_Some by (rewrite Hb; eexists; reflexivity).
  assert (size mem <> 0%nat).
  { apply map_size_non_empty_iff. intros ->. rewrite lookup_empty in Hb. discriminate. }
  lia.
Qed.

(** the fuel that [cstring] gives to the loop of [print_str] is enough *)
Lemma scan_cstring_enough mem addr :
  is_Some (scan_cstring (S (size mem)) mem addr 0 []).
Proof. apply scan_cstring_total. lia. Qed.

End PrintStr.

Section RunLoop.
Import Sim.

(** [run_loop] ends: first for the turns that only skip an instruction,
    by the distance of [pc] from the end, then for all turns, by the
    iterations that are left. *)
Lemma run_loop_ends_skipping iterations
    (Hexec : forall executed st, iterations < max_iter ->
               exists fuel r, run_loop fuel (iterations + 1) executed st = Some r) :
  forall m executed st,
    Z.to_nat (Z.of_nat (length (instructions st)) - pc st) = m ->
    exists fuel r, run_loop fuel iterations executed st = Some r.
Proof.
  induction m as [m IH] using lt_wf_ind. intros executed st Hm.
  destruct (running st && (iterations <? max_iter)) eqn:Hc;
    [| exists 1%nat; eexists; cbn [run_loop]; rewrite Hc; reflexivity].
  destruct (pc st >=? Z.of_nat (length (instructions st))) eqn:Hpc;
    [exists 1%nat; eexists; cbn [run_loop]; rewrite Hc, Hpc; reflexivity |].
  destruct (Py.index (instructions st) (pc st)) as [raw | e] eqn:Hi;
    [| exists 1%nat; eexists; cbn [run_loop]; rewrite Hc, Hpc, Hi; reflexivity].
  destruct (String.eqb (Py.strip raw) EmptyString || Py.startswith (Py.strip raw) "#")
    eqn:Hb.
  - destruct (IH (Z.to_nat (Z.of_nat (length (instructions st)) - (pc st + 1))))
      with (executed := executed) (st := with_pc (pc st + 1) st) as (fuel & r & Hr).
    + rewrite Z.geb_leb in Hpc. apply Z.leb_gt in Hpc. lia.
    + reflexivity.
    + exists (S fuel), r. cbn [run_loop]. rewrite Hc, Hpc, Hi, Hb. exact Hr.
  - destruct (execute (Py.strip raw) st) as [[[] | e] st1] eqn:Hx.
    + apply andb_true_iff in Hc as Hc'. destruct Hc' as [_ Hlt]. apply Z.ltb_lt in Hlt.
      destruct (Hexec (executed + 1) st1 Hlt) as (fuel & r & Hr).
      exists (S fuel), r. cbn [run_loop]. rewrite Hc, Hpc, Hi, Hb, Hx. exact Hr.
    + exists 1%nat. eexists. cbn [run_loop]. rewrite Hc, Hpc, Hi, Hb, Hx. reflexivity.
Qed.

Lemma run_loop_ends n : forall iterations executed st,
  Z.to_nat (max_iter - iterations) = n ->
  exists fuel r, run_loop fuel iterations executed st = Some r.
Proof.
  induction n as [n IH] using lt_wf_ind. intros iterations executed st Hn.
  apply (run_loop_ends_skipping iterations) with (m := Z.to_nat (Z.of_nat (length (instructions st)) - pc st));
    [| reflexivity].
  intros executed' st' Hlt.
  apply (IH (Z.to_nat (max_iter - (iterations + 1)))); [lia | reflexivity].
Qed.

(** the calls of [execute] are counted by [iterations], up to one call
    that raises *)
Lemma run_loop_budget fuel : forall iterations executed st o i n st',
  run_loop fuel iterations executed st = Some (o, i, n, st') ->
  iterations <= max_iter ->
  iterations <= i <= max_iter
  /\ n - executed <= max_iter - iterations
  /\ (i = max_iter -> o = Ok tt).
Proof.
  induction fuel as [| fuel IH]; intros iterations executed st o i n st' H Hle;
    [discriminate |].
  cbn [run_loop] in H.
  destruct (running st && (iterations <? max_iter)) eqn:Hc;
    [| injection H as <- <- <- <-; repeat split; try reflexivity; lia].
  apply andb_true_iff in Hc as [_ Hlt]. apply Z.ltb_lt in Hlt.
  destruct (pc st >=? Z.of_nat (length (instructions st)));
    [injection H as <- <- <- <-; repeat split; try reflexivity; lia |].
  destruct (Py.index (instructions st) (pc st)) as [raw | e];
    [| injection H as <- <- <- <-; repeat split; lia].
  destruct (String.eqb (Py.strip raw) EmptyString || Py.startswith (Py.strip raw) "#").
  - apply IH in H; [exact H | lia].
  - destruct (execute (Py.strip raw) st) as [[[] | e] st1].
    + apply IH in H; [| lia]. destruct H as (Hi & Hn & Ho).
      repeat split; try lia. exact Ho.
    + injection H as <- <- <- <-. repeat split; lia.
Qed.

Lemma exec_jr_ra st :
  get_reg "$ra" st = (Ok 0, st) ->
  exec_op "jr" ["$ra"] st = (Ok tt, with_running false st).
Proof.
  intros H.
  change (exec_op "jr" ["$ra"] st)
    with (bind (get_reg "$ra")
            (fun target => if target =? 0 then modify (with_running false)
                           else modify (with_pc target)) st).
  unfold bind. rewrite H. reflexivity.
Qed.

End RunLoop.

(** C7. The run loop ends for every state, and so does the run of every
    program text loaded into a fresh simulator: some amount of fuel gives
    a result. Whatever the fuel, a run that has ended has called [execute]
    at most 100000 times and counted at most 100000 iterations, and one
    that has counted 100000 has ended without an exception. A [jr $ra]
    that finds 0 in [$ra] clears [running], and the loop ends there without
    an exception. A loop entered with the budget used up ends at once
    without an exception, the state as it was. *)
Theorem run_terminates :
  (forall st, exists fuel r, Sim.run fuel st = Some r)
  /\ (forall asm, exists fuel r, simulate fuel asm = Some r)
  /\ (forall fuel st o i n st',
        Sim.run fuel st = Some (o, i, n, st') ->
        n <= 100000 /\ 0 <= i <= 100000 /\ (i = 100000 -> o = Ok tt))
  /\ (forall st fuel iterations executed raw,
        Sim.running st = true -> iterations < Sim.max_iter ->
        Sim.pc st < Z.of_nat (length (Sim.instructions st)) ->
        Py.index (Sim.instructions st) (Sim.pc st) = Ok raw ->
        Sim.decode (Py.strip raw) = Some ("jr", ["$ra"]) ->
        Sim.get_reg "$ra" st = (Ok 0, st) ->
        Sim.run_loop (S (S fuel)) iterations executed st
        = Some (Ok tt, iterations + 1, executed + 1, Sim.with_running false st))
  /\ (forall fuel executed st,
        Sim.run_loop (S fuel) Sim.max_iter executed st
        = Some (Ok tt, Sim.max_iter, executed, st)).
Proof.
  assert (Hrun : forall st, exists fuel r, Sim.run fuel st = Some r).
  { intros st. unfold Sim.run. destruct (Sim.labels st !! "main") as [l |].
    - apply (run_loop_ends (Z.to_nat (Sim.max_iter - 0))). reflexivity.
    - exists 0%nat. eexists. reflexivity. }
  split; [exact Hrun |].
  split; [| split; [| split]].
  - intros asm. unfold simulate.
    destruct (Sim.load_program asm Sim.init) as [[[] | e] st].
    + apply Hrun.
    + exists 0%nat. eexists. reflexivity.
  - intros fuel st o i n st'. unfold Sim.run.
    destruct (Sim.labels st !! "main") as [l |].
    + intros H. apply run_loop_budget in H; [| unfold Sim.max_iter; lia].
      unfold Sim.max_iter in H. destruct H as (Hi & Hn & Ho).
      repeat split; try lia. exact Ho.
    + intros H. injection H as <- <- <- <-. repeat split; lia.
  - intros st fuel iterations executed raw Hr Hit Hpc Hraw Hdec Hra.
    cbn [Sim.run_loop]. rewrite Hr.
    destruct (Z.ltb_spec iterations Sim.max_iter); [| lia]. cbn [andb].
    destruct (Z.geb_spec (Sim.pc st) (Z.of_nat (length (Sim.instructions st)))); [lia |].
    rewrite Hraw, (decode_some_runs _ _ Hdec).
    unfold Sim.execute. rewrite Hdec, (exec_jr_ra st Hra).
    destruct fuel; reflexivity.
  - intros fuel executed st. cbn [Sim.run_loop].
    rewrite Z.ltb_irrefl, andb_false_r. reflexivity.
Qed.

(** The run of [runaway] ends after 100000 instructions without an
    exception; in [return_state] the loop ends at the [jr $ra], and the
    bounds hold for that run. *)
Lemma run_terminates_witness :
  (exists st,
     simulate (Z.to_nat 100001) runaway = Some (Ok tt, 100000, 100000, st))
  /\ Sim.run_loop 2 0 0 return_state
     = Some (Ok tt, 1, 1, Sim.with_running false return_state)
  /\ (1 <= 100000 /\ 0 <= 1 <= 100000 /\ (1 = 100000 -> Ok tt = Ok tt)).
Proof.
  destruct run_terminates as (_ & _ & Hbudget & Hjr & _).
  split; [eexists; vm_compute; reflexivity |].
  split.
  - apply (Hjr return_state 0%nat 0 0 "jr $ra");
      [reflexivity | reflexivity | reflexivity | reflexivity | reflexivity | reflexivity].
  - apply (Hbudget 2%nat (Sim.with_labels (<["main" := 0]> ∅) return_state)
             (Ok tt) 1 1
             (Sim.with_running false
                (Sim.with_labels (<["main" := 0]> ∅) return_state))).
    reflexivity.
Defined.

(** ** End to end *)

(** C3. [int main(){ return 42; }] goes through the lexer, the parser and
    the generator; the text produced, loaded into a fresh simulator and
    run, ends without an exception after 12 instructions, at the [jr $ra]
    that finds 0 in [$ra]; [$v0] holds 42 and nothing has been printed. *)
Theorem return_42_end_to_end :
  exists asm st,
    compile 50 return_42 = Some (Ok asm)
    /\ simulate 50 asm = Some (Ok tt, 12, 12, st)
    /\ Sim.get_reg "$v0" st = (Ok 42, st)
    /\ Sim.stdout st = []
    /\ Sim.running st = false.
Proof.
  eexists. eexists.
  split; [vm_compute; reflexivity |].
  split; [vm_compute; reflexivity |].
  split; [vm_compute; reflexivity |].
  split; reflexivity.
Qed.

(** ** Unterminated string literals *)

Section LexerString.
Import Lexer.

Lemma slice2_head code pos c :
  code !! pos = Some c -> exists t, slice2 code pos = String c t.
Proof.
  intros H. unfold slice2. rewrite (drop_S _ _ _ H). cbn. eexists. reflexivity.
Qed.

Lemma step_quote lx str :
  char_at (code lx) (pos lx) = Ok Sim.quote ->
  scan_string (length (code lx)) (code lx) (pos lx + 1) EmptyString
  = Some (Ok (length (code lx), str)) ->
  step lx = Some (Ok (append_token STRING (StrV str) (length (code lx) + 1) lx)).
Proof.
  intros Hc Hs. unfold step. rewrite Hc. cbn [pbind].
  change (Py.isspace Sim.quote) with false. cbv iota.
  assert (Hl : code lx !! pos lx = Some Sim.quote).
  { unfold char_at in Hc. destruct (code lx !! pos lx); [congruence | discriminate]. }
  destruct (slice2_head _ _ _ Hl) as [t ->].
  change (String.eqb (String Sim.quote t) "//") with false.
  rewrite andb_false_r. cbv iota.
  change (Py.isdigit Sim.quote) with false.
  change (Py.isalpha Sim.quote || Ascii.eqb Sim.quote "_") with false.
  change (Ascii.eqb Sim.quote Sim.quote) with true. cbv iota.
  rewrite Hs. reflexivity.
Qed.

Lemma snoc_append acc c s : snoc acc c +:+ s = acc +:+ String c s.
Proof.
  unfold snoc. induction acc as [| a acc IH]; [reflexivity |].
  change (String a ((acc +:+ String c EmptyString) +:+ s) = String a (acc +:+ String c s)).
  rewrite IH. reflexivity.
Qed.

Lemma append_empty acc : acc +:+ EmptyString = acc.
Proof.
  induction acc as [| a acc IH]; [reflexivity |].
  change (String a (acc +:+ EmptyString) = String a acc). rewrite IH. reflexivity.
Qed.

(** the scan of text with no double quote and no backslash runs to the end
    of the input *)
Lemma scan_string_plain s : forall pre acc fuel,
  Py.contains Sim.quote s = false -> Py.contains Sim.backslash s = false ->
  (String.length s < fuel)%nat ->
  scan_string fuel (pre ++ list_ascii_of_string s) (length pre) acc
  = Some (Ok (length (pre ++ list_ascii_of_string s), acc +:+ s)).
Proof.
  induction s as [| c s IH]; intros pre acc fuel Hq Hb Hf;
    (destruct fuel as [| fuel]; [cbn in Hf; lia |]); cbn [scan_string].
  - cbn [list_ascii_of_string]. rewrite app_nil_r, Nat.ltb_irrefl, append_empty.
    reflexivity.
  - cbn [Py.contains] in Hq, Hb. apply orb_false_iff in Hq as [Hq1 Hq2].
    apply orb_false_iff in Hb as [Hb1 Hb2].
    cbn [list_ascii_of_string].
    destruct (Nat.ltb_spec (length pre) (length (pre ++ c :: list_ascii_of_string s)))
      as [_ | Hge]; [| rewrite length_app in Hge; cbn in Hge; lia].
    unfold char_at. rewrite lookup_app_r by lia. rewrite Nat.sub_diag. cbn [lookup list_lookup].
    rewrite (Ascii.eqb_sym c Sim.quote), Hq1, (Ascii.eqb_sym c Sim.backslash), Hb1.
    cbn [andb].
    replace (pre ++ c :: list_ascii_of_string s)%list
      with ((pre ++ [c]) ++ list_ascii_of_string s)%list
      by (rewrite <- app_assoc; reflexivity).
    replace (length pre + 1)%nat with (length (pre ++ [c])%list)
      by (rewrite length_app; reflexivity).
    rewrite (IH (pre ++ [c])%list (snoc acc c) fuel Hq2 Hb2) by (cbn in Hf; lia).
    rewrite snoc_append. reflexivity.
Qed.

End LexerString.

(** C9, as the code has it. When the lexer is at a double quote and the
    scan of the literal runs to the end of the input, which is what an
    unterminated literal is, the loop of [tokenize] ends without an
    exception: every read is inside the input, the position ends at one
    past the length, and an ordinary STRING token with the characters
    scanned is appended. So for every text [s] with no double quote and no
    backslash, [tokenize] of a double quote followed by [s] returns the one
    token STRING [s]. *)
Theorem unterminated_string_token :
  (forall (lx : Lexer.lexer) (str : string) (fuel : nat),
     Lexer.char_at (Lexer.code lx) (Lexer.pos lx) = Ok Sim.quote ->
     Lexer.scan_string (length (Lexer.code lx)) (Lexer.code lx) (Lexer.pos lx + 1)
                       EmptyString
     = Some (Ok (length (Lexer.code lx), str)) ->
     Lexer.loop (S (S fuel)) lx
     = Some (Ok (Lexer.append_token STRING (StrV str)
                   (length (Lexer.code lx) + 1) lx)))
  /\ (forall s : string,
        Py.contains Sim.quote s = false -> Py.contains Sim.backslash s = false ->
        Lexer.tokenize (String Sim.quote s)
        = Some (Ok (Lexer.mkLexer (list_ascii_of_string (String Sim.quote s))
                      (String.length (String Sim.quote s) + 1) 1
                      [Token STRING (StrV s) 1]))).
Proof.
  assert (Hgen : forall (lx : Lexer.lexer) (str : string) (fuel : nat),
     Lexer.char_at (Lexer.code lx) (Lexer.pos lx) = Ok Sim.quote ->
     Lexer.scan_string (length (Lexer.code lx)) (Lexer.code lx) (Lexer.pos lx + 1)
                       EmptyString
     = Some (Ok (length (Lexer.code lx), str)) ->
     Lexer.loop (S (S fuel)) lx
     = Some (Ok (Lexer.append_token STRING (StrV str)
                   (length (Lexer.code lx) + 1) lx))).
  { intros lx str fuel Hc Hs. cbn [Lexer.loop].
    assert (Hlt : (Lexer.pos lx <? length (Lexer.code lx))%nat = true).
    { apply Nat.ltb_lt. unfold Lexer.char_at in Hc.
      destruct (Lexer.code lx !! Lexer.pos lx) eqn:E; [| discriminate].
      apply lookup_lt_Some in E. exact E. }
    rewrite Hlt, (step_quote lx str Hc Hs). cbn [pbind Lexer.append_token Lexer.pos Lexer.code].
    destruct (Nat.ltb_spec (length (Lexer.code lx) + 1) (length (Lexer.code lx)));
      [lia | reflexivity]. }
  split; [exact Hgen |].
  intros s Hq Hb. unfold Lexer.tokenize. cbn [String.length].
  rewrite (Hgen (Lexer.init (String Sim.quote s)) s (String.length s)).
  - unfold Lexer.append_token, Lexer.init. cbn [Lexer.code Lexer.cur_line Lexer.tokens].
    rewrite length_chars. reflexivity.
  - reflexivity.
  - unfold Lexer.init. cbn [Lexer.code Lexer.pos list_ascii_of_string].
    pose proof (scan_string_plain s [Sim.quote] EmptyString
                  (length (Sim.quote :: list_ascii_of_string s)) Hq Hb) as H.
    cbn [app length] in H. cbn [length Nat.add]. rewrite H; [reflexivity |].
    rewrite length_chars. lia.
Qed.

(** the input [unterminated_abc]: the one token STRING [abc], the position
    at 5 for the 4 characters of the input *)
Lemma unterminated_string_token_witness :
  Lexer.tokenize unterminated_abc
  = Some (Ok (Lexer.mkLexer (list_ascii_of_string unterminated_abc) 5 1
                [Token STRING (StrV "abc") 1])).
Proof.
  exact (proj2 unterminated_string_token "abc" eq_refl eq_refl).
Defined.

(** On [unterminated_abc] no error surfaces: [tokenize] raises nothing, and
    what it returns is an ordinary token. *)
Lemma unterminated_string_no_error :
  ~ (exists e, Lexer.tokenize unterminated_abc = Some (Raise e))
  /\ exists lx, Lexer.tokenize unterminated_abc = Some (Ok lx)
                /\ Lexer.tokens lx = [Token STRING (StrV "abc") 1]
                /\ Lexer.pos lx = 5%nat.
Proof.
  split.
  - intros [e H]. vm_compute in H. discriminate.
  - eexists. split; [vm_compute; reflexivity |]. split; reflexivity.
Qed.

(** ** Return statements *)

(** C2, on the code. In [return_in_foo] the [return] of [foo] is compiled
    to a jump to [main_exit], the epilogue label of [main], and not to
    [foo_exit], the epilogue label that follows the body of [foo]. *)
Theorem return_jumps_to_main_exit :
  exists cg,
    CodeGen.gen_function (Function "int" "foo" [Return (Some (Number (IntV 1)))])
                         CodeGen.init = Ok cg
    /\ CodeGen.output cg
       = ["foo:";
          "    addi $sp, $sp, -8";
          "    sw $ra, 4($sp)";
          "    sw $fp, 0($sp)";
          "    move $fp, $sp";
          "    li $t0, 1";
          "    move $v0, $t0";
          "    j main_exit";
          "foo_exit:";
          "    move $sp, $fp";
          "    lw $fp, 0($sp)";
          "    lw $ra, 4($sp)";
          "    addi $sp, $sp, 8";
          "    jr $ra";
          EmptyString]
    /\ forall value cg0 cg1,
         CodeGen.gen_stmt (Return value) cg0 = Ok cg1 ->
         last (CodeGen.output cg1) = Some "    j main_exit".
Proof.
  eexists. split; [vm_compute; reflexivity |]. split; [reflexivity |].
  intros value cg0 cg1 H. cbn [CodeGen.gen_stmt] in H.
  destruct value as [v |]; cbn [obind] in H.
  - destruct (CodeGen.gen_expr v cg0) as [cg |]; cbn [obind] in H; [| discriminate].
    injection H as <-. cbn [CodeGen.emit CodeGen.output]. apply last_snoc.
  - injection H as <-. cbn [CodeGen.emit CodeGen.output]. apply last_snoc.
Qed.

(** a [return] in [foo] (the state of the generator is that of the body of
    a function) *)
Lemma return_jumps_to_main_exit_witness :
  last (CodeGen.output
          (CodeGen.emit "    j main_exit" (CodeGen.emit "foo:" CodeGen.init)))
  = Some "    j main_exit".
Proof.
  destruct return_jumps_to_main_exit as (cg & _ & _ & H).
  exact (H None (CodeGen.emit "foo:" CodeGen.init) _ eq_refl).
Defined.

(** ** Labels *)

Section DecimalText.

Lemma digit_char_ord r :
  0 <= r < 10 -> Py.ord (ascii_of_nat (Z.to_nat (48 + r))) = 48 + r.
Proof.
  intros Hr. unfold Py.ord. rewrite nat_ascii_embedding by lia. lia.
Qed.

Lemma digit_char_isdigit r :
  0 <= r < 10 -> Py.isdigit (ascii_of_nat (Z.to_nat (48 + r))) = true.
Proof.
  intros Hr.
  assert (r = 0 \/ r = 1 \/ r = 2 \/ r = 3 \/ r = 4 \/ r = 5 \/ r = 6 \/ r = 7
          \/ r = 8 \/ r = 9) as H by lia.
  repeat (destruct H as [-> | H]; [reflexivity |]). subst r. reflexivity.
Qed.

(** the text that [digits_of] puts before [acc] reads back as [n] *)
Lemma digits_of_value fuel : forall n acc,
  0 <= n < 2 ^ Z.of_nat fuel ->
  exists k, 0 <= k /\ forall a,
    Py.digits_value a (Py.digits_of fuel n acc) = Py.digits_value (a * 10 ^ k + n) acc.
Proof.
  induction fuel as [| fuel IH]; intros n acc Hn.
  - exists 0. split; [lia |]. intros a. cbn [Py.digits_of].
    change (2 ^ Z.of_nat 0) with 1 in Hn. f_equal. lia.
  - cbn [Py.digits_of]. cbv zeta.
    pose proof (Z.mod_pos_bound n 10 ltac:(lia)) as Hr.
    destruct (Z.ltb_spec n 10) as [Hlt | Hge].
    + exists 1. split; [lia |]. intros a. cbn [Py.digits_value].
      rewrite digit_char_ord by exact Hr. rewrite Z.mod_small by lia. f_equal. lia.
    + destruct (IH (n / 10) (String (ascii_of_nat (Z.to_nat (48 + n mod 10))) acc))
        as (k & Hk & Hv).
      { split; [apply Z.div_pos; lia |].
        apply Z.div_lt_upper_bound; [lia |].
        rewrite Nat2Z.inj_succ, Z.pow_succ_r in Hn by lia. lia. }
      exists (k + 1). split; [lia |]. intros a. rewrite Hv. cbn [Py.digits_value].
      rewrite digit_char_ord by exact Hr. f_equal.
      rewrite Z.pow_add_r by lia. pose proof (Z.div_mod n 10 ltac:(lia)). lia.
Qed.

Lemma digits_of_starts fuel : forall n acc,
  0 <= n -> (fuel <> 0%nat \/ starts_with_digit acc) ->
  starts_with_digit (Py.digits_of fuel n acc).
Proof.
  induction fuel as [| fuel IH]; intros n acc Hn Hs.
  - destruct Hs as [Hs | Hs]; [contradiction | exact Hs].
  - cbn [Py.digits_of]. cbv zeta.
    pose proof (Z.mod_pos_bound n 10 ltac:(lia)) as Hr.
    assert (Hd : starts_with_digit (String (ascii_of_nat (Z.to_nat (48 + n mod 10))) acc)).
    { eexists. eexists. split; [reflexivity | apply digit_char_isdigit; exact Hr]. }
    destruct (n <? 10); [exact Hd |].
    apply IH; [apply Z.div_pos; lia | right; exact Hd].
Qed.

Lemma str_nonneg_fuel n : 0 <= n -> n < 2 ^ Z.of_nat (S (Z.to_nat (Z.log2 n))).
Proof.
  intros Hn. pose proof (Z.log2_nonneg n).
  rewrite Nat2Z.inj_succ, Z2Nat.id by lia.
  destruct (Z.eq_dec n 0) as [-> | Hne]; [reflexivity |].
  apply Z.log2_spec. lia.
Qed.

(** [str(n)], for [n] not negative, starts with a digit and reads back as
    [n] *)
Lemma str_value n : 0 <= n -> Py.digits_value 0 (Py.str n) = n.
Proof.
  intros Hn. unfold Py.str. destruct (Z.ltb_spec n 0); [lia |].
  unfold Py.str_nonneg.
  destruct (digits_of_value _ n EmptyString (conj Hn (str_nonneg_fuel n Hn)))
    as (k & _ & Hv).
  rewrite Hv. cbn [Py.digits_value]. lia.
Qed.

Lemma str_starts n : 0 <= n -> starts_with_digit (Py.str n).
Proof.
  intros Hn. unfold Py.str. destruct (Z.ltb_spec n 0); [lia |].
  apply digits_of_starts; [exact Hn | left; discriminate].
Qed.

Lemma drop_nondigits_digit s : starts_with_digit s -> drop_nondigits s = s.
Proof. intros (d & rest & -> & Hd). cbn [drop_nondigits]. rewrite Hd. reflexivity. Qed.

End DecimalText.

Section LabelLines.
Import CodeGen.

Lemma last_char_colon s : Py.last_char (s +:+ ":") = Some ":"%char.
Proof.
  induction s as [| a s IH]; [reflexivity |].
  destruct s as [| b s]; [reflexivity |]. exact IH.
Qed.

Lemma drop_last_colon s : Py.drop_last (s +:+ ":") = s.
Proof.
  induction s as [| a s IH]; [reflexivity |].
  destruct s as [| b s]; [reflexivity |].
  change (String a (Py.drop_last (String b s +:+ ":")) = String a (String b s)).
  rewrite IH. reflexivity.
Qed.

Lemma label_line_is_label c s :
  Ascii.eqb c " " = false -> is_label_line (String c s +:+ ":") = true.
Proof.
  intros Hc. change (String c s +:+ ":") with (String c (s +:+ ":")).
  unfold is_label_line. rewrite Hc. unfold Py.endswith_char.
  change (String c (s +:+ ":")) with (String c s +:+ ":").
  rewrite last_char_colon. reflexivity.
Qed.

Lemma labels_of_app (a b : list string) :
  labels_of (a ++ b)%list = (labels_of a ++ labels_of b)%list.
Proof. unfold labels_of. rewrite List.filter_app, fmap_app. reflexivity. Qed.

Lemma drop_nondigits_prefix p s :
  drop_nondigits p = EmptyString -> starts_with_digit s ->
  drop_nondigits (p +:+ s) = s.
Proof.
  intros Hp Hs. induction p as [| c p IH]; [apply drop_nondigits_digit; exact Hs |].
  change (String c p +:+ s) with (String c (p +:+ s)).
  cbn [drop_nondigits] in *. destruct (Py.isdigit c); [discriminate | apply IH; exact Hp].
Qed.

(** the number of the label [prefix{n}] is [n] *)
Lemma label_number_new prefix n :
  drop_nondigits prefix = EmptyString -> 0 <= n ->
  label_number (prefix +:+ Py.str n) = n.
Proof.
  intros Hp Hn. unfold label_number.
  rewrite drop_nondigits_prefix by (exact Hp || apply str_starts; exact Hn).
  apply str_value. exact Hn.
Qed.

Lemma emits_numbers_refl cg : emits_numbers cg cg [].
Proof. exists []. split; [rewrite app_nil_r; reflexivity | reflexivity]. Qed.

Lemma emits_numbers_trans a b c n1 n2 :
  emits_numbers a b n1 -> emits_numbers b c n2 -> emits_numbers a c (n1 ++ n2)%list.
Proof.
  intros (new1 & H1 & <-) (new2 & H2 & <-). exists (new1 ++ new2)%list. split.
  - rewrite H2, H1, app_assoc. reflexivity.
  - rewrite labels_of_app, fmap_app. reflexivity.
Qed.

Lemma emits_numbers_same cg x y nums :
  output y = output x -> emits_numbers cg x nums -> emits_numbers cg y nums.
Proof. intros Ho (new & H & Hn). exists new. rewrite Ho. split; assumption. Qed.

Lemma emits_numbers_emit cg line :
  is_label_line line = false -> emits_numbers cg (emit line cg) [].
Proof.
  intros Hl. exists [line]. split; [reflexivity |].
  unfold labels_of. cbn [List.filter]. rewrite Hl. reflexivity.
Qed.

Lemma emits_numbers_label cg c s :
  Ascii.eqb c " " = false ->
  emits_numbers cg (emit (String c s +:+ ":") cg) [label_number (String c s)].
Proof.
  intros Hc. exists [String c s +:+ ":"]. split; [reflexivity |].
  unfold labels_of. cbn [List.filter]. rewrite (label_line_is_label c s Hc).
  cbn [fmap list_fmap]. rewrite drop_last_colon. reflexivity.
Qed.

Lemma emits_plain_refl cg : emits_plain cg cg.
Proof. split; [apply emits_numbers_refl | reflexivity]. Qed.

Lemma emits_plain_trans a b c : emits_plain a b -> emits_plain b c -> emits_plain a c.
Proof.
  intros [H1 L1] [H2 L2]. split; [| congruence].
  exact (emits_numbers_trans a b c [] [] H1 H2).
Qed.

Lemma emits_plain_same cg x y :
  output y = output x -> label_count y = label_count x ->
  emits_plain cg x -> emits_plain cg y.
Proof.
  intros Ho Hl [H L]. split; [exact (emits_numbers_same cg x y [] Ho H) | congruence].
Qed.

Lemma emits_plain_emit cg x line :
  is_label_line line = false -> emits_plain cg x -> emits_plain cg (emit line x).
Proof.
  intros Hl H. apply (emits_plain_trans cg x); [exact H |].
  split; [apply emits_numbers_emit; exact Hl | reflexivity].
Qed.

Lemma emits_plain_emits cg lines : forall x,
  Forall (fun line => is_label_line line = false) lines ->
  emits_plain cg x -> emits_plain cg (emits lines x).
Proof.
  induction lines as [| l lines IH]; intros x Hf H; [exact H |].
  inversion Hf; subst. unfold emits. cbn [fold_left].
  apply IH; [assumption |]. apply emits_plain_emit; assumption.
Qed.

Lemma binop_code_plain op : Forall (fun line => is_label_line line = false) (binop_code op).
Proof.
  unfold binop_code.
  repeat match goal with
         | |- context [if ?b then _ else _] => destruct b
         end; repeat constructor.
Qed.

End LabelLines.

Section ExpressionsPlain.
Import CodeGen.

Ltac peel :=
  repeat first
    [ assumption
    | apply emits_plain_refl
    | apply emits_plain_emit; [reflexivity |]
    | apply emits_plain_emits; [repeat constructor |]
    | match goal with
      | |- emits_plain _ (if ?b then _ else _) => destruct b
      end ].

Lemma add_string_plain cg x s :
  emits_plain cg x -> emits_plain cg (snd (add_string s x)).
Proof. apply emits_plain_same; reflexivity. Qed.

(** an expression adds instructions only *)
Lemma gen_expr_plain : forall e cg cg', gen_expr e cg = Ok cg' -> emits_plain cg cg'.
Proof.
  fix IH 1. intros e cg cg' H. destruct e; cbn [gen_expr] in H.
  - injection H as <-. peel.
  - injection H as <-. apply emits_plain_emit; [reflexivity |].
    apply (add_string_plain cg cg). apply emits_plain_refl.
  - destruct (var_offset name cg); cbn [obind] in H; [| discriminate].
    injection H as <-. peel.
  - destruct (gen_expr e2 cg) as [cg1 |] eqn:E2; cbn [obind] in H; [| discriminate].
    apply IH in E2. destruct e1; try (injection H as <-; exact E2).
    destruct (var_offset name cg1); cbn [obind] in H; [| discriminate].
    injection H as <-. peel.
  - destruct (gen_expr e1 cg) as [cg1 |] eqn:E1; cbn [obind] in H; [| discriminate].
    apply IH in E1.
    destruct (gen_expr e2 _) as [cg2 |] eqn:E2; cbn [obind] in H; [| discriminate].
    apply IH in E2. injection H as <-.
    apply emits_plain_emits; [apply binop_code_plain |].
    repeat (apply emits_plain_emit; [reflexivity |]).
    eapply emits_plain_trans; [| exact E2]. peel.
  - destruct (node_name e); cbn [obind] in H; [| discriminate].
    destruct (var_offset _ cg); cbn [obind] in H; [| discriminate].
    injection H as <-. peel.
  - destruct (node_name e); cbn [obind] in H; [| discriminate].
    destruct (var_offset _ cg); cbn [obind] in H; [| discriminate].
    injection H as <-. peel.
  - destruct (String.eqb name "print_int").
    + destruct args as [| a args]; [discriminate |].
      destruct (gen_expr a cg) as [cg1 |] eqn:E1; cbn [obind] in H; [| discriminate].
      apply IH in E1. injection H as <-. peel.
    + destruct (String.eqb name "print_str"); [| injection H as <-; peel].
      destruct args as [| a args]; [discriminate |].
      destruct (gen_expr a cg) as [cg1 |] eqn:E1; cbn [obind] in H; [| discriminate].
      apply IH in E1. injection H as <-. peel.
Qed.

Lemma gen_opt_expr_plain e cg cg' : gen_opt_expr e cg = Ok cg' -> emits_plain cg cg'.
Proof.
  destruct e as [e |]; cbn [gen_opt_expr]; [apply gen_expr_plain |].
  intros H. injection H as <-. apply emits_plain_refl.
Qed.

Lemma gen_declaration_plain name init cg cg' :
  gen_declaration name init cg = Ok cg' -> emits_plain cg cg'.
Proof.
  unfold gen_declaration. destruct init as [e |].
  - destruct (gen_expr e _) as [cg1 |] eqn:E1; cbn [obind]; [| discriminate].
    apply gen_expr_plain in E1.
    destruct (var_offset name cg1); cbn [obind]; [| discriminate].
    intros H. injection H as <-. apply emits_plain_emit; [reflexivity |].
    eapply emits_plain_trans; [| exact E1].
    apply (emits_plain_same cg (emit "    addi $sp, $sp, -4" cg)); [reflexivity .. |].
    peel.
  - intros H. injection H as <-.
    apply (emits_plain_same cg (emit "    addi $sp, $sp, -4" cg)); [reflexivity .. |].
    peel.
Qed.

End ExpressionsPlain.

Section StatementInduction.

(** induction on statements, with the property for the statements of the
    lists inside *)
Variable P : stmt -> Prop.
Hypothesis P_Declaration : forall name init, P (Declaration name init).
Hypothesis P_ExprStmt : forall e, P (ExprStmt e).
Hypothesis P_If : forall condition then_ else_,
  Forall P then_ -> Forall P (default [] else_) -> P (If condition then_ else_).
Hypothesis P_While : forall condition body, Forall P body -> P (While condition body).
Hypothesis P_For : forall init condition update body,
  Forall P body -> P (For init condition update body).
Hypothesis P_Return : forall value, P (Return value).

Lemma stmt_nested_ind : forall s : stmt, P s.
Proof.
  exact
    (fix stmt_nested_ind (s : stmt) : P s :=
      let all :=
        fix all (l : list stmt) : Forall P l :=
          match l with
          | [] => @List.Forall_nil stmt P
          | s :: l' => @List.Forall_cons stmt P s l' (stmt_nested_ind s) (all l')
          end in
      match s with
      | Declaration name init => P_Declaration name init
      | ExprStmt e => P_ExprStmt e
      | If condition then_ else_ =>
          P_If condition then_ else_ (all then_)
               match else_ as o return Forall P (default [] o) with
               | Some l => all l
               | None => @List.Forall_nil stmt P
               end
      | While condition body => P_While condition body (all body)
      | For init condition update body => P_For init condition update body (all body)
      | Return value => P_Return value
      end).
Qed.

End StatementInduction.

Section StatementsFresh.
Import CodeGen.

Lemma emits_fresh_of_plain a b : emits_plain a b -> emits_fresh a b 0.
Proof.
  intros [H L]. exists []. split; [exact H |]. split; [reflexivity |].
  split; [constructor |]. split; [constructor | rewrite L; lia].
Qed.

Lemma emits_fresh_trans a b c n1 n2 :
  emits_fresh a b n1 -> emits_fresh b c n2 -> emits_fresh a c (n1 + n2).
Proof.
  intros (nums1 & H1 & Hl1 & Hd1 & Hf1 & Hc1) (nums2 & H2 & Hl2 & Hd2 & Hf2 & Hc2).
  exists (nums1 ++ nums2)%list.
  split; [exact (emits_numbers_trans a b c nums1 nums2 H1 H2) |].
  split; [rewrite length_app; lia |].
  rewrite Forall_forall in Hf1, Hf2.
  split; [| split].
  - apply NoDup_app. split; [exact Hd1 |]. split; [| exact Hd2].
    intros k Hk1 Hk2. apply Hf1 in Hk1. apply Hf2 in Hk2. lia.
  - apply Forall_app. split; apply Forall_forall; intros k Hk.
    + apply Hf1 in Hk. lia.
    + apply Hf2 in Hk. lia.
  - lia.
Qed.

(** the numbers of the labels of one construct: those of a first part
    [numsA], the first label [c], those of a second part [numsB], the
    second label [c + 1] *)
Lemma construct_numbers c m hi (numsA numsB : list Z) :
  NoDup numsA -> NoDup numsB ->
  Forall (fun k => c + 2 <= k < m) numsA -> Forall (fun k => m <= k < hi) numsB ->
  c + 2 <= m <= hi ->
  NoDup (numsA ++ c :: numsB ++ [c + 1])
  /\ Forall (fun k => c <= k < hi) (numsA ++ c :: numsB ++ [c + 1]).
Proof.
  intros HdA HdB HfA HfB Hm. rewrite Forall_forall in HfA, HfB. split.
  - apply NoDup_app. split; [exact HdA |]. split.
    + intros k HkA Hk. apply HfA in HkA.
      apply elem_of_cons in Hk as [-> | Hk]; [lia |].
      apply elem_of_app in Hk as [Hk | Hk]; [apply HfB in Hk; lia |].
      apply list_elem_of_singleton in Hk. lia.
    + apply NoDup_cons. split.
      * intros Hk. apply elem_of_app in Hk as [Hk | Hk]; [apply HfB in Hk; lia |].
        apply list_elem_of_singleton in Hk. lia.
      * apply NoDup_app. split; [exact HdB |]. split; [| apply NoDup_singleton].
        intros k HkB Hk. apply HfB in HkB. apply list_elem_of_singleton in Hk. lia.
  - apply Forall_forall. intros k Hk.
    apply elem_of_app in Hk as [Hk | Hk]; [apply HfA in Hk; lia |].
    apply elem_of_cons in Hk as [-> | Hk]; [lia |].
    apply elem_of_app in Hk as [Hk | Hk]; [apply HfB in Hk; lia |].
    apply list_elem_of_singleton in Hk. lia.
Qed.

(** the line that defines the label [prefix{n}] *)
Lemma emits_numbers_new_label cg ch rest n :
  Ascii.eqb ch " " = false -> drop_nondigits (String ch rest) = EmptyString -> 0 <= n ->
  emits_numbers cg (emit ((String ch rest +:+ Py.str n) +:+ ":") cg) [n].
Proof.
  intros Hch Hp Hn.
  pose proof (emits_numbers_label cg ch (rest +:+ Py.str n) Hch) as H.
  change (String ch (rest +:+ Py.str n)) with (String ch rest +:+ Py.str n) in H.
  rewrite (label_number_new (String ch rest) n Hp Hn) in H. exact H.
Qed.

Lemma emits_numbers_plain_emit cg x line nums :
  is_label_line line = false -> emits_numbers cg x nums ->
  emits_numbers cg (emit line x) nums.
Proof.
  intros Hl H. rewrite <- (app_nil_r nums).
  exact (emits_numbers_trans cg x _ nums [] H (emits_numbers_emit x line Hl)).
Qed.

Lemma emits_numbers_then_plain cg x y nums :
  emits_numbers cg x nums -> emits_plain x y -> emits_numbers cg y nums.
Proof.
  intros H [Hp _]. rewrite <- (app_nil_r nums).
  exact (emits_numbers_trans cg x y nums [] H Hp).
Qed.

Lemma gen_stmt_If condition then_ else_ cg :
  gen_stmt (If condition then_ else_) cg =
  (let '(else_lbl, cg) := new_label "else" cg in
   let '(end_lbl, cg) := new_label "endif" cg in
   let! cg := gen_expr condition cg in
   let cg := emit ("    beq $t0, $zero, " +:+ else_lbl) cg in
   let! cg := gen_stmts then_ cg in
   let cg := emit ("    j " +:+ end_lbl) cg in
   let cg := emit (else_lbl +:+ ":") cg in
   let! cg :=
     match else_ with
     | Some (s :: l) => gen_stmts (s :: l) cg
     | _ => Ok cg
     end in
   Ok (emit (end_lbl +:+ ":") cg)).
Proof. reflexivity. Qed.

Lemma gen_stmt_While condition body cg :
  gen_stmt (While condition body) cg =
  (let '(loop_lbl, cg) := new_label "while" cg in
   let '(end_lbl, cg) := new_label "endwhile" cg in
   let cg := emit (loop_lbl +:+ ":") cg in
   let! cg := gen_expr condition cg in
   let cg := emit ("    beq $t0, $zero, " +:+ end_lbl) cg in
   let! cg := gen_stmts body cg in
   let cg := emit ("    j " +:+ loop_lbl) cg in
   Ok (emit (end_lbl +:+ ":") cg)).
Proof. reflexivity. Qed.

Lemma gen_stmt_For init condition update body cg :
  gen_stmt (For init condition update body) cg =
  (let '(loop_lbl, cg) := new_label "for" cg in
   let '(end_lbl, cg) := new_label "endfor" cg in
   let! cg :=
     match init with
     | Some (InitDeclaration name i) => gen_declaration name i cg
     | Some (InitExpr e) => gen_expr e cg
     | None => Ok cg
     end in
   let cg := emit (loop_lbl +:+ ":") cg in
   let! cg :=
     match condition with
     | Some c =>
         let! cg := gen_expr c cg in
         Ok (emit ("    beq $t0, $zero, " +:+ end_lbl) cg)
     | None => Ok cg
     end in
   let! cg := gen_stmts body cg in
   let! cg := gen_opt_expr update cg in
   let cg := emit ("    j " +:+ loop_lbl) cg in
   Ok (emit (end_lbl +:+ ":") cg)).
Proof. reflexivity. Qed.

Lemma control_constructs_If condition then_ else_ :
  control_constructs (If condition then_ else_)
  = S (control_constructs_list then_ + control_constructs_list (default [] else_)).
Proof. destruct else_; reflexivity. Qed.

Lemma control_constructs_While condition body :
  control_constructs (While condition body) = S (control_constructs_list body).
Proof. reflexivity. Qed.

Lemma control_constructs_For init condition update body :
  control_constructs (For init condition update body) = S (control_constructs_list body).
Proof. reflexivity. Qed.

End StatementsFresh.

Section StatementsFreshProof.
Import CodeGen.

Local Abbreviation fresh_stmt :=
  (fun s => forall cg cg', 0 <= label_count cg -> gen_stmt s cg = Ok cg' ->
                           emits_fresh cg cg' (control_constructs s)).

Lemma emits_fresh_count a b n :
  emits_fresh a b n -> label_count b = label_count a + 2 * Z.of_nat n.
Proof. intros (nums & _ & _ & _ & _ & H). exact H. Qed.

Lemma gen_stmts_fresh l :
  Forall fresh_stmt l ->
  forall cg cg', 0 <= label_count cg -> gen_stmts l cg = Ok cg' ->
                 emits_fresh cg cg' (control_constructs_list l).
Proof.
  induction 1 as [| s l Hs Hl IH]; intros cg cg' Hc H; cbn [gen_stmts] in H.
  - injection H as <-. apply emits_fresh_of_plain, emits_plain_refl.
  - destruct (gen_stmt s cg) as [cg1 |] eqn:E1; cbn [obind] in H; [| discriminate].
    apply Hs in E1; [| exact Hc]. pose proof (emits_fresh_count _ _ _ E1) as Hc1.
    apply IH in H; [| lia].
    exact (emits_fresh_trans cg cg1 cg' _ _ E1 H).
Qed.

(** the state after the two calls of [new_label] of a construct *)
Lemma two_labels_numbers cg :
  emits_numbers cg
    (mkCodeGen (output cg) (data cg) (label_count cg + 1 + 1) (string_count cg)
               (vars cg) (stack_offset cg)) [].
Proof. apply (emits_numbers_same cg cg); [reflexivity | apply emits_numbers_refl]. Qed.

Lemma fresh_While condition body :
  Forall fresh_stmt body -> fresh_stmt (While condition body).
Proof.
  intros Hbody cg cg' Hc H. rewrite gen_stmt_While in H. unfold new_label in H.
  cbv beta iota zeta in H. cbn [label_count output data string_count vars stack_offset] in H.
  destruct (gen_expr condition _) as [cg2 |] eqn:E2; cbn [obind] in H; [| discriminate].
  apply gen_expr_plain in E2.
  destruct (gen_stmts body _) as [cg3 |] eqn:E3; cbn [obind] in H; [| discriminate].
  pose proof (proj2 E2) as L2. cbn [emit label_count] in L2.
  apply (gen_stmts_fresh body Hbody) in E3; [| cbn [emit label_count]; lia].
  injection H as <-. rewrite control_constructs_While.
  destruct E3 as (nums & Hn & Hl & Hd & Hf & L3). cbn [emit label_count] in Hf, L3.
  destruct (construct_numbers (label_count cg) (label_count cg + 2) (label_count cg3)
              [] nums ltac:(constructor) Hd ltac:(constructor)) as [HD HF].
  { eapply Forall_impl; [exact Hf |]. cbn. intros k Hk. lia. }
  { lia. }
  exists (label_count cg :: nums ++ [label_count cg + 1])%list.
  split; [| split; [| split; [exact HD | split]]].
  - eapply (emits_numbers_trans _ _ _ (label_count cg :: nums) [label_count cg + 1]).
    2: { apply emits_numbers_new_label; [reflexivity | reflexivity | lia]. }
    apply emits_numbers_plain_emit; [reflexivity |].
    eapply (emits_numbers_trans _ _ _ [label_count cg] nums); [| exact Hn].
    apply emits_numbers_plain_emit; [reflexivity |].
    eapply emits_numbers_then_plain; [| exact E2].
    apply (emits_numbers_trans cg _ _ [] [label_count cg] (two_labels_numbers cg)).
    apply emits_numbers_new_label; [reflexivity | reflexivity | exact Hc].
  - cbn [length]. rewrite length_app. cbn [length]. lia.
  - cbn [emit label_count]. eapply Forall_impl; [exact HF |]. cbn. intros k Hk. lia.
  - cbn [emit label_count]. lia.
Qed.

Lemma fresh_For init condition update body :
  Forall fresh_stmt body -> fresh_stmt (For init condition update body).
Proof.
  intros Hbody cg cg' Hc H. rewrite gen_stmt_For in H. unfold new_label in H.
  cbv beta iota zeta in H. cbn [label_count output data string_count vars stack_offset] in H.
  destruct (match init with
            | Some (InitDeclaration name i) => gen_declaration name i _
            | Some (InitExpr e) => gen_expr e _
            | None => Ok _
            end) as [cg2 |] eqn:E2; cbn [obind] in H; [| discriminate].
  assert (P2 : emits_plain
                 (mkCodeGen (output cg) (data cg) (label_count cg + 1 + 1)
                            (string_count cg) (vars cg) (stack_offset cg)) cg2).
  { destruct init as [[name i | e] |].
    - apply gen_declaration_plain in E2. exact E2.
    - apply gen_expr_plain in E2. exact E2.
    - injection E2 as <-. apply emits_plain_refl. }
  clear E2.
  destruct (match condition with
            | Some c => _
            | None => Ok _
            end) as [cg3 |] eqn:E3; cbn [obind] in H; [| discriminate].
  assert (P3 : emits_plain
                 (emit (("for" +:+ Py.str (label_count cg)) +:+ ":") cg2) cg3).
  { destruct condition as [c |].
    - destruct (gen_expr c _) as [cg3' |] eqn:E; cbn [obind] in E3; [| discriminate].
      injection E3 as <-. apply gen_expr_plain in E.
      apply emits_plain_emit; [reflexivity | exact E].
    - injection E3 as <-. apply emits_plain_refl. }
  clear E3.
  destruct (gen_stmts body cg3) as [cg4 |] eqn:E4; cbn [obind] in H; [| discriminate].
  destruct (gen_opt_expr update cg4) as [cg5 |] eqn:E5; cbn [obind] in H; [| discriminate].
  apply gen_opt_expr_plain in E5.
  pose proof (proj2 P2) as L2. cbn [label_count] in L2.
  pose proof (proj2 P3) as L3. cbn [emit label_count] in L3.
  pose proof (proj2 E5) as L5.
  apply (gen_stmts_fresh body Hbody) in E4; [| lia].
  injection H as <-. rewrite control_constructs_For.
  destruct E4 as (nums & Hn & Hl & Hd & Hf & L4).
  destruct (construct_numbers (label_count cg) (label_count cg + 2) (label_count cg4)
              [] nums ltac:(constructor) Hd ltac:(constructor)) as [HD HF].
  { eapply Forall_impl; [exact Hf |]. cbn. intros k Hk. lia. }
  { lia. }
  exists (label_count cg :: nums ++ [label_count cg + 1])%list.
  split; [| split; [| split; [exact HD | split]]].
  - eapply (emits_numbers_trans _ _ _ (label_count cg :: nums) [label_count cg + 1]).
    2: { apply emits_numbers_new_label; [reflexivity | reflexivity | lia]. }
    apply emits_numbers_plain_emit; [reflexivity |].
    eapply emits_numbers_then_plain; [| exact E5].
    eapply (emits_numbers_trans _ _ _ [label_count cg] nums); [| exact Hn].
    eapply emits_numbers_then_plain; [| exact P3].
    eapply (emits_numbers_trans _ _ _ [] [label_count cg]).
    2: { apply emits_numbers_new_label; [reflexivity | reflexivity | exact Hc]. }
    eapply emits_numbers_then_plain; [| exact P2].
    apply two_labels_numbers.
  - cbn [length]. rewrite length_app. cbn [length]. lia.
  - cbn [emit label_count]. eapply Forall_impl; [exact HF |]. cbn. intros k Hk. lia.
  - cbn [emit label_count]. lia.
Qed.

Lemma else_fresh (else_ : option (list stmt)) cg cg' :
  Forall fresh_stmt (default [] else_) -> 0 <= label_count cg ->
  match else_ with
  | Some (s :: l) => gen_stmts (s :: l) cg
  | _ => Ok cg
  end = Ok cg' ->
  emits_fresh cg cg' (control_constructs_list (default [] else_)).
Proof.
  intros Hf Hc H. destruct else_ as [[| s l] |]; cbn [default] in *.
  - injection H as <-. apply emits_fresh_of_plain, emits_plain_refl.
  - exact (gen_stmts_fresh (s :: l) Hf cg cg' Hc H).
  - injection H as <-. apply emits_fresh_of_plain, emits_plain_refl.
Qed.

Lemma fresh_If condition then_ else_ :
  Forall fresh_stmt then_ -> Forall fresh_stmt (default [] else_) ->
  fresh_stmt (If condition then_ else_).
Proof.
  intros Hthen Helse cg cg' Hc H. rewrite gen_stmt_If in H. unfold new_label in H.
  cbv beta iota zeta in H. cbn [label_count output data string_count vars stack_offset] in H.
  destruct (gen_expr condition _) as [cg2 |] eqn:E2; cbn [obind] in H; [| discriminate].
  apply gen_expr_plain in E2.
  destruct (gen_stmts then_ _) as [cg3 |] eqn:E3; cbn [obind] in H; [| discriminate].
  destruct (match else_ with
            | Some (s :: l) => gen_stmts (s :: l) _
            | _ => Ok _
            end) as [cg4 |] eqn:E4; cbn [obind] in H; [| discriminate].
  pose proof (proj2 E2) as L2. cbn [label_count] in L2.
  apply (gen_stmts_fresh then_ Hthen) in E3; [| cbn [emit label_count]; lia].
  destruct E3 as (numsA & HnA & HlA & HdA & HfA & L3). cbn [emit label_count] in HfA, L3.
  apply (else_fresh else_ _ _ Helse) in E4; [| cbn [emit label_count]; lia].
  destruct E4 as (numsB & HnB & HlB & HdB & HfB & L4). cbn [emit label_count] in HfB, L4.
  injection H as <-. rewrite control_constructs_If.
  destruct (construct_numbers (label_count cg) (label_count cg3) (label_count cg4)
              numsA numsB HdA HdB) as [HD HF].
  { eapply Forall_impl; [exact HfA |]. cbn. intros k Hk. lia. }
  { exact HfB. }
  { lia. }
  exists (numsA ++ label_count cg :: numsB ++ [label_count cg + 1])%list.
  split; [| split; [| split; [exact HD | split]]].
  - replace (numsA ++ label_count cg :: numsB ++ [label_count cg + 1])%list
      with (((numsA ++ [label_count cg]) ++ numsB) ++ [label_count cg + 1])%list
      by (rewrite <- !app_assoc; reflexivity).
    eapply (emits_numbers_trans _ _ _ _ [label_count cg + 1]).
    2: { apply emits_numbers_new_label; [reflexivity | reflexivity | lia]. }
    eapply (emits_numbers_trans _ _ _ _ numsB); [| exact HnB].
    eapply (emits_numbers_trans _ _ _ numsA [label_count cg]).
    2: { apply emits_numbers_new_label; [reflexivity | reflexivity | exact Hc]. }
    apply emits_numbers_plain_emit; [reflexivity |].
    eapply (emits_numbers_trans _ _ _ [] numsA); [| exact HnA].
    apply emits_numbers_plain_emit; [reflexivity |].
    eapply emits_numbers_then_plain; [| exact E2].
    apply two_labels_numbers.
  - rewrite length_app. cbn [length]. rewrite length_app. cbn [length]. lia.
  - cbn [emit label_count]. exact HF.
  - cbn [emit label_count]. lia.
Qed.

(** a statement defines two labels for each control construct in it, with
    numbers taken from the counter *)
Lemma gen_stmt_fresh s : fresh_stmt s.
Proof.
  induction s as [name init | e | c t el Ht He | c b Hb | i c u b Hb | val]
    using stmt_nested_ind.
  - intros cg cg' _ H. cbn [gen_stmt] in H.
    apply emits_fresh_of_plain. exact (gen_declaration_plain _ _ _ _ H).
  - intros cg cg' _ H. cbn [gen_stmt] in H.
    apply emits_fresh_of_plain. exact (gen_expr_plain _ _ _ H).
  - apply fresh_If; assumption.
  - apply fresh_While; assumption.
  - apply fresh_For; assumption.
  - intros cg cg' _ H. cbn [gen_stmt] in H. apply emits_fresh_of_plain.
    destruct val as [v |]; cbn [obind] in H.
    + destruct (gen_expr v cg) as [cg1 |] eqn:E; cbn [obind] in H; [| discriminate].
      injection H as <-. apply gen_expr_plain in E.
      repeat (apply emits_plain_emit; [reflexivity |]). exact E.
    + injection H as <-. apply emits_plain_emit; [reflexivity | apply emits_plain_refl].
Qed.

Lemma gen_stmts_fresh_all l cg cg' :
  0 <= label_count cg -> gen_stmts l cg = Ok cg' ->
  emits_fresh cg cg' (control_constructs_list l).
Proof.
  apply gen_stmts_fresh. apply Forall_forall. intros s _. apply gen_stmt_fresh.
Qed.

End StatementsFreshProof.

Section ProgramLabels.
Import CodeGen.

Lemma gen_function_fresh func cg cg' :
  0 <= label_count cg -> gen_function func cg = Ok cg' ->
  exists (body : list string) (nums : list Z),
    output cg' = (output cg ++ prologue func ++ body ++ epilogue func)%list
    /\ label_number <$> labels_of body = nums
    /\ length nums = (2 * control_constructs_list (fbody func))%nat
    /\ NoDup nums
    /\ Forall (fun k => label_count cg <= k < label_count cg') nums
    /\ label_count cg' = label_count cg + 2 * Z.of_nat (control_constructs_list (fbody func)).
Proof.
  intros Hc H. unfold gen_function in H.
  destruct (gen_stmts (fbody func) _) as [cgb |] eqn:E; cbn [obind] in H; [| discriminate].
  apply gen_stmts_fresh_all in E; [| exact Hc].
  destruct E as (nums & (body & Ho & Hn) & Hl & Hd & Hf & L).
  cbn [label_count output emits emit fold_left] in Ho, Hf, L.
  injection H as <-. exists body, nums.
  split; [| split; [exact Hn | split; [exact Hl | split; [exact Hd | split]]]].
  - cbn [label_count output emits emit fold_left]. rewrite Ho.
    unfold prologue, epilogue. rewrite <- !app_assoc. reflexivity.
  - exact Hf.
  - exact L.
Qed.

Lemma gen_functions_fresh funcs : forall cg cg',
  0 <= label_count cg -> gen_functions funcs cg = Ok cg' ->
  exists (bodies : list (list string)) (nums : list Z),
    length bodies = length funcs
    /\ output cg' = (output cg ++ functions_output funcs bodies)%list
    /\ label_number <$> labels_of (concat bodies) = nums
    /\ length nums = (2 * control_constructs_functions funcs)%nat
    /\ NoDup nums
    /\ Forall (fun k => label_count cg <= k < label_count cg') nums
    /\ label_count cg' = label_count cg + 2 * Z.of_nat (control_constructs_functions funcs).
Proof.
  induction funcs as [| func funcs IH]; intros cg cg' Hc H; cbn [gen_functions] in H.
  - injection H as <-. exists [], []. cbn.
    rewrite app_nil_r. repeat split; try constructor. lia.
  - destruct (gen_function func cg) as [cg1 |] eqn:E; cbn [obind] in H; [| discriminate].
    apply gen_function_fresh in E; [| exact Hc].
    destruct E as (body & nums1 & Ho1 & Hn1 & Hl1 & Hd1 & Hf1 & L1).
    apply IH in H; [| lia].
    destruct H as (bodies & nums2 & Hlen & Ho2 & Hn2 & Hl2 & Hd2 & Hf2 & L2).
    exists (body :: bodies), (nums1 ++ nums2)%list.
    rewrite Forall_forall in Hf1, Hf2.
    split; [cbn [length]; rewrite Hlen; reflexivity |].
    split; [rewrite Ho2, Ho1; cbn [functions_output]; rewrite <- !app_assoc; reflexivity |].
    split; [cbn [concat]; rewrite labels_of_app, fmap_app, Hn1, Hn2; reflexivity |].
    split; [rewrite length_app; cbn [control_constructs_functions]; lia |].
    split; [| split].
    + apply NoDup_app. split; [exact Hd1 |]. split; [| exact Hd2].
      intros k Hk1 Hk2. apply Hf1 in Hk1. apply Hf2 in Hk2. lia.
    + apply Forall_app. split; apply Forall_forall; intros k Hk.
      * apply Hf1 in Hk. lia.
      * apply Hf2 in Hk. lia.
    + cbn [control_constructs_functions]. lia.
Qed.

End ProgramLabels.

(** C6. When the generator succeeds on a program, the output is, function
    after function, the prologue, the lines of the body and the epilogue;
    the lines of the bodies define exactly [2 * N] labels, for [N] the
    number of [if], [while] and [for] statements of the program at every
    depth, no two of these labels are the same, and the label counter
    ends at [2 * N]. *)
Theorem control_labels_unique (ast : program) (asm : string) (cg : CodeGen.codegen) :
  CodeGen.generate_from ast CodeGen.init = Ok (asm, cg) ->
  exists bodies : list (list string),
    length bodies = length (functions ast)
    /\ CodeGen.output cg = functions_output (functions ast) bodies
    /\ asm = Py.join Sim.nl (CodeGen.result_lines cg)
    /\ length (labels_of (concat bodies))
       = (2 * control_constructs_functions (functions ast))%nat
    /\ NoDup (labels_of (concat bodies))
    /\ CodeGen.label_count cg
       = 2 * Z.of_nat (control_constructs_functions (functions ast)).
Proof.
  unfold CodeGen.generate_from. intros H.
  destruct (CodeGen.gen_functions (functions ast) CodeGen.init) as [cg1 |] eqn:E;
    cbn [obind] in H; [| discriminate].
  injection H as <- <-.
  apply gen_functions_fresh in E; [| cbn; lia].
  destruct E as (bodies & nums & Hlen & Ho & Hn & Hl & Hd & _ & L).
  exists bodies. split; [exact Hlen |]. split; [exact Ho |]. split; [reflexivity |].
  split; [| split].
  - rewrite <- Hl, <- Hn, length_fmap. reflexivity.
  - apply (NoDup_fmap_1 label_number). rewrite Hn. exact Hd.
  - rewrite L. cbn. lia.
Qed.

(** [nested_loops] has three control constructs: six labels, all
    different *)
Lemma control_labels_unique_witness :
  exists bodies : list (list string),
    length bodies = 1%nat
    /\ length (labels_of (concat bodies)) = 6%nat
    /\ NoDup (labels_of (concat bodies)).
Proof.
  assert (H : exists asm cg,
             CodeGen.generate_from nested_loops CodeGen.init = Ok (asm, cg))
    by (eexists; eexists; vm_compute; reflexivity).
  destruct H as (asm & cg & H).
  destruct (control_labels_unique nested_loops asm cg H)
    as (bodies & Hlen & _ & _ & Hl & Hd & _).
  exists bodies. split; [exact Hlen |]. split; [exact Hl | exact Hd].
Defined.

(** * Further properties of the simulator *)

Section RunPreserves.
Import Sim.

Variable R : sim -> sim -> Prop.
Hypothesis R_refl : forall st, R st st.
Hypothesis R_trans : forall a b c, R a b -> R b c -> R a c.
Hypothesis R_pc : forall p st, R st (with_pc p st).
Hypothesis R_execute : forall inst, preserves R (execute inst).

(** what every instruction keeps, the run loop keeps *)
Lemma run_loop_preserves fuel : forall iterations executed st o i n st',
  run_loop fuel iterations executed st = Some (o, i, n, st') -> R st st'.
Proof.
  induction fuel as [| fuel IH]; intros iterations executed st o i n st' H;
    [discriminate |].
  cbn [run_loop] in H.
  destruct (running st && (iterations <? max_iter));
    [| injection H as _ _ _ <-; apply R_refl].
  destruct (pc st >=? Z.of_nat (length (instructions st)));
    [injection H as _ _ _ <-; apply R_refl |].
  destruct (Py.index (instructions st) (pc st)) as [raw | e];
    [| injection H as _ _ _ <-; apply R_refl].
  destruct (String.eqb (Py.strip raw) EmptyString || Py.startswith (Py.strip raw) "#").
  - apply IH in H. eapply R_trans; [apply R_pc | exact H].
  - pose proof (R_execute (Py.strip raw) st) as Hx.
    destruct (execute (Py.strip raw) st) as [[[] | e] st1]; cbn in Hx.
    + apply IH in H. eapply R_trans; eassumption.
    + injection H as _ _ _ <-. exact Hx.
Qed.

Lemma run_preserves fuel st o i n st' :
  run fuel st = Some (o, i, n, st') -> R st st'.
Proof.
  unfold run. destruct (labels st !! "main") as [l |].
  - intros H. apply run_loop_preserves in H. eapply R_trans; [apply R_pc | exact H].
  - intros H. injection H as _ _ _ <-. apply R_refl.
Qed.

End RunPreserves.

Section ProgramFixed.
Import Sim.

Lemma same_program_refl st : same_program st st.
Proof. repeat split. Qed.

Lemma same_program_trans a b c : same_program a b -> same_program b c -> same_program a c.
Proof. unfold same_program. intros (? & ? & ?) (? & ? & ?). repeat split; congruence. Qed.

Lemma set_reg_same_program name value : preserves same_program (set_reg name value).
Proof.
  intros st. unfold set_reg.
  destruct (reg_names !! name) as [[| idx] |]; try apply same_program_refl.
  destruct (S idx <? length (regs st))%nat; repeat split.
Qed.

Lemma exec_op_same_program op operands : preserves same_program (exec_op op operands).
Proof.
  unfold exec_op, next, print, write_mem.
  repeat first
    [ kept_step same_program same_program_refl same_program_trans
    | apply set_reg_same_program
    | apply preserves_modify; intros; repeat split ].
Qed.

Lemma execute_same_program inst : preserves same_program (execute inst).
Proof.
  unfold execute. destruct (decode inst) as [[op operands] |].
  - apply exec_op_same_program.
  - intros st. repeat split.
Qed.

End ProgramFixed.

(** X1. The program is fixed while it runs: no instruction of any kind
    changes the instruction list, the label table or the string pool, and
    so they are at the end of a run what they were at its start. *)
Theorem program_is_fixed :
  (forall inst st, same_program st (snd (Sim.execute inst st)))
  /\ (forall fuel st o i n st',
        Sim.run fuel st = Some (o, i, n, st') -> same_program st st').
Proof.
  split; [exact execute_same_program |].
  intros fuel st o i n st'.
  apply (run_preserves same_program same_program_refl same_program_trans).
  - intros p st0. repeat split.
  - exact execute_same_program.
Qed.

(** the run of [return_state], with [main] at 0 *)
Lemma program_is_fixed_witness :
  same_program (Sim.with_labels (<["main" := 0]> ∅) return_state)
    (Sim.with_running false (Sim.with_labels (<["main" := 0]> ∅) return_state)).
Proof.
  exact (proj2 program_is_fixed 2%nat
           (Sim.with_labels (<["main" := 0]> ∅) return_state) (Ok tt) 1 1 _ eq_refl).
Defined.

Section RegistersKept.
Import Sim.

Lemma keeps_regs_ok_refl st : keeps_regs_ok st st.
Proof. intros H. exact H. Qed.

Lemma keeps_regs_ok_trans a b c :
  keeps_regs_ok a b -> keeps_regs_ok b c -> keeps_regs_ok a c.
Proof. unfold keeps_regs_ok. auto. Qed.

Lemma keeps_regs_ok_same st st' : regs st' = regs st -> keeps_regs_ok st st'.
Proof. intros H. unfold keeps_regs_ok, regs_ok. rewrite H. auto. Qed.

Lemma set_reg_keeps_regs_ok name value : preserves keeps_regs_ok (set_reg name value).
Proof.
  intros st. unfold set_reg.
  destruct (reg_names !! name) as [[| idx] |]; try apply keeps_regs_ok_refl.
  destruct (S idx <? length (regs st))%nat; [| apply keeps_regs_ok_refl].
  intros [Hl Hf]. split; cbn [snd regs with_regs].
  - rewrite length_insert. exact Hl.
  - apply Forall_insert; [exact Hf | apply land_mask_range].
Qed.

Lemma exec_op_keeps_regs_ok op operands : preserves keeps_regs_ok (exec_op op operands).
Proof.
  unfold exec_op, next, print, write_mem.
  repeat first
    [ kept_step keeps_regs_ok keeps_regs_ok_refl keeps_regs_ok_trans
    | apply set_reg_keeps_regs_ok
    | apply preserves_modify; intros; apply keeps_regs_ok_same; reflexivity ].
Qed.

Lemma execute_keeps_regs_ok inst : preserves keeps_regs_ok (execute inst).
Proof.
  unfold execute. destruct (decode inst) as [[op operands] |].
  - apply exec_op_keeps_regs_ok.
  - intros st. apply keeps_regs_ok_same. reflexivity.
Qed.

Lemma load_program_regs_ok asm : regs_ok (snd (load_program asm init)).
Proof.
  unfold load_program.
  pose proof (load_lines_regs (Py.split_on (ascii_of_nat 10) asm)
                (mkLoader false false None EmptyString) init) as H.
  destruct (fold_left _ _ _) as [ld st]. cbn [snd] in H.
  apply (set_reg_keeps_regs_ok "$sp" 0x7ffffffc st).
  unfold regs_ok. rewrite H. split; [reflexivity |].
  cbn. repeat constructor; lia.
Qed.

End RegistersKept.

(** X2. The register file keeps its shape: when it has 32 slots with
    32-bit values, it has after any instruction, whether the instruction
    returns or raises; and a simulator that has loaded any text and run it
    ends with 32 slots of 32-bit values. *)
Theorem registers_stay_32_bit :
  (forall inst st, regs_ok st -> regs_ok (snd (Sim.execute inst st)))
  /\ (forall asm fuel o i n st,
        simulate fuel asm = Some (o, i, n, st) -> regs_ok st).
Proof.
  split; [exact execute_keeps_regs_ok |].
  intros asm fuel o i n st. unfold simulate.
  pose proof (load_program_regs_ok asm) as Hl.
  destruct (Sim.load_program asm Sim.init) as [[[] | e] st0]; cbn [snd] in Hl.
  - intros H.
    apply (run_preserves keeps_regs_ok keeps_regs_ok_refl keeps_regs_ok_trans) in H.
    + exact (H Hl).
    + intros p st1. apply keeps_regs_ok_same. reflexivity.
    + exact execute_keeps_regs_ok.
  - intros H. injection H as _ _ _ <-. exact Hl.
Qed.

(** [addi $t0, $t0, -1] on 0 wraps to 0xFFFFFFFF, and the run of
    [zero_writes] ends with a well-shaped register file *)
Lemma registers_stay_32_bit_witness :
  regs_ok (snd (Sim.execute "addi $t0, $t0, -1" Sim.init))
  /\ exists st, simulate 10 zero_writes = Some (Ok tt, 3, 3, st) /\ regs_ok st.
Proof.
  destruct registers_stay_32_bit as [Hexec Hrun].
  split.
  - apply Hexec. split; [reflexivity | cbn; repeat constructor; lia].
  - eexists. split; [vm_compute; reflexivity |].
    eapply (Hrun zero_writes 10%nat). vm_compute. reflexivity.
Defined.

(** X3. An instruction whose opcode is none of those that [execute]
    tests for is not an error: whatever its operands, it returns, and only
    the program counter has changed, by one. So does a text without any
    word. *)
Theorem unknown_opcode_ignored (inst : string) (st : Sim.sim) :
  (forall op operands,
     Sim.decode inst = Some (op, operands) -> op ∉ known_opcodes ->
     Sim.execute inst st = (Ok tt, Sim.with_pc (Sim.pc st + 1) st))
  /\ (Sim.decode inst = None ->
      Sim.execute inst st = (Ok tt, Sim.with_pc (Sim.pc st + 1) st)).
Proof.
  split.
  - intros op operands Hd Hn. unfold Sim.execute. rewrite Hd. unfold Sim.exec_op.
    repeat match goal with
           | |- context [String.eqb op ?k] =>
               destruct (String.eqb_spec op k) as [-> | _];
               [exfalso; apply Hn; apply list_elem_of_In; unfold known_opcodes;
                repeat (first [left; reflexivity | right]) |]
           end.
    reflexivity.
  - intros Hd. unfold Sim.execute. rewrite Hd. reflexivity.
Qed.

(** [syscall], which the generated runtime routines contain, and a line
    that is only a comment *)
Lemma unknown_opcode_ignored_witness :
  Sim.execute "    syscall" Sim.init = (Ok tt, Sim.with_pc 1 Sim.init)
  /\ Sim.execute "# nothing" Sim.init = (Ok tt, Sim.with_pc 1 Sim.init).
Proof.
  split.
  - apply (proj1 (unknown_opcode_ignored "    syscall" Sim.init) "syscall" []);
      [reflexivity |].
    intros H. apply list_elem_of_In in H. unfold known_opcodes in H. cbn [In] in H.
    repeat (destruct H as [H | H]; [discriminate H |]). exact H.
  - apply (proj2 (unknown_opcode_ignored "# nothing" Sim.init)). reflexivity.
Defined.

Section CallReturn.
Import Sim.

Lemma exec_jal_unfold f st :
  String.eqb f "print_int" = false -> String.eqb f "print_str" = false ->
  exec_op "jal" [f] st =
  (do p <- gets pc;
   set_reg "$ra" (p + 1);;
   do ls <- gets labels;
   match ls !! f with
   | Some target => modify (with_pc target)
   | None => next
   end) st.
Proof.
  intros H1 H2.
  change (exec_op "jal" [f] st)
    with ((if String.eqb f "print_int" then
             do val <- get_reg "$a0";
             print (Py.codes (Py.str (signed val)));; next
           else if String.eqb f "print_str" then
             do addr <- get_reg "$a0";
             do mem <- gets memory;
             do chars <- lift (cstring mem addr);
             print chars;; next
           else
             do p <- gets pc;
             set_reg "$ra" (p + 1);;
             do ls <- gets labels;
             match ls !! f with
             | Some target => modify (with_pc target)
             | None => next
             end) st).
  rewrite H1, H2. reflexivity.
Qed.

Lemma exec_jr_ra_target st target :
  get_reg "$ra" st = (Ok target, st) -> target <> 0 ->
  exec_op "jr" ["$ra"] st = (Ok tt, with_pc target st).
Proof.
  intros H Hne.
  change (exec_op "jr" ["$ra"] st)
    with (bind (get_reg "$ra")
            (fun target => if target =? 0 then modify (with_running false)
                           else modify (with_pc target)) st).
  unfold bind. rewrite H. destruct (Z.eqb_spec target 0); [contradiction | reflexivity].
Qed.

End CallReturn.

(** X4. Call and return. [jal f], for [f] other than the two print
    routines, at an instruction index below 2^32 - 1, leaves the index of
    the next instruction in [$ra]; it goes to the label [f] when there is
    one, and when there is none it is not an error: it goes on with the next
    instruction. A [jr $ra] that finds that return address in [$ra] goes
    to the instruction after the call. *)
Theorem call_and_return (st : Sim.sim) (f : string) :
  length (Sim.regs st) = 32%nat ->
  0 <= Sim.pc st < 0xFFFFFFFF ->
  f <> "print_int" -> f <> "print_str" ->
  exists st1,
    Sim.exec_op "jal" [f] st = (Ok tt, st1)
    /\ Sim.get_reg "$ra" st1 = (Ok (Sim.pc st + 1), st1)
    /\ Sim.pc st1 = default (Sim.pc st + 1) (Sim.labels st !! f)
    /\ (forall st2,
          Sim.get_reg "$ra" st2 = (Ok (Sim.pc st + 1), st2) ->
          Sim.exec_op "jr" ["$ra"] st2 = (Ok tt, Sim.with_pc (Sim.pc st + 1) st2)).
Proof.
  intros Hl Hpc H1 H2.
  apply String.eqb_neq in H1, H2.
  rewrite (exec_jal_unfold f st H1 H2).
  unfold Sim.bind, Sim.gets.
  rewrite (set_reg_writable "$ra" 30 (Sim.pc st + 1) st eq_refl Hl).
  cbn [Sim.labels Sim.with_regs].
  rewrite land_word by lia.
  destruct (Sim.labels st !! f) as [target |]; eexists;
    (split; [reflexivity |]);
    (split; [apply (get_reg_after_insert "$ra" 30 _ (Sim.regs st)); [reflexivity | exact Hl | reflexivity] |]);
    (split; [reflexivity |]);
    intros st2 Hra; apply exec_jr_ra_target; (exact Hra || lia).
Qed.

(** in [one_label_state], [jal f] goes to 7 and [jal g] to 1, both with 1
    in [$ra] *)
Lemma call_and_return_witness :
  (exists st1, Sim.exec_op "jal" ["f"] one_label_state = (Ok tt, st1)
               /\ Sim.get_reg "$ra" st1 = (Ok 1, st1) /\ Sim.pc st1 = 7
               /\ Sim.exec_op "jr" ["$ra"] st1 = (Ok tt, Sim.with_pc 1 st1))
  /\ (exists st1, Sim.exec_op "jal" ["g"] one_label_state = (Ok tt, st1)
                  /\ Sim.get_reg "$ra" st1 = (Ok 1, st1) /\ Sim.pc st1 = 1).
Proof.
  destruct (call_and_return one_label_state "f" eq_refl ltac:(cbn; lia)
              ltac:(discriminate) ltac:(discriminate))
    as (st1 & Hx & Hra & Hpc & Hret).
  destruct (call_and_return one_label_state "g" eq_refl ltac:(cbn; lia)
              ltac:(discriminate) ltac:(discriminate))
    as (st1' & Hx' & Hra' & Hpc' & _).
  split.
  - exists st1. split; [exact Hx |]. split; [exact Hra |]. split; [exact Hpc |].
    exact (Hret st1 Hra).
  - exists st1'. split; [exact Hx' |]. split; [exact Hra' | exact Hpc'].
Defined.

Section StoreLoad.
Import Sim.

Lemma get_reg_same_regs name v st st' :
  regs st' = regs st -> get_reg name st = (Ok v, st) -> get_reg name st' = (Ok v, st').
Proof.
  intros Hr. unfold get_reg. rewrite Hr.
  destruct (reg_names !! name) as [[| idx] |]; [| | discriminate].
  - intros H. injection H as <-. reflexivity.
  - destruct (regs st !! S idx); [| discriminate].
    intros H. injection H as <-. reflexivity.
Qed.

Lemma exec_sw rs o off base a v st :
  parse_offset_reg o = Ok (off, base) ->
  get_reg base st = (Ok a, st) -> get_reg rs st = (Ok v, st) ->
  exec_op "sw" [rs; o] st = (Ok tt, mem_write (a + off) v st).
Proof.
  intros Hp Hb Hs.
  change (exec_op "sw" [rs; o] st)
    with ((do p <- lift (parse_offset_reg o);
           do base <- get_reg (snd p);
           do val <- get_reg rs;
           write_mem (base + fst p) val;; next) st).
  unfold bind, lift. rewrite Hp. cbn [fst snd]. rewrite Hb, Hs. reflexivity.
Qed.

Lemma exec_lw rd o off base a idx st :
  reg_names !! rd = Some (S idx) -> length (regs st) = 32%nat ->
  parse_offset_reg o = Ok (off, base) -> get_reg base st = (Ok a, st) ->
  exec_op "lw" [rd; o] st
  = (Ok tt, rd_write (S idx) (read_mem_of (memory st) (a + off)) st).
Proof.
  intros Hn Hl Hp Hb.
  change (exec_op "lw" [rd; o] st)
    with ((do p <- lift (parse_offset_reg o);
           do base <- get_reg (snd p);
           do w <- read_mem (base + fst p);
           set_reg rd w;; next) st).
  unfold bind, lift. rewrite Hp. cbn [fst snd]. rewrite Hb.
  unfold read_mem, gets. rewrite (set_reg_writable rd idx _ st Hn Hl). reflexivity.
Qed.

Lemma land_mask_twice v : Z.land (Z.land v 0xFFFFFFFF) 0xFFFFFFFF = Z.land v 0xFFFFFFFF.
Proof. rewrite <- Z.land_assoc, Z.land_diag. reflexivity. Qed.

Lemma read_mem_of_write_other mem a w b :
  b + 4 <= a \/ a + 4 <= b ->
  read_mem_of (write_mem_of mem a w) b = read_mem_of mem b.
Proof.
  intros H. rewrite !read_mem_of_unfold.
  rewrite !write_mem_of_outside by lia. reflexivity.
Qed.

End StoreLoad.

(** X5. Store and load. [sw rs, o] followed by [lw rd, o], for an
    operand [o] of the form offset(base), a register [rd] other than
    [$zero] and [rs] holding [v]: both return, [rd] holds the low 32 bits
    of [v] (all of [v], for a register value), the memory is that of the
    store at the base plus the offset, and the program counter has moved by
    two. *)
Theorem store_then_load (st : Sim.sim) (rs rd o base : string) (off a v : Z)
    (idx : nat) :
  length (Sim.regs st) = 32%nat ->
  Sim.parse_offset_reg o = Ok (off, base) ->
  Sim.get_reg base st = (Ok a, st) ->
  Sim.get_reg rs st = (Ok v, st) ->
  Sim.reg_names !! rd = Some (S idx) ->
  exists st',
    Sim.bind (Sim.exec_op "sw" [rs; o]) (fun _ => Sim.exec_op "lw" [rd; o]) st
    = (Ok tt, st')
    /\ Sim.get_reg rd st' = (Ok (Z.land v 0xFFFFFFFF), st')
    /\ Sim.memory st' = Sim.write_mem_of (Sim.memory st) (a + off) v
    /\ Sim.pc st' = Sim.pc st + 2.
Proof.
  intros Hl Hp Hb Hs Hn. unfold Sim.bind.
  rewrite (exec_sw rs o off base a v st Hp Hb Hs).
  rewrite (exec_lw rd o off base a idx (mem_write (a + off) v st) Hn Hl Hp
             (get_reg_same_regs base a st (mem_write (a + off) v st) eq_refl Hb)).
  eexists. split; [reflexivity |].
  split; [| split; [reflexivity | cbn; lia]].
  apply (get_reg_after_insert rd idx _ (Sim.regs st)); [exact Hn | exact Hl |].
  cbn [rd_write mem_write Sim.regs Sim.with_pc Sim.with_regs Sim.with_memory Sim.memory].
  rewrite read_write_mem_of, land_mask_twice. reflexivity.
Qed.

(** 0x7FFFFFFC stored from [$sp] at [-4($sp)] and loaded into [$t0] *)
Lemma store_then_load_witness :
  exists st',
    Sim.bind (Sim.exec_op "sw" ["$sp"; "-4($sp)"])
             (fun _ => Sim.exec_op "lw" ["$t0"; "-4($sp)"])
             (frame_state 0x7FFFFFFC 0 0)
    = (Ok tt, st')
    /\ Sim.get_reg "$t0" st' = (Ok 0x7FFFFFFC, st').
Proof.
  destruct (store_then_load (frame_state 0x7FFFFFFC 0 0) "$sp" "$t0" "-4($sp)" "$sp"
              (-4) 0x7FFFFFFC 0x7FFFFFFC 7 eq_refl eq_refl eq_refl eq_refl eq_refl)
    as (st' & Hx & Hr & _).
  exists st'. split; [exact Hx | exact Hr].
Defined.

(** ** The frame of a function *)

Ltac over_registers st :=
  let rs := fresh "rs" in
  let Hl := fresh "Hl" in
  intros Hl; destruct st as [rs ? ? ? ? ? ? ? ? ?]; cbn in Hl;
  do 32 (destruct rs as [| ? rs]; [discriminate Hl |]);
  destruct rs; [reflexivity | discriminate Hl].

Section Frame.
Import Sim.

Lemma step_open_sp st : length (regs st) = 32%nat ->
  execute "    addi $sp, $sp, -8" st = (Ok tt, rd_write 29 (reg 29 st + -8) st).
Proof. over_registers st. Qed.

Lemma step_save_ra st : length (regs st) = 32%nat ->
  execute "    sw $ra, 4($sp)" st = (Ok tt, mem_write (reg 29 st + 4) (reg 31 st) st).
Proof. over_registers st. Qed.

Lemma step_save_fp st : length (regs st) = 32%nat ->
  execute "    sw $fp, 0($sp)" st = (Ok tt, mem_write (reg 29 st + 0) (reg 30 st) st).
Proof. over_registers st. Qed.

Lemma step_fp_from_sp st : length (regs st) = 32%nat ->
  execute "    move $fp, $sp" st = (Ok tt, rd_write 30 (reg 29 st) st).
Proof. over_registers st. Qed.

Lemma step_sp_from_fp st : length (regs st) = 32%nat ->
  execute "    move $sp, $fp" st = (Ok tt, rd_write 29 (reg 30 st) st).
Proof. over_registers st. Qed.

Lemma step_load_fp st : length (regs st) = 32%nat ->
  execute "    lw $fp, 0($sp)" st
  = (Ok tt, rd_write 30 (read_mem_of (memory st) (reg 29 st + 0)) st).
Proof. over_registers st. Qed.

Lemma step_load_ra st : length (regs st) = 32%nat ->
  execute "    lw $ra, 4($sp)" st
  = (Ok tt, rd_write 31 (read_mem_of (memory st) (reg 29 st + 4)) st).
Proof. over_registers st. Qed.

Lemma step_close_sp st : length (regs st) = 32%nat ->
  execute "    addi $sp, $sp, 8" st = (Ok tt, rd_write 29 (reg 29 st + 8) st).
Proof. over_registers st. Qed.

Lemma get_reg_sp st : length (regs st) = 32%nat -> get_reg "$sp" st = (Ok (reg 29 st), st).
Proof. over_registers st. Qed.

Lemma get_reg_fp st : length (regs st) = 32%nat -> get_reg "$fp" st = (Ok (reg 30 st), st).
Proof. over_registers st. Qed.

Lemma get_reg_ra st : length (regs st) = 32%nat -> get_reg "$ra" st = (Ok (reg 31 st), st).
Proof. over_registers st. Qed.

Lemma land_mask_small v : 0 <= v < 0x100000000 -> Z.land v 0xFFFFFFFF = v.
Proof.
  intros Hv. change 0xFFFFFFFF with (Z.ones 32). rewrite Z.land_ones by lia.
  apply Z.mod_small. exact Hv.
Qed.

Lemma land_mask_back v :
  0 <= v < 0x100000000 -> Z.land (Z.land (v + -8) 0xFFFFFFFF + 8) 0xFFFFFFFF = v.
Proof.
  intros Hv. change 0xFFFFFFFF with (Z.ones 32). rewrite !Z.land_ones by lia.
  rewrite Zplus_mod_idemp_l. replace (v + -8 + 8) with v by lia.
  apply Z.mod_small. exact Hv.
Qed.

Lemma frame_enter_runs st : length (regs st) = 32%nat ->
  exists st1,
    execute_all frame_enter st = (Ok tt, st1)
    /\ length (regs st1) = 32%nat
    /\ reg 29 st1 = Z.land (reg 29 st + -8) 0xFFFFFFFF
    /\ reg 30 st1 = Z.land (reg 29 st + -8) 0xFFFFFFFF
    /\ reg 31 st1 = reg 31 st
    /\ memory st1
       = write_mem_of
           (write_mem_of (memory st) (Z.land (reg 29 st + -8) 0xFFFFFFFF + 4) (reg 31 st))
           (Z.land (reg 29 st + -8) 0xFFFFFFFF + 0) (reg 30 st).
Proof.
  intros Hl. unfold frame_enter.
  rewrite (execute_all_step _ _ st _ (step_open_sp st Hl)).
  set (s1 := rd_write 29 (reg 29 st + -8) st).
  assert (Hl1 : length (regs s1) = 32%nat) by (unfold s1; rewrite rd_write_length; exact Hl).
  rewrite (execute_all_step _ _ s1 _ (step_save_ra s1 Hl1)).
  set (s2 := mem_write (reg 29 s1 + 4) (reg 31 s1) s1).
  assert (Hl2 : length (regs s2) = 32%nat) by exact Hl1.
  rewrite (execute_all_step _ _ s2 _ (step_save_fp s2 Hl2)).
  set (s3 := mem_write (reg 29 s2 + 0) (reg 30 s2) s2).
  assert (Hl3 : length (regs s3) = 32%nat) by exact Hl2.
  rewrite (execute_all_step _ _ s3 _ (step_fp_from_sp s3 Hl3)).
  eexists. split; [reflexivity |].
  assert (H29 : reg 29 s1 = Z.land (reg 29 st + -8) 0xFFFFFFFF)
    by (unfold s1; apply reg_rd_write_eq; lia).
  assert (H30 : reg 30 s1 = reg 30 st) by (unfold s1; apply reg_rd_write_ne; lia).
  assert (H31 : reg 31 s1 = reg 31 st) by (unfold s1; apply reg_rd_write_ne; lia).
  change (reg 29 s3) with (reg 29 s1).
  split; [rewrite rd_write_length; exact Hl3 |].
  split; [rewrite reg_rd_write_ne by lia; exact H29 |].
  split; [rewrite reg_rd_write_eq by lia; rewrite H29; apply land_mask_twice |].
  split; [rewrite reg_rd_write_ne by lia; exact H31 |].
  change (memory (rd_write 30 (reg 29 s1) s3))
    with (write_mem_of (write_mem_of (memory st) (reg 29 s1 + 4) (reg 31 s1))
            (reg 29 s1 + 0) (reg 30 s1)).
  rewrite H29, H30, H31. reflexivity.
Qed.

Lemma frame_leave_runs st : length (regs st) = 32%nat ->
  exists st1,
    execute_all frame_leave st = (Ok tt, st1)
    /\ length (regs st1) = 32%nat
    /\ reg 29 st1 = Z.land (Z.land (reg 30 st) 0xFFFFFFFF + 8) 0xFFFFFFFF
    /\ reg 30 st1
       = Z.land (read_mem_of (memory st) (Z.land (reg 30 st) 0xFFFFFFFF + 0)) 0xFFFFFFFF
    /\ reg 31 st1
       = Z.land (read_mem_of (memory st) (Z.land (reg 30 st) 0xFFFFFFFF + 4)) 0xFFFFFFFF
    /\ memory st1 = memory st.
Proof.
  intros Hl. unfold frame_leave.
  rewrite (execute_all_step _ _ st _ (step_sp_from_fp st Hl)).
  set (s1 := rd_write 29 (reg 30 st) st).
  assert (Hl1 : length (regs s1) = 32%nat) by (unfold s1; rewrite rd_write_length; exact Hl).
  rewrite (execute_all_step _ _ s1 _ (step_load_fp s1 Hl1)).
  set (s2 := rd_write 30 (read_mem_of (memory s1) (reg 29 s1 + 0)) s1).
  assert (Hl2 : length (regs s2) = 32%nat) by (unfold s2; rewrite rd_write_length; exact Hl1).
  rewrite (execute_all_step _ _ s2 _ (step_load_ra s2 Hl2)).
  set (s3 := rd_write 31 (read_mem_of (memory s2) (reg 29 s2 + 4)) s2).
  assert (Hl3 : length (regs s3) = 32%nat) by (unfold s3; rewrite rd_write_length; exact Hl2).
  rewrite (execute_all_step _ _ s3 _ (step_close_sp s3 Hl3)).
  eexists. split; [reflexivity |].
  assert (H29 : reg 29 s1 = Z.land (reg 30 st) 0xFFFFFFFF)
    by (unfold s1; apply reg_rd_write_eq; lia).
  assert (H29' : reg 29 s2 = reg 29 s1) by (unfold s2; apply reg_rd_write_ne; lia).
  assert (H29'' : reg 29 s3 = reg 29 s2) by (unfold s3; apply reg_rd_write_ne; lia).
  split; [rewrite rd_write_length; exact Hl3 |].
  split; [rewrite reg_rd_write_eq by lia; rewrite H29'', H29', H29; reflexivity |].
  split.
  { rewrite reg_rd_write_ne by lia. unfold s3. rewrite reg_rd_write_ne by lia.
    unfold s2. rewrite reg_rd_write_eq by lia. rewrite H29. reflexivity. }
  split; [| reflexivity].
  rewrite reg_rd_write_ne by lia. unfold s3. rewrite reg_rd_write_eq by lia.
  rewrite H29', H29. reflexivity.
Qed.

End Frame.

(** X6. The frame of a function. The four instructions that [gen_function]
    emits after the label of a function, run with 32-bit values [sp], [fp]
    and [ra] in [$sp], [$fp] and [$ra], return and leave [$sp] and [$fp] at
    the frame [sp - 8] (modulo 2^32), with the old [$fp] in the word at the
    frame and [$ra] in the word at the frame plus 4. From any later state
    with [$fp] at the frame and these two words as they were, the four
    instructions emitted before [jr $ra] return and leave [sp], [fp] and
    [ra] in the three registers again, and do not touch the memory. *)
Theorem frame_restores_registers (st : Sim.sim) (sp fp ra : Z) :
  length (Sim.regs st) = 32%nat ->
  Sim.get_reg "$sp" st = (Ok sp, st) ->
  Sim.get_reg "$fp" st = (Ok fp, st) ->
  Sim.get_reg "$ra" st = (Ok ra, st) ->
  0 <= sp < 0x100000000 -> 0 <= fp < 0x100000000 -> 0 <= ra < 0x100000000 ->
  let frame := Z.land (sp - 8) 0xFFFFFFFF in
  exists st1,
    execute_all frame_enter st = (Ok tt, st1)
    /\ Sim.get_reg "$sp" st1 = (Ok frame, st1)
    /\ Sim.get_reg "$fp" st1 = (Ok frame, st1)
    /\ Sim.get_reg "$ra" st1 = (Ok ra, st1)
    /\ Sim.read_mem_of (Sim.memory st1) frame = fp
    /\ Sim.read_mem_of (Sim.memory st1) (frame + 4) = ra
    /\ forall st2,
         length (Sim.regs st2) = 32%nat ->
         Sim.get_reg "$fp" st2 = (Ok frame, st2) ->
         Sim.read_mem_of (Sim.memory st2) frame = fp ->
         Sim.read_mem_of (Sim.memory st2) (frame + 4) = ra ->
         exists st3,
           execute_all frame_leave st2 = (Ok tt, st3)
           /\ Sim.get_reg "$sp" st3 = (Ok sp, st3)
           /\ Sim.get_reg "$fp" st3 = (Ok fp, st3)
           /\ Sim.get_reg "$ra" st3 = (Ok ra, st3)
           /\ Sim.memory st3 = Sim.memory st2.
Proof.
  intros Hl Hsp Hfp Hra Rsp Rfp Rra frame.
  rewrite (get_reg_sp st Hl) in Hsp. injection Hsp as Hsp.
  rewrite (get_reg_fp st Hl) in Hfp. injection Hfp as Hfp.
  rewrite (get_reg_ra st Hl) in Hra. injection Hra as Hra.
  destruct (frame_enter_runs st Hl) as (st1 & Hx & Hl1 & H29 & H30 & H31 & Hm).
  rewrite Hsp, Hfp, Hra in *. change (sp + -8) with (sp - 8) in *. fold frame in H29, H30, Hm.
  exists st1. split; [exact Hx |].
  split; [rewrite (get_reg_sp st1 Hl1), H29; reflexivity |].
  split; [rewrite (get_reg_fp st1 Hl1), H30; reflexivity |].
  split; [rewrite (get_reg_ra st1 Hl1), H31; reflexivity |].
  split; [rewrite Hm, Z.add_0_r, read_write_mem_of; apply land_mask_small; exact Rfp |].
  split.
  { rewrite Hm, Z.add_0_r, read_mem_of_write_other by lia.
    rewrite read_write_mem_of. apply land_mask_small; exact Rra. }
  intros st2 Hl2 Hf2 Hm0 Hm4.
  rewrite (get_reg_fp st2 Hl2) in Hf2. injection Hf2 as Hf2.
  destruct (frame_leave_runs st2 Hl2) as (st3 & Hx3 & Hl3 & G29 & G30 & G31 & Gm).
  assert (Hframe : Z.land frame 0xFFFFFFFF = frame) by apply land_mask_twice.
  rewrite Hf2, Hframe in G29, G30, G31.
  exists st3. split; [exact Hx3 |].
  split.
  { rewrite (get_reg_sp st3 Hl3), G29. unfold frame.
    change (sp - 8) with (sp + -8). rewrite land_mask_back by exact Rsp. reflexivity. }
  split.
  { rewrite (get_reg_fp st3 Hl3), G30, Z.add_0_r, Hm0, land_mask_small by exact Rfp.
    reflexivity. }
  split; [| exact Gm].
  rewrite (get_reg_ra st3 Hl3), G31, Hm4, land_mask_small by exact Rra. reflexivity.
Qed.

(** the frame of a call made with the initial stack pointer, from the
    instruction at index 3 *)
Lemma frame_restores_registers_witness :
  exists st1 st3,
    execute_all frame_enter (frame_state 0x7FFFFFFC 0 3) = (Ok tt, st1)
    /\ Sim.get_reg "$fp" st1 = (Ok 0x7FFFFFF4, st1)
    /\ execute_all frame_leave st1 = (Ok tt, st3)
    /\ Sim.get_reg "$sp" st3 = (Ok 0x7FFFFFFC, st3)
    /\ Sim.get_reg "$ra" st3 = (Ok 3, st3).
Proof.
  destruct (frame_restores_registers (frame_state 0x7FFFFFFC 0 3) 0x7FFFFFFC 0 3
              eq_refl eq_refl eq_refl eq_refl ltac:(lia) ltac:(lia) ltac:(lia))
    as (st1 & Hx & Hsp & Hfp & Hra & Hm0 & Hm4 & Hleave).
  assert (Hl1 : length (Sim.regs st1) = 32%nat).
  { vm_compute in Hx. injection Hx as <-. reflexivity. }
  destruct (Hleave st1 Hl1 Hfp Hm0 Hm4) as (st3 & Hx3 & Hsp3 & _ & Hra3 & _).
  exists st1, st3.
  split; [exact Hx |]. split; [exact Hfp |]. split; [exact Hx3 |].
  split; [exact Hsp3 | exact Hra3].
Defined.

(** ** Printing a string *)

Section PrintString.
Import Sim.

Lemma scan_cstring_more fuel k : forall mem addr i chars r,
  scan_cstring fuel mem addr i chars = Some r ->
  scan_cstring (fuel + k) mem addr i chars = Some r.
Proof.
  induction fuel as [| fuel IH]; intros mem addr i chars r H; [discriminate |].
  cbn [scan_cstring Nat.add] in *.
  destruct (default 0 (mem !! (addr + i)) =? 0); [exact H |].
  destruct (Py.chr _); [apply IH; exact H | exact H].
Qed.

Lemma chr_ord c : Py.chr (Py.ord c) = Ok (Py.ord c).
Proof.
  unfold Py.chr, Py.ord. pose proof (nat_ascii_bounded c) as Hb.
  destruct (Z.leb_spec 0 (Z.of_nat (nat_of_ascii c))); [| lia].
  destruct (Z.ltb_spec (Z.of_nat (nat_of_ascii c)) 0x110000); [reflexivity | lia].
Qed.

Lemma ord_zero c : Py.ord c = 0 -> c = zero.
Proof.
  unfold Py.ord. intros H. rewrite <- (ascii_nat_embedding c).
  replace (nat_of_ascii c) with 0%nat by lia. reflexivity.
Qed.

Lemma scan_cstring_reads p : forall fuel mem addr i chars,
  (forall (j : nat) c, p !! j = Some c ->
     mem !! (addr + i + Z.of_nat j) = Some (Py.ord c) /\ c <> zero) ->
  default 0 (mem !! (addr + i + Z.of_nat (length p))) = 0 ->
  (length p < fuel)%nat ->
  scan_cstring fuel mem addr i chars = Some (Ok (chars ++ (Py.ord <$> p))%list).
Proof.
  induction p as [| c p IH]; intros fuel mem addr i chars Hp Hz Hf;
    (destruct fuel as [| fuel]; [cbn in Hf; lia |]); cbn [scan_cstring].
  - cbn in Hz. rewrite Z.add_0_r in Hz. rewrite Hz. cbn. rewrite app_nil_r. reflexivity.
  - destruct (Hp 0%nat c eq_refl) as [Hc Hnz]. cbn in Hc. rewrite Z.add_0_r in Hc.
    rewrite Hc. change (default 0 (Some (Py.ord c))) with (Py.ord c).
    destruct (Z.eqb_spec (Py.ord c) 0) as [H0 | _]; [destruct (Hnz (ord_zero c H0)) |].
    rewrite chr_ord. rewrite IH.
    + rewrite <- app_assoc. reflexivity.
    + intros j d Hj. destruct (Hp (S j) d Hj) as [Hd Hdz]. split; [| exact Hdz].
      rewrite <- Hd. f_equal. lia.
    + replace (addr + (i + 1) + Z.of_nat (length p))
        with (addr + i + Z.of_nat (length (c :: p))) by (cbn [length]; lia).
      exact Hz.
    + cbn [length] in Hf. lia.
Qed.

Lemma before_chars z s : forall (j : nat) c,
  list_ascii_of_string (Py.before z s) !! j = Some c ->
  list_ascii_of_string s !! j = Some c /\ c <> z.
Proof.
  induction s as [| d s IH]; intros j c H; [destruct j; discriminate |].
  cbn [Py.before] in H. destruct (Ascii.eqb_spec z d) as [-> | Hne];
    [destruct j; discriminate |].
  destruct j as [| j]; cbn in H |- *.
  - injection H as <-. split; [reflexivity | congruence].
  - apply IH. exact H.
Qed.

Lemma before_end z s :
  String.length (Py.before z s) = String.length s
  \/ list_ascii_of_string s !! String.length (Py.before z s) = Some z.
Proof.
  induction s as [| d s IH]; [left; reflexivity |].
  cbn [Py.before]. destruct (Ascii.eqb_spec z d) as [-> | Hne]; [right; reflexivity |].
  cbn [String.length]. destruct IH as [IH | IH]; [left; rewrite IH; reflexivity |].
  right. exact IH.
Qed.

Lemma exec_move rd rs idx v st :
  reg_names !! rd = Some (S idx) -> length (regs st) = 32%nat ->
  get_reg rs st = (Ok v, st) ->
  exec_op "move" [rd; rs] st = (Ok tt, rd_write (S idx) v st).
Proof.
  intros Hn Hl Hs.
  change (exec_op "move" [rd; rs] st)
    with ((do v <- get_reg rs; set_reg rd v;; next) st).
  unfold bind. rewrite Hs, (set_reg_writable rd idx v st Hn Hl). reflexivity.
Qed.

Lemma exec_print_str a chars st :
  get_reg "$a0" st = (Ok a, st) -> cstring (memory st) a = Ok chars ->
  exec_op "jal" ["print_str"] st
  = (Ok tt, with_pc (pc st + 1) (with_stdout (stdout st ++ chars) st)).
Proof.
  intros Ha Hc.
  change (exec_op "jal" ["print_str"] st)
    with ((do addr <- get_reg "$a0";
           do mem <- gets memory;
           do chars <- lift (cstring mem addr);
           print chars;; next) st).
  unfold bind, gets, lift. rewrite Ha, Hc. reflexivity.
Qed.

(** what the loop of [print_str] reads where a string has been stored *)
Lemma cstring_of_stored mem addr s :
  (forall (i : nat) c, list_ascii_of_string s !! i = Some c ->
     mem !! (addr + Z.of_nat i) = Some (Py.ord c)) ->
  mem !! (addr + Py.len s) = Some 0 ->
  cstring mem addr = Ok (Py.codes (Py.before zero s)).
Proof.
  intros Hm Hz. unfold cstring.
  destruct (scan_cstring_enough mem addr) as [r Hr]. rewrite Hr.
  change (default (Ok []) (Some r)) with r.
  apply (scan_cstring_more _ (S (String.length s))) in Hr.
  rewrite (scan_cstring_reads (list_ascii_of_string (Py.before zero s))) in Hr.
  - injection Hr as <-. reflexivity.
  - intros j c Hj. apply before_chars in Hj as [Hj Hc]. split; [| exact Hc].
    rewrite Z.add_0_r. apply Hm. exact Hj.
  - rewrite Z.add_0_r, length_chars.
    destruct (before_end zero s) as [He | He].
    + rewrite He. fold (Py.len s). rewrite Hz. reflexivity.
    + rewrite (Hm _ _ He). reflexivity.
  - rewrite length_chars.
    assert (String.length (Py.before zero s) <= String.length s)%nat.
    { clear. induction s as [| d s IH]; [cbn; lia |].
      cbn [Py.before]. destruct (Ascii.eqb zero d); cbn [String.length]; lia. }
    lia.
Qed.

End PrintString.

(** X7. Printing a string. The three instructions that [gen_expr] emits
    for [print_str] of a string literal, [la rd, L], [move $a0, rd] and
    [jal print_str], for a register [rd] other than [$zero] and a label
    [L] of the data section with content [s]: the three return, and the
    text printed is [s] up to its first NUL character (all of [s] when it
    has none), appended to what was printed before. *)
Theorem print_str_prints (st : Sim.sim) (rd L s : string) (idx : nat) :
  Sim.reg_names !! rd = Some (S idx) ->
  length (Sim.regs st) = 32%nat ->
  Sim.data_strings st !! L = Some s ->
  Py.len L < 0xF0000000 ->
  exists st',
    Sim.bind (Sim.exec_op "la" [rd; L])
      (fun _ => Sim.bind (Sim.exec_op "move" ["$a0"; rd])
         (fun _ => Sim.exec_op "jal" ["print_str"])) st
    = (Ok tt, st')
    /\ Sim.stdout st' = (Sim.stdout st ++ Py.codes (Py.before zero s))%list
    /\ Sim.pc st' = Sim.pc st + 3.
Proof.
  intros Hn Hl Hs Hlen.
  destruct (la_spec rd L s idx st Hn Hl Hs Hlen) as (st1 & Hx & Hr & _ & Hm & Hz).
  assert (Hl1 : length (Sim.regs st1) = 32%nat) by (rewrite Hr, length_insert; exact Hl).
  pose proof (get_reg_after_insert rd idx _ _ st1 Hn Hl Hr) as Hrd.
  unfold Sim.bind at 1. rewrite Hx. unfold Sim.bind.
  rewrite (exec_move "$a0" rd 3 _ st1 eq_refl Hl1 Hrd).
  set (st2 := rd_write 4 (0x10000000 + Py.len L) st1).
  assert (Ha : Sim.get_reg "$a0" st2 = (Ok (0x10000000 + Py.len L), st2)).
  { apply (get_reg_after_insert "$a0" 3 _ (Sim.regs st1)); [reflexivity | exact Hl1 |].
    unfold st2, rd_write. cbn [Sim.regs Sim.with_pc Sim.with_regs].
    pose proof (len_nonneg L). rewrite land_word by lia. reflexivity. }
  rewrite (exec_print_str _ (Py.codes (Py.before zero s)) st2 Ha
             (cstring_of_stored (Sim.memory st1) _ s Hm Hz)).
  eexists. split; [reflexivity |].
  assert (Hout : Sim.stdout st1 = Sim.stdout st /\ Sim.pc st1 = Sim.pc st + 1).
  { rewrite (exec_la rd L s idx st Hn Hl Hs) in Hx. injection Hx as <-. split; reflexivity. }
  destruct Hout as [Ho Hp]. cbn. rewrite Ho, Hp. split; [reflexivity | lia].
Qed.

(** [str1] of [two_strings_state] printed through [$t0] *)
Lemma print_str_prints_witness :
  exists st',
    Sim.bind (Sim.exec_op "la" ["$t0"; "str1"])
      (fun _ => Sim.bind (Sim.exec_op "move" ["$a0"; "$t0"])
         (fun _ => Sim.exec_op "jal" ["print_str"])) two_strings_state
    = (Ok tt, st')
    /\ Sim.stdout st' = [121; 111].
Proof.
  destruct (print_str_prints two_strings_state "$t0" "str1" "yo" 7
              eq_refl eq_refl eq_refl eq_refl) as (st' & Hx & Ho & _).
  exists st'. split; [exact Hx | exact Ho].
Defined.

(** * Further properties: the generator and the simulator together *)

Section PlainText.

Lemma sapp_cons x a b : String x a +:+ b = String x (a +:+ b).
Proof. reflexivity. Qed.

Lemma sapp_assoc a : forall b c : string, (a +:+ b) +:+ c = a +:+ (b +:+ c).
Proof.
  induction a as [| x a IH]; intros b c; [reflexivity |].
  rewrite !sapp_cons. f_equal. apply IH.
Qed.

Lemma sapp_empty a : a +:+ EmptyString = a.
Proof. induction a as [| x a IH]; [reflexivity |]. rewrite sapp_cons. f_equal. exact IH. Qed.

Lemma contains_app c a b :
  Py.contains c (a +:+ b) = Py.contains c a || Py.contains c b.
Proof.
  induction a as [| x a IH]; [reflexivity |].
  rewrite sapp_cons. cbn [Py.contains]. rewrite IH. apply orb_assoc.
Qed.

Lemma all_chars_app p a b : all_chars p (a +:+ b) = all_chars p a && all_chars p b.
Proof.
  induction a as [| x a IH]; [reflexivity |].
  rewrite sapp_cons. cbn [all_chars]. rewrite IH. apply andb_assoc.
Qed.

Lemma all_chars_impl (p q : ascii -> bool) s :
  (forall c, p c = true -> q c = true) -> all_chars p s = true -> all_chars q s = true.
Proof.
  intros Hpq. induction s as [| x s IH]; cbn; [reflexivity |].
  intros H. apply andb_true_iff in H as [Hx Hs].
  rewrite (Hpq x Hx), (IH Hs). reflexivity.
Qed.

Lemma contains_all c p s :
  p c = false -> all_chars p s = true -> Py.contains c s = false.
Proof.
  intros Hc. induction s as [| x s IH]; cbn; [reflexivity |].
  intros H. apply andb_true_iff in H as [Hx Hs]. rewrite (IH Hs), orb_false_r.
  destruct (Ascii.eqb_spec c x) as [-> | _]; [congruence | reflexivity].
Qed.

Lemma plain_char_nospace c : plain_char c = true -> Py.isspace c = false.
Proof.
  unfold plain_char. intros H. apply andb_true_iff in H as [H _].
  apply andb_true_iff in H as [H _]. apply negb_true_iff in H. exact H.
Qed.

Lemma plain_nospace w :
  all_chars plain_char w = true -> all_chars (fun c => negb (Py.isspace c)) w = true.
Proof.
  apply all_chars_impl. intros c Hc. rewrite (plain_char_nospace c Hc). reflexivity.
Qed.

Lemma plain_no c w : plain_char c = false -> plain w -> Py.contains c w = false.
Proof. intros Hc [_ Hw]. exact (contains_all c plain_char w Hc Hw). Qed.

Lemma plain_head w : plain w ->
  exists c w', w = String c w' /\ Py.isspace c = false.
Proof.
  intros [Hne Hw]. destruct w as [| c w']; [contradiction |].
  exists c, w'. split; [reflexivity |].
  cbn in Hw. apply andb_true_iff in Hw as [Hc _]. exact (plain_char_nospace c Hc).
Qed.

Lemma last_char_app a b : b <> EmptyString -> Py.last_char (a +:+ b) = Py.last_char b.
Proof.
  intros Hb. induction a as [| x a IH]; [reflexivity |].
  rewrite sapp_cons. cbn [Py.last_char]. rewrite IH.
  destruct (a +:+ b) eqn:Hab; [| reflexivity].
  destruct a; [contradiction | discriminate Hab].
Qed.

Lemma last_char_all p w :
  w <> EmptyString -> all_chars p w = true ->
  exists c, Py.last_char w = Some c /\ p c = true.
Proof.
  induction w as [| x w IH]; intros Hne Hw; [contradiction |].
  cbn in Hw. apply andb_true_iff in Hw as [Hx Hw].
  destruct w as [| y w]; [exists x; split; [reflexivity | exact Hx] |].
  destruct (IH ltac:(discriminate) Hw) as (c & Hc & Hp).
  exists c. split; [exact Hc | exact Hp].
Qed.

Lemma rstrip_keeps s c :
  Py.last_char s = Some c -> Py.isspace c = false -> Py.rstrip s = s.
Proof.
  intros Hl Hc. induction s as [| x s IH]; [reflexivity |].
  cbn [Py.rstrip]. destruct s as [| y s].
  - cbn in Hl. injection Hl as ->. cbn. rewrite Hc. reflexivity.
  - rewrite IH by exact Hl. reflexivity.
Qed.

Lemma strip_plain w : plain w -> Py.strip w = w.
Proof.
  intros Hw. destruct (plain_head w Hw) as (c & w' & -> & Hc).
  unfold Py.strip. cbn [Py.lstrip]. rewrite Hc.
  destruct Hw as [Hne Hw].
  destruct (last_char_all plain_char _ Hne Hw) as (d & Hd & Hp).
  exact (rstrip_keeps _ d Hd (plain_char_nospace d Hp)).
Qed.

Lemma rev_app_rev_app w : forall cur acc,
  String.rev_app (String.rev_app w cur) acc = String.rev_app cur (w +:+ acc).
Proof.
  induction w as [| x w IH]; intros cur acc; [reflexivity |].
  cbn [String.rev_app]. rewrite IH. reflexivity.
Qed.

(** the characters of a word are taken to the run being read *)
Lemma split_ws_aux_word w : forall s cur,
  all_chars (fun c => negb (Py.isspace c)) w = true ->
  Py.split_ws_aux (w +:+ s) cur = Py.split_ws_aux s (String.rev_app w cur).
Proof.
  induction w as [| x w IH]; intros s cur Hw; [reflexivity |].
  cbn in Hw. apply andb_true_iff in Hw as [Hx Hw].
  rewrite sapp_cons. cbn [Py.split_ws_aux String.rev_app].
  apply negb_true_iff in Hx. rewrite Hx. apply IH. exact Hw.
Qed.

Lemma rev_app_nonempty w cur : w <> EmptyString -> String.rev_app w cur <> EmptyString.
Proof.
  revert cur. induction w as [| x w IH]; intros cur Hne; [contradiction |].
  cbn [String.rev_app]. destruct w as [| y w]; [discriminate |].
  apply IH. discriminate.
Qed.

Lemma split_ws_last w : plain w -> Py.split_ws_aux w EmptyString = [w].
Proof.
  intros [Hne Hw]. rewrite <- (sapp_empty w) at 1.
  rewrite split_ws_aux_word by exact (plain_nospace w Hw). cbn [Py.split_ws_aux].
  pose proof (rev_app_nonempty w EmptyString Hne) as Hr.
  destruct (String.rev_app w EmptyString) eqn:Hrev; [contradiction |].
  rewrite <- Hrev. unfold String.rev. rewrite rev_app_rev_app.
  cbn [String.rev_app]. rewrite sapp_empty. reflexivity.
Qed.

Lemma split_ws_word w rest :
  w <> EmptyString -> all_chars (fun c => negb (Py.isspace c)) w = true ->
  Py.split_ws_aux (w +:+ String " " rest) EmptyString
  = w :: Py.split_ws_aux rest EmptyString.
Proof.
  intros Hne Hw. rewrite split_ws_aux_word by exact Hw.
  pose proof (rev_app_nonempty w EmptyString Hne) as Hr.
  cbn [Py.split_ws_aux]. change (Py.isspace " ") with true. cbv iota.
  destruct (String.rev_app w EmptyString) eqn:Hrev; [contradiction |].
  rewrite <- Hrev. unfold String.rev. rewrite rev_app_rev_app.
  cbn [String.rev_app]. rewrite sapp_empty. reflexivity.
Qed.

Lemma split_on_absent c w : Py.contains c w = false -> Py.split_on c w = [w].
Proof.
  induction w as [| x w IH]; [reflexivity |].
  cbn [Py.contains Py.split_on]. intros H. apply orb_false_iff in H as [Hx Hw].
  rewrite Hx, (IH Hw). reflexivity.
Qed.

Lemma split_on_end c w :
  Py.contains c w = false ->
  Py.split_on c (w +:+ String c EmptyString) = [w; EmptyString].
Proof.
  induction w as [| x w IH].
  - intros _. change (EmptyString +:+ String c EmptyString) with (String c EmptyString).
    cbn [Py.split_on]. rewrite Ascii.eqb_refl. reflexivity.
  - rewrite sapp_cons. cbn [Py.contains Py.split_on]. intros H.
    apply orb_false_iff in H as [Hx Hw]. rewrite Hx, (IH Hw). reflexivity.
Qed.

End PlainText.

Section DecodeLines.

Lemma clean_plain w l : plain w -> clean (w :: l) = w :: clean l.
Proof.
  intros Hw. unfold clean. rewrite filter_cons_True.
  - cbn [fmap list_fmap]. rewrite (strip_plain w Hw). reflexivity.
  - rewrite (strip_plain w Hw). exact (proj1 Hw).
Qed.

Lemma clean_empty l : clean (EmptyString :: l) = clean l.
Proof. unfold clean. rewrite filter_cons_False; [reflexivity |]. intros H. apply H. reflexivity. Qed.

Lemma plain_comma w : plain w ->
  (w +:+ ",") <> EmptyString
  /\ all_chars (fun c => negb (Py.isspace c)) (w +:+ ",") = true.
Proof.
  intros [Hne Hw]. split; [destruct w; [contradiction | discriminate] |].
  rewrite all_chars_app, (plain_nospace w Hw). reflexivity.
Qed.

Lemma split_ws_operands args :
  Forall plain args ->
  Py.split_ws_aux (Py.join ", " args) EmptyString = with_commas args.
Proof.
  induction args as [| a args IH]; intros H; [reflexivity |].
  apply Forall_cons in H as [Ha Hargs].
  destruct args as [| b args]; [exact (split_ws_last a Ha) |].
  change (Py.join ", " (a :: b :: args))
    with (a +:+ ", " +:+ Py.join ", " (b :: args)).
  change (a +:+ ", " +:+ Py.join ", " (b :: args))
    with (a +:+ ("," +:+ String " " (Py.join ", " (b :: args)))).
  rewrite <- sapp_assoc.
  destruct (plain_comma a Ha) as [Hne Hc].
  rewrite (split_ws_word _ _ Hne Hc), (IH Hargs). reflexivity.
Qed.

Lemma operands_read_back args :
  Forall plain args ->
  clean (flat_map (Py.split_on ",") (with_commas args)) = args.
Proof.
  induction args as [| a args IH]; intros H; [reflexivity |].
  apply Forall_cons in H as [Ha Hargs].
  assert (Hno : Py.contains "," a = false) by (apply plain_no; [reflexivity | exact Ha]).
  destruct args as [| b args].
  - cbn [with_commas flat_map]. rewrite (split_on_absent _ _ Hno). cbn [app].
    rewrite (clean_plain a [] Ha). reflexivity.
  - change (with_commas (a :: b :: args)) with ((a +:+ ",") :: with_commas (b :: args)).
    cbn [flat_map]. rewrite (split_on_end _ _ Hno). cbn [app].
    rewrite (clean_plain a _ Ha), clean_empty, (IH Hargs). reflexivity.
Qed.

Lemma contains_hash_join args :
  Forall plain args -> Py.contains "#" (Py.join ", " args) = false.
Proof.
  induction args as [| a args IH]; intros H; [reflexivity |].
  apply Forall_cons in H as [Ha Hargs].
  assert (Hno : Py.contains "#" a = false) by (apply plain_no; [reflexivity | exact Ha]).
  destruct args as [| b args]; [exact Hno |].
  change (Py.join ", " (a :: b :: args))
    with (a +:+ ", " +:+ Py.join ", " (b :: args)).
  rewrite !contains_app, Hno, (IH Hargs). reflexivity.
Qed.

Lemma last_char_join args c :
  Forall plain args -> args <> [] ->
  exists d, Py.last_char (c +:+ Py.join ", " args) = Some d /\ Py.isspace d = false.
Proof.
  induction args as [| a args IH] in c |- *; intros H Hne; [contradiction |].
  apply Forall_cons in H as [Ha Hargs].
  destruct args as [| b args].
  - cbn [Py.join]. rewrite (last_char_app c a (proj1 Ha)).
    destruct (last_char_all plain_char a (proj1 Ha) (proj2 Ha)) as (d & Hd & Hp).
    exists d. split; [exact Hd | exact (plain_char_nospace d Hp)].
  - change (Py.join ", " (a :: b :: args))
      with (a +:+ ", " +:+ Py.join ", " (b :: args)).
    rewrite <- !sapp_assoc. apply IH; [exact Hargs | discriminate].
Qed.

Lemma decode_without_comment inst :
  Py.contains "#" inst = false ->
  Sim.decode inst
  = match Py.split_ws (Py.strip inst) with
    | [] => None
    | op :: parts => Some (op, clean (flat_map (Py.split_on ",") parts))
    end.
Proof. intros H. unfold Sim.decode. rewrite H. reflexivity. Qed.

Lemma lstrip_indent s : Py.lstrip ("    " +:+ s) = Py.lstrip s.
Proof. reflexivity. Qed.

Lemma decode_instruction_line op args :
  plain op -> Forall plain args ->
  Sim.decode (instruction_line op args) = Some (op, args).
Proof.
  intros Hop Hargs. unfold instruction_line.
  assert (Hhash : Py.contains "#" op = false) by (apply plain_no; [reflexivity | exact Hop]).
  destruct (plain_head op Hop) as (c & op' & Heq & Hc).
  destruct args as [| a args].
  - rewrite sapp_empty, decode_without_comment
      by (rewrite contains_app, Hhash; reflexivity).
    unfold Py.strip at 1. rewrite lstrip_indent. fold (Py.strip op).
    rewrite (strip_plain op Hop).
    unfold Py.split_ws. rewrite (split_ws_last op Hop). reflexivity.
  - set (tail := Py.join ", " (a :: args)).
    assert (Ht : Py.contains "#" tail = false) by (apply contains_hash_join; exact Hargs).
    rewrite decode_without_comment
      by (rewrite !contains_app, Hhash, Ht; reflexivity).
    assert (Hs : Py.strip ("    " +:+ op +:+ " " +:+ tail) = op +:+ String " " tail).
    { unfold Py.strip. rewrite lstrip_indent.
      assert (Hl : Py.lstrip (op +:+ " " +:+ tail) = op +:+ " " +:+ tail).
      { rewrite Heq, sapp_cons. cbn [Py.lstrip]. rewrite Hc. reflexivity. }
      rewrite Hl.
      destruct (last_char_join (a :: args) (op +:+ " ") Hargs ltac:(discriminate))
        as (d & Hd & Hsp).
      rewrite sapp_assoc in Hd. fold tail in Hd.
      exact (rstrip_keeps _ d Hd Hsp). }
    rewrite Hs. unfold Py.split_ws.
    rewrite (split_ws_word op tail (proj1 Hop) (plain_nospace op (proj2 Hop))).
    unfold tail. rewrite (split_ws_operands _ Hargs).
    rewrite (operands_read_back _ Hargs). reflexivity.
Qed.

End DecodeLines.

(** X8. Reading an instruction back. A line made of four spaces, an
    opcode and operands separated by a comma and a space, where the opcode
    and each operand are not empty and hold no white space, no [#] and no
    comma, is taken apart by [execute] into this opcode and these
    operands: executing the line is executing the opcode on the operands. *)
Theorem instruction_line_read_back (op : string) (operands : list string) :
  plain op -> Forall plain operands ->
  Sim.decode (instruction_line op operands) = Some (op, operands)
  /\ forall st, Sim.execute (instruction_line op operands) st = Sim.exec_op op operands st.
Proof.
  intros Hop Hargs.
  pose proof (decode_instruction_line op operands Hop Hargs) as Hd.
  split; [exact Hd |]. intros st. unfold Sim.execute. rewrite Hd. reflexivity.
Qed.

(** the line of [add] on three registers *)
Lemma instruction_line_read_back_witness :
  Sim.decode "    add $t0, $t0, $t1" = Some ("add", ["$t0"; "$t0"; "$t1"]).
Proof.
  refine (proj1 (instruction_line_read_back "add" ["$t0"; "$t0"; "$t1"] _ _)).
  - split; [discriminate | reflexivity].
  - repeat constructor; discriminate.
Defined.

Section DecimalRoundTrip.

Lemma digits_of_all fuel : forall n acc,
  0 <= n -> all_chars Py.isdigit acc = true ->
  all_chars Py.isdigit (Py.digits_of fuel n acc) = true.
Proof.
  induction fuel as [| fuel IH]; intros n acc Hn Hacc; [exact Hacc |].
  cbn [Py.digits_of]. cbv zeta.
  pose proof (Z.mod_pos_bound n 10 ltac:(lia)) as Hr.
  assert (Hd : all_chars Py.isdigit
                 (String (ascii_of_nat (Z.to_nat (48 + n mod 10))) acc) = true).
  { cbn [all_chars]. rewrite digit_char_isdigit by exact Hr. exact Hacc. }
  destruct (n <? 10); [exact Hd |].
  apply IH; [apply Z.div_pos; lia | exact Hd].
Qed.

(** [str(n)], for [n] not negative, is a run of digits that is not empty *)
Lemma str_nonneg_digits n :
  0 <= n ->
  Py.str_nonneg n <> EmptyString /\ all_chars Py.isdigit (Py.str_nonneg n) = true.
Proof.
  intros Hn. split.
  - pose proof (str_starts n Hn) as (d & rest & Hs & _).
    unfold Py.str in Hs. destruct (Z.ltb_spec n 0); [lia |].
    rewrite Hs. discriminate.
  - apply digits_of_all; [exact Hn | reflexivity].
Qed.

Lemma str_nonneg_value n : 0 <= n -> Py.digits_value 0 (Py.str_nonneg n) = n.
Proof.
  intros Hn. pose proof (str_value n Hn) as H. unfold Py.str in H.
  destruct (Z.ltb_spec n 0); [lia | exact H].
Qed.

Lemma int_digits_all ds : forall prev acc,
  ds <> EmptyString -> all_chars Py.isdigit ds = true ->
  Py.int_digits prev acc ds = Some (Py.digits_value acc ds).
Proof.
  induction ds as [| d ds IH]; intros prev acc Hne H; [contradiction |].
  cbn [all_chars] in H. apply andb_true_iff in H as [Hd Hds].
  cbn [Py.int_digits Py.digits_value]. rewrite Hd.
  destruct ds as [| e ds]; [reflexivity |].
  apply IH; [discriminate | exact Hds].
Qed.

(** a text that starts with a digit has no sign *)
Lemma int_unsigned d rest :
  Py.isdigit d = true ->
  Py.int (String d rest)
  = match Py.int_digits false 0 (String d rest) with
    | Some n => Ok n
    | None => Raise ValueError
    end.
Proof.
  intros Hd. destruct d as [[] [] [] [] [] [] [] []];
    vm_compute in Hd; try discriminate Hd; reflexivity.
Qed.

Lemma parse_offset_reg_unsigned d rest :
  Py.isdigit d = true ->
  Sim.parse_offset_reg (String d rest)
  = parse_offset_reg_from false (String d rest) (String d rest).
Proof.
  intros Hd. destruct d as [[] [] [] [] [] [] [] []];
    vm_compute in Hd; try discriminate Hd; reflexivity.
Qed.

Lemma parse_offset_reg_signed rest :
  Sim.parse_offset_reg (String "-" rest)
  = parse_offset_reg_from true (String "-" rest) rest.
Proof. reflexivity. Qed.

Lemma span_app p a rest :
  all_chars p a = true ->
  match rest with String c _ => p c = false | EmptyString => True end ->
  Sim.span p (a +:+ rest) = (a, rest).
Proof.
  intros Ha Hrest. induction a as [| x a IH].
  - change (EmptyString +:+ rest) with rest.
    destruct rest as [| c rest]; [reflexivity |]. cbn [Sim.span]. rewrite Hrest. reflexivity.
  - cbn [all_chars] in Ha. apply andb_true_iff in Ha as [Hx Ha].
    rewrite sapp_cons. cbn [Sim.span]. rewrite Hx, (IH Ha). reflexivity.
Qed.

Lemma parse_offset_reg_from_text neg operand ds w :
  ds <> EmptyString -> all_chars Py.isdigit ds = true ->
  w <> EmptyString -> all_chars Py.isword w = true ->
  parse_offset_reg_from neg operand (ds +:+ "($" +:+ w +:+ ")")
  = Ok (if neg then - Py.digits_value 0 ds else Py.digits_value 0 ds, String "$" w).
Proof.
  intros Hne Hds Hw Hword. unfold parse_offset_reg_from.
  rewrite (span_app Py.isdigit ds ("($" +:+ w +:+ ")") Hds) by reflexivity.
  destruct ds as [| d ds]; [contradiction |].
  change ("($" +:+ w +:+ ")") with (String "(" (String "$" (w +:+ ")"))).
  cbv iota beta.
  rewrite (span_app Py.isword w ")" Hword) by reflexivity.
  destruct w as [| c w]; [contradiction |]. reflexivity.
Qed.

(** the text of an integer is read back by [int] *)
Lemma int_str n : Py.int (Py.str n) = Ok n.
Proof.
  unfold Py.str. destruct (Z.ltb_spec n 0) as [Hneg | Hpos].
  - destruct (str_nonneg_digits (- n) ltac:(lia)) as [Hne Hds].
    change (Py.int (String "-" (Py.str_nonneg (- n))))
      with (match Py.int_digits false 0 (Py.str_nonneg (- n)) with
            | Some m => Ok (- m)
            | None => Raise ValueError
            end).
    rewrite (int_digits_all _ false 0 Hne Hds), str_nonneg_value by lia.
    f_equal. lia.
  - destruct (str_nonneg_digits n Hpos) as [Hne Hds].
    destruct (Py.str_nonneg n) as [| d rest] eqn:Hs; [contradiction |].
    assert (Hd : Py.isdigit d = true).
    { cbn [all_chars] in Hds. apply andb_true_iff in Hds as [Hd _]. exact Hd. }
    rewrite (int_unsigned d rest Hd), (int_digits_all _ false 0 Hne Hds).
    rewrite <- Hs, str_nonneg_value by exact Hpos. reflexivity.
Qed.

(** the operand that the generator writes for an offset and a register
    is read back by [parse_offset_reg] *)
Lemma parse_offset_reg_str n w :
  w <> EmptyString -> all_chars Py.isword w = true ->
  Sim.parse_offset_reg (Py.str n +:+ "($" +:+ w +:+ ")") = Ok (n, String "$" w).
Proof.
  intros Hw Hword. unfold Py.str. destruct (Z.ltb_spec n 0) as [Hneg | Hpos].
  - destruct (str_nonneg_digits (- n) ltac:(lia)) as [Hne Hds].
    rewrite sapp_cons, parse_offset_reg_signed.
    rewrite (parse_offset_reg_from_text true _ _ w Hne Hds Hw Hword).
    rewrite str_nonneg_value by lia. f_equal. f_equal. lia.
  - destruct (str_nonneg_digits n Hpos) as [Hne Hds].
    pose proof (str_nonneg_value n Hpos) as Hv.
    destruct (Py.str_nonneg n) as [| d rest] eqn:Hs; [contradiction |].
    assert (Hd : Py.isdigit d = true).
    { cbn [all_chars] in Hds. apply andb_true_iff in Hds as [Hd _]. exact Hd. }
    rewrite sapp_cons, (parse_offset_reg_unsigned d _ Hd), <- sapp_cons.
    rewrite (parse_offset_reg_from_text false _ _ w Hne Hds Hw Hword), Hv.
    reflexivity.
Qed.

Lemma digit_plain c : Py.isdigit c = true -> plain_char c = true.
Proof.
  intros Hd. destruct c as [[] [] [] [] [] [] [] []];
    vm_compute in Hd; try discriminate Hd; reflexivity.
Qed.

Lemma str_plain n : plain (Py.str n).
Proof.
  unfold Py.str. destruct (Z.ltb_spec n 0) as [Hneg | Hpos].
  - destruct (str_nonneg_digits (- n) ltac:(lia)) as [Hne Hds].
    split; [discriminate |]. cbn [all_chars].
    rewrite (all_chars_impl _ _ _ digit_plain Hds). reflexivity.
  - destruct (str_nonneg_digits n Hpos) as [Hne Hds].
    split; [exact Hne | exact (all_chars_impl _ _ _ digit_plain Hds)].
Qed.

Lemma str_fp_plain n : plain (Py.str n +:+ "($fp)").
Proof.
  destruct (str_plain n) as [Hne Hp]. split.
  - destruct (Py.str n); [contradiction | discriminate].
  - rewrite all_chars_app, Hp. reflexivity.
Qed.

End DecimalRoundTrip.

Section GeneratedLines.
Import Sim.

Lemma exec_li rd text n idx st :
  reg_names !! rd = Some (S idx) -> length (regs st) = 32%nat ->
  Py.int text = Ok n ->
  exec_op "li" [rd; text] st = (Ok tt, rd_write (S idx) n st).
Proof.
  intros Hn Hl Hi.
  change (exec_op "li" [rd; text] st)
    with ((do imm <- lift (Py.int text); set_reg rd imm;; next) st).
  unfold bind, lift. rewrite Hi, (set_reg_writable rd idx n st Hn Hl). reflexivity.
Qed.

Lemma line_li n :
  "    li $t0, " +:+ Py.str n = instruction_line "li" ["$t0"; Py.str n].
Proof. reflexivity. Qed.

Lemma line_sw off :
  "    sw $t0, " +:+ Py.str off +:+ "($fp)"
  = instruction_line "sw" ["$t0"; Py.str off +:+ "($fp)"].
Proof. reflexivity. Qed.

Lemma line_lw off :
  "    lw $t0, " +:+ Py.str off +:+ "($fp)"
  = instruction_line "lw" ["$t0"; Py.str off +:+ "($fp)"].
Proof. reflexivity. Qed.

Lemma execute_line op args st :
  plain op -> Forall plain args ->
  execute (instruction_line op args) st = exec_op op args st.
Proof.
  intros Hop Hargs. unfold execute.
  rewrite (decode_instruction_line op args Hop Hargs). reflexivity.
Qed.

Lemma plain_word w : all_chars plain_char w = true -> w <> EmptyString -> plain w.
Proof. intros H Hne. split; [exact Hne | exact H]. Qed.

Lemma plain_two a b : plain a -> plain b -> Forall plain [a; b].
Proof.
  intros Ha Hb. apply List.Forall_cons; [exact Ha |].
  apply List.Forall_cons; [exact Hb | apply List.Forall_nil].
Qed.

(** the instruction that stores [$t0] in the variable at [off] *)
Lemma execute_store off st :
  length (regs st) = 32%nat ->
  execute ("    sw $t0, " +:+ Py.str off +:+ "($fp)") st
  = (Ok tt, mem_write (reg 30 st + off) (reg 8 st) st).
Proof.
  intros Hl. rewrite line_sw, execute_line.
  - apply (exec_sw "$t0" _ off "$fp").
    + apply (parse_offset_reg_str off "fp"); [discriminate | reflexivity].
    + apply get_reg_fp. exact Hl.
    + apply get_reg_t0. exact Hl.
  - apply plain_word; [reflexivity | discriminate].
  - apply plain_two; [apply plain_word; [reflexivity | discriminate] | apply str_fp_plain].
Qed.

(** the instruction that loads [$t0] from the variable at [off] *)
Lemma execute_load off st :
  length (regs st) = 32%nat ->
  execute ("    lw $t0, " +:+ Py.str off +:+ "($fp)") st
  = (Ok tt, rd_write 8 (read_mem_of (memory st) (reg 30 st + off)) st).
Proof.
  intros Hl. rewrite line_lw, execute_line.
  - apply (exec_lw "$t0" _ off "$fp" _ 7); [reflexivity | exact Hl | |].
    + apply (parse_offset_reg_str off "fp"); [discriminate | reflexivity].
    + apply get_reg_fp. exact Hl.
  - apply plain_word; [reflexivity | discriminate].
  - apply plain_two; [apply plain_word; [reflexivity | discriminate] | apply str_fp_plain].
Qed.

End GeneratedLines.

(** X9. An integer literal. The instruction that [gen_expr] emits for
    the literal [n], executed by the simulator, returns and leaves [n]
    modulo 2^32 in [$t0], with the program counter on the next
    instruction: the decimal text written by the generator is read back
    by the simulator as the same number. *)
Theorem number_literal_loads (n : Z) (cg : CodeGen.codegen) (st : Sim.sim) :
  length (Sim.regs st) = 32%nat ->
  exists line st',
    CodeGen.gen_expr (Number (IntV n)) cg = Ok (CodeGen.emit line cg)
    /\ Sim.execute line st = (Ok tt, st')
    /\ Sim.get_reg "$t0" st' = (Ok (n mod 0x100000000), st')
    /\ Sim.pc st' = Sim.pc st + 1.
Proof.
  intros Hl. exists ("    li $t0, " +:+ Py.str n), (rd_write 8 n st).
  split; [reflexivity |]. split.
  - rewrite line_li, execute_line.
    + apply exec_li; [reflexivity | exact Hl | apply int_str].
    + apply plain_word; [reflexivity | discriminate].
    + apply plain_two; [apply plain_word; [reflexivity | discriminate] | apply str_plain].
  - split; [| reflexivity].
    apply (get_reg_after_insert "$t0" 7 _ (Sim.regs st)); [reflexivity | exact Hl |].
    unfold rd_write. cbn [Sim.regs Sim.with_pc Sim.with_regs].
    change 0xFFFFFFFF with (Z.ones 32). rewrite Z.land_ones by lia. reflexivity.
Qed.

(** the literal -1 in the initial state *)
Lemma number_literal_loads_witness :
  exists line st',
    CodeGen.gen_expr (Number (IntV (-1))) CodeGen.init = Ok (CodeGen.emit line CodeGen.init)
    /\ Sim.execute line Sim.init = (Ok tt, st')
    /\ Sim.get_reg "$t0" st' = (Ok 0xFFFFFFFF, st').
Proof.
  destruct (number_literal_loads (-1) CodeGen.init Sim.init eq_refl)
    as (line & st' & Hg & Hx & Hr & _).
  exists line, st'. split; [exact Hg |]. split; [exact Hx | exact Hr].
Defined.

(** ** What the generator keeps *)

Section GenKeeps.
Import CodeGen.

Variable R : codegen -> codegen -> Prop.
Hypothesis R_refl : forall cg, R cg cg.
Hypothesis R_trans : forall a b c, R a b -> R b c -> R a c.
Hypothesis R_emit : forall line cg, R cg (emit line cg).
Hypothesis R_add_string : forall s cg, R cg (snd (add_string s cg)).
Hypothesis R_labels : forall cg n,
  R cg (mkCodeGen (output cg) (data cg) n (string_count cg) (vars cg) (stack_offset cg)).
Hypothesis R_declare : forall name cg,
  R cg (mkCodeGen (output cg) (data cg) (label_count cg) (string_count cg)
                  (<[name := - (stack_offset cg + 4)]> (vars cg))
                  (stack_offset cg + 4)).

Lemma keeps_emit line a b : R a b -> R a (emit line b).
Proof. intros H. exact (R_trans _ _ _ H (R_emit line b)). Qed.

Lemma keeps_emits lines : forall a b, R a b -> R a (emits lines b).
Proof.
  unfold emits. induction lines as [| l lines IH]; intros a b H; cbn [fold_left];
    [exact H |].
  apply IH. apply keeps_emit. exact H.
Qed.

Ltac keep :=
  repeat first
    [ assumption
    | apply R_refl
    | apply keeps_emit
    | apply keeps_emits
    | match goal with
      | |- R _ (if ?b then _ else _) => destruct b
      end ].

Lemma gen_expr_keeps : forall e cg cg', gen_expr e cg = Ok cg' -> R cg cg'.
Proof.
  fix IH 1. intros e cg cg' H.
  destruct e as [val | val | name | e1 e2 | op e1 e2 | op e | op e | name args];
    cbn [gen_expr] in H.
  - injection H as <-. keep.
  - injection H as <-. apply keeps_emit. exact (R_add_string (format_value val) cg).
  - destruct (var_offset name cg); cbn [obind] in H; [| discriminate].
    injection H as <-. keep.
  - destruct (gen_expr e2 cg) as [cg1 |] eqn:E2; cbn [obind] in H; [| discriminate].
    apply IH in E2. destruct e1; try (injection H as <-; exact E2).
    destruct (var_offset name cg1); cbn [obind] in H; [| discriminate].
    injection H as <-. keep.
  - destruct (gen_expr e1 cg) as [cg1 |] eqn:E1; cbn [obind] in H; [| discriminate].
    apply IH in E1.
    destruct (gen_expr e2 _) as [cg2 |] eqn:E2; cbn [obind] in H; [| discriminate].
    apply IH in E2. injection H as <-.
    apply keeps_emits. repeat apply keeps_emit. refine (R_trans _ _ _ _ E2). keep.
  - destruct (node_name e); cbn [obind] in H; [| discriminate].
    destruct (var_offset _ cg); cbn [obind] in H; [| discriminate].
    injection H as <-. keep.
  - destruct (node_name e); cbn [obind] in H; [| discriminate].
    destruct (var_offset _ cg); cbn [obind] in H; [| discriminate].
    injection H as <-. keep.
  - destruct (String.eqb name "print_int").
    + destruct args as [| a args]; [discriminate |].
      destruct (gen_expr a cg) as [cg1 |] eqn:E1; cbn [obind] in H; [| discriminate].
      apply IH in E1. injection H as <-. keep.
    + destruct (String.eqb name "print_str"); [| injection H as <-; keep].
      destruct args as [| a args]; [discriminate |].
      destruct (gen_expr a cg) as [cg1 |] eqn:E1; cbn [obind] in H; [| discriminate].
      apply IH in E1. injection H as <-. keep.
Qed.

Lemma gen_opt_expr_keeps e cg cg' : gen_opt_expr e cg = Ok cg' -> R cg cg'.
Proof.
  destruct e as [e |]; cbn [gen_opt_expr]; [apply gen_expr_keeps |].
  intros H. injection H as <-. apply R_refl.
Qed.

Lemma gen_declaration_keeps name init cg cg' :
  gen_declaration name init cg = Ok cg' -> R cg cg'.
Proof.
  unfold gen_declaration.
  assert (H0 : R cg
            (mkCodeGen (output (emit "    addi $sp, $sp, -4" cg)) (data cg)
               (label_count cg) (string_count cg)
               (<[name := - (stack_offset cg + 4)]> (vars cg)) (stack_offset cg + 4))).
  { exact (R_trans _ _ _ (R_emit "    addi $sp, $sp, -4" cg)
             (R_declare name (emit "    addi $sp, $sp, -4" cg))). }
  destruct init as [e |].
  - destruct (gen_expr e _) as [cg1 |] eqn:E1; cbn [obind]; [| discriminate].
    apply gen_expr_keeps in E1.
    destruct (var_offset name cg1); cbn [obind]; [| discriminate].
    intros H. injection H as <-. apply keeps_emit.
    exact (R_trans _ _ _ H0 E1).
  - intros H. injection H as <-. exact H0.
Qed.

Local Abbreviation kept_stmt :=
  (fun s => forall cg cg', gen_stmt s cg = Ok cg' -> R cg cg').

Lemma gen_stmts_keeps l :
  Forall kept_stmt l -> forall cg cg', gen_stmts l cg = Ok cg' -> R cg cg'.
Proof.
  induction 1 as [| s l Hs Hl IH]; intros cg cg' H; cbn [gen_stmts] in H.
  - injection H as <-. apply R_refl.
  - destruct (gen_stmt s cg) as [cg1 |] eqn:E1; cbn [obind] in H; [| discriminate].
    exact (R_trans _ _ _ (Hs _ _ E1) (IH _ _ H)).
Qed.

Lemma two_labels_kept cg :
  R cg (mkCodeGen (output cg) (data cg) (label_count cg + 1 + 1) (string_count cg)
                  (vars cg) (stack_offset cg)).
Proof. apply R_labels. Qed.

Lemma gen_stmt_keeps s : kept_stmt s.
Proof.
  induction s as [name init | e | c t el Ht He | c b Hb | i c u b Hb | val]
    using stmt_nested_ind; intros cg cg' H.
  - cbn [gen_stmt] in H. exact (gen_declaration_keeps _ _ _ _ H).
  - cbn [gen_stmt] in H. exact (gen_expr_keeps _ _ _ H).
  - rewrite gen_stmt_If in H. unfold new_label in H. cbv beta iota zeta in H.
    cbn [label_count output data string_count vars stack_offset] in H.
    destruct (gen_expr c _) as [cg2 |] eqn:E2; cbn [obind] in H; [| discriminate].
    apply gen_expr_keeps in E2.
    destruct (gen_stmts t _) as [cg3 |] eqn:E3; cbn [obind] in H; [| discriminate].
    apply (gen_stmts_keeps t Ht) in E3.
    destruct (match el with
              | Some (s :: l) => gen_stmts (s :: l) _
              | _ => Ok _
              end) as [cg4 |] eqn:E4; cbn [obind] in H; [| discriminate].
    injection H as <-. apply keeps_emit.
    assert (R4 : R (emit (("else" +:+ Py.str (label_count cg)) +:+ ":")
                      (emit ("    j " +:+ "endif" +:+ Py.str (label_count cg + 1)) cg3))
                   cg4).
    { destruct el as [[| s l] |]; cbn [default] in He.
      - injection E4 as <-. apply R_refl.
      - exact (gen_stmts_keeps (s :: l) He _ _ E4).
      - injection E4 as <-. apply R_refl. }
    refine (R_trans _ _ _ _ R4). do 2 apply keeps_emit.
    refine (R_trans _ _ _ _ E3). apply keeps_emit.
    exact (R_trans _ _ _ (two_labels_kept cg) E2).
  - rewrite gen_stmt_While in H. unfold new_label in H. cbv beta iota zeta in H.
    cbn [label_count output data string_count vars stack_offset] in H.
    destruct (gen_expr c _) as [cg2 |] eqn:E2; cbn [obind] in H; [| discriminate].
    apply gen_expr_keeps in E2.
    destruct (gen_stmts b _) as [cg3 |] eqn:E3; cbn [obind] in H; [| discriminate].
    apply (gen_stmts_keeps b Hb) in E3.
    injection H as <-. do 2 apply keeps_emit.
    refine (R_trans _ _ _ _ E3). apply keeps_emit.
    refine (R_trans _ _ _ _ E2). apply keeps_emit. apply two_labels_kept.
  - rewrite gen_stmt_For in H. unfold new_label in H. cbv beta iota zeta in H.
    cbn [label_count output data string_count vars stack_offset] in H.
    destruct (match i with
              | Some (InitDeclaration name i0) => gen_declaration name i0 _
              | Some (InitExpr e) => gen_expr e _
              | None => Ok _
              end) as [cg2 |] eqn:E2; cbn [obind] in H; [| discriminate].
    assert (P2 : R cg cg2).
    { refine (R_trans _ _ _ (two_labels_kept cg) _).
      destruct i as [[name i0 | e] |].
      - exact (gen_declaration_keeps _ _ _ _ E2).
      - exact (gen_expr_keeps _ _ _ E2).
      - injection E2 as <-. apply R_refl. }
    clear E2.
    destruct (match c with
              | Some c0 => _
              | None => Ok _
              end) as [cg3 |] eqn:E3; cbn [obind] in H; [| discriminate].
    assert (P3 : R cg cg3).
    { destruct c as [c0 |].
      - destruct (gen_expr c0 _) as [cg3' |] eqn:E; cbn [obind] in E3; [| discriminate].
        injection E3 as <-. apply gen_expr_keeps in E. apply keeps_emit.
        refine (R_trans _ _ _ _ E). apply keeps_emit. exact P2.
      - injection E3 as <-. apply keeps_emit. exact P2. }
    clear E3.
    destruct (gen_stmts b cg3) as [cg4 |] eqn:E4; cbn [obind] in H; [| discriminate].
    apply (gen_stmts_keeps b Hb) in E4.
    destruct (gen_opt_expr u cg4) as [cg5 |] eqn:E5; cbn [obind] in H; [| discriminate].
    apply gen_opt_expr_keeps in E5.
    injection H as <-. do 2 apply keeps_emit.
    exact (R_trans _ _ _ P3 (R_trans _ _ _ E4 E5)).
  - cbn [gen_stmt] in H. destruct val as [v |]; cbn [obind] in H.
    + destruct (gen_expr v cg) as [cg1 |] eqn:E; cbn [obind] in H; [| discriminate].
      injection H as <-. apply gen_expr_keeps in E. keep.
    + injection H as <-. keep.
Qed.

Lemma gen_stmts_keeps_all l cg cg' : gen_stmts l cg = Ok cg' -> R cg cg'.
Proof.
  apply gen_stmts_keeps. apply Forall_forall. intros s _. apply gen_stmt_keeps.
Qed.

End GenKeeps.

Section GenKeepsProgram.
Import CodeGen.

Variable R : codegen -> codegen -> Prop.
Hypothesis R_refl : forall cg, R cg cg.
Hypothesis R_trans : forall a b c, R a b -> R b c -> R a c.
Hypothesis R_emit : forall line cg, R cg (emit line cg).
Hypothesis R_stmts : forall l cg cg', gen_stmts l cg = Ok cg' -> R cg cg'.
Hypothesis R_reset : forall cg,
  R cg (mkCodeGen (output cg) (data cg) (label_count cg) (string_count cg) ∅ 0).

Lemma gen_function_keeps func cg cg' : gen_function func cg = Ok cg' -> R cg cg'.
Proof.
  unfold gen_function.
  destruct (gen_stmts (fbody func) _) as [cg1 |] eqn:E1; cbn [obind]; [| discriminate].
  intros H. injection H as <-. apply R_stmts in E1.
  repeat apply (keeps_emit R R_trans R_emit).
  refine (R_trans _ _ _ _ E1).
  refine (R_trans _ _ _ _ (R_reset _)).
  repeat apply (keeps_emit R R_trans R_emit).
  apply R_refl.
Qed.

Lemma gen_functions_keeps l : forall cg cg', gen_functions l cg = Ok cg' -> R cg cg'.
Proof.
  induction l as [| f l IH]; intros cg cg' H; cbn [gen_functions] in H.
  - injection H as <-. apply R_refl.
  - destruct (gen_function f cg) as [cg1 |] eqn:E1; cbn [obind] in H; [| discriminate].
    exact (R_trans _ _ _ (gen_function_keeps _ _ _ E1) (IH _ _ H)).
Qed.

End GenKeepsProgram.

Section Variables.
Import CodeGen.

Lemma same_vars_refl cg : same_vars cg cg.
Proof. split; reflexivity. Qed.

Lemma same_vars_trans a b c : same_vars a b -> same_vars b c -> same_vars a c.
Proof. intros [H1 H2] [H3 H4]. split; congruence. Qed.

Lemma gen_expr_same_vars e cg cg' : gen_expr e cg = Ok cg' -> same_vars cg cg'.
Proof.
  apply (gen_expr_keeps same_vars same_vars_refl same_vars_trans).
  - intros line c. split; reflexivity.
  - intros s c. split; reflexivity.
Qed.

Lemma slots_ok_same cg cg' :
  vars cg' = vars cg -> stack_offset cg' = stack_offset cg ->
  slots_ok cg -> slots_ok cg'.
Proof. unfold slots_ok. intros -> ->. exact (fun H => H). Qed.

Lemma slots_ok_empty cg :
  slots_ok (mkCodeGen (output cg) (data cg) (label_count cg) (string_count cg) ∅ 0).
Proof.
  unfold slots_ok. cbn [vars stack_offset].
  split; [lia |]. split; [apply Z.divide_0_r |].
  split; intros x; intros; rewrite lookup_empty in *; discriminate.
Qed.

Lemma slots_ok_declare name cg :
  slots_ok cg ->
  slots_ok (mkCodeGen (output cg) (data cg) (label_count cg) (string_count cg)
                      (<[name := - (stack_offset cg + 4)]> (vars cg))
                      (stack_offset cg + 4)).
Proof.
  intros (Hpos & Hdiv & Hbound & Hinj). unfold slots_ok. cbn [vars stack_offset].
  assert (Hnew : (4 | - (stack_offset cg + 4))).
  { apply Z.divide_opp_r. apply Z.divide_add_r; [exact Hdiv | apply Z.divide_refl]. }
  split; [lia |].
  split; [apply Z.divide_add_r; [exact Hdiv | apply Z.divide_refl] |].
  split.
  - intros x o Hx. destruct (decide (x = name)) as [-> | Hne].
    + rewrite lookup_insert_eq in Hx. injection Hx as <-. split; [lia | exact Hnew].
    + rewrite lookup_insert_ne in Hx by congruence.
      destruct (Hbound x o Hx) as [Hb Hd]. split; [lia | exact Hd].
  - intros x y o Hx Hy.
    destruct (decide (x = name)) as [-> | Hxn]; destruct (decide (y = name)) as [-> | Hyn].
    + reflexivity.
    + rewrite lookup_insert_eq in Hx. injection Hx as <-.
      rewrite lookup_insert_ne in Hy by congruence.
      destruct (Hbound y _ Hy) as [Hb _]. lia.
    + rewrite lookup_insert_eq in Hy. injection Hy as <-.
      rewrite lookup_insert_ne in Hx by congruence.
      destruct (Hbound x _ Hx) as [Hb _]. lia.
    + rewrite lookup_insert_ne in Hx, Hy by congruence. exact (Hinj x y o Hx Hy).
Qed.

Lemma gen_stmt_slots s cg cg' : gen_stmt s cg = Ok cg' -> slots_ok cg -> slots_ok cg'.
Proof.
  apply (gen_stmt_keeps (fun a b => slots_ok a -> slots_ok b)).
  - intros c H. exact H.
  - intros a b c H1 H2 H. exact (H2 (H1 H)).
  - intros line c. apply slots_ok_same; reflexivity.
  - intros t c. apply slots_ok_same; reflexivity.
  - intros c n. apply slots_ok_same; reflexivity.
  - intros name c. apply slots_ok_declare.
Qed.

Lemma gen_stmts_slots l cg cg' : gen_stmts l cg = Ok cg' -> slots_ok cg -> slots_ok cg'.
Proof.
  apply (gen_stmts_keeps_all (fun a b => slots_ok a -> slots_ok b)).
  - intros c H. exact H.
  - intros a b c H1 H2 H. exact (H2 (H1 H)).
  - intros line c. apply slots_ok_same; reflexivity.
  - intros t c. apply slots_ok_same; reflexivity.
  - intros c n. apply slots_ok_same; reflexivity.
  - intros name c. apply slots_ok_declare.
Qed.

Lemma gen_function_slots func cg cg' : gen_function func cg = Ok cg' -> slots_ok cg'.
Proof.
  unfold gen_function.
  destruct (gen_stmts (fbody func) _) as [cg1 |] eqn:E1; cbn [obind]; [| discriminate].
  intros H. injection H as <-. apply gen_stmts_slots in E1; [| apply slots_ok_empty].
  revert E1. apply slots_ok_same; reflexivity.
Qed.

Lemma slots_apart cg x y ox oy :
  slots_ok cg -> x <> y -> vars cg !! x = Some ox -> vars cg !! y = Some oy ->
  ox <= -4 /\ oy <= -4 /\ (ox + 4 <= oy \/ oy + 4 <= ox).
Proof.
  intros (_ & _ & Hbound & Hinj) Hne Hx Hy.
  destruct (Hbound x ox Hx) as [Hbx [a Ha]]. destruct (Hbound y oy Hy) as [Hby [b Hb]].
  assert (ox <> oy) by (intros ->; exact (Hne (Hinj x y oy Hx Hy))).
  lia.
Qed.

End Variables.

(** X10. A variable keeps the value stored. For a declared variable [x],
    the instruction that [gen_expr] emits at the end of an assignment to
    [x] and the one it emits for a use of [x], executed in this order with
    a value in [$t0], return and leave this value, modulo 2^32, in [$t0].
    The store to [x] does not change what a use of another variable [y]
    loads, if the offsets of the two are at least 4 apart. *)
Theorem variable_keeps_value (cg : CodeGen.codegen) (x : string) (ox : Z)
    (st : Sim.sim) (v : Z) :
  CodeGen.vars cg !! x = Some ox ->
  length (Sim.regs st) = 32%nat ->
  Sim.get_reg "$t0" st = (Ok v, st) ->
  exists store load,
    (forall rhs cg1, CodeGen.gen_expr rhs cg = Ok cg1 ->
       CodeGen.gen_expr (Assign (Var x) rhs) cg = Ok (CodeGen.emit store cg1))
    /\ CodeGen.gen_expr (Var x) cg = Ok (CodeGen.emit load cg)
    /\ (exists st',
          execute_all [store; load] st = (Ok tt, st')
          /\ Sim.get_reg "$t0" st' = (Ok (v mod 0x100000000), st'))
    /\ (forall y oy,
          CodeGen.vars cg !! y = Some oy -> ox + 4 <= oy \/ oy + 4 <= ox ->
          exists load_y st1 st2 w,
            CodeGen.gen_expr (Var y) cg = Ok (CodeGen.emit load_y cg)
            /\ execute_all [store; load_y] st = (Ok tt, st1)
            /\ execute_all [load_y] st = (Ok tt, st2)
            /\ Sim.get_reg "$t0" st1 = (Ok w, st1)
            /\ Sim.get_reg "$t0" st2 = (Ok w, st2)).
Proof.
  intros Hx Hl Hv.
  rewrite (get_reg_t0 st Hl) in Hv. injection Hv as Hv.
  exists ("    sw $t0, " +:+ Py.str ox +:+ "($fp)"), ("    lw $t0, " +:+ Py.str ox +:+ "($fp)").
  split.
  { intros rhs cg1 Hrhs. cbn [CodeGen.gen_expr]. rewrite Hrhs. cbn [obind].
    destruct (gen_expr_same_vars rhs cg cg1 Hrhs) as [Hvars _].
    unfold CodeGen.var_offset. rewrite Hvars, Hx. reflexivity. }
  split.
  { cbn [CodeGen.gen_expr]. unfold CodeGen.var_offset. rewrite Hx. reflexivity. }
  set (s1 := mem_write (reg 30 st + ox) (reg 8 st) st).
  assert (Hl1 : length (Sim.regs s1) = 32%nat) by exact Hl.
  split.
  { eexists. split.
    - rewrite (execute_all_step _ _ st _ (execute_store ox st Hl)). fold s1.
      rewrite (execute_all_step _ _ s1 _ (execute_load ox s1 Hl1)). reflexivity.
    - apply (get_reg_after_insert "$t0" 7 _ (Sim.regs s1)); [reflexivity | exact Hl1 |].
      unfold rd_write. cbn [Sim.regs Sim.with_pc Sim.with_regs].
      change (Sim.memory s1)
        with (Sim.write_mem_of (Sim.memory st) (reg 30 st + ox) (reg 8 st)).
      change (reg 30 s1) with (reg 30 st).
      rewrite read_write_mem_of, land_mask_twice, Hv.
      change 0xFFFFFFFF with (Z.ones 32). rewrite Z.land_ones by lia. reflexivity. }
  intros y oy Hy Hapart.
  exists ("    lw $t0, " +:+ Py.str oy +:+ "($fp)").
  eexists. eexists. eexists.
  split; [cbn [CodeGen.gen_expr]; unfold CodeGen.var_offset; rewrite Hy; reflexivity |].
  split.
  { rewrite (execute_all_step _ _ st _ (execute_store ox st Hl)). fold s1.
    rewrite (execute_all_step _ _ s1 _ (execute_load oy s1 Hl1)). reflexivity. }
  split.
  { rewrite (execute_all_step _ _ st _ (execute_load oy st Hl)). reflexivity. }
  split.
  - apply (get_reg_after_insert "$t0" 7 _ (Sim.regs s1)); [reflexivity | exact Hl1 |].
    unfold rd_write. cbn [Sim.regs Sim.with_pc Sim.with_regs].
    change (Sim.memory s1)
      with (Sim.write_mem_of (Sim.memory st) (reg 30 st + ox) (reg 8 st)).
    change (reg 30 s1) with (reg 30 st).
    rewrite read_mem_of_write_other by lia. reflexivity.
  - apply (get_reg_after_insert "$t0" 7 _ (Sim.regs st)); [reflexivity | exact Hl |].
    reflexivity.
Qed.

(** [x] at -4 and [y] at -8, with 7 in [$t0] *)
Lemma variable_keeps_value_witness :
  exists store load st',
    CodeGen.gen_expr (Var "x") two_vars_state = Ok (CodeGen.emit load two_vars_state)
    /\ execute_all [store; load] (operands_state 7 0) = (Ok tt, st')
    /\ Sim.get_reg "$t0" st' = (Ok 7, st').
Proof.
  destruct (variable_keeps_value two_vars_state "x" (-4) (operands_state 7 0) 7
              eq_refl eq_refl eq_refl)
    as (store & load & _ & Hload & (st' & Hx & Hr) & _).
  exists store, load, st'. split; [exact Hload |]. split; [exact Hx | exact Hr].
Defined.

(** X11. Variables have slots of their own. In every state of the
    generator that [gen_function] or, from such a state, [gen_stmt]
    ends with, each declared variable has an offset from [$fp] that is a
    multiple of 4 and at most -4, below the two words of the frame, and no
    two variables have the same one: the offsets of two variables are at
    least 4 apart. An expression changes neither the variables nor the
    stack offset. *)
Theorem variables_have_own_slots :
  (forall func cg cg', CodeGen.gen_function func cg = Ok cg' -> slots_ok cg')
  /\ (forall s cg cg', slots_ok cg -> CodeGen.gen_stmt s cg = Ok cg' -> slots_ok cg')
  /\ (forall e cg cg', CodeGen.gen_expr e cg = Ok cg' -> same_vars cg cg')
  /\ (forall cg x y ox oy,
        slots_ok cg -> x <> y ->
        CodeGen.vars cg !! x = Some ox -> CodeGen.vars cg !! y = Some oy ->
        ox <= -4 /\ oy <= -4 /\ (ox + 4 <= oy \/ oy + 4 <= ox)).
Proof.
  split; [exact gen_function_slots |].
  split; [intros s cg cg' H G; exact (gen_stmt_slots s cg cg' G H) |].
  split; [exact gen_expr_same_vars | exact slots_apart].
Qed.

(** two declarations from the state at the start of a function *)
Lemma variables_have_own_slots_witness :
  exists cg1 cg2,
    CodeGen.gen_stmt (Declaration "x" None) CodeGen.init = Ok cg1
    /\ CodeGen.gen_stmt (Declaration "y" None) cg1 = Ok cg2
    /\ CodeGen.vars cg2 !! "x" = Some (-4)
    /\ CodeGen.vars cg2 !! "y" = Some (-8)
    /\ slots_ok cg2.
Proof.
  destruct variables_have_own_slots as (_ & Hstmt & _ & _).
  pose (cg1 := CodeGen.mkCodeGen ["    addi $sp, $sp, -4"] [] 0 0 (<["x" := -4]> ∅) 4).
  assert (E1 : CodeGen.gen_stmt (Declaration "x" None) CodeGen.init = Ok cg1)
    by reflexivity.
  pose (cg2 := CodeGen.mkCodeGen ["    addi $sp, $sp, -4"; "    addi $sp, $sp, -4"] [] 0 0
                 (<["y" := -8]> (<["x" := -4]> ∅)) 8).
  assert (E2 : CodeGen.gen_stmt (Declaration "y" None) cg1 = Ok cg2) by reflexivity.
  exists cg1, cg2.
  split; [exact E1 |]. split; [exact E2 |].
  split; [reflexivity |]. split; [reflexivity |].
  exact (Hstmt _ _ _ (Hstmt _ _ _ (slots_ok_empty CodeGen.init) E1) E2).
Defined.

Section StringLabels.
Import CodeGen.

Lemma data_ok_same cg cg' :
  data cg' = data cg -> string_count cg' = string_count cg -> data_ok cg -> data_ok cg'.
Proof. unfold data_ok. intros -> ->. exact (fun H => H). Qed.

Lemma data_ok_add_string s cg : data_ok cg -> data_ok (snd (add_string s cg)).
Proof.
  intros [Hcount Hlines]. unfold data_ok, add_string. cbn [snd data string_count].
  split; [rewrite length_app, Hcount; cbn [length]; lia |].
  intros i line Hi. apply lookup_app_Some in Hi as [Hi | [Hge Hi]].
  - exact (Hlines i line Hi).
  - destruct (i - length (data cg))%nat as [| k] eqn:Hk; [| destruct k; discriminate Hi].
    injection Hi as <-. exists s. rewrite Hcount.
    replace i with (length (data cg)) by lia. reflexivity.
Qed.

Lemma gen_stmts_data l cg cg' : gen_stmts l cg = Ok cg' -> data_ok cg -> data_ok cg'.
Proof.
  apply (gen_stmts_keeps_all (fun a b => data_ok a -> data_ok b)).
  - intros c H. exact H.
  - intros a b c H1 H2 H. exact (H2 (H1 H)).
  - intros line c. apply data_ok_same; reflexivity.
  - intros t c. apply data_ok_add_string.
  - intros c n. apply data_ok_same; reflexivity.
  - intros name c. apply data_ok_same; reflexivity.
Qed.

Lemma gen_functions_data l cg cg' :
  gen_functions l cg = Ok cg' -> data_ok cg -> data_ok cg'.
Proof.
  apply (gen_functions_keeps (fun a b => data_ok a -> data_ok b)).
  - intros c H. exact H.
  - intros a b c H1 H2 H. exact (H2 (H1 H)).
  - intros line c. apply data_ok_same; reflexivity.
  - intros l0 a b. apply gen_stmts_data.
  - intros c. apply data_ok_same; reflexivity.
Qed.

Lemma data_ok_init : data_ok init.
Proof. split; [reflexivity |]. intros i line H. destruct i; discriminate H. Qed.

Lemma sapp_inj a : forall b c : string, a +:+ b = a +:+ c -> b = c.
Proof.
  induction a as [| x a IH]; intros b c H; [exact H |].
  rewrite !sapp_cons in H. injection H as H. exact (IH _ _ H).
Qed.

Lemma string_label_inj (i j : Z) :
  0 <= i -> 0 <= j -> string_label i = string_label j -> i = j.
Proof.
  intros Hi Hj H. unfold string_label in H. apply sapp_inj in H.
  rewrite <- (str_value i Hi), <- (str_value j Hj), H. reflexivity.
Qed.

End StringLabels.

(** X12. String labels. After the generation of a program, the string
    counter is the number of lines of the data section and the line at
    index [i] is the one [add_string] writes for the label [str] followed
    by [i]; these labels are different for different indices. *)
Theorem string_labels_distinct :
  (forall ast r, CodeGen.generate_from ast CodeGen.init = Ok r -> data_ok (snd r))
  /\ (forall s cg,
        fst (CodeGen.add_string s cg) = string_label (CodeGen.string_count cg))
  /\ (forall i j : Z, 0 <= i -> 0 <= j -> string_label i = string_label j -> i = j).
Proof.
  split; [| split; [reflexivity | exact string_label_inj]].
  intros ast r. unfold CodeGen.generate_from.
  destruct (CodeGen.gen_functions _ _) as [cg |] eqn:E; cbn [obind]; [| discriminate].
  intros H. injection H as <-. cbn [snd].
  exact (gen_functions_data _ _ _ E data_ok_init).
Qed.

(** the data section of [two_strings] *)
Lemma string_labels_distinct_witness :
  exists r,
    CodeGen.generate_from two_strings CodeGen.init = Ok r
    /\ CodeGen.data (snd r) = [string_line 0 "hi"; string_line 1 "yo"]
    /\ data_ok (snd r)
    /\ string_label 0 <> string_label 1.
Proof.
  destruct string_labels_distinct as (Hdata & _ & Hinj).
  destruct (CodeGen.generate_from two_strings CodeGen.init) as [r | e] eqn:E;
    [| vm_compute in E; discriminate E].
  exists r. split; [reflexivity |].
  split; [vm_compute in E; injection E as <-; reflexivity |].
  split; [exact (Hdata two_strings r E) |].
  intros H. apply Hinj in H; [discriminate H | lia | lia].
Defined.

(** * Further properties of the loader *)

Section Strip.

Lemma rstrip_head c t :
  Py.rstrip (String c t) = EmptyString \/ exists r, Py.rstrip (String c t) = String c r.
Proof.
  cbn [Py.rstrip]. destruct (Py.rstrip t).
  - destruct (Py.isspace c); [left; reflexivity | right; eexists; reflexivity].
  - right. eexists. reflexivity.
Qed.

Lemma rstrip_rstrip t : Py.rstrip (Py.rstrip t) = Py.rstrip t.
Proof.
  induction t as [| c t IH]; [reflexivity |].
  cbn [Py.rstrip]. destruct (Py.rstrip t) as [| d r] eqn:Hr.
  - destruct (Py.isspace c) eqn:Hc; [reflexivity |].
    cbn [Py.rstrip]. rewrite Hc. reflexivity.
  - change (Py.rstrip (String c (String d r)))
      with (match Py.rstrip (String d r) with
            | EmptyString => if Py.isspace c then EmptyString else String c EmptyString
            | String _ _ as r0 => String c r0
            end).
    rewrite IH. reflexivity.
Qed.

Lemma lstrip_head s :
  Py.lstrip s = EmptyString
  \/ exists c r, Py.lstrip s = String c r /\ Py.isspace c = false.
Proof.
  induction s as [| c s IH]; [left; reflexivity |].
  cbn [Py.lstrip]. destruct (Py.isspace c) eqn:Hc; [exact IH |].
  right. exists c, s. split; [reflexivity | exact Hc].
Qed.

Lemma strip_strip s : Py.strip (Py.strip s) = Py.strip s.
Proof.
  unfold Py.strip. destruct (lstrip_head s) as [-> | (c & r & -> & Hc)]; [reflexivity |].
  destruct (rstrip_head c r) as [-> | [r' Hr]]; [reflexivity |].
  rewrite Hr. cbn [Py.lstrip]. rewrite Hc, <- Hr. apply rstrip_rstrip.
Qed.

End Strip.

Section Loader.
Import Sim.

Lemma program_ok_same st st' :
  instructions st' = instructions st -> labels st' = labels st ->
  program_ok st -> program_ok st'.
Proof. unfold program_ok. intros -> ->. exact (fun H => H). Qed.

Lemma program_ok_flush ld st : program_ok st -> program_ok (flush_string ld st).
Proof.
  unfold flush_string. destruct (current_string_label ld); [| exact (fun H => H)].
  apply program_ok_same; reflexivity.
Qed.

Lemma program_ok_append i st :
  inst_ok i -> program_ok st ->
  program_ok (with_instructions (instructions st ++ [i]) st).
Proof.
  intros Hi [Hinst Hlab]. split; cbn [instructions labels with_instructions].
  - apply Forall_app. split; [exact Hinst |]. apply List.Forall_cons; [exact Hi |].
    apply List.Forall_nil.
  - intros l k Hl. apply Hlab in Hl. rewrite length_app. cbn [length]. lia.
Qed.

Lemma program_ok_label l st :
  program_ok st ->
  program_ok (with_labels (<[l := Z.of_nat (length (instructions st))]> (labels st)) st).
Proof.
  intros [Hinst Hlab]. split; cbn [instructions labels with_labels]; [exact Hinst |].
  intros l' k Hl. destruct (decide (l' = l)) as [-> | Hne].
  - rewrite lookup_insert_eq in Hl. injection Hl as <-. lia.
  - rewrite lookup_insert_ne in Hl by congruence. exact (Hlab l' k Hl).
Qed.

Lemma inst_ok_strip s :
  negb (String.eqb (Py.strip s) EmptyString) && negb (Py.startswith (Py.strip s) "#") = true ->
  inst_ok (Py.strip s).
Proof.
  intros H. apply andb_true_iff in H as [Hne Hc].
  apply negb_true_iff in Hne, Hc. apply String.eqb_neq in Hne.
  split; [exact Hne |]. split; [apply strip_strip | exact Hc].
Qed.

Lemma load_line_program orig ld st :
  program_ok st -> program_ok (snd (load_line orig (ld, st))).
Proof.
  intros Hok. unfold load_line. cbv beta iota zeta.
  destruct (String.eqb (Py.strip orig) ".data"); [exact Hok |].
  destruct (String.eqb (Py.strip orig) ".text" || Py.startswith (Py.strip orig) ".globl").
  { destruct (current_string_label ld) eqn:Hl; cbn [snd]; [| exact Hok].
    apply program_ok_flush. exact Hok. }
  destruct (String.eqb (Py.strip orig) EmptyString || Py.startswith (Py.strip orig) "#")
    eqn:Hblank; [exact Hok |].
  apply orb_false_iff in Hblank as [Hne Hcomment].
  destruct (in_data ld).
  { destruct (match_asciiz orig) as [[label rest] |].
    - destruct (Py.endswith_char rest quote); cbn [snd].
      + apply (program_ok_same (flush_string ld st)); [reflexivity | reflexivity |].
        apply program_ok_flush. exact Hok.
      + apply program_ok_flush. exact Hok.
    - destruct (current_string_label ld); [| exact Hok].
      destruct (Py.endswith_char (Py.rstrip orig) quote); cbn [snd]; [| exact Hok].
      revert Hok. apply program_ok_same; reflexivity. }
  destruct (in_text ld); [| exact Hok].
  destruct (Py.contains ":" (Py.strip orig)
            && negb (Py.startswith (Py.strip (Py.strip orig)) "#")).
  { destruct (match_label (Py.strip orig)) as [label |]; [| exact Hok].
    destruct (negb (String.eqb (Py.strip (Py.after ":" (Py.strip orig))) EmptyString)
              && negb (Py.startswith (Py.strip (Py.after ":" (Py.strip orig))) "#"))
      eqn:Hrest; cbn [snd].
    - apply (program_ok_append _ (with_labels _ st)).
      + apply inst_ok_strip. exact Hrest.
      + apply program_ok_label. exact Hok.
    - apply program_ok_label. exact Hok. }
  destruct (negb (String.eqb (Py.strip orig) EmptyString)
            && negb (Py.startswith (Py.strip orig) ".")); cbn [snd]; [| exact Hok].
  apply program_ok_append; [| exact Hok].
  apply inst_ok_strip. rewrite Hne, Hcomment. reflexivity.
Qed.

Lemma same_machine_refl st : same_machine st st.
Proof. repeat split. Qed.

Lemma same_machine_trans a b c : same_machine a b -> same_machine b c -> same_machine a c.
Proof.
  unfold same_machine. intros (H1 & H2 & H3 & H4 & H5 & H6 & H7) (G1 & G2 & G3 & G4 & G5 & G6 & G7).
  repeat split; congruence.
Qed.

Lemma load_line_machine orig ld st : same_machine st (snd (load_line orig (ld, st))).
Proof.
  unfold load_line, flush_string. cbv beta iota zeta.
  repeat match goal with
         | |- context [if ?b then _ else _] => destruct b
         | |- context [match ?x with _ => _ end] => destruct x
         end;
    repeat split.
Qed.

Lemma load_lines lines : forall ld st,
  program_ok st ->
  let st' := snd (fold_left (fun s line => load_line line s) lines (ld, st)) in
  program_ok st' /\ same_machine st st'.
Proof.
  induction lines as [| line lines IH]; intros ld st Hok; cbn [fold_left].
  - split; [exact Hok | apply same_machine_refl].
  - pose proof (load_line_program line ld st Hok) as H1.
    pose proof (load_line_machine line ld st) as H2.
    destruct (load_line line (ld, st)) as [ld1 st1]. cbn [snd] in H1, H2.
    destruct (IH ld1 st1 H1) as [H3 H4].
    split; [exact H3 | exact (same_machine_trans _ _ _ H2 H4)].
Qed.

End Loader.

Section LoaderResult.

Lemma load_program_result (asm : string) :
  exists st,
    Sim.load_program asm Sim.init = (Ok tt, st)
    /\ program_ok st
    /\ Sim.regs st = <[29%nat := 0x7ffffffc]> (Sim.regs Sim.init)
    /\ Sim.memory st = ∅
    /\ Sim.pc st = 0
    /\ Sim.running st = true
    /\ Sim.stdout st = [].
Proof.
  unfold Sim.load_program.
  assert (Hinit : program_ok Sim.init).
  { split; [apply List.Forall_nil |]. intros l k H.
    change (Sim.labels Sim.init) with (∅ : gmap string Z) in H.
    rewrite lookup_empty in H. discriminate. }
  pose proof (load_lines (Py.split_on (ascii_of_nat 10) asm)
                (Sim.mkLoader false false None EmptyString) Sim.init Hinit) as H.
  cbv zeta in H.
  destruct (fold_left _ _ _) as [ld st]. cbn [snd] in H.
  destruct H as [Hok (Hr & Hm & Hp & Hrun & _ & _ & Hout)].
  assert (Hl : length (Sim.regs st) = 32%nat) by (rewrite Hr; reflexivity).
  rewrite (set_reg_writable "$sp" 28 _ st eq_refl Hl).
  eexists. split; [reflexivity |].
  split; [revert Hok; apply program_ok_same; reflexivity |].
  cbn [Sim.regs Sim.memory Sim.pc Sim.running Sim.stdout Sim.with_regs].
  rewrite Hr. repeat split; assumption.
Qed.

End LoaderResult.

(** X13. What the loader builds. [load_program], called on a fresh
    simulator with any text, returns. Every instruction it has stored is
    not empty, has no white space around it and is no comment; every label
    is an index from 0 to the number of instructions. Of the machine only
    [$sp] has changed, to 0x7ffffffc. *)
Theorem loaded_program_well_formed (asm : string) :
  exists st,
    Sim.load_program asm Sim.init = (Ok tt, st)
    /\ program_ok st
    /\ Sim.regs st = <[29%nat := 0x7ffffffc]> (Sim.regs Sim.init)
    /\ Sim.memory st = ∅
    /\ Sim.pc st = 0
    /\ Sim.running st = true
    /\ Sim.stdout st = [].
Proof. exact (load_program_result asm). Qed.

Section RunBudget.
Import Sim.

Lemma index_elem {A : Type} (l : list A) i a : Py.index l i = Ok a -> a ∈ l.
Proof.
  unfold Py.index. cbv zeta.
  destruct ((0 <=? _) && (_ <? _)); [| discriminate].
  destruct (l !! _) as [b |] eqn:Hb; [| discriminate].
  intros H. injection H as <-. exact (list_elem_of_lookup_2 _ _ _ Hb).
Qed.

Lemma program_ok_kept st st' : same_program st st' -> program_ok st -> program_ok st'.
Proof. intros (Hi & Hl & _). apply program_ok_same; assumption. Qed.

(** with a well-formed program every turn of the loop ends it or executes
    an instruction *)
Lemma run_loop_within fuel : forall iterations executed st,
  program_ok st -> iterations <= max_iter ->
  (Z.to_nat (max_iter - iterations) < fuel)%nat ->
  exists r, run_loop fuel iterations executed st = Some r.
Proof.
  induction fuel as [| fuel IH]; intros iterations executed st Hok Hle Hfuel; [lia |].
  cbn [run_loop].
  destruct (running st && (iterations <? max_iter)) eqn:Hc; [| eexists; reflexivity].
  apply andb_true_iff in Hc as [_ Hlt]. apply Z.ltb_lt in Hlt.
  destruct (pc st >=? Z.of_nat (length (instructions st))); [eexists; reflexivity |].
  destruct (Py.index (instructions st) (pc st)) as [raw | e] eqn:Hi;
    [| eexists; reflexivity].
  assert (Hraw : inst_ok raw).
  { destruct Hok as [Hinst _]. rewrite Forall_forall in Hinst.
    apply Hinst. exact (index_elem _ _ _ Hi). }
  destruct Hraw as (Hne & Hstrip & Hcomment).
  rewrite Hstrip, Hcomment. apply String.eqb_neq in Hne. rewrite Hne. cbn [orb].
  pose proof (execute_same_program raw st) as Hsame.
  destruct (execute raw st) as [[[] | e] st1]; [| eexists; reflexivity].
  cbn [snd] in Hsame. apply IH; [exact (program_ok_kept _ _ Hsame Hok) | lia | lia].
Qed.

End RunBudget.

(** X14. A loaded program runs within its budget. For every text, the
    simulator that has loaded it ends its run within 100001 turns of the
    run loop: as no stored instruction is blank or a comment, a turn that
    does not end the loop executes an instruction, and at most 100000 are
    executed. *)
Theorem loaded_program_runs_in_budget (asm : string) :
  exists r, simulate (S (Z.to_nat Sim.max_iter)) asm = Some r.
Proof.
  unfold simulate.
  destruct (load_program_result asm) as (st & Hload & Hok & _). rewrite Hload.
  unfold Sim.run. destruct (Sim.labels st !! "main") as [l |]; [| eexists; reflexivity].
  apply run_loop_within.
  - revert Hok. apply program_ok_same; reflexivity.
  - unfold Sim.max_iter. lia.
  - lia.
Qed.

(** * Further properties of the lexer *)

Section LexerSafe.
Import Lexer.













End LexerSafe.



Section LexerReturns.
Import Lexer.






End LexerReturns.


(** * Further properties: the code of an expression *)

Section OperatorSteps.
Import Sim.

Lemma step_push_sp st : length (regs st) = 32%nat ->
  execute "    addi $sp, $sp, -4" st = (Ok tt, rd_write 29 (reg 29 st + -4) st).
Proof. over_registers st. Qed.

Lemma step_push_t0 st : length (regs st) = 32%nat ->
  execute "    sw $t0, 0($sp)" st = (Ok tt, mem_write (reg 29 st + 0) (reg 8 st) st).
Proof. over_registers st. Qed.

Lemma step_move_t1 st : length (regs st) = 32%nat ->
  execute "    move $t1, $t0" st = (Ok tt, rd_write 9 (reg 8 st) st).
Proof. over_registers st. Qed.

Lemma step_pop_t0 st : length (regs st) = 32%nat ->
  execute "    lw $t0, 0($sp)" st
  = (Ok tt, rd_write 8 (read_mem_of (memory st) (reg 29 st + 0)) st).
Proof. over_registers st. Qed.

Lemma step_pop_sp st : length (regs st) = 32%nat ->
  execute "    addi $sp, $sp, 4" st = (Ok tt, rd_write 29 (reg 29 st + 4) st).
Proof. over_registers st. Qed.

Lemma step_add st : length (regs st) = 32%nat ->
  execute "    add $t0, $t0, $t1" st = (Ok tt, rd_write 8 (reg 8 st + reg 9 st) st).
Proof. over_registers st. Qed.

Lemma step_mul st : length (regs st) = 32%nat ->
  execute "    mul $t0, $t0, $t1" st = (Ok tt, rd_write 8 (reg 8 st * reg 9 st) st).
Proof. over_registers st. Qed.

Lemma step_mflo st : length (regs st) = 32%nat ->
  execute "    mflo $t0" st = (Ok tt, rd_write 8 (default 0 (lo st)) st).
Proof. over_registers st. Qed.

Lemma step_mfhi st : length (regs st) = 32%nat ->
  execute "    mfhi $t0" st = (Ok tt, rd_write 8 (default 0 (hi st)) st).
Proof. over_registers st. Qed.

Lemma step_div st : length (regs st) = 32%nat -> reg 9 st <> 0 ->
  execute "    div $t0, $t1" st
  = (Ok tt, with_pc (pc st + 1)
              (with_lo_hi (reg 8 st / reg 9 st) (reg 8 st mod reg 9 st) st)).
Proof.
  intros Hl Hnz.
  change (execute "    div $t0, $t1" st) with (exec_op "div" ["$t0"; "$t1"] st).
  rewrite (exec_div "$t0" "$t1" _ _ st (get_reg_t0 st Hl) (get_reg_t1 st Hl)).
  apply Z.eqb_neq in Hnz. rewrite Hnz. reflexivity.
Qed.

Lemma execute_all_app l1 : forall l2 st s1,
  execute_all l1 st = (Ok tt, s1) ->
  execute_all (l1 ++ l2) st = execute_all l2 s1.
Proof.
  induction l1 as [| inst l1 IH]; intros l2 st s1 H.
  - injection H as <-. reflexivity.
  - cbn [execute_all app] in *. unfold bind in *.
    destruct (execute inst st) as [[[] | e] s0]; [| discriminate].
    apply IH. exact H.
Qed.

End OperatorSteps.

Ltac operator_step_lemma inst :=
  lazymatch inst with
  | "    add $t0, $t0, $t1" => constr:(step_add)
  | "    mul $t0, $t0, $t1" => constr:(step_mul)
  | "    mflo $t0" => constr:(step_mflo)
  | "    mfhi $t0" => constr:(step_mfhi)
  | "    addi $sp, $sp, -4" => constr:(step_push_sp)
  | "    move $t1, $t0" => constr:(step_move_t1)
  | "    lw $t0, 0($sp)" => constr:(step_pop_t0)
  | "    addi $sp, $sp, 4" => constr:(step_pop_sp)
  | _ => step_lemma inst
  end.

Ltac operator_step :=
  lazymatch goal with
  | |- execute_all (?inst :: ?rest) ?s = _ =>
      let lem := operator_step_lemma inst in
      let Hlen := fresh "Hlen" in
      assert (Hlen : length (Sim.regs s) = 32%nat)
        by (rewrite ?rd_write_length; assumption);
      rewrite (execute_all_step inst rest s _ (lem s Hlen)); clear Hlen
  end.

Section Operators.
Import Sim.

Lemma pc_rd_write d v st : pc (rd_write d v st) = pc st + 1.
Proof. reflexivity. Qed.

Lemma memory_rd_write d v st : memory (rd_write d v st) = memory st.
Proof. reflexivity. Qed.

Lemma land_mask_mod v : Z.land v 0xFFFFFFFF = v mod 0x100000000.
Proof. change 0xFFFFFFFF with (Z.ones 32). rewrite Z.land_ones by lia. reflexivity. Qed.

(** the instructions of [op] run on a state that holds [a] and [b] *)
Local Ltac run_operator op :=
  let code := eval vm_compute in (CodeGen.binop_code op) in
  change (CodeGen.binop_code op) with code;
  eexists; split;
  [ split; [repeat operator_step; reflexivity |];
    split; [rewrite ?rd_write_length; assumption |];
    split; [read_regs |
      split; [read_regs; reflexivity |
        split; [read_regs; reflexivity |
          split; [intros; reflexivity |
            split; [rewrite ?pc_rd_write; cbn [length]; lia | reflexivity]]]]]
  | reflexivity ].

Lemma binop_computes op st a b v :
  length (regs st) = 32%nat ->
  reg 8 st = a -> reg 9 st = b ->
  0 <= a < 0x100000000 -> 0 <= b < 0x100000000 ->
  binop_value op a b = Some v ->
  exists st', computes (CodeGen.binop_code op) st st' v /\ memory st' = memory st.
Proof.
  intros Hl H0 H1 Ha Hb. unfold binop_value.
  pose proof (signed_difference_zero a b Ha Hb) as Hd.
  pose proof (difference_zero a b Ha Hb) as Hu.
  pose proof (land_mask_range (a - b)) as Hr.
  rewrite <- (signed_to_signed32 a Ha), <- (signed_to_signed32 b Hb).
  destruct (String.eqb_spec op "+") as [-> | _].
  { intros H. injection H as <-. run_operator "+". rewrite H0, H1. apply land_mask_mod. }
  destruct (String.eqb_spec op "-") as [-> | _].
  { intros H. injection H as <-. run_operator "-". rewrite H0, H1. apply land_mask_mod. }
  destruct (String.eqb_spec op "*") as [-> | _].
  { intros H. injection H as <-. run_operator "*". rewrite H0, H1. apply land_mask_mod. }
  destruct (String.eqb_spec op "/") as [-> | _].
  { destruct (Z.eqb_spec b 0) as [| Hnz]; [discriminate |].
    intros H. injection H as <-.
    change (CodeGen.binop_code "/") with ["    div $t0, $t1"; "    mflo $t0"].
    assert (Hq : 0 <= a / b < 0x100000000).
    { split; [apply Z.div_pos; lia |].
      apply Z.div_lt_upper_bound; [lia |]. nia. }
    exists (rd_write 8 (reg 8 st / reg 9 st)
              (with_pc (pc st + 1)
                 (with_lo_hi (reg 8 st / reg 9 st) (reg 8 st mod reg 9 st) st))).
    split; [| reflexivity].
    split.
    { rewrite (execute_all_step _ _ st _ (step_div st Hl ltac:(lia))).
      exact (execute_all_step _ [] _ _
               (step_mflo (with_pc (pc st + 1)
                             (with_lo_hi (reg 8 st / reg 9 st) (reg 8 st mod reg 9 st) st))
                          Hl)). }
    split; [rewrite rd_write_length; exact Hl |].
    split; [rewrite reg_rd_write_eq by (cbn; lia); rewrite H0, H1; apply land_mask_small; exact Hq |].
    split; [rewrite reg_rd_write_ne by lia; reflexivity |].
    split; [rewrite reg_rd_write_ne by lia; reflexivity |].
    split; [intros; reflexivity |]. split; [cbn; lia | reflexivity]. }
  destruct (String.eqb_spec op "%") as [-> | _].
  { destruct (Z.eqb_spec b 0) as [| Hnz]; [discriminate |].
    intros H. injection H as <-.
    change (CodeGen.binop_code "%") with ["    div $t0, $t1"; "    mfhi $t0"].
    pose proof (Z.mod_pos_bound a b ltac:(lia)) as Hm.
    exists (rd_write 8 (reg 8 st mod reg 9 st)
              (with_pc (pc st + 1)
                 (with_lo_hi (reg 8 st / reg 9 st) (reg 8 st mod reg 9 st) st))).
    split; [| reflexivity].
    split.
    { rewrite (execute_all_step _ _ st _ (step_div st Hl ltac:(lia))).
      exact (execute_all_step _ [] _ _
               (step_mfhi (with_pc (pc st + 1)
                             (with_lo_hi (reg 8 st / reg 9 st) (reg 8 st mod reg 9 st) st))
                          Hl)). }
    split; [rewrite rd_write_length; exact Hl |].
    split; [rewrite reg_rd_write_eq by (cbn; lia); rewrite H0, H1; apply land_mask_small; lia |].
    split; [rewrite reg_rd_write_ne by lia; reflexivity |].
    split; [rewrite reg_rd_write_ne by lia; reflexivity |].
    split; [intros; reflexivity |]. split; [cbn; lia | reflexivity]. }
  destruct (String.eqb_spec op "<") as [-> | _].
  { intros H. injection H as <-. run_operator "<". rewrite H0, H1.
    destruct (signed a <? signed b); reflexivity. }
  destruct (String.eqb_spec op ">") as [-> | _].
  { intros H. injection H as <-. run_operator ">". rewrite H0, H1.
    destruct (signed b <? signed a); reflexivity. }
  destruct (String.eqb_spec op "==") as [-> | _].
  { intros H. injection H as <-. run_operator "==". rewrite H0, H1.
    change (signed 0) with 0.
    destruct (Z.ltb_spec (signed (Z.land (a - b) 0xFFFFFFFF)) 0),
      (Z.ltb_spec 0 (signed (Z.land (a - b) 0xFFFFFFFF))),
      (Z.eqb_spec a b); try reflexivity; lia. }
  destruct (String.eqb_spec op "!=") as [-> | _].
  { intros H. injection H as <-. run_operator "!=". rewrite H0, H1.
    destruct (Z.ltb_spec 0 (Z.land (a - b) 0xFFFFFFFF)), (Z.eqb_spec a b);
      try reflexivity; lia. }
  destruct (String.eqb_spec op "<=") as [-> | _].
  { intros H. injection H as <-. run_operator "<=". rewrite H0, H1.
    destruct (signed b <? signed a); reflexivity. }
  destruct (String.eqb_spec op ">=") as [-> | _].
  { intros H. injection H as <-. run_operator ">=". rewrite H0, H1.
    destruct (signed a <? signed b); reflexivity. }
  discriminate.
Qed.

End Operators.

Section ExpressionCode.
Import Sim.

Lemma emits_app l1 l2 cg :
  CodeGen.emits (l1 ++ l2) cg = CodeGen.emits l2 (CodeGen.emits l1 cg).
Proof. unfold CodeGen.emits. apply fold_left_app. Qed.

Lemma vars_emits l : forall cg, CodeGen.vars (CodeGen.emits l cg) = CodeGen.vars cg.
Proof.
  unfold CodeGen.emits. induction l as [| x l IH]; intros cg; cbn [fold_left];
    [reflexivity |].
  rewrite IH. reflexivity.
Qed.

(** what [gen_expr] emits for an expression that has a value *)
Lemma gen_expr_code value_of e : forall cg v,
  eval value_of e = Some v ->
  (forall x w, value_of x = Some w -> is_Some (CodeGen.vars cg !! x)) ->
  CodeGen.gen_expr e cg = Ok (CodeGen.emits (expr_code (CodeGen.vars cg) e) cg).
Proof.
  induction e as [val | val | x | e1 IH1 e2 IH2 | op e1 IH1 e2 IH2 | op e IH | op e IH
                  | name args];
    intros cg v Hv Hvars; cbn [eval] in Hv; try discriminate.
  - destruct val; [| discriminate]. reflexivity.
  - destruct (Hvars x v Hv) as [off Hoff]. cbn [CodeGen.gen_expr expr_code].
    unfold CodeGen.var_offset. rewrite Hoff. reflexivity.
  - destruct (eval value_of e1) as [a |] eqn:E1; [| discriminate].
    destruct (eval value_of e2) as [b |] eqn:E2; [| discriminate].
    cbn [CodeGen.gen_expr expr_code]. rewrite (IH1 cg a eq_refl Hvars). cbn [obind].
    rewrite (IH2 _ b eq_refl).
    2: { intros x w Hx. rewrite !vars_emits. exact (Hvars x w Hx). }
    cbn [obind]. rewrite !vars_emits, !emits_app. reflexivity.
Qed.

Lemma binop_value_range op a b v :
  0 <= a < 0x100000000 -> 0 <= b < 0x100000000 ->
  binop_value op a b = Some v -> 0 <= v < 0x100000000.
Proof.
  intros Ha Hb. unfold binop_value, flag.
  repeat match goal with
         | |- context [String.eqb op ?s] => destruct (String.eqb op s)
         end;
    try discriminate;
    try (intros H; injection H as <-;
         first [ apply Z.mod_pos_bound; lia
               | match goal with |- context [if ?c then _ else _] => destruct c end; lia ]).
  - destruct (Z.eqb_spec b 0); [discriminate |]. intros H. injection H as <-.
    split; [apply Z.div_pos; lia |]. apply Z.div_lt_upper_bound; [lia | nia].
  - destruct (Z.eqb_spec b 0); [discriminate |]. intros H. injection H as <-.
    pose proof (Z.mod_pos_bound a b ltac:(lia)). lia.
Qed.

Lemma eval_range value_of e : forall v,
  (forall x w, value_of x = Some w -> 0 <= w < 0x100000000) ->
  eval value_of e = Some v -> 0 <= v < 0x100000000.
Proof.
  induction e as [val | val | x | e1 IH1 e2 IH2 | op e1 IH1 e2 IH2 | op e IH | op e IH
                  | name args];
    intros v Hr Hv; cbn [eval] in Hv; try discriminate.
  - destruct val; [| discriminate]. injection Hv as <-. apply Z.mod_pos_bound. lia.
  - exact (Hr x v Hv).
  - destruct (eval value_of e1) as [a |]; [| discriminate].
    destruct (eval value_of e2) as [b |]; [| discriminate].
    exact (binop_value_range op a b v (IH1 a Hr eq_refl) (IH2 b Hr eq_refl) Hv).
Qed.

Lemma read_mem_of_agree (m m' : gmap Z Z) low a :
  (forall addr, low <= addr -> m' !! addr = m !! addr) -> low <= a ->
  read_mem_of m' a = read_mem_of m a.
Proof.
  intros H Ha. rewrite !read_mem_of_unfold. rewrite !H by lia. reflexivity.
Qed.

Lemma execute_li n st :
  length (regs st) = 32%nat ->
  execute ("    li $t0, " +:+ Py.str n) st = (Ok tt, rd_write 8 n st).
Proof.
  intros Hl. rewrite line_li, execute_line.
  - apply exec_li; [reflexivity | exact Hl | apply int_str].
  - apply plain_word; [reflexivity | discriminate].
  - apply plain_two; [apply plain_word; [reflexivity | discriminate] | apply str_plain].
Qed.

Lemma reg_mem_write i a v st : reg i (mem_write a v st) = reg i st.
Proof. reflexivity. Qed.

Lemma stack_need_binop op e1 e2 :
  stack_need (BinOp op e1 e2) = Nat.max (stack_need e1) (S (stack_need e2)).
Proof. reflexivity. Qed.

(** the code of an expression computes its value *)
Lemma expr_code_computes vs value_of fp e : forall st v,
  eval value_of e = Some v ->
  length (regs st) = 32%nat ->
  reg 30 st = fp ->
  4 * Z.of_nat (stack_need e) <= reg 29 st < 0x100000000 ->
  (forall x w, value_of x = Some w ->
     exists off, vs !! x = Some off /\ reg 29 st <= fp + off
                 /\ w = Z.land (read_mem_of (memory st) (fp + off)) 0xFFFFFFFF) ->
  exists st', computes (expr_code vs e) st st' v.
Proof.
  induction e as [val | val | x | e1 IH1 e2 IH2 | op e1 IH1 e2 IH2 | op e IH | op e IH
                  | name args];
    intros st v Hv Hl Hfp Hsp Hvars; cbn [eval] in Hv; try discriminate.
  - (* a literal *)
    destruct val as [n |]; [| discriminate]. injection Hv as <-.
    exists (rd_write 8 n st). cbn [expr_code format_value].
    split; [exact (execute_all_step _ [] st _ (execute_li n st Hl)) |].
    split; [rewrite rd_write_length; exact Hl |].
    split; [rewrite reg_rd_write_eq by lia; apply land_mask_mod |].
    split; [apply reg_rd_write_ne; lia |].
    split; [apply reg_rd_write_ne; lia |].
    split; [intros; reflexivity |]. split; [cbn; lia | reflexivity].
  - (* a variable *)
    destruct (Hvars x v Hv) as (off & Hoff & _ & ->). cbn [expr_code]. rewrite Hoff.
    exists (rd_write 8 (read_mem_of (memory st) (reg 30 st + off)) st).
    split; [exact (execute_all_step _ [] st _ (execute_load off st Hl)) |].
    split; [rewrite rd_write_length; exact Hl |].
    split; [rewrite reg_rd_write_eq by lia; rewrite Hfp; reflexivity |].
    split; [apply reg_rd_write_ne; lia |].
    split; [apply reg_rd_write_ne; lia |].
    split; [intros; reflexivity |]. split; [cbn; lia | reflexivity].
  - (* a binary operator *)
    destruct (eval value_of e1) as [a |] eqn:E1; [| discriminate].
    destruct (eval value_of e2) as [b |] eqn:E2; [| discriminate].
    rewrite stack_need_binop in Hsp.
    assert (Hrange : forall x w, value_of x = Some w -> 0 <= w < 0x100000000).
    { intros x w Hx. destruct (Hvars x w Hx) as (off & _ & _ & ->). apply land_mask_range. }
    pose proof (eval_range value_of e1 a Hrange E1) as Ha.
    pose proof (eval_range value_of e2 b Hrange E2) as Hb.
    set (sp := reg 29 st) in *.
    (* the left operand *)
    destruct (IH1 st a eq_refl Hl Hfp ltac:(fold sp; lia) Hvars)
      as (s1 & X1 & L1 & T1 & SP1 & FP1 & M1 & PC1 & O1).
    fold sp in SP1, M1.
    (* the push *)
    set (s2 := rd_write 29 (reg 29 s1 + -4) s1).
    assert (L2 : length (regs s2) = 32%nat) by (unfold s2; rewrite rd_write_length; exact L1).
    assert (SP2 : reg 29 s2 = sp - 4).
    { unfold s2. rewrite reg_rd_write_eq by lia. rewrite SP1.
      replace (sp + -4) with (sp - 4) by lia. apply land_mask_small. lia. }
    assert (T2 : reg 8 s2 = a) by (unfold s2; rewrite reg_rd_write_ne by lia; exact T1).
    assert (FP2 : reg 30 s2 = fp) by (unfold s2; rewrite reg_rd_write_ne by lia; congruence).
    set (s3 := mem_write (reg 29 s2 + 0) (reg 8 s2) s2).
    assert (L3 : length (regs s3) = 32%nat) by exact L2.
    assert (M3 : memory s3 = write_mem_of (memory s1) (sp - 4) a).
    { unfold s3, mem_write. cbn [memory with_pc with_memory].
      rewrite SP2, T2, Z.add_0_r. reflexivity. }
    (* the right operand *)
    destruct (IH2 s3 b eq_refl L3 FP2)
      as (s4 & X4 & L4 & T4 & SP4 & FP4 & M4 & PC4 & O4).
    { change (reg 29 s3) with (reg 29 s2). rewrite SP2. lia. }
    { intros x w Hx. destruct (Hvars x w Hx) as (off & Hoff & Hlow & ->).
      exists off. split; [exact Hoff |].
      change (reg 29 s3) with (reg 29 s2). rewrite SP2. split; [lia |].
      rewrite M3, read_mem_of_write_other by lia.
      rewrite (read_mem_of_agree (memory st) (memory s1) sp (fp + off) M1 Hlow).
      reflexivity. }
    change (reg 29 s3) with (reg 29 s2) in SP4, M4. rewrite SP2 in SP4, M4.
    change (reg 30 s3) with (reg 30 s2) in FP4. rewrite FP2 in FP4.
    (* the pop *)
    set (s5 := rd_write 9 (reg 8 s4) s4).
    assert (L5 : length (regs s5) = 32%nat) by (unfold s5; rewrite rd_write_length; exact L4).
    set (s6 := rd_write 8 (read_mem_of (memory s5) (reg 29 s5 + 0)) s5).
    assert (L6 : length (regs s6) = 32%nat) by (unfold s6; rewrite rd_write_length; exact L5).
    set (s7 := rd_write 29 (reg 29 s6 + 4) s6).
    assert (L7 : length (regs s7) = 32%nat) by (unfold s7; rewrite rd_write_length; exact L6).
    assert (SP5 : reg 29 s5 = sp - 4) by (unfold s5; rewrite reg_rd_write_ne by lia; exact SP4).
    assert (T1' : reg 9 s7 = b).
    { unfold s7, s6, s5. rewrite !reg_rd_write_ne by lia.
      rewrite reg_rd_write_eq by lia. rewrite T4. apply land_mask_small. exact Hb. }
    assert (T0' : reg 8 s7 = a).
    { unfold s7. rewrite reg_rd_write_ne by lia. unfold s6.
      rewrite reg_rd_write_eq by lia. rewrite SP5, Z.add_0_r.
      change (memory s5) with (memory s4).
      rewrite (read_mem_of_agree (memory s3) (memory s4) (sp - 4) (sp - 4) M4) by lia.
      rewrite M3, read_write_mem_of, land_mask_twice. apply land_mask_small. exact Ha. }
    assert (SP7 : reg 29 s7 = sp).
    { unfold s7. rewrite reg_rd_write_eq by lia. unfold s6.
      rewrite reg_rd_write_ne by lia. rewrite SP5.
      replace (sp - 4 + 4) with sp by lia. apply land_mask_small. lia. }
    assert (FP7 : reg 30 s7 = fp).
    { unfold s7, s6, s5. rewrite !reg_rd_write_ne by lia. exact FP4. }
    (* the operator *)
    destruct (binop_computes op s7 a b v L7 T0' T1' Ha Hb Hv)
      as (s8 & (X8 & L8 & T8 & SP8 & FP8 & _ & PC8 & O8) & M8).
    exists s8. cbn [expr_code].
    split.
    { rewrite (execute_all_app _ _ st s1 X1). cbn [app].
      rewrite (execute_all_step _ _ s1 _ (step_push_sp s1 L1)). fold s2.
      rewrite (execute_all_step _ _ s2 _ (step_push_t0 s2 L2)). fold s3.
      rewrite (execute_all_app _ _ s3 s4 X4). cbn [app].
      rewrite (execute_all_step _ _ s4 _ (step_move_t1 s4 L4)). fold s5.
      rewrite (execute_all_step _ _ s5 _ (step_pop_t0 s5 L5)). fold s6.
      rewrite (execute_all_step _ _ s6 _ (step_pop_sp s6 L6)). fold s7.
      exact X8. }
    split; [exact L8 |]. split; [exact T8 |].
    split; [rewrite SP8; exact SP7 |].
    split; [rewrite FP8, FP7; symmetry; exact Hfp |].
    split.
    { intros addr Haddr. fold sp in Haddr. rewrite M8.
      change (memory s7) with (memory s4).
      rewrite M4 by lia. rewrite M3, write_mem_of_outside by lia.
      apply M1. exact Haddr. }
    split.
    { rewrite PC8. change (pc s7) with (pc s4 + 1 + 1 + 1). rewrite PC4.
      change (pc s3) with (pc s1 + 1 + 1). rewrite PC1.
      rewrite !length_app. cbn [length]. lia. }
    rewrite O8. change (stdout s7) with (stdout s4). rewrite O4.
    change (stdout s3) with (stdout s1). exact O1.
Qed.

End ExpressionCode.

Section ExpressionResults.
Import Sim.

Lemma leaves_of_computes op st a b v :
  length (regs st) = 32%nat ->
  0 <= a < 0x100000000 -> 0 <= b < 0x100000000 ->
  get_reg "$t0" st = (Ok a, st) -> get_reg "$t1" st = (Ok b, st) ->
  binop_value op a b = Some v -> leaves_in_t0 op st v.
Proof.
  intros Hl Ha Hb H0 H1 Hv.
  rewrite (get_reg_t0 st Hl) in H0. rewrite (get_reg_t1 st Hl) in H1.
  injection H0 as H0. injection H1 as H1.
  destruct (binop_computes op st a b v Hl H0 H1 Ha Hb Hv)
    as (st' & (Hx & Hl' & Ht & _) & _).
  exists st'. split; [exact Hx |]. rewrite (get_reg_t0 st' Hl'), Ht. reflexivity.
Qed.

End ExpressionResults.

(** X17. The arithmetic operators. The instructions that [gen_expr]
    emits for [+], [-] and [*], run by the simulator in a state that holds
    the 32-bit values [a] in [$t0] and [b] in [$t1], return and leave the
    sum, the difference and the product modulo 2^32 in [$t0]. Those of [/]
    and [%], for [b] other than 0, leave the quotient and the remainder of
    [a] by [b] as unsigned values: a negative operand, stored modulo 2^32,
    is divided as the large number it is stored as. *)
Theorem arithmetic_lowering (st : Sim.sim) (a b : Z) :
  length (Sim.regs st) = 32%nat ->
  0 <= a < 0x100000000 -> 0 <= b < 0x100000000 ->
  Sim.get_reg "$t0" st = (Ok a, st) -> Sim.get_reg "$t1" st = (Ok b, st) ->
  leaves_in_t0 "+" st ((a + b) mod 0x100000000)
  /\ leaves_in_t0 "-" st ((a - b) mod 0x100000000)
  /\ leaves_in_t0 "*" st ((a * b) mod 0x100000000)
  /\ (b <> 0 -> leaves_in_t0 "/" st (a / b) /\ leaves_in_t0 "%" st (a mod b)).
Proof.
  intros Hl Ha Hb H0 H1.
  split; [exact (leaves_of_computes "+" st a b _ Hl Ha Hb H0 H1 eq_refl) |].
  split; [exact (leaves_of_computes "-" st a b _ Hl Ha Hb H0 H1 eq_refl) |].
  split; [exact (leaves_of_computes "*" st a b _ Hl Ha Hb H0 H1 eq_refl) |].
  intros Hnz. apply Z.eqb_neq in Hnz.
  split; apply (leaves_of_computes _ st a b _ Hl Ha Hb H0 H1);
    unfold binop_value; cbn [String.eqb Ascii.eqb Bool.eqb]; rewrite Hnz; reflexivity.
Qed.

(** 0xFFFFFFF9, that is -7, and 2: the sum is 0xFFFFFFFB, that is -5; the
    quotient is 0x7FFFFFFC and not -3 or -4 *)
Lemma arithmetic_lowering_witness :
  leaves_in_t0 "+" (operands_state 0xFFFFFFF9 2) 0xFFFFFFFB
  /\ leaves_in_t0 "/" (operands_state 0xFFFFFFF9 2) 0x7FFFFFFC
  /\ leaves_in_t0 "%" (operands_state 0xFFFFFFF9 2) 1.
Proof.
  destruct (arithmetic_lowering (operands_state 0xFFFFFFF9 2) 0xFFFFFFF9 2
              eq_refl ltac:(lia) ltac:(lia) eq_refl eq_refl)
    as (Hadd & _ & _ & Hdiv).
  destruct (Hdiv ltac:(lia)) as [Hq Hr].
  split; [exact Hadd |]. split; [exact Hq | exact Hr].
Defined.

(** X18. The code of an expression computes its value. For an expression
    made of integer literals, declared variables and binary operators,
    with a value (no division by zero), the instructions that [gen_expr]
    appends to the output, run by the simulator in a state with enough
    stack below [$sp] and the variables' slots at or above it, return and
    leave the value of the expression in [$t0]; [$sp] and [$fp] are as
    before, the memory from [$sp] upwards is unchanged, nothing is
    printed, and the program counter has moved by the number of
    instructions. *)
Theorem expression_code_computes (e : expr) (cg cg' : CodeGen.codegen)
    (st : Sim.sim) (sp fp v : Z) :
  CodeGen.gen_expr e cg = Ok cg' ->
  length (Sim.regs st) = 32%nat ->
  Sim.get_reg "$sp" st = (Ok sp, st) ->
  Sim.get_reg "$fp" st = (Ok fp, st) ->
  4 * Z.of_nat (stack_need e) <= sp < 0x100000000 ->
  (forall x off, CodeGen.vars cg !! x = Some off -> sp <= fp + off) ->
  eval (var_value cg st) e = Some v ->
  exists lines st',
    CodeGen.output cg' = (CodeGen.output cg ++ lines)%list
    /\ execute_all lines st = (Ok tt, st')
    /\ Sim.get_reg "$t0" st' = (Ok v, st')
    /\ Sim.get_reg "$sp" st' = (Ok sp, st')
    /\ Sim.get_reg "$fp" st' = (Ok fp, st')
    /\ (forall addr, sp <= addr -> Sim.memory st' !! addr = Sim.memory st !! addr)
    /\ Sim.pc st' = Sim.pc st + Z.of_nat (length lines)
    /\ Sim.stdout st' = Sim.stdout st.
Proof.
  intros Hgen Hl Hsp Hfp Hneed Hslots Hv.
  rewrite (get_reg_sp st Hl) in Hsp. injection Hsp as Hsp.
  rewrite (get_reg_fp st Hl) in Hfp. injection Hfp as Hfp.
  assert (Hvars : forall x w, var_value cg st x = Some w ->
            exists off, CodeGen.vars cg !! x = Some off /\ reg 29 st <= fp + off
              /\ w = Z.land (Sim.read_mem_of (Sim.memory st) (fp + off)) 0xFFFFFFFF).
  { intros x w. unfold var_value.
    destruct (CodeGen.vars cg !! x) as [off |] eqn:Hoff; [| discriminate].
    intros H. injection H as <-. exists off. split; [reflexivity |].
    rewrite Hsp, Hfp. split; [exact (Hslots x off Hoff) | reflexivity]. }
  rewrite (gen_expr_code (var_value cg st) e cg v Hv) in Hgen.
  2: { intros x w Hx. destruct (Hvars x w Hx) as (off & Hoff & _). exists off. exact Hoff. }
  injection Hgen as <-.
  destruct (expr_code_computes (CodeGen.vars cg) (var_value cg st) fp e st v Hv Hl Hfp
              ltac:(rewrite Hsp; exact Hneed) Hvars)
    as (st' & Hx & Hl' & Ht & Hsp' & Hfp' & Hm & Hpc & Hout).
  exists (expr_code (CodeGen.vars cg) e), st'.
  split; [apply output_emits |]. split; [exact Hx |].
  split; [rewrite (get_reg_t0 st' Hl'), Ht; reflexivity |].
  split; [rewrite (get_reg_sp st' Hl'), Hsp', Hsp; reflexivity |].
  split; [rewrite (get_reg_fp st' Hl'), Hfp', Hfp; reflexivity |].
  split; [intros addr Ha; apply Hm; rewrite Hsp; exact Ha |].
  split; [exact Hpc | exact Hout].
Qed.

(** [x + y * 2] with 5 in [x] and 7 in [y] *)
Lemma expression_code_computes_witness :
  exists cg' lines st',
    CodeGen.gen_expr
      (BinOp "+" (Var "x") (BinOp "*" (Var "y") (Number (IntV 2)))) two_vars_state
    = Ok cg'
    /\ CodeGen.output cg' = lines
    /\ execute_all lines two_vars_machine = (Ok tt, st')
    /\ Sim.get_reg "$t0" st' = (Ok 19, st')
    /\ Sim.get_reg "$sp" st' = (Ok 0x7FFFFFE8, st').
Proof.
  destruct (CodeGen.gen_expr
              (BinOp "+" (Var "x") (BinOp "*" (Var "y") (Number (IntV 2)))) two_vars_state)
    as [cg' | err] eqn:Hgen; [| vm_compute in Hgen; discriminate Hgen].
  destruct (expression_code_computes _ two_vars_state cg' two_vars_machine
              0x7FFFFFE8 0x7FFFFFF0 19 Hgen eq_refl eq_refl eq_refl)
    as (lines & st' & Hout & Hx & Ht & Hsp & _).
  - cbn. lia.
  - intros x off H. unfold two_vars_state in H. cbn [CodeGen.vars] in H.
    apply lookup_insert_Some in H as [[_ <-] | [_ H]]; [lia |].
    apply lookup_insert_Some in H as [[_ <-] | [_ H]]; [lia |].
    rewrite lookup_empty in H. discriminate.
  - reflexivity.
  - exists cg', lines, st'. split; [reflexivity |].
    split; [exact Hout |]. split; [exact Hx |]. split; [exact Ht | exact Hsp].
Defined.

(** * Further properties: exceptions of the simulator *)

Section Atomic.
Import Sim.

Lemma reads_ret {A : Type} (a : A) : reads_only (ret a).
Proof. intros st. reflexivity. Qed.

Lemma reads_raise {A : Type} (e : exn) : reads_only (@raise A e).
Proof. intros st. reflexivity. Qed.

Lemma reads_lift {A : Type} (o : outcome A) : reads_only (lift o).
Proof. intros st. reflexivity. Qed.

Lemma reads_gets {A : Type} (f : sim -> A) : reads_only (gets f).
Proof. intros st. reflexivity. Qed.

Lemma reads_operand (operands : list string) (i : nat) : reads_only (operand operands i).
Proof. intros st. unfold operand. destruct (operands !! i); reflexivity. Qed.

Lemma reads_label_index (name : string) : reads_only (label_index name).
Proof. intros st. unfold label_index. destruct (labels st !! name); reflexivity. Qed.

Lemma reads_get_reg (name : string) : reads_only (get_reg name).
Proof.
  intros st. unfold get_reg.
  destruct (reg_names !! name) as [[| idx] |]; try reflexivity.
  destruct (regs st !! S idx); reflexivity.
Qed.

Lemma returns_ret {A : Type} (a : A) : always_returns (ret a).
Proof. intros st Hl. exists a, st. split; [reflexivity | exact Hl]. Qed.

Lemma returns_gets {A : Type} (f : sim -> A) : always_returns (gets f).
Proof. intros st Hl. exists (f st), st. split; [reflexivity | exact Hl]. Qed.

Lemma returns_modify (f : sim -> sim) :
  (forall st, regs (f st) = regs st) -> always_returns (modify f).
Proof.
  intros Hf st Hl. exists tt, (f st). split; [reflexivity |]. rewrite Hf. exact Hl.
Qed.

Lemma returns_set_reg name v : always_returns (set_reg name v).
Proof.
  intros st Hl. unfold set_reg.
  destruct (reg_names !! name) as [[| idx] |] eqn:Hn;
    [exists tt, st; split; [reflexivity | exact Hl] | | exists tt, st; split; [reflexivity | exact Hl]].
  pose proof (reg_names_bound _ _ Hn).
  destruct (Nat.ltb_spec (S idx) (length (regs st))); [| lia].
  eexists. eexists. split; [reflexivity |]. cbn [regs with_regs].
  rewrite length_insert. exact Hl.
Qed.

Lemma returns_bind {A B : Type} (m : M A) (k : A -> M B) :
  always_returns m -> (forall a, always_returns (k a)) -> always_returns (bind m k).
Proof.
  intros Hm Hk st Hl. destruct (Hm st Hl) as (a & st1 & Hx & Hl1).
  unfold bind. rewrite Hx. exact (Hk a st1 Hl1).
Qed.

Lemma atomic_of_returns {A : Type} (m : M A) : always_returns m -> atomic m.
Proof.
  intros Hm st e st' Hl H. destruct (Hm st Hl) as (a & st1 & Hx & _).
  rewrite Hx in H. discriminate.
Qed.

Lemma atomic_of_reads {A : Type} (m : M A) : reads_only m -> atomic m.
Proof. intros Hm st e st' _ H. specialize (Hm st). rewrite H in Hm. exact Hm. Qed.

Lemma atomic_bind_reads {A B : Type} (m : M A) (k : A -> M B) :
  reads_only m -> (forall a, atomic (k a)) -> atomic (bind m k).
Proof.
  intros Hm Hk st e st' Hl. unfold bind. specialize (Hm st).
  destruct (m st) as [[a | e0] st1]; cbn [snd] in Hm; subst st1.
  - apply Hk. exact Hl.
  - intros H. injection H as _ <-. reflexivity.
Qed.

End Atomic.

Ltac returns_step :=
  lazymatch goal with
  | |- always_returns (Sim.bind _ _) => apply returns_bind; [ | intros ? ]
  | |- always_returns (Sim.ret _) => apply returns_ret
  | |- always_returns (Sim.gets _) => apply returns_gets
  | |- always_returns (Sim.set_reg _ _) => apply returns_set_reg
  | |- always_returns (Sim.modify _) => apply returns_modify; intros ?; reflexivity
  | |- always_returns (if ?b then _ else _) => destruct b
  | |- always_returns (match ?x with _ => _ end) => destruct x
  end.

Ltac atomic_step :=
  lazymatch goal with
  | |- atomic (Sim.bind (Sim.operand _ _) _) =>
      apply atomic_bind_reads; [apply reads_operand | intros ?]
  | |- atomic (Sim.bind (Sim.get_reg _) _) =>
      apply atomic_bind_reads; [apply reads_get_reg | intros ?]
  | |- atomic (Sim.bind (Sim.lift _) _) =>
      apply atomic_bind_reads; [apply reads_lift | intros ?]
  | |- atomic (Sim.bind (Sim.gets _) _) =>
      apply atomic_bind_reads; [apply reads_gets | intros ?]
  | |- atomic (Sim.bind (Sim.label_index _) _) =>
      apply atomic_bind_reads; [apply reads_label_index | intros ?]
  | |- atomic (Sim.raise _) => apply atomic_of_reads, reads_raise
  | |- atomic (if ?b then _ else _) => destruct b
  | |- atomic (match ?x with _ => _ end) => destruct x
  | |- atomic _ => apply atomic_of_returns; repeat returns_step
  end.

Section AtomicExecute.
Import Sim.

Lemma exec_op_atomic op operands : atomic (exec_op op operands).
Proof.
  unfold exec_op, next, print, write_mem, read_mem. cbv zeta.
  repeat atomic_step.
Qed.

Lemma execute_atomic inst : atomic (execute inst).
Proof.
  unfold execute. destruct (decode inst) as [[op operands] |].
  - apply exec_op_atomic.
  - apply atomic_of_returns. unfold next. apply returns_modify. intros ?. reflexivity.
Qed.

End AtomicExecute.

(** X19. A failed instruction changes nothing. When the execution of an
    instruction raises an exception (an unknown register or label, a text
    that is no number, a missing operand, a division by zero), the state
    of the simulator is what it was before the instruction: registers,
    memory, program counter and output. *)
Theorem failed_instruction_changes_nothing (inst : string) (st st' : Sim.sim) (e : exn) :
  length (Sim.regs st) = 32%nat ->
  Sim.execute inst st = (Raise e, st') ->
  st' = st.
Proof. intros Hl H. exact (execute_atomic inst st e st' Hl H). Qed.

(** a load from a register that does not exist *)
Lemma failed_instruction_changes_nothing_witness :
  exists e,
    Sim.execute "    lw $t0, 0($xx)" (frame_state 8 8 0) = (Raise e, frame_state 8 8 0).
Proof.
  destruct (Sim.execute "    lw $t0, 0($xx)" (frame_state 8 8 0)) as [[[] | e] st'] eqn:E;
    [vm_compute in E; discriminate E |].
  exists e. f_equal.
  exact (failed_instruction_changes_nothing "    lw $t0, 0($xx)" (frame_state 8 8 0) st' e
           eq_refl E).
Defined.

(** * Further properties: strings from the generator to the loader *)

Section StringLines.
Import Sim.

Lemma isdigit_isword c : Py.isdigit c = true -> Py.isword c = true.
Proof.
  intros H. unfold Py.isword, Py.isalnum. rewrite H. rewrite orb_true_r. reflexivity.
Qed.

Lemma str_word k : 0 <= k -> all_chars Py.isword (Py.str k) = true.
Proof.
  intros Hk. unfold Py.str. destruct (Z.ltb_spec k 0); [lia |].
  destruct (str_nonneg_digits k Hk) as [_ Hd].
  exact (all_chars_impl _ _ _ isdigit_isword Hd).
Qed.

Lemma drop_last_cons d t :
  t <> EmptyString -> Py.drop_last (String d t) = String d (Py.drop_last t).
Proof. intros H. destruct t; [contradiction | reflexivity]. Qed.

Lemma drop_last_snoc s c : Py.drop_last (s +:+ String c EmptyString) = s.
Proof.
  induction s as [| d s IH]; [reflexivity |].
  rewrite sapp_cons, drop_last_cons by (destruct s; discriminate).
  rewrite IH. reflexivity.
Qed.

Lemma endswith_snoc s c : Py.endswith_char (s +:+ String c EmptyString) c = true.
Proof.
  unfold Py.endswith_char. rewrite last_char_app by discriminate.
  cbn [Py.last_char]. apply Ascii.eqb_refl.
Qed.

Lemma replace2_absent a1 a2 b s :
  Py.contains a1 s = false -> Py.replace2 a1 a2 b s = s.
Proof.
  induction s as [| c s IH]; [reflexivity |].
  cbn [Py.contains]. intros H. apply orb_false_iff in H as [Hc Hs].
  destruct s as [| d s]; [reflexivity |].
  change (Py.replace2 a1 a2 b (String c (String d s)))
    with (if Ascii.eqb c a1 && Ascii.eqb d a2
          then String b (Py.replace2 a1 a2 b s)
          else String c (Py.replace2 a1 a2 b (String d s))).
  rewrite Ascii.eqb_sym in Hc. rewrite Hc. cbn [andb]. rewrite (IH Hs). reflexivity.
Qed.

Lemma unescape_plain s : Py.contains backslash s = false -> unescape s = s.
Proof.
  intros H. unfold unescape. rewrite (replace2_absent backslash "n" _ s H).
  exact (replace2_absent backslash "t" _ s H).
Qed.

Lemma string_line_strip k s : Py.strip (string_line k s) = string_line k s.
Proof.
  unfold Py.strip.
  assert (Hl : Py.lstrip (string_line k s) = string_line k s) by reflexivity.
  rewrite Hl. apply (rstrip_keeps _ quote); [| reflexivity].
  unfold string_line. rewrite !last_char_app by discriminate. reflexivity.
Qed.

Lemma match_asciiz_string_line k s :
  0 <= k ->
  match_asciiz (string_line k s) = Some (string_label k, s +:+ String quote EmptyString).
Proof.
  intros Hk. unfold match_asciiz, string_line.
  rewrite (span_app Py.isword (string_label k)
             (": .asciiz " +:+ String quote s +:+ String quote EmptyString)).
  - change (string_label k) with (String "s" (String "t" (String "r" (Py.str k)))).
    change (": .asciiz " +:+ String quote s +:+ String quote EmptyString)
      with (String ":" (" .asciiz " +:+ String quote s +:+ String quote EmptyString)).
    cbv beta iota.
    change (Py.lstrip (" .asciiz " +:+ String quote s +:+ String quote EmptyString))
      with (".asciiz " +:+ String quote s +:+ String quote EmptyString).
    change (Py.startswith (".asciiz " +:+ String quote s +:+ String quote EmptyString)
              ".asciiz") with true.
    cbv iota.
    change (drop 7 (list_ascii_of_string
                      (".asciiz " +:+ String quote s +:+ String quote EmptyString)))
      with (" "%char :: list_ascii_of_string (String quote s +:+ String quote EmptyString)).
    cbn [string_of_list_ascii]. rewrite string_of_list_ascii_of_string.
    change (Py.lstrip (String " " (String quote s +:+ String quote EmptyString)))
      with (String quote (s +:+ String quote EmptyString)).
    cbv iota. rewrite Ascii.eqb_refl. reflexivity.
  - unfold string_label.
    change ("str" +:+ Py.str k) with (String "s" (String "t" (String "r" (Py.str k)))).
    cbn [all_chars]. rewrite (str_word k Hk). reflexivity.
  - reflexivity.
Qed.

Lemma contains_string_line c k s :
  Py.isword c = false -> Ascii.eqb c quote = false ->
  Py.contains c "str" = false -> Py.contains c ": .asciiz " = false ->
  0 <= k -> Py.contains c s = false -> Py.contains c (string_line k s) = false.
Proof.
  intros Hw Hq Hstr Hmid Hk Hs. unfold string_line, string_label.
  rewrite !contains_app, Hstr, Hmid.
  rewrite (contains_all c Py.isword (Py.str k) Hw (str_word k Hk)).
  cbn [Py.contains orb]. rewrite Hq, Hs. reflexivity.
Qed.

Lemma load_string_line k s ld st :
  0 <= k -> in_data ld = true ->
  load_line (string_line k s) (ld, st)
  = (mkLoader true (in_text ld) None EmptyString,
     with_data_strings
       (<[string_label k := unescape s]> (data_strings (flush_string ld st)))
       (flush_string ld st)).
Proof.
  intros Hk Hdata. unfold load_line. cbv beta iota zeta.
  rewrite string_line_strip.
  assert (H1 : String.eqb (string_line k s) ".data" = false) by reflexivity.
  assert (H2 : String.eqb (string_line k s) ".text" = false) by reflexivity.
  assert (H3 : Py.startswith (string_line k s) ".globl" = false) by reflexivity.
  assert (H4 : String.eqb (string_line k s) EmptyString = false) by reflexivity.
  assert (H5 : Py.startswith (string_line k s) "#" = false) by reflexivity.
  rewrite H1, H2, H3, H4, H5, Hdata. cbn [orb].
  rewrite (match_asciiz_string_line k s Hk).
  rewrite endswith_snoc, drop_last_snoc. reflexivity.
Qed.

End StringLines.

(** X20. A string from the generator to the loader. The line that
    [add_string] writes in the data section for the string [s], with a
    string counter [k] that is not negative and [s] free of line feeds, is
    one line of the text; [load_program], in its data section, stores
    under the label of the line the string [s] with [\n] and [\t]
    replaced once more, which is [s] itself when it holds no
    backslash. *)
Theorem string_line_loads (k : Z) (s : string) (ld : Sim.loader) (st : Sim.sim) :
  0 <= k ->
  Py.contains (ascii_of_nat 10) s = false ->
  Sim.in_data ld = true ->
  Py.split_on (ascii_of_nat 10) (string_line k s) = [string_line k s]
  /\ (exists ld' st',
        Sim.load_line (string_line k s) (ld, st) = (ld', st')
        /\ Sim.data_strings st' !! string_label k = Some (Sim.unescape s)
        /\ Sim.current_string_label ld' = None
        /\ Sim.instructions st' = Sim.instructions st
        /\ Sim.labels st' = Sim.labels st)
  /\ (Py.contains Sim.backslash s = false -> Sim.unescape s = s).
Proof.
  intros Hk Hnl Hdata.
  split; [apply split_on_absent; apply contains_string_line;
          [reflexivity | reflexivity | reflexivity | reflexivity | exact Hk | exact Hnl] |].
  split; [| apply unescape_plain].
  eexists. eexists. split; [apply (load_string_line k s ld st Hk Hdata) |].
  cbn [Sim.data_strings Sim.with_data_strings Sim.current_string_label
       Sim.instructions Sim.labels].
  split; [apply lookup_insert_eq |]. split; [reflexivity |].
  unfold Sim.flush_string. destruct (Sim.current_string_label ld); split; reflexivity.
Qed.

(** the line of the first string of a program, loaded in the data
    section *)
Lemma string_line_loads_witness :
  exists ld' st',
    Sim.load_line (string_line 0 "hi") (Sim.mkLoader true false None EmptyString, Sim.init)
    = (ld', st')
    /\ Sim.data_strings st' !! "str0" = Some "hi".
Proof.
  destruct (string_line_loads 0 "hi" (Sim.mkLoader true false None EmptyString) Sim.init
              ltac:(lia) eq_refl eq_refl)
    as (_ & (ld' & st' & Hload & Hdata & _) & _).
  exists ld', st'. split; [exact Hload | exact Hdata].
Defined.

(** * Further properties: printing the value of an expression *)

Section PrintInt.
Import Sim.

Lemma step_move_a0 st : length (regs st) = 32%nat ->
  execute "    move $a0, $t0" st = (Ok tt, rd_write 4 (reg 8 st) st).
Proof. over_registers st. Qed.

Lemma step_print_int st : length (regs st) = 32%nat ->
  execute "    jal print_int" st
  = (Ok tt,
     with_pc (pc st + 1)
       (with_stdout (stdout st ++ Py.codes (Py.str (signed (reg 4 st)))) st)).
Proof. over_registers st. Qed.

End PrintInt.

(** X21. Printing the value of an expression. For [print_int] applied to
    an expression as in X18, with value [v], the instructions that
    [gen_expr] appends return and append to the output the decimal text
    of [v] read as a signed 32-bit number, a text that [int] reads back as
    this number; [$sp] is as before. *)
Theorem print_int_prints_value (e : expr) (rest : list expr)
    (cg cg' : CodeGen.codegen) (st : Sim.sim) (sp fp v : Z) :
  CodeGen.gen_expr (Call "print_int" (e :: rest)) cg = Ok cg' ->
  length (Sim.regs st) = 32%nat ->
  Sim.get_reg "$sp" st = (Ok sp, st) ->
  Sim.get_reg "$fp" st = (Ok fp, st) ->
  4 * Z.of_nat (stack_need e) <= sp < 0x100000000 ->
  (forall x off, CodeGen.vars cg !! x = Some off -> sp <= fp + off) ->
  eval (var_value cg st) e = Some v ->
  exists lines st',
    CodeGen.output cg' = (CodeGen.output cg ++ lines)%list
    /\ execute_all lines st = (Ok tt, st')
    /\ Sim.stdout st' = (Sim.stdout st ++ Py.codes (Py.str (to_signed32 v)))%list
    /\ Py.int (Py.str (to_signed32 v)) = Ok (to_signed32 v)
    /\ Sim.get_reg "$sp" st' = (Ok sp, st')
    /\ Sim.pc st' = Sim.pc st + Z.of_nat (length lines).
Proof.
  intros Hgen Hl Hsp Hfp Hneed Hslots Hv.
  rewrite (get_reg_sp st Hl) in Hsp. injection Hsp as Hsp.
  rewrite (get_reg_fp st Hl) in Hfp. injection Hfp as Hfp.
  assert (Hvars : forall x w, var_value cg st x = Some w ->
            exists off, CodeGen.vars cg !! x = Some off /\ reg 29 st <= fp + off
              /\ w = Z.land (Sim.read_mem_of (Sim.memory st) (fp + off)) 0xFFFFFFFF).
  { intros x w. unfold var_value.
    destruct (CodeGen.vars cg !! x) as [off |] eqn:Hoff; [| discriminate].
    intros H. injection H as <-. exists off. split; [reflexivity |].
    rewrite Hsp, Hfp. split; [exact (Hslots x off Hoff) | reflexivity]. }
  assert (Hrange : 0 <= v < 0x100000000).
  { apply (eval_range (var_value cg st) e v); [| exact Hv].
    intros x w Hx. destruct (Hvars x w Hx) as (off & _ & _ & ->). apply land_mask_range. }
  cbn [CodeGen.gen_expr] in Hgen.
  change (String.eqb "print_int" "print_int") with true in Hgen. cbv iota in Hgen.
  rewrite (gen_expr_code (var_value cg st) e cg v Hv) in Hgen.
  2: { intros x w Hx. destruct (Hvars x w Hx) as (off & Hoff & _). exists off. exact Hoff. }
  cbn [obind] in Hgen. injection Hgen as <-.
  destruct (expr_code_computes (CodeGen.vars cg) (var_value cg st) fp e st v Hv Hl Hfp
              ltac:(rewrite Hsp; exact Hneed) Hvars)
    as (s1 & X1 & L1 & T1 & SP1 & _ & _ & PC1 & O1).
  set (s2 := rd_write 4 (reg 8 s1) s1).
  assert (L2 : length (Sim.regs s2) = 32%nat)
    by (unfold s2; rewrite rd_write_length; exact L1).
  assert (A2 : reg 4 s2 = v).
  { unfold s2. rewrite reg_rd_write_eq by lia. rewrite T1.
    apply land_mask_small. exact Hrange. }
  exists (expr_code (CodeGen.vars cg) e ++ ["    move $a0, $t0"; "    jal print_int"])%list.
  eexists. split.
  { rewrite <- (output_emits
                  (expr_code (CodeGen.vars cg) e
                   ++ ["    move $a0, $t0"; "    jal print_int"]) cg), emits_app.
    reflexivity. }
  split.
  { rewrite (execute_all_app _ _ st s1 X1).
    rewrite (execute_all_step _ _ s1 _ (step_move_a0 s1 L1)). fold s2.
    rewrite (execute_all_step _ _ s2 _ (step_print_int s2 L2)). reflexivity. }
  cbn [Sim.stdout Sim.pc Sim.with_pc Sim.with_stdout].
  split.
  { rewrite A2, (signed_to_signed32 v Hrange). change (Sim.stdout s2) with (Sim.stdout s1).
    rewrite O1. reflexivity. }
  split; [apply int_str |].
  split.
  { match goal with |- Sim.get_reg _ ?s = _ => rewrite (get_reg_sp s L2) end.
    f_equal. f_equal. change (reg 29 s2 = sp). unfold s2.
    rewrite reg_rd_write_ne by lia. rewrite SP1. exact Hsp. }
  change (Sim.pc s2) with (Sim.pc s1 + 1). rewrite PC1, length_app. cbn [length]. lia.
Qed.

(** [print_int(x - y)] with 5 in [x] and 7 in [y] prints -2 *)
Lemma print_int_prints_value_witness :
  exists cg' st',
    CodeGen.gen_expr (Call "print_int" [BinOp "-" (Var "x") (Var "y")]) two_vars_state
    = Ok cg'
    /\ execute_all (CodeGen.output cg') two_vars_machine = (Ok tt, st')
    /\ Sim.stdout st' = Py.codes "-2".
Proof.
  destruct (CodeGen.gen_expr (Call "print_int" [BinOp "-" (Var "x") (Var "y")])
              two_vars_state) as [cg' | err] eqn:Hgen;
    [| vm_compute in Hgen; discriminate Hgen].
  destruct (print_int_prints_value _ _ two_vars_state cg' two_vars_machine
              0x7FFFFFE8 0x7FFFFFF0 0xFFFFFFFE Hgen eq_refl eq_refl eq_refl)
    as (lines & st' & Hout & Hx & Hstd & _).
  - cbn. lia.
  - intros x off H. unfold two_vars_state in H. cbn [CodeGen.vars] in H.
    apply lookup_insert_Some in H as [[_ <-] | [_ H]]; [lia |].
    apply lookup_insert_Some in H as [[_ <-] | [_ H]]; [lia |].
    rewrite lookup_empty in H. discriminate.
  - reflexivity.
  - exists cg', st'. split; [reflexivity |].
    split; [rewrite Hout; exact Hx | exact Hstd].
Defined.

(** * Further properties of the parser *)

Section ParserSteps.

Variable tokens : list token.

Local Abbreviation peek := (Parser.peek tokens).
Local Abbreviation peek_is := (Parser.peek_is tokens).
Local Abbreviation peek_op_in := (Parser.peek_op_in tokens).
Local Abbreviation consume := (Parser.consume tokens).
Local Abbreviation expect := (Parser.expect tokens).
Local Abbreviation name_of := Parser.name_of.
Local Abbreviation relational := Parser.relational.
Local Abbreviation parse_expression := (Parser.parse_expression tokens).
Local Abbreviation parse_comparison := (Parser.parse_comparison tokens).
Local Abbreviation comparison_loop := (Parser.comparison_loop tokens).
Local Abbreviation parse_additive := (Parser.parse_additive tokens).
Local Abbreviation additive_loop := (Parser.additive_loop tokens).
Local Abbreviation parse_multiplicative := (Parser.parse_multiplicative tokens).
Local Abbreviation multiplicative_loop := (Parser.multiplicative_loop tokens).
Local Abbreviation parse_unary := (Parser.parse_unary tokens).
Local Abbreviation parse_primary := (Parser.parse_primary tokens).
Local Abbreviation args_loop := (Parser.args_loop tokens).
Local Abbreviation parse_declaration := (Parser.parse_declaration tokens).
Local Abbreviation parse_return := (Parser.parse_return tokens).
Local Abbreviation parse_expression_statement := (Parser.parse_expression_statement tokens).
Local Abbreviation parse_statement := (Parser.parse_statement tokens).
Local Abbreviation block_loop := (Parser.block_loop tokens).
Local Abbreviation parse_body := (Parser.parse_body tokens).
Local Abbreviation parse_if := (Parser.parse_if tokens).
Local Abbreviation parse_while := (Parser.parse_while tokens).
Local Abbreviation parse_for := (Parser.parse_for tokens).
Local Abbreviation skip_params := (Parser.skip_params tokens).
Local Abbreviation parse_function := (Parser.parse_function tokens).
Local Abbreviation parse_loop := (Parser.parse_loop tokens).

(** one turn of each recursive function of the parser *)
Lemma parse_expression_step (fuel' : nat) (pos : nat) :
  parse_expression (S fuel') pos =
  (let? r := parse_comparison fuel' pos in
  let '(e, pos) := r in
  if peek_is pos OP "=" then
    let? pos := expect OP "=" pos in
    let? r := parse_expression fuel' pos in
    Some (Ok (Assign e (fst r), snd r))
  else Some (Ok (e, pos))).
Proof. reflexivity. Qed.

Lemma parse_comparison_step (fuel' : nat) (pos : nat) :
  parse_comparison (S fuel') pos =
  (let? r := parse_additive fuel' pos in
  comparison_loop fuel' (fst r) (snd r)).
Proof. reflexivity. Qed.

Lemma comparison_loop_step (fuel' : nat) (left : expr) (pos : nat) :
  comparison_loop (S fuel') left pos =
  (if peek_op_in pos relational then
    let? o := Some (consume (Some OP) None pos) in
    let? r := parse_additive fuel' (snd o) in
    comparison_loop fuel' (BinOp (name_of (fst o)) left (fst r)) (snd r)
  else Some (Ok (left, pos))).
Proof. reflexivity. Qed.

Lemma parse_additive_step (fuel' : nat) (pos : nat) :
  parse_additive (S fuel') pos =
  (let? r := parse_multiplicative fuel' pos in
  additive_loop fuel' (fst r) (snd r)).
Proof. reflexivity. Qed.

Lemma additive_loop_step (fuel' : nat) (left : expr) (pos : nat) :
  additive_loop (S fuel') left pos =
  (if peek_op_in pos ["+"; "-"] then
    let? o := Some (consume (Some OP) None pos) in
    let? r := parse_multiplicative fuel' (snd o) in
    additive_loop fuel' (BinOp (name_of (fst o)) left (fst r)) (snd r)
  else Some (Ok (left, pos))).
Proof. reflexivity. Qed.

Lemma parse_multiplicative_step (fuel' : nat) (pos : nat) :
  parse_multiplicative (S fuel') pos =
  (let? r := parse_unary fuel' pos in
  multiplicative_loop fuel' (fst r) (snd r)).
Proof. reflexivity. Qed.

Lemma multiplicative_loop_step (fuel' : nat) (left : expr) (pos : nat) :
  multiplicative_loop (S fuel') left pos =
  (if peek_op_in pos ["*"; "/"; "%"] then
    let? o := Some (consume (Some OP) None pos) in
    let? r := parse_unary fuel' (snd o) in
    multiplicative_loop fuel' (BinOp (name_of (fst o)) left (fst r)) (snd r)
  else Some (Ok (left, pos))).
Proof. reflexivity. Qed.

Lemma parse_unary_step (fuel' : nat) (pos : nat) :
  parse_unary (S fuel') pos =
  (if peek_op_in pos ["++"; "--"] then
    let? o := Some (consume (Some OP) None pos) in
    let? r := parse_primary fuel' (snd o) in
    Some (Ok (PreOp (name_of (fst o)) (fst r), snd r))
  else
    let? r := parse_primary fuel' pos in
    let '(e, pos) := r in
    if peek_op_in pos ["++"; "--"] then
      let? o := Some (consume (Some OP) None pos) in
      Some (Ok (PostOp (name_of (fst o)) e, snd o))
    else Some (Ok (e, pos))).
Proof. reflexivity. Qed.

Lemma parse_primary_step (fuel' : nat) (pos : nat) :
  parse_primary (S fuel') pos =
  (match peek pos with
  | None => Some (Raise AttributeError)
  | Some tok =>
      match type tok with
      | NUMBER =>
          let? o := Some (consume None None pos) in
          Some (Ok (Number (value tok), snd o))
      | STRING =>
          let? o := Some (consume None None pos) in
          Some (Ok (String_ (value tok), snd o))
      | IDENT =>
          let? o := Some (consume None None pos) in
          let '(name, pos) := o in
          if peek_is pos PUNCT "(" then
            let? pos := expect PUNCT "(" pos in
            let? r :=
              if negb (peek_is pos PUNCT ")") then
                let? a := parse_expression fuel' pos in
                args_loop fuel' [fst a] (snd a)
              else Some (Ok ([], pos)) in
            let? pos := expect PUNCT ")" (snd r) in
            Some (Ok (Call (name_of name) (fst r), pos))
          else Some (Ok (Var (name_of name), pos))
      | _ =>
          if token_type_eqb (type tok) PUNCT && value_is (value tok) "(" then
            let? pos := expect PUNCT "(" pos in
            let? r := parse_expression fuel' pos in
            let? pos := expect PUNCT ")" (snd r) in
            Some (Ok (fst r, pos))
          else
            Some (Raise (Exception
              ("Unexpected token: Token(" +:+ type_name (type tok) +:+ ", "
               +:+ format_value (value tok) +:+ ")")))
      end
  end).
Proof. reflexivity. Qed.

Lemma args_loop_step (fuel' : nat) (args : list expr) (pos : nat) :
  args_loop (S fuel') args pos =
  (if peek_is pos PUNCT "," then
    let? pos := expect PUNCT "," pos in
    let? a := parse_expression fuel' pos in
    args_loop fuel' (args ++ [fst a]) (snd a)
  else Some (Ok (args, pos))).
Proof. reflexivity. Qed.

Lemma parse_statement_step (fuel' : nat) (pos : nat) :
  parse_statement (S fuel') pos =
  (match peek pos with
  | None => Some (Raise AttributeError)
  | Some tok =>
      let keyword v := token_type_eqb (type tok) KEYWORD && value_is (value tok) v in
      if keyword "int" then
        let? d := parse_declaration fuel' pos in
        Some (Ok (Declaration (fst (fst d)) (snd (fst d)), snd d))
      else if keyword "if" then parse_if fuel' pos
      else if keyword "while" then parse_while fuel' pos
      else if keyword "for" then parse_for fuel' pos
      else if keyword "return" then parse_return fuel' pos
      else parse_expression_statement fuel' pos
  end).
Proof. reflexivity. Qed.

Lemma block_loop_step (fuel' : nat) (body : list stmt) (pos : nat) :
  block_loop (S fuel') body pos =
  (if negb (peek_is pos PUNCT "}") then
    let? r := parse_statement fuel' pos in
    block_loop fuel' (body ++ [fst r]) (snd r)
  else Some (Ok (body, pos))).
Proof. reflexivity. Qed.

Lemma parse_body_step (fuel' : nat) (pos : nat) :
  parse_body (S fuel') pos =
  (if peek_is pos PUNCT "{" then
    let? pos := expect PUNCT "{" pos in
    let? r := block_loop fuel' [] pos in
    let? pos := expect PUNCT "}" (snd r) in
    Some (Ok (fst r, pos))
  else
    let? r := parse_statement fuel' pos in
    Some (Ok ([fst r], snd r))).
Proof. reflexivity. Qed.

Lemma parse_if_step (fuel' : nat) (pos : nat) :
  parse_if (S fuel') pos =
  (let? pos := expect KEYWORD "if" pos in
  let? pos := expect PUNCT "(" pos in
  let? c := parse_expression fuel' pos in
  let? pos := expect PUNCT ")" (snd c) in
  let? t := parse_body fuel' pos in
  let '(then_body, pos) := t in
  if peek_is pos KEYWORD "else" then
    let? pos := expect KEYWORD "else" pos in
    let? e := parse_body fuel' pos in
    Some (Ok (If (fst c) then_body (Some (fst e)), snd e))
  else Some (Ok (If (fst c) then_body None, pos))).
Proof. reflexivity. Qed.

Lemma parse_while_step (fuel' : nat) (pos : nat) :
  parse_while (S fuel') pos =
  (let? pos := expect KEYWORD "while" pos in
  let? pos := expect PUNCT "(" pos in
  let? c := parse_expression fuel' pos in
  let? pos := expect PUNCT ")" (snd c) in
  let? b := parse_body fuel' pos in
  Some (Ok (While (fst c) (fst b), snd b))).
Proof. reflexivity. Qed.

Lemma parse_for_step (fuel' : nat) (pos : nat) :
  parse_for (S fuel') pos =
  (let? pos := expect KEYWORD "for" pos in
  let? pos := expect PUNCT "(" pos in
  let? i :=
    if negb (peek_is pos PUNCT ";") then
      match peek pos with
      | None => Some (Raise AttributeError)
      | Some tok =>
          if token_type_eqb (type tok) KEYWORD && value_is (value tok) "int" then
            let? d := parse_declaration fuel' pos in
            Some (Ok (Some (InitDeclaration (fst (fst d)) (snd (fst d))), snd d))
          else
            let? r := parse_expression fuel' pos in
            let? pos := expect PUNCT ";" (snd r) in
            Some (Ok (Some (InitExpr (fst r)), pos))
      end
    else
      let? pos := expect PUNCT ";" pos in
      Some (Ok (None, pos)) in
  let '(init, pos) := i in
  let? c :=
    if negb (peek_is pos PUNCT ";") then
      let? r := parse_expression fuel' pos in
      Some (Ok (Some (fst r), snd r))
    else Some (Ok (None, pos)) in
  let '(condition, pos) := c in
  let? pos := expect PUNCT ";" pos in
  let? u :=
    if negb (peek_is pos PUNCT ")") then
      let? r := parse_expression fuel' pos in
      Some (Ok (Some (fst r), snd r))
    else Some (Ok (None, pos)) in
  let '(update, pos) := u in
  let? pos := expect PUNCT ")" pos in
  let? b := parse_body fuel' pos in
  Some (Ok (For init condition update (fst b), snd b))).
Proof. reflexivity. Qed.

Lemma skip_params_step (fuel' : nat) (pos : nat) :
  skip_params (S fuel') pos =
  (match peek pos with
  | Some _ =>
      if negb (peek_is pos PUNCT ")") then
        let? o := Some (consume None None pos) in
        skip_params fuel' (snd o)
      else Some (Ok pos)
  | None => Some (Ok pos)
  end).
Proof. reflexivity. Qed.

Lemma parse_loop_step (fuel' : nat) (functions : list function) (pos : nat) :
  parse_loop (S fuel') functions pos =
  (if (pos <? length tokens)%nat then
    let? f := parse_function fuel' pos in
    parse_loop fuel' (functions ++ [fst f]) (snd f)
  else Some (Ok functions)).
Proof. reflexivity. Qed.

Local Abbreviation len := (length tokens).

Lemma parsed_ok {A : Type} (lo : nat) (a : A) (pos : nat) :
  (lo <= pos <= len)%nat -> parsed len lo (Some (Ok (a, pos))).
Proof.
  intros H. eexists. split; [reflexivity |].
  intros a' pos' E. injection E as _ <-. exact H.
Qed.

Lemma parsed_raise {A : Type} (lo : nat) (e : exn) :
  parsed (A := A) len lo (Some (Raise e)).
Proof. eexists. split; [reflexivity |]. intros a pos' E. discriminate E. Qed.

Lemma parsed_bind {A B : Type} (lo lo' : nat) (m : partial (A * nat))
    (k : A * nat -> partial (B * nat)) :
  parsed len lo m ->
  (forall a p, (lo <= p <= len)%nat -> parsed len lo' (k (a, p))) ->
  parsed len lo' (pbind m k).
Proof.
  intros (o & -> & Ho) Hk. destruct o as [[a p] | e]; cbn [pbind].
  - apply Hk. exact (Ho a p eq_refl).
  - apply parsed_raise.
Qed.

Lemma consume_ok et ev pos tok p :
  consume et ev pos = Ok (tok, p) -> p = (pos + 1)%nat /\ (pos < len)%nat.
Proof.
  unfold Parser.consume. destruct (tokens !! pos) as [t |] eqn:Ht; [| discriminate].
  apply lookup_lt_Some in Ht.
  destruct et as [ty |]; destruct ev as [v |];
    repeat match goal with
           | |- context [if ?b then _ else _] => destruct b
           end;
    try discriminate;
    intros H; injection H as _ <-; (split; [reflexivity | exact Ht]).
Qed.

Lemma parsed_consume {B : Type} et ev pos lo' (k : token * nat -> partial (B * nat)) :
  (forall tok, (pos < len)%nat -> parsed len lo' (k (tok, (pos + 1)%nat))) ->
  parsed len lo' (pbind (Some (consume et ev pos)) k).
Proof.
  intros Hk. destruct (consume et ev pos) as [[tok p] | e] eqn:E; cbn [pbind].
  - apply consume_ok in E as [-> Hlt]. apply Hk. exact Hlt.
  - apply parsed_raise.
Qed.

Lemma parsed_expect {B : Type} t v pos lo' (k : nat -> partial (B * nat)) :
  ((pos < len)%nat -> parsed len lo' (k (pos + 1)%nat)) ->
  parsed len lo' (pbind (expect t v pos) k).
Proof.
  intros Hk. unfold Parser.expect.
  destruct (consume (Some t) (Some v) pos) as [[tok p] | e] eqn:E; cbn [pbind].
  - apply consume_ok in E as [-> Hlt]. apply Hk. exact Hlt.
  - apply parsed_raise.
Qed.

Lemma parsed_le {A : Type} (lo lo' : nat) (r : partial (A * nat)) :
  (lo' <= lo)%nat -> parsed len lo r -> parsed len lo' r.
Proof.
  intros Hle (o & -> & Ho). exists o. split; [reflexivity |].
  intros a pos' E. specialize (Ho a pos' E). lia.
Qed.

(** the functions of the expression grammar end when the fuel is 8 for
    every token left plus a constant for the function, and a function
    that returns has read at least one token *)
Lemma expression_ends fuel :
  (forall pos, (6 + 8 * (len - pos) <= fuel)%nat ->
     parsed len (S pos) (parse_expression fuel pos))
  /\ (forall pos, (5 + 8 * (len - pos) <= fuel)%nat ->
        parsed len (S pos) (parse_comparison fuel pos))
  /\ (forall l pos, (1 + 8 * (len - pos) <= fuel)%nat -> (pos <= len)%nat ->
        parsed len pos (comparison_loop fuel l pos))
  /\ (forall pos, (4 + 8 * (len - pos) <= fuel)%nat ->
        parsed len (S pos) (parse_additive fuel pos))
  /\ (forall l pos, (1 + 8 * (len - pos) <= fuel)%nat -> (pos <= len)%nat ->
        parsed len pos (additive_loop fuel l pos))
  /\ (forall pos, (3 + 8 * (len - pos) <= fuel)%nat ->
        parsed len (S pos) (parse_multiplicative fuel pos))
  /\ (forall l pos, (1 + 8 * (len - pos) <= fuel)%nat -> (pos <= len)%nat ->
        parsed len pos (multiplicative_loop fuel l pos))
  /\ (forall pos, (2 + 8 * (len - pos) <= fuel)%nat ->
        parsed len (S pos) (parse_unary fuel pos))
  /\ (forall pos, (1 + 8 * (len - pos) <= fuel)%nat ->
        parsed len (S pos) (parse_primary fuel pos))
  /\ (forall args pos, (1 + 8 * (len - pos) <= fuel)%nat -> (pos <= len)%nat ->
        parsed len pos (args_loop fuel args pos)).
Proof.
  induction fuel as [| fuel IH]; [repeat apply conj; intros; lia |].
  destruct IH as (IHe & IHc & IHcl & IHa & IHal & IHm & IHml & IHu & IHp & IHargs).
  repeat apply conj.
  - (* parse_expression *)
    intros pos Hf. rewrite parse_expression_step.
    apply (parsed_bind (S pos)); [apply IHc; lia |]. intros e p Hp. cbv beta iota.
    destruct (peek_is p OP "="); [| apply parsed_ok; lia].
    apply parsed_expect. intros Hlt.
    apply (parsed_bind (S (p + 1))); [apply IHe; lia |]. intros r q Hq. cbn [fst snd].
    apply parsed_ok. lia.
  - (* parse_comparison *)
    intros pos Hf. rewrite parse_comparison_step.
    apply (parsed_bind (S pos)); [apply IHa; lia |]. intros r p Hp. cbn [fst snd].
    apply (parsed_le p); [lia |]. apply IHcl; lia.
  - (* comparison_loop *)
    intros l pos Hf Hle. rewrite comparison_loop_step.
    destruct (peek_op_in pos relational); [| apply parsed_ok; lia].
    apply parsed_consume. intros tok Hlt. cbn [fst snd].
    apply (parsed_bind (S (pos + 1))); [apply IHa; lia |]. intros r p Hp. cbn [fst snd].
    apply (parsed_le p); [lia |]. apply IHcl; lia.
  - (* parse_additive *)
    intros pos Hf. rewrite parse_additive_step.
    apply (parsed_bind (S pos)); [apply IHm; lia |]. intros r p Hp. cbn [fst snd].
    apply (parsed_le p); [lia |]. apply IHal; lia.
  - (* additive_loop *)
    intros l pos Hf Hle. rewrite additive_loop_step.
    destruct (peek_op_in pos ["+"; "-"]); [| apply parsed_ok; lia].
    apply parsed_consume. intros tok Hlt. cbn [fst snd].
    apply (parsed_bind (S (pos + 1))); [apply IHm; lia |]. intros r p Hp. cbn [fst snd].
    apply (parsed_le p); [lia |]. apply IHal; lia.
  - (* parse_multiplicative *)
    intros pos Hf. rewrite parse_multiplicative_step.
    apply (parsed_bind (S pos)); [apply IHu; lia |]. intros r p Hp. cbn [fst snd].
    apply (parsed_le p); [lia |]. apply IHml; lia.
  - (* multiplicative_loop *)
    intros l pos Hf Hle. rewrite multiplicative_loop_step.
    destruct (peek_op_in pos ["*"; "/"; "%"]); [| apply parsed_ok; lia].
    apply parsed_consume. intros tok Hlt. cbn [fst snd].
    apply (parsed_bind (S (pos + 1))); [apply IHu; lia |]. intros r p Hp. cbn [fst snd].
    apply (parsed_le p); [lia |]. apply IHml; lia.
  - (* parse_unary *)
    intros pos Hf. rewrite parse_unary_step.
    destruct (peek_op_in pos ["++"; "--"]).
    + apply parsed_consume. intros tok Hlt. cbn [fst snd].
      apply (parsed_bind (S (pos + 1))); [apply IHp; lia |]. intros r p Hp.
      cbn [fst snd]. apply parsed_ok. lia.
    + apply (parsed_bind (S pos)); [apply IHp; lia |]. intros e p Hp. cbv beta iota.
      destruct (peek_op_in p ["++"; "--"]); [| apply parsed_ok; lia].
      apply parsed_consume. intros tok Hlt. cbn [fst snd]. apply parsed_ok. lia.
  - (* parse_primary *)
    intros pos Hf. rewrite parse_primary_step.
    destruct (peek pos) as [tok |]; [| apply parsed_raise].
    destruct (type tok); cbn [token_type_eqb andb].
    + apply parsed_consume. intros t Hlt. cbn [fst snd]. apply parsed_ok. lia.
    + apply parsed_raise.
    + apply parsed_consume. intros name Hlt. cbv beta iota.
      destruct (peek_is (pos + 1) PUNCT "("); [| apply parsed_ok; lia].
      apply parsed_expect. intros Hlt2.
      apply (parsed_bind (pos + 1 + 1)).
      * destruct (negb (peek_is (pos + 1 + 1) PUNCT ")")); [| apply parsed_ok; lia].
        apply (parsed_bind (S (pos + 1 + 1))); [apply IHe; lia |]. intros a p Hp.
        cbn [fst snd]. apply (parsed_le p); [lia |]. apply IHargs; lia.
      * intros args p Hp. cbn [fst snd]. apply parsed_expect. intros Hlt3.
        apply parsed_ok. lia.
    + apply parsed_consume. intros t Hlt. cbn [fst snd]. apply parsed_ok. lia.
    + apply parsed_raise.
    + destruct (value_is (value tok) "("); [| apply parsed_raise].
      apply parsed_expect. intros Hlt.
      apply (parsed_bind (S (pos + 1))); [apply IHe; lia |]. intros r p Hp.
      cbn [fst snd]. apply parsed_expect. intros Hlt2. apply parsed_ok. lia.
  - (* args_loop *)
    intros args pos Hf Hle. rewrite args_loop_step.
    destruct (peek_is pos PUNCT ","); [| apply parsed_ok; lia].
    apply parsed_expect. intros Hlt.
    apply (parsed_bind (S (pos + 1))); [apply IHe; lia |]. intros a p Hp. cbn [fst snd].
    apply (parsed_le p); [lia |]. apply IHargs; lia.
Qed.

Lemma parse_expression_ends fuel pos :
  (6 + 8 * (len - pos) <= fuel)%nat -> parsed len (S pos) (parse_expression fuel pos).
Proof. exact (proj1 (expression_ends fuel) pos). Qed.

Lemma parse_declaration_ends fuel pos :
  (6 + 8 * (len - pos) <= fuel)%nat -> parsed len (S pos) (parse_declaration fuel pos).
Proof.
  intros Hf. unfold Parser.parse_declaration.
  apply parsed_expect. intros Hlt.
  apply parsed_consume. intros name Hlt2. cbv beta iota.
  destruct (peek_is (pos + 1 + 1) OP "=").
  - apply parsed_expect. intros Hlt3.
    apply (parsed_bind (S (pos + 1 + 1 + 1))); [apply parse_expression_ends; lia |].
    intros r p Hp. cbn [fst snd]. apply parsed_expect. intros Hlt4.
    apply parsed_ok. lia.
  - apply parsed_expect. intros Hlt3. apply parsed_ok. lia.
Qed.

Lemma parse_return_ends fuel pos :
  (6 + 8 * (len - pos) <= fuel)%nat -> parsed len (S pos) (parse_return fuel pos).
Proof.
  intros Hf. unfold Parser.parse_return.
  apply parsed_expect. intros Hlt.
  destruct (negb (peek_is (pos + 1) PUNCT ";")).
  - apply (parsed_bind (S (pos + 1))); [apply parse_expression_ends; lia |].
    intros r p Hp. cbn [fst snd]. apply parsed_expect. intros Hlt2.
    apply parsed_ok. lia.
  - apply parsed_expect. intros Hlt2. apply parsed_ok. lia.
Qed.

Lemma parse_expression_statement_ends fuel pos :
  (6 + 8 * (len - pos) <= fuel)%nat ->
  parsed len (S pos) (parse_expression_statement fuel pos).
Proof.
  intros Hf. unfold Parser.parse_expression_statement.
  apply (parsed_bind (S pos)); [apply parse_expression_ends; lia |].
  intros r p Hp. cbn [fst snd]. apply parsed_expect. intros Hlt.
  apply parsed_ok. lia.
Qed.

(** the same for the statements: a block or a body may be entered with 8
    more fuel than the tokens left need, a statement with 7 *)
Lemma statement_ends fuel :
  (forall pos, (7 + 8 * (len - pos) <= fuel)%nat ->
     parsed len (S pos) (parse_statement fuel pos))
  /\ (forall body pos, (8 + 8 * (len - pos) <= fuel)%nat -> (pos <= len)%nat ->
        parsed len pos (block_loop fuel body pos))
  /\ (forall pos, (8 + 8 * (len - pos) <= fuel)%nat ->
        parsed len (S pos) (parse_body fuel pos))
  /\ (forall pos, (1 + 8 * (len - pos) <= fuel)%nat ->
        parsed len (S pos) (parse_if fuel pos))
  /\ (forall pos, (1 + 8 * (len - pos) <= fuel)%nat ->
        parsed len (S pos) (parse_while fuel pos))
  /\ (forall pos, (1 + 8 * (len - pos) <= fuel)%nat ->
        parsed len (S pos) (parse_for fuel pos)).
Proof.
  induction fuel as [| fuel IH]; [repeat apply conj; intros; lia |].
  destruct IH as (IHs & IHbl & IHb & IHif & IHwh & IHfor).
  repeat apply conj.
  - (* parse_statement *)
    intros pos Hf. rewrite parse_statement_step.
    destruct (peek pos) as [tok |]; [| apply parsed_raise]. cbv beta zeta.
    destruct (token_type_eqb (type tok) KEYWORD && value_is (value tok) "int").
    { apply (parsed_bind (S pos)); [apply parse_declaration_ends; lia |].
      intros d p Hp. cbn [fst snd]. apply parsed_ok. lia. }
    destruct (token_type_eqb (type tok) KEYWORD && value_is (value tok) "if");
      [apply IHif; lia |].
    destruct (token_type_eqb (type tok) KEYWORD && value_is (value tok) "while");
      [apply IHwh; lia |].
    destruct (token_type_eqb (type tok) KEYWORD && value_is (value tok) "for");
      [apply IHfor; lia |].
    destruct (token_type_eqb (type tok) KEYWORD && value_is (value tok) "return");
      [apply parse_return_ends; lia |].
    apply parse_expression_statement_ends. lia.
  - (* block_loop *)
    intros body pos Hf Hle. rewrite block_loop_step.
    destruct (negb (peek_is pos PUNCT "}")); [| apply parsed_ok; lia].
    apply (parsed_bind (S pos)); [apply IHs; lia |]. intros r p Hp. cbn [fst snd].
    apply (parsed_le p); [lia |]. apply IHbl; lia.
  - (* parse_body *)
    intros pos Hf. rewrite parse_body_step.
    destruct (peek_is pos PUNCT "{").
    + apply parsed_expect. intros Hlt.
      apply (parsed_bind (pos + 1)); [apply IHbl; lia |]. intros r p Hp.
      cbn [fst snd]. apply parsed_expect. intros Hlt2. apply parsed_ok. lia.
    + apply (parsed_bind (S pos)); [apply IHs; lia |]. intros r p Hp.
      cbn [fst snd]. apply parsed_ok. lia.
  - (* parse_if *)
    intros pos Hf. rewrite parse_if_step.
    apply parsed_expect. intros Hlt. apply parsed_expect. intros Hlt2.
    apply (parsed_bind (S (pos + 1 + 1))); [apply parse_expression_ends; lia |].
    intros c p Hp. cbn [fst snd]. apply parsed_expect. intros Hlt3.
    apply (parsed_bind (S (p + 1))); [apply IHb; lia |].
    intros then_body q Hq. cbv beta iota.
    destruct (peek_is q KEYWORD "else"); [| apply parsed_ok; lia].
    apply parsed_expect. intros Hlt4.
    apply (parsed_bind (S (q + 1))); [apply IHb; lia |].
    intros e r Hr. cbn [fst snd]. apply parsed_ok. lia.
  - (* parse_while *)
    intros pos Hf. rewrite parse_while_step.
    apply parsed_expect. intros Hlt. apply parsed_expect. intros Hlt2.
    apply (parsed_bind (S (pos + 1 + 1))); [apply parse_expression_ends; lia |].
    intros c p Hp. cbn [fst snd]. apply parsed_expect. intros Hlt3.
    apply (parsed_bind (S (p + 1))); [apply IHb; lia |].
    intros b q Hq. cbn [fst snd]. apply parsed_ok. lia.
  - (* parse_for *)
    intros pos Hf. rewrite parse_for_step.
    apply parsed_expect. intros Hlt. apply parsed_expect. intros Hlt2.
    apply (parsed_bind (S (pos + 1 + 1))).
    { destruct (negb (peek_is (pos + 1 + 1) PUNCT ";")).
      - destruct (peek (pos + 1 + 1)) as [tok |]; [| apply parsed_raise].
        destruct (token_type_eqb (type tok) KEYWORD && value_is (value tok) "int").
        + apply (parsed_bind (S (pos + 1 + 1))); [apply parse_declaration_ends; lia |].
          intros d p Hp. cbn [fst snd]. apply parsed_ok. lia.
        + apply (parsed_bind (S (pos + 1 + 1))); [apply parse_expression_ends; lia |].
          intros r p Hp. cbn [fst snd]. apply parsed_expect. intros Hlt3.
          apply parsed_ok. lia.
      - apply parsed_expect. intros Hlt3. apply parsed_ok. lia. }
    intros init p Hp. cbv beta iota.
    apply (parsed_bind p).
    { destruct (negb (peek_is p PUNCT ";")); [| apply parsed_ok; lia].
      apply (parsed_bind (S p)); [apply parse_expression_ends; lia |].
      intros r q Hq. cbn [fst snd]. apply parsed_ok. lia. }
    intros condition q Hq. cbv beta iota.
    apply parsed_expect. intros Hlt3.
    apply (parsed_bind (q + 1)).
    { destruct (negb (peek_is (q + 1) PUNCT ")")); [| apply parsed_ok; lia].
      apply (parsed_bind (S (q + 1))); [apply parse_expression_ends; lia |].
      intros r z Hz. cbn [fst snd]. apply parsed_ok. lia. }
    intros update z Hz. cbv beta iota.
    apply parsed_expect. intros Hlt4.
    apply (parsed_bind (S (z + 1))); [apply IHb; lia |].
    intros b y Hy. cbn [fst snd]. apply parsed_ok. lia.
Qed.

Lemma skip_params_ends fuel : forall pos,
  (len - pos < fuel)%nat -> (pos <= len)%nat ->
  exists o, skip_params fuel pos = Some o
            /\ forall p, o = Ok p -> (pos <= p <= len)%nat.
Proof.
  induction fuel as [| fuel IH]; intros pos Hf Hle; [lia |].
  rewrite skip_params_step.
  destruct (peek pos) as [tok |];
    [| exists (Ok pos); split; [reflexivity | intros p [= <-]; lia]].
  destruct (negb (peek_is pos PUNCT ")"));
    [| exists (Ok pos); split; [reflexivity | intros p [= <-]; lia]].
  destruct (consume None None pos) as [[t p'] | e] eqn:E; cbn [pbind snd].
  - apply consume_ok in E as [-> Hlt].
    destruct (IH (pos + 1)%nat) as (o & Eo & Ho); [lia | lia |].
    exists o. split; [exact Eo |]. intros p Hp. specialize (Ho p Hp). lia.
  - exists (Raise e). split; [reflexivity | discriminate].
Qed.

Lemma parse_function_ends fuel pos :
  (8 + 8 * (len - pos) <= fuel)%nat -> parsed len (S pos) (parse_function fuel pos).
Proof.
  intros Hf. unfold Parser.parse_function.
  apply parsed_consume. intros rt Hlt. cbn [fst snd].
  apply parsed_consume. intros n Hlt2. cbn [fst snd].
  apply parsed_expect. intros Hlt3.
  destruct (skip_params_ends fuel (pos + 1 + 1 + 1)) as (o & -> & Ho); [lia | lia |].
  destruct o as [p | e]; cbn [pbind]; [| apply parsed_raise].
  specialize (Ho p eq_refl).
  apply parsed_expect. intros Hlt4. apply parsed_expect. intros Hlt5.
  apply (parsed_bind (p + 1 + 1)); [apply (statement_ends fuel); lia |].
  intros b q Hq. cbn [fst snd]. apply parsed_expect. intros Hlt6.
  apply parsed_ok. lia.
Qed.

Lemma parse_loop_ends fuel : forall functions pos,
  (9 + 8 * (len - pos) <= fuel)%nat -> (pos <= len)%nat ->
  exists r, parse_loop fuel functions pos = Some r.
Proof.
  induction fuel as [| fuel IH]; intros functions pos Hf Hle; [lia |].
  rewrite parse_loop_step.
  destruct (pos <? len)%nat; [| eexists; reflexivity].
  destruct (parse_function_ends fuel pos) as (o & -> & Ho); [lia |].
  destruct o as [[f p] | e]; cbn [pbind fst snd]; [| eexists; reflexivity].
  specialize (Ho f p eq_refl). apply IH; lia.
Qed.

End ParserSteps.

(** X22. The parser ends. Every loop and every recursive call of the
    parser is entered with a token read since the loop or the function of
    the same name was last entered, so for every list of tokens [parse]
    returns or raises: a budget of 8 steps for each token, and 9 more, is
    never used up. *)
Theorem parse_terminates (tokens : list token) (fuel : nat) :
  (9 + 8 * length tokens <= fuel)%nat ->
  exists r, Parser.parse tokens fuel = Some r.
Proof.
  intros Hf. unfold Parser.parse.
  destruct (parse_loop_ends tokens fuel [] 0%nat) as [r ->]; [lia | lia |].
  destruct r; eexists; reflexivity.
Qed.

Lemma parse_terminates_witness :
  (9 + 8 * length return_tokens <= 81)%nat
  /\ exists r, Parser.parse return_tokens 81 = Some r.
Proof.
  split; [cbn [length return_tokens]; lia |].
  apply parse_terminates. cbn [length return_tokens]. lia.
Defined.

(** * Further properties: the compiler as a whole *)







(** * Further properties: the increment operators *)

Section Increment.
Import Sim.

Lemma step_increment op st : length (regs st) = 32%nat ->
  execute (if String.eqb op "++" then "    addi $t0, $t0, 1" else "    addi $t0, $t0, -1") st
  = (Ok tt, rd_write 8 (reg 8 st + increment op) st).
Proof. unfold increment. destruct (String.eqb op "++"); over_registers st. Qed.

Lemma step_move_t2 st : length (regs st) = 32%nat ->
  execute "    move $t2, $t0" st = (Ok tt, rd_write 10 (reg 8 st) st).
Proof. over_registers st. Qed.

Lemma step_move_back st : length (regs st) = 32%nat ->
  execute "    move $t0, $t2" st = (Ok tt, rd_write 8 (reg 10 st) st).
Proof. over_registers st. Qed.

Lemma var_value_rd_write cg d v st x :
  d <> 30%nat -> var_value cg (rd_write d v st) x = var_value cg st x.
Proof.
  intros Hd. unfold var_value. rewrite (reg_rd_write_ne d 30 v st Hd), memory_rd_write.
  reflexivity.
Qed.

Lemma var_value_stored cg st x off v :
  CodeGen.vars cg !! x = Some off ->
  var_value cg (mem_write (reg 30 st + off) v st) x = Some (Z.land v 0xFFFFFFFF).
Proof.
  intros Hx. unfold var_value. rewrite Hx, reg_mem_write.
  change (memory (mem_write (reg 30 st + off) v st))
    with (write_mem_of (memory st) (reg 30 st + off) v).
  rewrite read_write_mem_of, land_mask_twice. reflexivity.
Qed.

Lemma var_value_other cg st off v y oy :
  CodeGen.vars cg !! y = Some oy -> off + 4 <= oy \/ oy + 4 <= off ->
  var_value cg (mem_write (reg 30 st + off) v st) y = var_value cg st y.
Proof.
  intros Hy Hapart. unfold var_value. rewrite Hy, reg_mem_write.
  change (memory (mem_write (reg 30 st + off) v st))
    with (write_mem_of (memory st) (reg 30 st + off) v).
  rewrite read_mem_of_write_other by lia. reflexivity.
Qed.

End Increment.

(** X24. The increment operators. For a declared variable [x] whose slot
    holds [w], the instructions that [gen_expr] emits for [++x] and [--x],
    and those for [x++] and [x--], return; both leave [w + 1] or [w - 1],
    modulo 2^32, in the slot of [x], the first with this new value in
    [$t0] and the second with the old value [w]. A variable whose offset
    is at least 4 away keeps its value. *)
Theorem increment_operators (cg : CodeGen.codegen) (x op : string) (off : Z)
    (st : Sim.sim) (w : Z) :
  CodeGen.vars cg !! x = Some off ->
  length (Sim.regs st) = 32%nat ->
  var_value cg st x = Some w ->
  exists pre post st1 st2,
    CodeGen.gen_expr (PreOp op (Var x)) cg = Ok (CodeGen.emits pre cg)
    /\ CodeGen.gen_expr (PostOp op (Var x)) cg = Ok (CodeGen.emits post cg)
    /\ execute_all pre st = (Ok tt, st1)
    /\ execute_all post st = (Ok tt, st2)
    /\ Sim.get_reg "$t0" st1 = (Ok ((w + increment op) mod 0x100000000), st1)
    /\ Sim.get_reg "$t0" st2 = (Ok w, st2)
    /\ var_value cg st1 x = Some ((w + increment op) mod 0x100000000)
    /\ var_value cg st2 x = Some ((w + increment op) mod 0x100000000)
    /\ (forall y oy,
          CodeGen.vars cg !! y = Some oy -> off + 4 <= oy \/ oy + 4 <= off ->
          var_value cg st1 y = var_value cg st y
          /\ var_value cg st2 y = var_value cg st y).
Proof.
  intros Hx Hl Hw. unfold var_value in Hw. rewrite Hx in Hw. injection Hw as Hw.
  set (load := "    lw $t0, " +:+ Py.str off +:+ "($fp)").
  set (store := "    sw $t0, " +:+ Py.str off +:+ "($fp)").
  set (inc := if String.eqb op "++" then "    addi $t0, $t0, 1"
              else "    addi $t0, $t0, -1").
  set (s1 := rd_write 8 (Sim.read_mem_of (Sim.memory st) (reg 30 st + off)) st).
  set (s2 := rd_write 8 (reg 8 s1 + increment op) s1).
  set (s3 := mem_write (reg 30 s2 + off) (reg 8 s2) s2).
  set (p2 := rd_write 10 (reg 8 s1) s1).
  set (p3 := rd_write 8 (reg 8 p2 + increment op) p2).
  set (p4 := mem_write (reg 30 p3 + off) (reg 8 p3) p3).
  set (p5 := rd_write 8 (reg 10 p4) p4).
  assert (Hl1 : length (Sim.regs s1) = 32%nat) by (unfold s1; rewrite rd_write_length; exact Hl).
  assert (Hl2 : length (Sim.regs s2) = 32%nat) by (unfold s2; rewrite rd_write_length; exact Hl1).
  assert (Hl3 : length (Sim.regs s3) = 32%nat) by exact Hl2.
  assert (Hq2 : length (Sim.regs p2) = 32%nat) by (unfold p2; rewrite rd_write_length; exact Hl1).
  assert (Hq3 : length (Sim.regs p3) = 32%nat) by (unfold p3; rewrite rd_write_length; exact Hq2).
  assert (Hq4 : length (Sim.regs p4) = 32%nat) by exact Hq3.
  assert (Hq5 : length (Sim.regs p5) = 32%nat) by (unfold p5; rewrite rd_write_length; exact Hq4).
  assert (R1 : reg 8 s1 = w).
  { unfold s1. rewrite reg_rd_write_eq by (rewrite Hl; lia). exact Hw. }
  assert (R2 : reg 8 s2 = (w + increment op) mod 0x100000000).
  { unfold s2. rewrite reg_rd_write_eq by (rewrite Hl1; lia). rewrite R1. apply land_mask_mod. }
  assert (Q2 : reg 10 p2 = w).
  { unfold p2. rewrite reg_rd_write_eq by (rewrite Hl1; lia). rewrite R1, <- Hw.
    apply land_mask_twice. }
  assert (Q3 : reg 8 p3 = (w + increment op) mod 0x100000000).
  { unfold p3. rewrite reg_rd_write_eq by (rewrite Hq2; lia).
    unfold p2 at 1. rewrite reg_rd_write_ne by lia. rewrite R1. apply land_mask_mod. }
  assert (Hrange : 0 <= w < 0x100000000) by (rewrite <- Hw; apply land_mask_range).
  assert (Hnew : Z.land ((w + increment op) mod 0x100000000) 0xFFFFFFFF
                 = (w + increment op) mod 0x100000000).
  { apply land_mask_small. apply Z.mod_pos_bound. lia. }
  exists [load; inc; store], [load; "    move $t2, $t0"; inc; store; "    move $t0, $t2"], s3, p5.
  split.
  { cbn [CodeGen.gen_expr CodeGen.node_name obind]. unfold CodeGen.var_offset.
    rewrite Hx. cbn [obind]. unfold inc. destruct (String.eqb op "++"); reflexivity. }
  split.
  { cbn [CodeGen.gen_expr CodeGen.node_name obind]. unfold CodeGen.var_offset.
    rewrite Hx. cbn [obind]. unfold inc. destruct (String.eqb op "++"); reflexivity. }
  split.
  { rewrite (execute_all_step _ _ st _ (execute_load off st Hl)). fold s1.
    rewrite (execute_all_step _ _ s1 _ (step_increment op s1 Hl1)). fold s2.
    rewrite (execute_all_step _ _ s2 _ (execute_store off s2 Hl2)). reflexivity. }
  split.
  { rewrite (execute_all_step _ _ st _ (execute_load off st Hl)). fold s1.
    rewrite (execute_all_step _ _ s1 _ (step_move_t2 s1 Hl1)). fold p2.
    rewrite (execute_all_step _ _ p2 _ (step_increment op p2 Hq2)). fold p3.
    rewrite (execute_all_step _ _ p3 _ (execute_store off p3 Hq3)). fold p4.
    rewrite (execute_all_step _ _ p4 _ (step_move_back p4 Hq4)). reflexivity. }
  split.
  { rewrite (get_reg_t0 s3 Hl3). unfold s3. rewrite reg_mem_write, R2. reflexivity. }
  split.
  { rewrite (get_reg_t0 p5 Hq5). unfold p5. rewrite reg_rd_write_eq by (rewrite Hq4; lia).
    unfold p4. rewrite reg_mem_write. unfold p3. rewrite reg_rd_write_ne by lia.
    rewrite Q2. rewrite (land_mask_small w Hrange). reflexivity. }
  split.
  { unfold s3. rewrite (var_value_stored cg s2 x off _ Hx), R2, Hnew. reflexivity. }
  split.
  { unfold p5. rewrite var_value_rd_write by lia. unfold p4.
    rewrite (var_value_stored cg p3 x off _ Hx), Q3, Hnew. reflexivity. }
  intros y oy Hy Hapart. split.
  - unfold s3. rewrite (var_value_other cg s2 off _ y oy Hy Hapart).
    unfold s2. rewrite var_value_rd_write by lia.
    unfold s1. rewrite var_value_rd_write by lia. reflexivity.
  - unfold p5. rewrite var_value_rd_write by lia.
    unfold p4. rewrite (var_value_other cg p3 off _ y oy Hy Hapart).
    unfold p3. rewrite var_value_rd_write by lia.
    unfold p2. rewrite var_value_rd_write by lia.
    unfold s1. rewrite var_value_rd_write by lia. reflexivity.
Qed.

(** [x++] with 5 in [x]: 5 in [$t0] and 6 in [x] *)
Lemma increment_operators_witness :
  exists post st2,
    CodeGen.gen_expr (PostOp "++" (Var "x")) two_vars_state
    = Ok (CodeGen.emits post two_vars_state)
    /\ execute_all post two_vars_machine = (Ok tt, st2)
    /\ Sim.get_reg "$t0" st2 = (Ok 5, st2)
    /\ var_value two_vars_state st2 "x" = Some 6.
Proof.
  destruct (increment_operators two_vars_state "x" "++" (-4) two_vars_machine 5
              eq_refl eq_refl eq_refl)
    as (pre & post & st1 & st2 & _ & Hgen & _ & Hrun & _ & Ht0 & _ & Hx & _).
  exists post, st2. split; [exact Hgen |]. split; [exact Hrun |].
  split; [exact Ht0 | exact Hx].
Defined.
